(** * kitAtlas: the glyph cache, its page packer and its batch scheduler

    A shallow embedding of [Page] (page.ts), [VariantAtlas]
    (variant-atlas.ts), [FontAtlas] (font-atlas.ts) and of the helpers of
    types.ts, followed by the properties of the specification that are
    stated about them.

    Conventions of the embedding.
    - JavaScript numbers that hold pixel counts, code points and sizes are
      integers ([Z]); plane bounds, advances and UV coordinates are
      rationals ([Q]).
    - A [Uint8Array] is a [list Z] of bytes.  Reading past its end yields
      [undefined], which a typed array stores as [0]; writing past its end
      (or at a negative index) is ignored.
    - Objects that the source mutates in place are threaded explicitly: a
      method returns its result together with the new state of its receiver.
      A page handed out by [getOrCreatePage] is a reference ([PageRef]) into
      the atlas, so that the later [tryAdd] mutates the page the atlas holds.
    - [throw] is a [Result]: the state reached at the throw is returned with
      it, as the mutations made before a JavaScript exception persist.
    - [Date.now()] time stamps ([lastAccessed]) are not modelled. *)

From Stdlib Require Import ZArith QArith Qround Lia Bool.
From stdpp Require Import base option list gmap strings pretty.

Local Open Scope Z_scope.

(** ** Typed arrays *)

Abbreviation Uint8Array := (list Z).

(** [new Uint8Array(n)]: [n] zero bytes. *)
Definition Uint8Array_new (n : Z) : Uint8Array := repeat 0 (Z.to_nat n).

(** [a[i]] read from a typed array and stored into another one. *)
Definition Uint8Array_get (a : Uint8Array) (i : Z) : Z :=
  if i <? 0 then 0 else default 0 (a !! Z.to_nat i).

(** [a[i] = v]. *)
Definition Uint8Array_set (a : Uint8Array) (i : Z) (v : Z) : Uint8Array :=
  if i <? 0 then a else <[Z.to_nat i := v]> a.

(** The values taken by [for (let k = 0; k < n; k++)]. *)
Definition upto (n : Z) : list Z := Z.of_nat <$> seq 0 (Z.to_nat n).

(** ** The texture backend (types.ts, [TextureFactory<T>])

    The backend is supplied by the client.  [T] is the type of its texture
    handles and [F] the state of the backend itself. *)

Class TextureFactory (T F : Type) := {
  create : Z -> Z -> Uint8Array -> F -> T * F;
  update : T -> Uint8Array -> F -> F;
  destroy : T -> F -> F
}.

(** A backend that numbers its textures in creation order and logs the
    handles it is asked to upload. *)
Record CountingBackend := {
  created : nat;
  uploads : list nat;
  destroyed : list nat
}.

#[export] Instance countingFactory : TextureFactory nat CountingBackend := {
  create _ _ _ f :=
    (created f,
     {| created := S (created f); uploads := uploads f; destroyed := destroyed f |});
  update t _ f :=
    {| created := created f; uploads := uploads f ++ [t]; destroyed := destroyed f |};
  destroy t f :=
    {| created := created f; uploads := uploads f; destroyed := destroyed f ++ [t] |}
}.

(** ** Page (page.ts): the row-shelf packer *)

Module Page.

Record t (T : Type) := mk {
  width : Z;
  height : Z;
  buffer : Uint8Array;
  texture : T;
  cursorX : Z;
  cursorY : Z;
  rowHeight : Z;
  dirty : bool
}.
Arguments mk {T}.
Arguments width {T}.
Arguments height {T}.
Arguments buffer {T}.
Arguments texture {T}.
Arguments cursorX {T}.
Arguments cursorY {T}.
Arguments rowHeight {T}.
Arguments dirty {T}.

(** [private padding: number = 1] *)
Definition padding : Z := 1.

Section Methods.
Context {T F : Type} `{TextureFactory T F}.

(** [constructor(width, height, textureFactory)] *)
Definition new (w h : Z) (f : F) : t T * F :=
  let buf := Uint8Array_new (w * h * 4) in
  let '(tex, f') := create w h buf f in
  (mk w h buf tex 0 0 0 false, f').

(** The inner loop of the blit: one source row copied byte by byte. *)
Definition blitRow (pixels : Uint8Array) (w h x y W : Z)
    (buf : Uint8Array) (row : Z) : Uint8Array :=
  let srcOffset := row * w * 4 in
  let dstRow := h - 1 - row in
  let dstOffset := ((y + dstRow) * W + x) * 4 in
  fold_left
    (fun b col =>
       Uint8Array_set b (dstOffset + col) (Uint8Array_get pixels (srcOffset + col)))
    (upto (w * 4)) buf.

(** The outer loop of the blit. *)
Definition blit (pixels : Uint8Array) (w h x y W : Z) (buf : Uint8Array)
    : Uint8Array :=
  fold_left (blitRow pixels w h x y W) (upto h) buf.

(** The first [if] of [tryAdd]: move to the next shelf row. *)
Definition advanceRow (w : Z) (p : t T) : t T :=
  if cursorX p + (w + padding) >? width p
  then mk (width p) (height p) (buffer p) (texture p)
          0 (cursorY p + (rowHeight p + padding)) 0 (dirty p)
  else p.

(** [tryAdd(pixels, w, h)]: the position, or [None] for [null], and the
    page as the call leaves it. *)
Definition tryAdd (pixels : Uint8Array) (w h : Z) (p : t T)
    : option (Z * Z) * t T :=
  let paddedW := w + padding in
  let paddedH := h + padding in
  let p1 := advanceRow w p in
  if cursorY p1 + paddedH >? height p1 then (None, p1)
  else
    let x := cursorX p1 in
    let y := cursorY p1 in
    let buf := blit pixels w h x y (width p1) (buffer p1) in
    (Some (x, y),
     mk (width p1) (height p1) buf (texture p1)
        (cursorX p1 + paddedW) (cursorY p1)
        (Z.max (rowHeight p1) paddedH) true).

(** [flush()] *)
Definition flush (p : t T) (f : F) : t T * F :=
  if dirty p
  then (mk (width p) (height p) (buffer p) (texture p)
           (cursorX p) (cursorY p) (rowHeight p) false,
        update (texture p) (buffer p) f)
  else (p, f).

(** [destroy()] *)
Definition destroyPage (p : t T) (f : F) : F := destroy (texture p) f.

End Methods.
End Page.

(** ** Shared records (types.ts) *)

(** A JavaScript number produced by a division: the quotient, or one of
    the values a zero divisor gives. *)
Inductive number :=
  | Num (q : Q)
  | NaN
  | PosInfinity
  | NegInfinity.

(** [a / b] on integers, the quotient in lowest terms. *)
Definition js_div (a b : Z) : number :=
  if b =? 0 then
    (if a =? 0 then NaN else if 0 <? a then PosInfinity else NegInfinity)
  else Num (Qred (inject_Z a / inject_Z b)).

Module PlaneBounds.
Record bounds := mk { l : Q; b : Q; r : Q; t : Q }.
End PlaneBounds.

Module GlyphMetrics.
Record t := mk {
  width : Z;
  height : Z;
  advance : Q;
  xOffset : Q;
  yOffset : Q;
  planeBounds : PlaneBounds.bounds
}.
End GlyphMetrics.

(** The [page] field of a glyph location: [{ texture, width, height }]. *)
Module LocationPage.
Record t (T : Type) := mk { texture : T; width : Z; height : Z }.
Arguments mk {T}.
Arguments texture {T}.
Arguments width {T}.
Arguments height {T}.
End LocationPage.

Module GlyphLocation.
Record t (T : Type) := mk {
  page : LocationPage.t T;
  x : Z;
  y : Z;
  width : Z;
  height : Z;
  metrics : GlyphMetrics.t;
  empty : bool;
  missing : bool
}.
Arguments mk {T}.
Arguments page {T}.
Arguments x {T}.
Arguments y {T}.
Arguments width {T}.
Arguments height {T}.
Arguments metrics {T}.
Arguments empty {T}.
Arguments missing {T}.
End GlyphLocation.

Module UVs.
Record t := mk { u0 : number; v0 : number; u1 : number; v1 : number }.
End UVs.

Module GlyphInfo.
Record t (T : Type) := mk {
  texture : T;
  uvs : UVs.t;
  metrics : GlyphMetrics.t;
  genSize : option Z;
  cached : bool;
  empty : bool;
  missing : bool
}.
Arguments mk {T}.
Arguments texture {T}.
Arguments uvs {T}.
Arguments metrics {T}.
Arguments genSize {T}.
Arguments cached {T}.
Arguments empty {T}.
Arguments missing {T}.
End GlyphInfo.

Module AtlasConfig.
Record t := mk {
  genSizes : list Z;
  sizeThresholds : list Z;
  pageSize : Z;
  maxMixedPages : Z;
  pixelRange : Z
}.
End AtlasConfig.

(** [Partial<AtlasConfig>]: a field is [None] when the object does not
    have the property. *)
Module PartialConfig.
Record t := mk {
  genSizes : option (list Z);
  sizeThresholds : option (list Z);
  pageSize : option Z;
  maxMixedPages : option Z;
  pixelRange : option Z
}.
End PartialConfig.

Definition DEFAULT_CONFIG : AtlasConfig.t :=
  AtlasConfig.mk [32; 64; 128] [40; 80] 1024 8 4.

(** [{ ...DEFAULT_CONFIG, ...config }] *)
Definition mergeConfig (config : option PartialConfig.t) : AtlasConfig.t :=
  match config with
  | None => DEFAULT_CONFIG
  | Some c =>
      AtlasConfig.mk
        (default (AtlasConfig.genSizes DEFAULT_CONFIG) (PartialConfig.genSizes c))
        (default (AtlasConfig.sizeThresholds DEFAULT_CONFIG)
                 (PartialConfig.sizeThresholds c))
        (default (AtlasConfig.pageSize DEFAULT_CONFIG) (PartialConfig.pageSize c))
        (default (AtlasConfig.maxMixedPages DEFAULT_CONFIG)
                 (PartialConfig.maxMixedPages c))
        (default (AtlasConfig.pixelRange DEFAULT_CONFIG) (PartialConfig.pixelRange c))
  end.

Definition LATIN_RANGES : list (Z * Z) :=
  [(0x30, 0x39); (0x41, 0x5A); (0x61, 0x7A)].

Definition isLatinChar (codePoint : Z) : bool :=
  existsb (fun '(start, end_) => (start <=? codePoint) && (codePoint <=? end_))
          LATIN_RANGES.

(** The module-level loop that fills [LATIN_CODEPOINTS]. *)
Definition LATIN_CODEPOINTS : list Z :=
  concat ((fun '(start, end_) => (fun k => start + k) <$> upto (end_ - start + 1))
            <$> LATIN_RANGES).

(** ** VariantAtlas (variant-atlas.ts) *)

Definition PLACEHOLDER_METRICS : GlyphMetrics.t :=
  GlyphMetrics.mk 0 0 0%Q 0%Q 0%Q (PlaneBounds.mk 0%Q 0%Q 0%Q 0%Q).

(** What a [throw new Error(...)] of the atlas carries. *)
Inductive Error :=
  | LatinPageFull
  | FreshPageCantFit (w h : Z).

Inductive Result (A : Type) :=
  | Ok (a : A)
  | Throw (e : Error).
Arguments Ok {A}.
Arguments Throw {A}.

(** A reference to a page object owned by a variant atlas. *)
Inductive PageRef :=
  | LatinRef
  | MixedRef (i : nat).

(** The first element a [for ... of] loop returns on, with its position. *)
Fixpoint findFirst {A : Type} (f : A -> bool) (l : list A) : option (nat * A) :=
  match l with
  | [] => None
  | a :: l' =>
      if f a then Some (O, a)
      else (fun '(i, b) => (S i, b)) <$> findFirst f l'
  end.

Module VariantAtlas.

Record t (T : Type) := mk {
  variantId : string;
  genSize : option Z;
  latinPage : option (Page.t T);
  mixedPages : list (Page.t T);
  glyphIndex : gmap Z (GlyphLocation.t T);
  pendingGlyphs : gset Z;
  pageSize : Z;
  maxMixedPages : Z;
  warnings : nat
}.
Arguments mk {T}.
Arguments variantId {T}.
Arguments genSize {T}.
Arguments latinPage {T}.
Arguments mixedPages {T}.
Arguments glyphIndex {T}.
Arguments pendingGlyphs {T}.
Arguments pageSize {T}.
Arguments maxMixedPages {T}.
Arguments warnings {T}.

Section Methods.
Context {T F : Type} `{TextureFactory T F}.

(** [constructor(variantId, genSize, pageSize, maxMixedPages, textureFactory)];
    [genSize] is [None] when the caller passes [undefined]. *)
Definition new (variantId : string) (genSize : option Z)
    (pageSize maxMixedPages : Z) : t T :=
  mk variantId genSize None [] ∅ ∅ pageSize maxMixedPages O.

Definition setPages (va : t T) (lp : option (Page.t T))
    (mp : list (Page.t T)) (w : nat) : t T :=
  mk (variantId va) (genSize va) lp mp (glyphIndex va) (pendingGlyphs va)
     (pageSize va) (maxMixedPages va) w.

Definition setIndex (va : t T) (idx : gmap Z (GlyphLocation.t T))
    (pend : gset Z) : t T :=
  mk (variantId va) (genSize va) (latinPage va) (mixedPages va) idx pend
     (pageSize va) (maxMixedPages va) (warnings va).

(** The page object behind a reference. *)
Definition getPage (ref : PageRef) (va : t T) : option (Page.t T) :=
  match ref with
  | LatinRef => latinPage va
  | MixedRef i => mixedPages va !! i
  end.

(** In-place mutation of the page behind a reference: the atlas sees
    what a method did to the page it handed out. *)
Definition setPage (ref : PageRef) (p : Page.t T) (va : t T) : t T :=
  match ref with
  | LatinRef => setPages va (Some p) (mixedPages va) (warnings va)
  | MixedRef i => setPages va (latinPage va) (<[i := p]> (mixedPages va)) (warnings va)
  end.

(** [getGlyph(codePoint)] *)
Definition getGlyph (codePoint : Z) (va : t T) : option (GlyphLocation.t T) :=
  if bool_decide (codePoint ∈ pendingGlyphs va) then None
  else glyphIndex va !! codePoint.

(** [createMixedPage()]; the [console.warn] is counted in [warnings]. *)
Definition createMixedPage (va : t T) (f : F) : PageRef * Page.t T * t T * F :=
  let w := if Z.of_nat (length (mixedPages va)) >=? maxMixedPages va
           then S (warnings va) else warnings va in
  let '(page, f') := Page.new (pageSize va) (pageSize va) f in
  (MixedRef (length (mixedPages va)), page,
   setPages va (latinPage va) (mixedPages va ++ [page]) w, f').

(** [page.cursorY + glyphHeight <= page.height]; with [glyphHeight]
    undefined the sum is NaN and the comparison false. *)
Definition hasRoom (glyphHeight : option Z) (page : Page.t T) : bool :=
  match glyphHeight with
  | Some g => Page.cursorY page + g <=? Page.height page
  | None => false
  end.

(** [getOrCreatePage(isLatin, glyphHeight)]: the page, and where the
    atlas keeps it. *)
Definition getOrCreatePage (isLatin : bool) (glyphHeight : option Z)
    (va : t T) (f : F) : PageRef * Page.t T * t T * F :=
  if isLatin then
    match latinPage va with
    | None =>
        let '(page, f') := Page.new (pageSize va) (pageSize va) f in
        (LatinRef, page,
         setPages va (Some page) (mixedPages va) (warnings va), f')
    | Some page => (LatinRef, page, va, f)
    end
  else
    match findFirst (hasRoom glyphHeight) (mixedPages va) with
    | Some (i, page) => (MixedRef i, page, va, f)
    | None => createMixedPage va f
    end.

(** [{ texture: page.texture, width: page.width, height: page.height }] *)
Definition pageOf (page : Page.t T) : LocationPage.t T :=
  LocationPage.mk (Page.texture page) (Page.width page) (Page.height page).

(** [reserveGlyph(codePoint)] *)
Definition reserveGlyph (codePoint : Z) (va : t T) (f : F)
    : GlyphLocation.t T * t T * F :=
  let isLatin := isLatinChar codePoint in
  let '(ref, page, va1, f1) := getOrCreatePage isLatin (genSize va) va f in
  let location :=
    GlyphLocation.mk (pageOf page) 0 0 0 0 PLACEHOLDER_METRICS false false in
  (location,
   setIndex va1 (<[codePoint := location]> (glyphIndex va1))
            ({[codePoint]} ∪ pendingGlyphs va1),
   f1).

(** [updateGlyphLocation(codePoint, page, pos, metrics)] *)
Definition updateGlyphLocation (codePoint : Z) (page : Page.t T)
    (pos : Z * Z) (metrics : GlyphMetrics.t) (va : t T) : t T :=
  let idx :=
    match glyphIndex va !! codePoint with
    | Some _ =>
        <[codePoint :=
            GlyphLocation.mk (pageOf page) (fst pos) (snd pos)
              (GlyphMetrics.width metrics) (GlyphMetrics.height metrics)
              metrics false false]> (glyphIndex va)
    | None => glyphIndex va
    end in
  setIndex va idx (pendingGlyphs va ∖ {[codePoint]}).

(** [storeGlyph(codePoint, page, pos, metrics)] *)
Definition storeGlyph (codePoint : Z) (page : Page.t T)
    (pos : Z * Z) (metrics : GlyphMetrics.t) (va : t T)
    : GlyphLocation.t T * t T :=
  let location :=
    GlyphLocation.mk (pageOf page) (fst pos) (snd pos)
      (GlyphMetrics.width metrics) (GlyphMetrics.height metrics)
      metrics false false in
  (location,
   setIndex va (<[codePoint := location]> (glyphIndex va))
            (pendingGlyphs va ∖ {[codePoint]})).

(** [fillGlyph(codePoint, pixels, metrics)] *)
Definition fillGlyph (codePoint : Z) (pixels : Uint8Array)
    (metrics : GlyphMetrics.t) (va : t T) (f : F) : Result unit * t T * F :=
  let isLatin := isLatinChar codePoint in
  let w := GlyphMetrics.width metrics in
  let h := GlyphMetrics.height metrics in
  let '(ref, page, va1, f1) := getOrCreatePage isLatin (Some h) va f in
  let '(pos, page') := Page.tryAdd pixels w h page in
  let va2 := setPage ref page' va1 in
  match pos with
  | None =>
      if isLatin then (Throw LatinPageFull, va2, f1)
      else
        let '(newRef, newPage, va3, f3) := createMixedPage va2 f1 in
        let '(newPos, newPage') := Page.tryAdd pixels w h newPage in
        let va4 := setPage newRef newPage' va3 in
        match newPos with
        | None => (Throw (FreshPageCantFit w h), va4, f3)
        | Some np =>
            (Ok tt, updateGlyphLocation codePoint newPage' np metrics va4, f3)
        end
  | Some p => (Ok tt, updateGlyphLocation codePoint page' p metrics va2, f1)
  end.

(** [addGlyph(codePoint, pixels, metrics)] *)
Definition addGlyph (codePoint : Z) (pixels : Uint8Array)
    (metrics : GlyphMetrics.t) (va : t T) (f : F)
    : Result (GlyphLocation.t T) * t T * F :=
  let isLatin := isLatinChar codePoint in
  let w := GlyphMetrics.width metrics in
  let h := GlyphMetrics.height metrics in
  let '(ref, page, va1, f1) := getOrCreatePage isLatin (Some h) va f in
  let '(pos, page') := Page.tryAdd pixels w h page in
  let va2 := setPage ref page' va1 in
  match pos with
  | None =>
      if isLatin then (Throw LatinPageFull, va2, f1)
      else
        let '(newRef, newPage, va3, f3) := createMixedPage va2 f1 in
        let '(newPos, newPage') := Page.tryAdd pixels w h newPage in
        let va4 := setPage newRef newPage' va3 in
        match newPos with
        | None => (Throw (FreshPageCantFit w h), va4, f3)
        | Some np =>
            let '(loc, va5) := storeGlyph codePoint newPage' np metrics va4 in
            (Ok loc, va5, f3)
        end
  | Some p =>
      let '(loc, va3) := storeGlyph codePoint page' p metrics va2 in
      (Ok loc, va3, f1)
  end.

(** [markEmpty(codePoint, missing)] *)
Definition markEmpty (codePoint : Z) (missing : bool) (va : t T) : t T :=
  let idx :=
    match glyphIndex va !! codePoint with
    | Some location =>
        <[codePoint :=
            GlyphLocation.mk (GlyphLocation.page location)
              (GlyphLocation.x location) (GlyphLocation.y location) 0 0
              (GlyphLocation.metrics location) true missing]> (glyphIndex va)
    | None => glyphIndex va
    end in
  setIndex va idx (pendingGlyphs va ∖ {[codePoint]}).

(** [hasDirtyPages()] *)
Definition hasDirtyPages (va : t T) : bool :=
  match latinPage va with
  | Some p => Page.dirty p
  | None => false
  end || existsb Page.dirty (mixedPages va).

(** The [for ... of] loop of [flushDirtyPages]. *)
Fixpoint flushAll (pages : list (Page.t T)) (f : F) : list (Page.t T) * F :=
  match pages with
  | [] => ([], f)
  | p :: rest =>
      let '(p', f1) := Page.flush p f in
      let '(rest', f2) := flushAll rest f1 in
      (p' :: rest', f2)
  end.

(** [flushDirtyPages()] *)
Definition flushDirtyPages (va : t T) (f : F) : t T * F :=
  let '(lp, f1) :=
    match latinPage va with
    | Some p => let '(p', f') := Page.flush p f in (Some p', f')
    | None => (None, f)
    end in
  let '(mp, f2) := flushAll (mixedPages va) f1 in
  (setPages va lp mp (warnings va), f2).

(** [getPageCount()] *)
Definition getPageCount (va : t T) : Z :=
  match latinPage va with Some _ => 1 | None => 0 end
  + Z.of_nat (length (mixedPages va)).

(** [getGlyphCount()] *)
Definition getGlyphCount (va : t T) : Z := Z.of_nat (size (glyphIndex va)).

(** [getMemoryBytes()] *)
Definition getMemoryBytes (va : t T) : Z :=
  let pageBytes := pageSize va * pageSize va * 4 in
  getPageCount va * pageBytes.

(** The [for ... of] loop of [destroy]. *)
Definition destroyAll (pages : list (Page.t T)) (f : F) : F :=
  fold_left (fun f' p => Page.destroyPage p f') pages f.

(** [destroy()] *)
Definition destroyAtlas (va : t T) (f : F) : t T * F :=
  let f1 := match latinPage va with
            | Some p => Page.destroyPage p f
            | None => f
            end in
  let f2 := destroyAll (mixedPages va) f1 in
  (mk (variantId va) (genSize va) None [] ∅ ∅
      (pageSize va) (maxMixedPages va) (warnings va), f2).

End Methods.
End VariantAtlas.

(** ** The glyph generator (kitMSDF, consumed through its interface)

    [MSDFGenerator] is imported from the kitMSDF library; the atlas only
    calls the methods below.  [G] is the state of the generator (the font
    that is loaded, the variation axes that are set). *)

Abbreviation Float32Array := (list Q).

Module VariationAxis.
Record t := mk { tag : string; value : Q }.
End VariationAxis.

Module MSDFMetrics.
Record t := mk {
  width : Z;
  height : Z;
  advance : Q;
  planeBounds : PlaneBounds.bounds
}.
End MSDFMetrics.

Module MSDFGlyph.
Record t := mk { metrics : MSDFMetrics.t; pixels : Float32Array }.
End MSDFGlyph.

Class MSDFGenerator (G : Type) := {
  loadFont : Uint8Array -> G -> G;
  hasGlyph : Z -> G -> bool;
  setVariationAxes : list VariationAxis.t -> G -> G;
  clearVariationAxes : G -> G;
  generateMTSDF : Z -> option Z -> Z -> G -> option MSDFGlyph.t * G;
  generateMTSDFVar : Z -> option Z -> Z -> G -> option MSDFGlyph.t * G
}.

(** ** FontAtlas (font-atlas.ts) *)

Module PendingGlyph.
Record t := mk {
  codePoint : Z;
  genSize : option Z;
  fontBuffer : Uint8Array;
  variationAxes : option (list VariationAxis.t);
  variantId : string
}.
End PendingGlyph.

Module GlyphRequest.
Record t := mk {
  codePoint : Z;
  variantId : string;
  fontBuffer : Uint8Array;
  variationAxes : option (list VariationAxis.t);
  renderSize : Z
}.
End GlyphRequest.

Module AtlasStatus.
Record t := mk {
  atlasCount : Z;
  pageCount : Z;
  glyphCount : Z;
  memoryBytes : Z
}.
End AtlasStatus.

(** A JavaScript [Map] with string keys, in insertion order. *)
Fixpoint mapGet {V : Type} (k : string) (m : list (string * V)) : option V :=
  match m with
  | [] => None
  | (k', v) :: m' => if String.eqb k k' then Some v else mapGet k m'
  end.

(** [m.set(k, v)]; also the write-back of a mutated value, which keeps its
    place in the iteration order. *)
Fixpoint mapSet {V : Type} (k : string) (v : V) (m : list (string * V))
    : list (string * V) :=
  match m with
  | [] => [(k, v)]
  | (k', v') :: m' =>
      if String.eqb k k' then (k', v) :: m' else (k', v') :: mapSet k v m'
  end.

(** [Math.max(0, Math.min(255, Math.round(v * 255)))] stored into a
    [Uint8Array]; [v] is [None] for a read past the end of the pixels, which
    makes the result NaN and the stored byte 0. *)
Definition toByte (v : option Q) : Z :=
  match v with
  | Some q => Z.max 0 (Z.min 255 (Qfloor (q * (255 # 1) + (1 # 2))%Q))
  | None => 0
  end.

(** [`${genSize}`] *)
Definition numberToString (n : option Z) : string :=
  match n with
  | Some z => pretty z
  | None => "undefined"
  end.

Module FontAtlas.

Record t (T F G : Type) := mk {
  msdf : G;
  textureFactory : F;
  config : AtlasConfig.t;
  atlases : list (string * VariantAtlas.t T);
  (** whether an [onGlyphsReady] callback was given *)
  onGlyphsReady : bool;
  (** how often the callback has been invoked *)
  readyCalls : nat;
  pendingGlyphs : list PendingGlyph.t;
  (** [batchPromise !== null] *)
  batchPromise : bool
}.
Arguments mk {T F G}.
Arguments msdf {T F G}.
Arguments textureFactory {T F G}.
Arguments config {T F G}.
Arguments atlases {T F G}.
Arguments onGlyphsReady {T F G}.
Arguments readyCalls {T F G}.
Arguments pendingGlyphs {T F G}.
Arguments batchPromise {T F G}.

Section Methods.
Context {T F G : Type} `{TextureFactory T F} `{MSDFGenerator G}.

(** [constructor(msdf, textureFactory, onGlyphsReady?, config?)];
    [callback] tells whether [onGlyphsReady] was given. *)
Definition new (g : G) (f : F) (callback : bool) (config : option PartialConfig.t)
    : t T F G :=
  mk g f (mergeConfig config) [] callback O [] false.

(** The state of the objects the atlas writes to during generation. *)
Definition setWorld (fa : t T F G) (g : G) (f : F)
    (ats : list (string * VariantAtlas.t T)) : t T F G :=
  mk g f (config fa) ats (onGlyphsReady fa) (readyCalls fa)
     (pendingGlyphs fa) (batchPromise fa).

Definition setQueue (fa : t T F G) (q : list PendingGlyph.t) (b : bool)
    : t T F G :=
  mk (msdf fa) (textureFactory fa) (config fa) (atlases fa)
     (onGlyphsReady fa) (readyCalls fa) q b.

(** [selectGenSize(renderSize)] *)
Definition selectGenSize (cfg : AtlasConfig.t) (renderSize : Z) : option Z :=
  match findFirst (fun th => renderSize <=? th) (AtlasConfig.sizeThresholds cfg) with
  | Some (i, _) => AtlasConfig.genSizes cfg !! i
  | None =>
      AtlasConfig.genSizes cfg !! (length (AtlasConfig.genSizes cfg) - 1)%nat
  end.

(** [`${variantId}_${genSize}`] *)
Definition atlasKey (variantId : string) (genSize : option Z) : string :=
  variantId +:+ "_" +:+ numberToString genSize.

(** [getOrCreateAtlas(variantId, genSize)]: the atlas, and the key the
    map keeps it under. *)
Definition getOrCreateAtlas (variantId : string) (genSize : option Z)
    (fa : t T F G) : string * VariantAtlas.t T * t T F G :=
  let key := atlasKey variantId genSize in
  match mapGet key (atlases fa) with
  | Some atlas => (key, atlas, fa)
  | None =>
      let atlas :=
        VariantAtlas.new variantId genSize
          (AtlasConfig.pageSize (config fa))
          (AtlasConfig.maxMixedPages (config fa)) in
      (key, atlas,
       setWorld fa (msdf fa) (textureFactory fa) (mapSet key atlas (atlases fa)))
  end.

(** [locationToInfo(location, genSize, cached)] *)
Definition locationToInfo (location : GlyphLocation.t T)
    (genSize : option Z) (cached : bool) : GlyphInfo.t T :=
  let page := GlyphLocation.page location in
  let x := GlyphLocation.x location in
  let y := GlyphLocation.y location in
  let width := GlyphLocation.width location in
  let height := GlyphLocation.height location in
  GlyphInfo.mk (LocationPage.texture page)
    (UVs.mk (js_div x (LocationPage.width page))
            (js_div y (LocationPage.height page))
            (js_div (x + width) (LocationPage.width page))
            (js_div (y + height) (LocationPage.height page)))
    (GlyphLocation.metrics location)
    genSize cached
    (GlyphLocation.empty location) (GlyphLocation.missing location).

(** [queueGeneration(pending)] *)
Definition queueGeneration (pending : PendingGlyph.t) (fa : t T F G)
    : t T F G :=
  setQueue fa (pendingGlyphs fa ++ [pending]) true.

(** [getGlyph(request)] *)
Definition getGlyph (request : GlyphRequest.t) (fa : t T F G)
    : GlyphInfo.t T * t T F G :=
  let genSize := selectGenSize (config fa) (GlyphRequest.renderSize request) in
  let '(key, atlas, fa1) :=
    getOrCreateAtlas (GlyphRequest.variantId request) genSize fa in
  match VariantAtlas.getGlyph (GlyphRequest.codePoint request) atlas with
  | Some location => (locationToInfo location genSize true, fa1)
  | None =>
      let '(placeholder, atlas', f') :=
        VariantAtlas.reserveGlyph (GlyphRequest.codePoint request) atlas
          (textureFactory fa1) in
      let fa2 := setWorld fa1 (msdf fa1) f' (mapSet key atlas' (atlases fa1)) in
      let fa3 :=
        queueGeneration
          (PendingGlyph.mk (GlyphRequest.codePoint request) genSize
             (GlyphRequest.fontBuffer request)
             (GlyphRequest.variationAxes request)
             (GlyphRequest.variantId request)) fa2 in
      (locationToInfo placeholder genSize false, fa3)
  end.

(** [generateGlyph(codePoint, fontSize, fontBuffer, axes)] *)
Definition generateGlyph (cfg : AtlasConfig.t) (codePoint : Z)
    (fontSize : option Z) (fontBuffer : Uint8Array)
    (axes : option (list VariationAxis.t)) (g : G) : option MSDFGlyph.t * G :=
  let g1 := loadFont fontBuffer g in
  match axes with
  | Some (a :: axes') =>
      generateMTSDFVar codePoint fontSize (AtlasConfig.pixelRange cfg)
        (setVariationAxes (a :: axes') g1)
  | _ =>
      generateMTSDF codePoint fontSize (AtlasConfig.pixelRange cfg)
        (clearVariationAxes g1)
  end.

(** [floatToRGBA(pixels, width, height)] *)
Definition floatToRGBA (pixels : Float32Array) (width height : Z) : Uint8Array :=
  let fourChannels :=
    negb (width * height =? 0)
    && (Z.of_nat (length pixels) =? 4 * (width * height)) in
  fold_left
    (fun rgba i =>
       if fourChannels then
         let a0 := Uint8Array_set rgba (i * 4 + 0) (toByte (pixels !! Z.to_nat (i * 4 + 0))) in
         let a1 := Uint8Array_set a0 (i * 4 + 1) (toByte (pixels !! Z.to_nat (i * 4 + 1))) in
         let a2 := Uint8Array_set a1 (i * 4 + 2) (toByte (pixels !! Z.to_nat (i * 4 + 2))) in
         Uint8Array_set a2 (i * 4 + 3) (toByte (pixels !! Z.to_nat (i * 4 + 3)))
       else
         let a0 := Uint8Array_set rgba (i * 4 + 0) (toByte (pixels !! Z.to_nat (i * 3 + 0))) in
         let a1 := Uint8Array_set a0 (i * 4 + 1) (toByte (pixels !! Z.to_nat (i * 3 + 1))) in
         let a2 := Uint8Array_set a1 (i * 4 + 2) (toByte (pixels !! Z.to_nat (i * 3 + 2))) in
         Uint8Array_set a2 (i * 4 + 3) 255)
    (upto (width * height))
    (Uint8Array_new (width * height * 4)).

(** The [GlyphMetrics] literal built from the generator's metrics. *)
Definition toMetrics (m : MSDFMetrics.t) : GlyphMetrics.t :=
  GlyphMetrics.mk (MSDFMetrics.width m) (MSDFMetrics.height m)
    (MSDFMetrics.advance m)
    (PlaneBounds.l (MSDFMetrics.planeBounds m))
    (PlaneBounds.b (MSDFMetrics.planeBounds m))
    (MSDFMetrics.planeBounds m).

(** One iteration of the loop of [processBatch]. *)
Definition processPending (pending : PendingGlyph.t) (fa : t T F G)
    : Result unit * t T F G :=
  let '(key, atlas, fa1) :=
    getOrCreateAtlas (PendingGlyph.variantId pending)
                     (PendingGlyph.genSize pending) fa in
  let g1 := loadFont (PendingGlyph.fontBuffer pending) (msdf fa1) in
  if negb (hasGlyph (PendingGlyph.codePoint pending) g1) then
    (Ok tt,
     setWorld fa1 g1 (textureFactory fa1)
       (mapSet key (VariantAtlas.markEmpty (PendingGlyph.codePoint pending) true atlas)
               (atlases fa1)))
  else
    let '(glyph, g2) :=
      generateGlyph (config fa1) (PendingGlyph.codePoint pending)
        (PendingGlyph.genSize pending) (PendingGlyph.fontBuffer pending)
        (PendingGlyph.variationAxes pending) g1 in
    match glyph with
    | Some gl =>
        let m := MSDFGlyph.metrics gl in
        let rgbaPixels :=
          floatToRGBA (MSDFGlyph.pixels gl) (MSDFMetrics.width m)
                      (MSDFMetrics.height m) in
        let '(r, atlas', f') :=
          VariantAtlas.fillGlyph (PendingGlyph.codePoint pending) rgbaPixels
            (toMetrics m) atlas (textureFactory fa1) in
        (r, setWorld fa1 g2 f' (mapSet key atlas' (atlases fa1)))
    | None =>
        (Ok tt,
         setWorld fa1 g2 (textureFactory fa1)
           (mapSet key (VariantAtlas.markEmpty (PendingGlyph.codePoint pending) false atlas)
                   (atlases fa1)))
    end.

(** The loop of [processBatch] over the captured batch; a [throw]
    leaves the loop. *)
Fixpoint processAll (batch : list PendingGlyph.t) (fa : t T F G)
    : Result unit * t T F G :=
  match batch with
  | [] => (Ok tt, fa)
  | pending :: rest =>
      let '(r, fa') := processPending pending fa in
      match r with
      | Ok _ => processAll rest fa'
      | Throw e => (Throw e, fa')
      end
  end.

(** [for (const atlas of this.atlases.values()) atlas.flushDirtyPages()] *)
Fixpoint flushAtlases (ats : list (string * VariantAtlas.t T)) (f : F)
    : list (string * VariantAtlas.t T) * F :=
  match ats with
  | [] => ([], f)
  | (k, atlas) :: rest =>
      let '(atlas', f1) := VariantAtlas.flushDirtyPages atlas f in
      let '(rest', f2) := flushAtlases rest f1 in
      ((k, atlas') :: rest', f2)
  end.

(** [this.onGlyphsReady?.()] *)
Definition notify (fa : t T F G) : t T F G :=
  mk (msdf fa) (textureFactory fa) (config fa) (atlases fa)
     (onGlyphsReady fa)
     (if onGlyphsReady fa then S (readyCalls fa) else readyCalls fa)
     (pendingGlyphs fa) (batchPromise fa).

(** [processBatch()], the drain that the scheduled microtask runs. *)
Definition processBatch (fa : t T F G) : Result unit * t T F G :=
  let batch := pendingGlyphs fa in
  let fa0 := setQueue fa [] false in
  if (length batch =? 0)%nat then (Ok tt, fa0)
  else
    let '(r, fa1) := processAll batch fa0 in
    match r with
    | Throw e => (Throw e, fa1)
    | Ok _ =>
        let '(ats, f') := flushAtlases (atlases fa1) (textureFactory fa1) in
        (Ok tt, notify (setWorld fa1 (msdf fa1) f' ats))
    end.

(** One iteration of the loop of [prefabLatin], on the atlas object the
    method holds. *)
Definition prefabOne (cfg : AtlasConfig.t) (genSize : option Z)
    (fontBuffer : Uint8Array) (variationAxes : option (list VariationAxis.t))
    (codePoint : Z) (st : VariantAtlas.t T * F * G)
    : Result unit * (VariantAtlas.t T * F * G) :=
  let '(atlas, f, g) := st in
  match VariantAtlas.getGlyph codePoint atlas with
  | Some _ => (Ok tt, st)
  | None =>
      if negb (hasGlyph codePoint g) then
        let '(_, atlas1, f1) := VariantAtlas.reserveGlyph codePoint atlas f in
        (Ok tt, (VariantAtlas.markEmpty codePoint true atlas1, f1, g))
      else
        let '(glyph, g1) :=
          generateGlyph cfg codePoint genSize fontBuffer variationAxes g in
        match glyph with
        | Some gl =>
            let m := MSDFGlyph.metrics gl in
            let rgbaPixels :=
              floatToRGBA (MSDFGlyph.pixels gl) (MSDFMetrics.width m)
                          (MSDFMetrics.height m) in
            let '(r, atlas1, f1) :=
              VariantAtlas.addGlyph codePoint rgbaPixels (toMetrics m) atlas f in
            (match r with Ok _ => Ok tt | Throw e => Throw e end,
             (atlas1, f1, g1))
        | None =>
            let '(_, atlas1, f1) := VariantAtlas.reserveGlyph codePoint atlas f in
            (Ok tt, (VariantAtlas.markEmpty codePoint false atlas1, f1, g1))
        end
  end.

(** The loop of [prefabLatin]. *)
Fixpoint prefabAll (cfg : AtlasConfig.t) (genSize : option Z)
    (fontBuffer : Uint8Array) (variationAxes : option (list VariationAxis.t))
    (codePoints : list Z) (st : VariantAtlas.t T * F * G)
    : Result unit * (VariantAtlas.t T * F * G) :=
  match codePoints with
  | [] => (Ok tt, st)
  | codePoint :: rest =>
      let '(r, st') := prefabOne cfg genSize fontBuffer variationAxes codePoint st in
      match r with
      | Ok _ => prefabAll cfg genSize fontBuffer variationAxes rest st'
      | Throw e => (Throw e, st')
      end
  end.

(** [prefabLatin(variantId, fontSize, fontBuffer, variationAxes?)] *)
Definition prefabLatin (variantId : string) (fontSize : Z)
    (fontBuffer : Uint8Array) (variationAxes : option (list VariationAxis.t))
    (fa : t T F G) : Result unit * t T F G :=
  let genSize := selectGenSize (config fa) fontSize in
  let '(key, atlas, fa1) := getOrCreateAtlas variantId genSize fa in
  let '(r, (atlas1, f1, g1)) :=
    prefabAll (config fa1) genSize fontBuffer variationAxes LATIN_CODEPOINTS
              (atlas, textureFactory fa1, msdf fa1) in
  match r with
  | Throw e => (Throw e, setWorld fa1 g1 f1 (mapSet key atlas1 (atlases fa1)))
  | Ok _ =>
      let '(atlas2, f2) := VariantAtlas.flushDirtyPages atlas1 f1 in
      (Ok tt, setWorld fa1 g1 f2 (mapSet key atlas2 (atlases fa1)))
  end.

(** [get hasPendingWork()] *)
Definition hasPendingWork (fa : t T F G) : bool :=
  (0 <? length (pendingGlyphs fa))%nat || batchPromise fa.

(** [getStatus()] *)
Definition getStatus (fa : t T F G) : AtlasStatus.t :=
  let vas := snd <$> atlases fa in
  AtlasStatus.mk
    (Z.of_nat (length (atlases fa)))
    (fold_left (fun n a => n + VariantAtlas.getPageCount a) vas 0)
    (fold_left (fun n a => n + VariantAtlas.getGlyphCount a) vas 0)
    (fold_left (fun n a => n + VariantAtlas.getMemoryBytes a) vas 0).

(** [dispose()] *)
Definition dispose (fa : t T F G) : t T F G :=
  let f' :=
    fold_left (fun f a => snd (VariantAtlas.destroyAtlas (snd a) f))
              (atlases fa) (textureFactory fa) in
  mk (msdf fa) f' (config fa) [] (onGlyphsReady fa) (readyCalls fa) [] false.

End Methods.
End FontAtlas.

(** ** WorkerPool (WorkerPool.ts, WorkerPool-deno.ts): the dispatcher

    The Node and the Deno pool share the code that hands tasks to workers.
    A worker is identified by a number; so is the promise that
    [generateGlyph] returns, whose [resolve] function a task carries.  The
    messages posted to workers and the resolutions of promises are logged in
    the state, in the order in which the code makes them. *)

Module WorkerPool.

Inductive GlyphType := msdf | mtsdf.

Record GlyphResult := mkResult {
  resultCharCode : Z;
  success : bool;
  metrics : option MSDFMetrics.t;
  pixels : option Float32Array;
  timeMs : Z
}.

(** An entry of [taskQueue]. *)
Record Task := mkTask {
  charCode : Z;
  fontSize : Z;
  pixelRange : Z;
  glyphType : GlyphType;
  resolve : nat
}.

Record PendingTask := mkPending {
  pendingCharCode : Z;
  pendingResolve : nat
}.

(** The data of a [{ type: 'generate', data }] message. *)
Record Generate := mkGenerate {
  msgCharCode : Z;
  msgFontSize : Z;
  msgPixelRange : Z;
  msgGlyphType : GlyphType
}.

Record t := mk {
  workers : list nat;
  available : list nat;
  taskQueue : list Task;
  workerTasks : gmap nat PendingTask;
  (** the [postMessage] calls with a generate message, in order *)
  posted : list (nat * Generate);
  (** the calls of [resolve] functions, in order *)
  resolved : list (nat * GlyphResult);
  (** how many promises [generateGlyph] has created *)
  promises : nat
}.

(** [a.pop()]: the rest and the last element. *)
Fixpoint pop {A : Type} (a : list A) : option (list A * A) :=
  match a with
  | [] => None
  | x :: a' =>
      match pop a' with
      | None => Some ([], x)
      | Some (rest, last) => Some (x :: rest, last)
      end
  end.

(** The pool once the workers are created: none has reported ready. *)
Definition new (numWorkers : nat) : t :=
  mk (seq 0 numWorkers) [] [] ∅ [] [] 0.

(** [dispatchToWorker(worker, task)] *)
Definition dispatchToWorker (worker : nat) (task : Task) (s : t) : t :=
  mk (workers s) (available s) (taskQueue s)
     (<[worker := mkPending (charCode task) (resolve task)]> (workerTasks s))
     (posted s ++ [(worker, mkGenerate (charCode task) (fontSize task)
                              (pixelRange task) (glyphType task))])
     (resolved s) (promises s).

(** [setupWorker(worker)], run when the worker reports ready: the worker
    becomes available (and [onResult] below becomes its message handler). *)
Definition setupWorker (worker : nat) (s : t) : t :=
  mk (workers s) (available s ++ [worker]) (taskQueue s) (workerTasks s)
     (posted s) (resolved s) (promises s).

(** The handler of a [result] message from [worker]. *)
Definition onResult (worker : nat) (data : GlyphResult) (s : t) : t :=
  let s1 :=
    match workerTasks s !! worker with
    | Some task =>
        mk (workers s) (available s) (taskQueue s)
           (delete worker (workerTasks s)) (posted s)
           (resolved s ++ [(pendingResolve task, data)]) (promises s)
    | None => s
    end in
  match taskQueue s1 with
  | next :: rest =>
      dispatchToWorker worker next
        (mk (workers s1) (available s1) rest (workerTasks s1)
            (posted s1) (resolved s1) (promises s1))
  | [] =>
      mk (workers s1) (available s1 ++ [worker]) (taskQueue s1) (workerTasks s1)
         (posted s1) (resolved s1) (promises s1)
  end.

(** [generateGlyph(charCode, fontSize, pixelRange, glyphType)] once [ready]
    has resolved: the promise it returns, and the pool after the executor
    of the promise has run. *)
Definition generateGlyph (charCode fontSize pixelRange : Z) (glyphType : GlyphType)
    (s : t) : nat * t :=
  let promise := promises s in
  let task := mkTask charCode fontSize pixelRange glyphType promise in
  (promise,
   match pop (available s) with
   | Some (rest, worker) =>
       dispatchToWorker worker task
         (mk (workers s) rest (taskQueue s) (workerTasks s)
             (posted s) (resolved s) (S promise))
   | None =>
       mk (workers s) (available s) (taskQueue s ++ [task]) (workerTasks s)
          (posted s) (resolved s) (S promise)
   end).

(** [generateBatch(chars, fontSize, pixelRange, glyphType)]: the promises
    handed to [Promise.all], in the order of [chars]. *)
Fixpoint generateBatch (chars : list Z) (fontSize pixelRange : Z)
    (glyphType : GlyphType) (s : t) : list nat * t :=
  match chars with
  | [] => ([], s)
  | charCode :: rest =>
      let '(p, s1) := generateGlyph charCode fontSize pixelRange glyphType s in
      let '(ps, s2) := generateBatch rest fontSize pixelRange glyphType s1 in
      (p :: ps, s2)
  end.

(** [get workerCount()] *)
Definition workerCount (s : t) : nat := length (workers s).

End WorkerPool.

(** ** Definitions used to state the properties *)

(** First byte that source row [row] of a glyph placed at [(x, y)] is
    copied to. *)
Definition dstOffset (h x y W row : Z) : Z := ((y + (h - 1 - row)) * W + x) * 4.

(** Whether the copy of source row [row] stores into byte [i] of a buffer
    of [len] bytes. *)
Definition hit (w h x y W : Z) (len : nat) (row i : Z) : bool :=
  (dstOffset h x y W row <=? i) && (i <? dstOffset h x y W row + w * 4)
  && (0 <=? i) && (i <? Z.of_nat len).

(** What the constructor and [tryAdd] keep true of a page. *)
Definition pageOk {T : Type} (p : Page.t T) : Prop :=
  0 <= Page.cursorX p /\ 0 <= Page.cursorY p /\ 0 <= Page.rowHeight p /\
  length (Page.buffer p) = Z.to_nat (Page.width p * Page.height p * 4).

(** The rectangle of a glyph location lies inside its page. *)
Definition insidePage {T : Type} (loc : GlyphLocation.t T) : Prop :=
  0 <= GlyphLocation.x loc /\ 0 <= GlyphLocation.y loc /\
  GlyphLocation.x loc + GlyphLocation.width loc
    <= LocationPage.width (GlyphLocation.page loc) /\
  GlyphLocation.y loc + GlyphLocation.height loc
    <= LocationPage.height (GlyphLocation.page loc).

(** The operations of a variant atlas, for statements about every
    sequence of them. *)
Inductive AtlasOp :=
  | OpReserve (codePoint : Z)
  | OpFill (codePoint : Z) (pixels : Uint8Array) (metrics : GlyphMetrics.t)
  | OpAdd (codePoint : Z) (pixels : Uint8Array) (metrics : GlyphMetrics.t)
  | OpMarkEmpty (codePoint : Z) (missing : bool)
  | OpFlush.

Definition applyOp {T F : Type} `{TextureFactory T F}
    (s : VariantAtlas.t T * F) (op : AtlasOp) : VariantAtlas.t T * F :=
  match op with
  | OpReserve cp =>
      let '(_, va, f) := VariantAtlas.reserveGlyph cp s.1 s.2 in (va, f)
  | OpFill cp pixels metrics =>
      let '(_, va, f) := VariantAtlas.fillGlyph cp pixels metrics s.1 s.2 in (va, f)
  | OpAdd cp pixels metrics =>
      let '(_, va, f) := VariantAtlas.addGlyph cp pixels metrics s.1 s.2 in (va, f)
  | OpMarkEmpty cp missing => (VariantAtlas.markEmpty cp missing s.1, s.2)
  | OpFlush => VariantAtlas.flushDirtyPages s.1 s.2
  end.

Definition applyOps {T F : Type} `{TextureFactory T F}
    (ops : list AtlasOp) (s : VariantAtlas.t T * F) : VariantAtlas.t T * F :=
  fold_left applyOp ops s.

(** A property of every page of the atlas. *)
Definition allPages {T : Type} (P : Page.t T -> Prop) (va : VariantAtlas.t T) : Prop :=
  (forall p, VariantAtlas.latinPage va = Some p -> P p) /\
  (forall i p, VariantAtlas.mixedPages va !! i = Some p -> P p).

(** A well-formed square page of side [s]. *)
Definition packedPage {T : Type} (s : Z) (p : Page.t T) : Prop :=
  pageOk p /\ Page.width p = s /\ Page.height p = s.

(** A location with a rectangle of non-negative size inside its page. *)
Definition locationOk {T : Type} (loc : GlyphLocation.t T) : Prop :=
  insidePage loc /\ 0 <= GlyphLocation.width loc /\ 0 <= GlyphLocation.height loc.

(** The pages are well-formed squares of the configured size and every
    location of the index lies inside its page. *)
Definition atlasPacked {T : Type} (va : VariantAtlas.t T) : Prop :=
  0 < VariantAtlas.pageSize va /\
  allPages (packedPage (VariantAtlas.pageSize va)) va /\
  forall cp loc, VariantAtlas.glyphIndex va !! cp = Some loc -> locationOk loc.

(** The glyph of an operation has a non-negative size and is no wider than
    a page of side [s]. *)
Definition opFits (s : Z) (op : AtlasOp) : Prop :=
  match op with
  | OpFill _ _ metrics | OpAdd _ _ metrics =>
      0 <= GlyphMetrics.width metrics <= s /\ 0 <= GlyphMetrics.height metrics
  | _ => True
  end.

(** The part of an atlas that page allocation and packing leave alone. *)
Definition sameIndex {T : Type} (va va' : VariantAtlas.t T) : Prop :=
  VariantAtlas.glyphIndex va' = VariantAtlas.glyphIndex va /\
  VariantAtlas.pendingGlyphs va' = VariantAtlas.pendingGlyphs va /\
  VariantAtlas.pageSize va' = VariantAtlas.pageSize va /\
  VariantAtlas.genSize va' = VariantAtlas.genSize va /\
  VariantAtlas.variantId va' = VariantAtlas.variantId va /\
  VariantAtlas.maxMixedPages va' = VariantAtlas.maxMixedPages va.

(** A code point is ready when [getGlyph] returns its location. *)
Definition ready {T : Type} (cp : Z) (va : VariantAtlas.t T) : Prop :=
  is_Some (VariantAtlas.getGlyph cp va).

(** The scheduler side of the font atlas: what generation never touches. *)
Definition sameQueue {T F G : Type} (fa fa' : FontAtlas.t T F G) : Prop :=
  FontAtlas.config fa' = FontAtlas.config fa /\
  FontAtlas.onGlyphsReady fa' = FontAtlas.onGlyphsReady fa /\
  FontAtlas.readyCalls fa' = FontAtlas.readyCalls fa /\
  FontAtlas.pendingGlyphs fa' = FontAtlas.pendingGlyphs fa /\
  FontAtlas.batchPromise fa' = FontAtlas.batchPromise fa.

(** Every page of the atlas is a [pageSize] square, with [pageSize] positive. *)
Definition atlasSized {T : Type} (va : VariantAtlas.t T) : Prop :=
  0 < VariantAtlas.pageSize va /\
  (forall p, VariantAtlas.latinPage va = Some p ->
     Page.width p = VariantAtlas.pageSize va /\
     Page.height p = VariantAtlas.pageSize va) /\
  (forall i p, VariantAtlas.mixedPages va !! i = Some p ->
     Page.width p = VariantAtlas.pageSize va /\
     Page.height p = VariantAtlas.pageSize va).

(** The configured page size is positive and every variant atlas was built
    with a positive page size. *)
Definition sized {T F G : Type} (fa : FontAtlas.t T F G) : Prop :=
  0 < AtlasConfig.pageSize (FontAtlas.config fa) /\
  forall k va, mapGet k (FontAtlas.atlases fa) = Some va -> atlasSized va.

(** Whether a queued generation is for code point [cp] of the atlas kept
    under [key]. *)
Definition targets (key : string) (cp : Z) (e : PendingGlyph.t) : bool :=
  String.eqb (FontAtlas.atlasKey (PendingGlyph.variantId e) (PendingGlyph.genSize e)) key
  && (PendingGlyph.codePoint e =? cp).

(** The font does not contain the code point: once it is loaded, the
    generator answers [hasGlyph] with [false]. *)
Definition lacks {G : Type} `{MSDFGenerator G} (font : Uint8Array) (cp : Z) : Prop :=
  forall g : G, hasGlyph cp (loadFont font g) = false.

(** The atlas under [key] holds a location for [cp] whose metrics are the
    placeholder. *)
Definition placeholderAt {T F G : Type} (fa : FontAtlas.t T F G)
    (key : string) (cp : Z) : Prop :=
  exists va loc,
    mapGet key (FontAtlas.atlases fa) = Some va /\
    VariantAtlas.glyphIndex va !! cp = Some loc /\
    GlyphLocation.metrics loc = PLACEHOLDER_METRICS.

(** The location of [cp] in the atlas under [key] records a missing glyph
    and [cp] is no longer pending. *)
Definition missingAt {T F G : Type} (fa : FontAtlas.t T F G)
    (key : string) (cp : Z) : Prop :=
  exists va loc,
    mapGet key (FontAtlas.atlases fa) = Some va /\
    VariantAtlas.glyphIndex va !! cp = Some loc /\
    GlyphLocation.metrics loc = PLACEHOLDER_METRICS /\
    GlyphLocation.empty loc = true /\ GlyphLocation.missing loc = true /\
    GlyphLocation.width loc = 0 /\ GlyphLocation.height loc = 0 /\
    cp ∉ VariantAtlas.pendingGlyphs va.

(** The Latin page exists and is the page [pg] that locations refer to. *)
Definition latinIs {T : Type} (pg : LocationPage.t T) (va : VariantAtlas.t T) : Prop :=
  exists p, VariantAtlas.latinPage va = Some p /\ VariantAtlas.pageOf p = pg.

(** The calls a client can make on a font atlas; [Tick] is the scheduler
    running the drain. *)
Inductive Call :=
  | CallGetGlyph (request : GlyphRequest.t)
  | CallPrefabLatin (variantId : string) (fontSize : Z) (fontBuffer : Uint8Array)
                    (variationAxes : option (list VariationAxis.t))
  | Tick
  | CallDispose.

Definition call {T F G : Type} `{TextureFactory T F} `{MSDFGenerator G}
    (c : Call) (fa : FontAtlas.t T F G) : FontAtlas.t T F G :=
  match c with
  | CallGetGlyph request => (FontAtlas.getGlyph request fa).2
  | CallPrefabLatin v s b a => (FontAtlas.prefabLatin v s b a fa).2
  | Tick => (FontAtlas.processBatch fa).2
  | CallDispose => FontAtlas.dispose fa
  end.

(** The state after a sequence of calls. *)
Definition after {T F G : Type} `{TextureFactory T F} `{MSDFGenerator G}
    (calls : list Call) (fa : FontAtlas.t T F G) : FontAtlas.t T F G :=
  fold_left (fun s c => call c s) calls fa.

(** ** Concrete collaborators, to run the model *)

Definition freshBackend : CountingBackend :=
  {| created := 0; uploads := []; destroyed := [] |}.

(** A generator whose fonts list the code points they contain.  It draws
    every glyph but the space (code point 32) as a square of the requested
    size, with no pixel data. *)
Record ToyGenerator := { loaded : option (list Z) }.

Definition toyGlyph (_ : Z) (size : option Z) (_ : Z) (g : ToyGenerator)
    : option MSDFGlyph.t * ToyGenerator :=
  (Some (MSDFGlyph.mk
           (MSDFMetrics.mk (default 0 size) (default 0 size) 1%Q
                           (PlaneBounds.mk 0%Q 0%Q 1%Q 1%Q)) []), g).

#[export] Instance toyGenerator : MSDFGenerator ToyGenerator := {
  loadFont font _ := {| loaded := Some font |};
  hasGlyph cp g :=
    match loaded g with
    | Some font => bool_decide (cp ∈ font)
    | None => false
    end;
  setVariationAxes _ g := g;
  clearVariationAxes g := g;
  generateMTSDF cp size range g :=
    if cp =? 32 then (None, g) else toyGlyph cp size range g;
  generateMTSDFVar cp size range g :=
    if cp =? 32 then (None, g) else toyGlyph cp size range g
}.

(** A font atlas with 64-pixel pages and one generation size, over the toy
    generator with the Latin font loaded. *)
Definition demoConfig : PartialConfig.t :=
  PartialConfig.mk (Some [2]) (Some []) (Some 64) None None.

Definition demoAtlas : FontAtlas.t nat CountingBackend ToyGenerator :=
  FontAtlas.new {| loaded := Some LATIN_CODEPOINTS |} freshBackend true
                (Some demoConfig).

(** The bytes [1, 2, ..., n]. *)
Definition ramp (n : nat) : list Z := Z.of_nat <$> seq 1 n.

(** A font atlas whose pages are too small for the glyphs of its only
    generation size. *)
Definition tightAtlas : FontAtlas.t nat CountingBackend ToyGenerator :=
  FontAtlas.new {| loaded := Some LATIN_CODEPOINTS |} freshBackend true
                (Some (PartialConfig.mk (Some [4]) (Some []) (Some 4) None None)).

(** The default configuration with 64-pixel pages. *)
Definition smallPages : PartialConfig.t :=
  PartialConfig.mk None None (Some 64) None None.

Definition defaultAtlas : FontAtlas.t nat CountingBackend ToyGenerator :=
  FontAtlas.new {| loaded := Some LATIN_CODEPOINTS |} freshBackend true
                (Some smallPages).

(** A request for the letter A. *)
Definition requestA : GlyphRequest.t :=
  GlyphRequest.mk 65 "v" LATIN_CODEPOINTS None 32.

(** A request for an emoji that the Latin font lacks. *)
Definition requestEmoji : GlyphRequest.t :=
  GlyphRequest.mk 0x1F600 "m" LATIN_CODEPOINTS None 32.

(** A variant atlas with 4-pixel pages. *)
Definition tinyAtlas : VariantAtlas.t nat := VariantAtlas.new "v" (Some 3) 4 8.

Definition noBounds : PlaneBounds.bounds := PlaneBounds.mk 0%Q 0%Q 0%Q 0%Q.

(** Metrics of a 3 by 3 glyph and of a 5 by 1 glyph. *)
Definition square3 : GlyphMetrics.t := GlyphMetrics.mk 3 3 0%Q 0%Q 0%Q noBounds.
Definition wide5 : GlyphMetrics.t := GlyphMetrics.mk 5 1 0%Q 0%Q 0%Q noBounds.

(** The tiny atlas after two ideographs were reserved and the first one
    was filled: its only mixed page has no row left. *)
Definition crowded : VariantAtlas.t nat * CountingBackend :=
  applyOps [OpReserve 0x4E00; OpReserve 0x4E01; OpFill 0x4E00 (ramp 36) square3]
           (tinyAtlas, freshBackend).

(** ** Proof automation *)

(** Case analysis on every integer comparison of the goal. *)
Ltac zcases :=
  repeat match goal with
         | |- context [?a <=? ?b] => destruct (Z.leb_spec a b)
         | |- context [?a <? ?b] => destruct (Z.ltb_spec a b)
         | |- context [?a =? ?b] => destruct (Z.eqb_spec a b)
         | |- context [?a >? ?b] => rewrite (Z.gtb_ltb a b)
         end;
  simpl; try lia; try reflexivity.

(** Membership in the pending set after additions and deletions. *)
Ltac set_cases :=
  rewrite ?elem_of_difference, ?elem_of_union, ?elem_of_singleton in *;
  intuition congruence.

(** ** Definitions used to state further properties *)

(** A placed rectangle: position, width and height. *)
Abbreviation Rect := (Z * Z * Z * Z)%type.

(** Successive [tryAdd] calls on one page, with the pixels and the
    rectangles of the calls that returned a position, in call order. *)
Fixpoint tryAddAll {T : Type} (glyphs : list (Uint8Array * Z * Z)) (p : Page.t T)
    : list (Uint8Array * Rect) * Page.t T :=
  match glyphs with
  | [] => ([], p)
  | (pixels, w, h) :: rest =>
      let '(pos, p1) := Page.tryAdd pixels w h p in
      let '(placed, p2) := tryAddAll rest p1 in
      (match pos with
       | Some (x, y) => (pixels, (x, y, w, h)) :: placed
       | None => placed
       end, p2)
  end.

(** Two rectangles with at least one pixel between them. *)
Definition apart (r1 r2 : Rect) : Prop :=
  let '(x1, y1, w1, h1) := r1 in
  let '(x2, y2, w2, h2) := r2 in
  x1 + w1 + 1 <= x2 \/ x2 + w2 + 1 <= x1 \/
  y1 + h1 + 1 <= y2 \/ y2 + h2 + 1 <= y1.

(** The rectangle lies on a finished shelf row of the page, or on the
    current row to the left of the cursor. *)
Definition shelved {T : Type} (p : Page.t T) (r : Rect) : Prop :=
  let '(x, y, w, h) := r in
  y + h + 1 <= Page.cursorY p \/
  (y = Page.cursorY p /\ x + w + 1 <= Page.cursorX p /\ h + 1 <= Page.rowHeight p).

(** The page holds the pixels of a placed glyph: row [r] of the glyph, from
    the top, is row [y + (h - 1 - r)] of the rectangle. *)
Definition holds {T : Type} (p : Page.t T) (g : Uint8Array * Rect) : Prop :=
  let '(pixels, (x, y, w, h)) := g in
  forall r c, 0 <= r < h -> 0 <= c < 4 * w ->
    Uint8Array_get (Page.buffer p) (((y + (h - 1 - r)) * Page.width p + x) * 4 + c)
    = Uint8Array_get pixels ((r * w) * 4 + c).

(** The rectangle lies inside the page. *)
Definition rectInside {T : Type} (p : Page.t T) (r : Rect) : Prop :=
  let '(x, y, w, h) := r in
  0 <= x /\ x + w <= Page.width p /\ 0 <= y /\ y + h <= Page.height p.

(** The pages of a variant atlas, the Latin page first. *)
Definition pagesOf {T : Type} (va : VariantAtlas.t T) : list (Page.t T) :=
  option_list (VariantAtlas.latinPage va) ++ VariantAtlas.mixedPages va.

(** Every pending code point has a location in the index. *)
Definition pendingIndexed {T : Type} (va : VariantAtlas.t T) : Prop :=
  forall cp, cp ∈ VariantAtlas.pendingGlyphs va ->
             is_Some (VariantAtlas.glyphIndex va !! cp).

(** The code point an operation is about. *)
Definition opCodePoint (op : AtlasOp) : option Z :=
  match op with
  | OpReserve cp | OpFill cp _ _ | OpAdd cp _ _ | OpMarkEmpty cp _ => Some cp
  | OpFlush => None
  end.

(** The bytes held by the pixel buffers of the pages of an atlas. *)
Definition bufferBytes {T : Type} (va : VariantAtlas.t T) : Z :=
  Z.of_nat (sum_list ((fun p => length (Page.buffer p)) <$> pagesOf va)).

(** The buffer of a page has the size of a square page of side [s]. *)
Definition bufferSized {T : Type} (s : Z) (p : Page.t T) : Prop :=
  length (Page.buffer p) = Z.to_nat (s * s * 4).

(** The texture handles of the pages of an atlas, the Latin page first. *)
Definition texturesOf {T : Type} (va : VariantAtlas.t T) : list T :=
  Page.texture <$> pagesOf va.

(** The steps that [reserveGlyph], [fillGlyph], [addGlyph] and [markEmpty]
    are made of: a page is created as the Latin page or appended to the
    mixed pages, a glyph is packed on a page of the atlas, or the index and
    the pending set are written. *)
Inductive atlasStep {T F : Type} `{TextureFactory T F}
    : VariantAtlas.t T * F -> VariantAtlas.t T * F -> Prop :=
  | StepLatin va f :
      VariantAtlas.latinPage va = None ->
      atlasStep (va, f)
        (VariantAtlas.setPages va
           (Some (Page.new (VariantAtlas.pageSize va) (VariantAtlas.pageSize va) f).1)
           (VariantAtlas.mixedPages va) (VariantAtlas.warnings va),
         (Page.new (VariantAtlas.pageSize va) (VariantAtlas.pageSize va) f).2)
  | StepMixed va f w :
      atlasStep (va, f)
        (VariantAtlas.setPages va (VariantAtlas.latinPage va)
           (VariantAtlas.mixedPages va ++
              [(Page.new (VariantAtlas.pageSize va) (VariantAtlas.pageSize va) f).1]) w,
         (Page.new (VariantAtlas.pageSize va) (VariantAtlas.pageSize va) f).2)
  | StepPack va f ref page pixels w h :
      VariantAtlas.getPage ref va = Some page ->
      atlasStep (va, f)
        (VariantAtlas.setPage ref (Page.tryAdd pixels w h page).2 va, f)
  | StepIndex va f idx pend :
      atlasStep (va, f) (VariantAtlas.setIndex va idx pend, f).

(** The font atlas has configuration [cfg], every variant atlas it holds
    satisfies [I], and every queued generation has a size that [okSize]
    accepts. *)
Definition atlasesAll {T F G : Type} (cfg : AtlasConfig.t)
    (I : VariantAtlas.t T -> Prop) (okSize : option Z -> Prop)
    (fa : FontAtlas.t T F G) : Prop :=
  FontAtlas.config fa = cfg /\
  Forall (fun a => I a.2) (FontAtlas.atlases fa) /\
  Forall (fun e => okSize (PendingGlyph.genSize e)) (FontAtlas.pendingGlyphs fa).

(** Every location of the index refers to a page of the configured size. *)
Definition located {T : Type} (va : VariantAtlas.t T) : Prop :=
  forall cp loc, VariantAtlas.glyphIndex va !! cp = Some loc ->
    LocationPage.width (GlyphLocation.page loc) = VariantAtlas.pageSize va /\
    LocationPage.height (GlyphLocation.page loc) = VariantAtlas.pageSize va.

(** A texture coordinate between 0 and 1. *)
Definition unitNumber (n : number) : Prop :=
  match n with
  | Num q => (0 <= q /\ q <= 1)%Q
  | _ => False
  end.

Definition numberLe (n m : number) : Prop :=
  match n, m with
  | Num p, Num q => (p <= q)%Q
  | _, _ => False
  end.

(** The pool when [ready] resolves, the workers having reported ready in
    the order [order]. *)
Definition readyPool (order : list nat) : WorkerPool.t :=
  fold_left (fun s w => WorkerPool.setupWorker w s) order
            (WorkerPool.new (length order)).

(** What happens to a ready pool: the executor of a [generateGlyph] promise
    runs, or a worker sends a result. *)
Inductive PoolEvent :=
  | Submit (charCode fontSize pixelRange : Z) (glyphType : WorkerPool.GlyphType)
  | WorkerResult (worker : nat) (data : WorkerPool.GlyphResult).

Definition handle (s : WorkerPool.t) (e : PoolEvent) : WorkerPool.t :=
  match e with
  | Submit c fs pr gt => (WorkerPool.generateGlyph c fs pr gt s).2
  | WorkerResult w data => WorkerPool.onResult w data s
  end.

Definition runPool (events : list PoolEvent) (s : WorkerPool.t) : WorkerPool.t :=
  fold_left handle events s.

(** The workers keep to their protocol: a result is sent only by a worker
    that was given a task and has not answered it yet. *)
Definition expected (s : WorkerPool.t) (e : PoolEvent) : bool :=
  match e with
  | Submit _ _ _ _ => true
  | WorkerResult w _ => bool_decide (is_Some (WorkerPool.workerTasks s !! w))
  end.

Fixpoint wellBehaved (events : list PoolEvent) (s : WorkerPool.t) : bool :=
  match events with
  | [] => true
  | e :: rest => expected s e && wellBehaved rest (handle s e)
  end.

(** The generate message that a task is posted as. *)
Definition messageOf (task : WorkerPool.Task) : WorkerPool.Generate :=
  WorkerPool.mkGenerate (WorkerPool.charCode task) (WorkerPool.fontSize task)
    (WorkerPool.pixelRange task) (WorkerPool.glyphType task).

(** The generate messages that the submissions among the events ask for. *)
Definition requested (events : list PoolEvent) : list WorkerPool.Generate :=
  omap (fun e => match e with
                 | Submit c fs pr gt => Some (WorkerPool.mkGenerate c fs pr gt)
                 | WorkerResult _ _ => None
                 end) events.

(** The promises of the tasks that workers are busy with. *)
Definition activePromises (s : WorkerPool.t) : list nat :=
  (fun kv => WorkerPool.pendingResolve kv.2) <$> map_to_list (WorkerPool.workerTasks s).

(** A queued task waits only while no worker is available. *)
Definition busyWhenQueued (s : WorkerPool.t) : Prop :=
  WorkerPool.taskQueue s = [] \/ WorkerPool.available s = [].

(** No worker is both available and busy, no worker is available twice,
    and every promise created so far is resolved, being worked on, or
    queued, exactly once. *)
Definition conserving (s : WorkerPool.t) : Prop :=
  NoDup (WorkerPool.available s) /\
  (forall w, w ∈ WorkerPool.available s -> WorkerPool.workerTasks s !! w = None) /\
  seq 0 (WorkerPool.promises s)
  ≡ₚ (WorkerPool.resolved s).*1 ++ activePromises s
     ++ (WorkerPool.resolve <$> WorkerPool.taskQueue s).

(** Projections of the pool states that the handlers build. *)
Ltac pool_simpl :=
  cbn [WorkerPool.workers WorkerPool.available WorkerPool.taskQueue
       WorkerPool.workerTasks WorkerPool.posted WorkerPool.resolved
       WorkerPool.promises WorkerPool.dispatchToWorker WorkerPool.setupWorker
       WorkerPool.pendingResolve WorkerPool.pendingCharCode
       WorkerPool.resolve WorkerPool.charCode fst snd] in *.

(** ** More concrete inputs *)

(** Three glyphs for an 8-pixel page: the third one starts a new row. *)
Definition threeGlyphs : list (Uint8Array * Z * Z) :=
  [(ramp 36, 3, 3); (ramp 16, 2, 2); (ramp 48, 4, 3)].

(** The tiny atlas after the letter A was reserved. *)
Definition reservedA : VariantAtlas.t nat * CountingBackend :=
  applyOps [OpReserve 65] (tinyAtlas, freshBackend).

(** The tiny atlas after the letter A was reserved and filled. *)
Definition filledA : VariantAtlas.t nat * CountingBackend :=
  applyOps [OpReserve 65; OpFill 65 (ramp 36) square3] (tinyAtlas, freshBackend).

(** The demo atlas over a generator that has no font loaded. *)
Definition noFontAtlas : FontAtlas.t nat CountingBackend ToyGenerator :=
  FontAtlas.new {| loaded := None |} freshBackend true (Some demoConfig).

(** One opaque pixel: four floats, the last one out of range. *)
Definition onePixel : Float32Array := [0; 1 # 2; 1; 2]%Q.

(** A result message for a character. *)
Definition resultFor (charCode : Z) : WorkerPool.GlyphResult :=
  WorkerPool.mkResult charCode true None None 1.

(** Three glyphs asked of a pool of two workers; both workers answer. *)
Definition twoWorkers : list nat := [0; 1]%nat.

Definition poolRun : list PoolEvent :=
  [Submit 65 32 4 WorkerPool.mtsdf; Submit 66 32 4 WorkerPool.mtsdf;
   Submit 67 32 4 WorkerPool.mtsdf;
   WorkerResult 1 (resultFor 65); WorkerResult 0 (resultFor 66)].

(** The numbers of the list are in ascending order. *)
Fixpoint ascending (l : list Z) : bool :=
  match l with
  | x :: l' =>
      match l' with
      | y :: _ => (x <=? y) && ascending l'
      | [] => true
      end
  | [] => true
  end.

(** * Properties *)

(** ** Typed arrays and the blit *)

Lemma upto_S (n : nat) : upto (Z.of_nat (S n)) = upto (Z.of_nat n) ++ [Z.of_nat n].
Proof.
  unfold upto. rewrite !Nat2Z.id, seq_S, fmap_app. reflexivity.
Qed.

Lemma upto_nonpos n : n <= 0 -> upto n = [].
Proof. intros Hn. unfold upto. replace (Z.to_nat n) with O by lia. reflexivity. Qed.

Lemma elem_of_upto n k : k ∈ upto n <-> 0 <= k < n.
Proof.
  unfold upto. rewrite list_elem_of_fmap. split.
  - intros (i & -> & Hi). apply elem_of_seq in Hi. lia.
  - intros Hk. exists (Z.to_nat k). split; [lia|]. apply elem_of_seq. lia.
Qed.

Lemma Uint8Array_set_length a i v : length (Uint8Array_set a i v) = length a.
Proof. unfold Uint8Array_set. destruct (i <? 0); [done|]. apply length_insert. Qed.

Lemma Uint8Array_get_set a i v j :
  Uint8Array_get (Uint8Array_set a i v) j =
  if (i =? j) && (0 <=? j) && (j <? Z.of_nat (length a)) then v
  else Uint8Array_get a j.
Proof.
  unfold Uint8Array_set, Uint8Array_get.
  destruct (Z.ltb_spec j 0) as [Hj|Hj].
  { replace (0 <=? j) with false by lia. rewrite andb_false_r. simpl.
    destruct (i <? 0); reflexivity. }
  replace (0 <=? j) with true by lia. rewrite andb_true_r.
  destruct (Z.ltb_spec i 0) as [Hi|Hi].
  { replace (i =? j) with false by lia. reflexivity. }
  destruct (Z.eqb_spec i j) as [->|Hij]; simpl.
  - destruct (Z.ltb_spec j (Z.of_nat (length a))) as [Hl|Hl].
    + rewrite list_lookup_insert_eq by lia. reflexivity.
    + rewrite list_insert_ge by lia. reflexivity.
  - rewrite list_lookup_insert_ne by lia. reflexivity.
Qed.

(** A run of [n] stores starting at [d]. *)
Lemma fold_set_spec (g : Z -> Z) (d : Z) (n : nat) (buf : Uint8Array) :
  let buf' := fold_left (fun b col => Uint8Array_set b (d + col) (g col))
                        (upto (Z.of_nat n)) buf in
  length buf' = length buf /\
  forall i, Uint8Array_get buf' i =
    if (d <=? i) && (i <? d + Z.of_nat n) && (0 <=? i) && (i <? Z.of_nat (length buf))
    then g (i - d) else Uint8Array_get buf i.
Proof.
  induction n as [|n [IHl IHg]]; simpl.
  - split; [reflexivity|]. intros i. zcases.
  - rewrite upto_S, fold_left_app. cbn [fold_left].
    split.
    + rewrite Uint8Array_set_length. exact IHl.
    + intros i. rewrite Uint8Array_get_set, IHl, IHg.
      zcases. f_equal. lia.
Qed.

Lemma blitRow_spec pixels w h x y W buf row :
  length (Page.blitRow pixels w h x y W buf row) = length buf /\
  forall i, Uint8Array_get (Page.blitRow pixels w h x y W buf row) i =
    if hit w h x y W (length buf) row i
    then Uint8Array_get pixels (row * w * 4 + (i - dstOffset h x y W row))
    else Uint8Array_get buf i.
Proof.
  unfold Page.blitRow, hit, dstOffset.
  destruct (Z.le_gt_cases 0 (w * 4)) as [Hw|Hw].
  - pose proof (fold_set_spec
      (fun col => Uint8Array_get pixels (row * w * 4 + col))
      (((y + (h - 1 - row)) * W + x) * 4) (Z.to_nat (w * 4)) buf) as Hf.
    simpl in Hf. rewrite Z2Nat.id in Hf by lia. exact Hf.
  - rewrite upto_nonpos by lia. simpl. split; [reflexivity|].
    intros i. zcases.
Qed.

Lemma blit_rows_length pixels w h x y W rs buf :
  length (fold_left (Page.blitRow pixels w h x y W) rs buf) = length buf.
Proof.
  revert buf. induction rs as [|r rs IH]; intros buf; simpl; [reflexivity|].
  rewrite IH. apply blitRow_spec.
Qed.

Lemma blit_rows_miss pixels w h x y W rs buf i :
  (forall r, r ∈ rs -> hit w h x y W (length buf) r i = false) ->
  Uint8Array_get (fold_left (Page.blitRow pixels w h x y W) rs buf) i
  = Uint8Array_get buf i.
Proof.
  revert buf. induction rs as [|r rs IH]; intros buf Hm; simpl; [reflexivity|].
  destruct (blitRow_spec pixels w h x y W buf r) as [Hl Hg].
  rewrite IH.
  - rewrite Hg, Hm; [reflexivity | left].
  - intros r' Hr'. rewrite Hl. apply Hm. right. exact Hr'.
Qed.

Lemma blit_rows_hit pixels w h x y W rs1 r rs2 buf i :
  hit w h x y W (length buf) r i = true ->
  (forall r', r' ∈ rs2 -> hit w h x y W (length buf) r' i = false) ->
  Uint8Array_get (fold_left (Page.blitRow pixels w h x y W) (rs1 ++ r :: rs2) buf) i
  = Uint8Array_get pixels (r * w * 4 + (i - dstOffset h x y W r)).
Proof.
  intros Hh Hm. rewrite fold_left_app. cbn [fold_left].
  set (b1 := fold_left _ rs1 buf).
  assert (Hl1 : length b1 = length buf) by apply blit_rows_length.
  destruct (blitRow_spec pixels w h x y W b1 r) as [Hl Hg].
  rewrite blit_rows_miss.
  - rewrite Hg, Hl1, Hh. reflexivity.
  - intros r' Hr'. rewrite Hl, Hl1. apply Hm, Hr'.
Qed.

Lemma upto_split n r : 0 <= r < n ->
  exists rs1 rs2, upto n = rs1 ++ r :: rs2 /\ (forall r', r' ∈ rs2 -> r < r' < n).
Proof.
  intros Hr. unfold upto.
  replace (Z.to_nat n) with (Z.to_nat r + S (Z.to_nat (n - r - 1)))%nat by lia.
  rewrite seq_app, fmap_app. simpl.
  eexists _, _. split.
  - f_equal. f_equal. lia.
  - intros r' Hr'. apply list_elem_of_fmap in Hr' as (k & -> & Hk).
    apply elem_of_seq in Hk. lia.
Qed.

(** Bytes of two different page rows do not meet. *)
Lemma band_lt (W a a' u v : Z) :
  0 <= W -> a < a' -> 0 <= u <= W * 4 -> 0 <= v -> a * (W * 4) + u <= a' * (W * 4) + v.
Proof.
  intros HW Ha Hu Hv.
  assert ((a + 1) * (W * 4) <= a' * (W * 4)) by (apply Z.mul_le_mono_nonneg_r; lia).
  lia.
Qed.

Lemma hit_other_row w h x y W len r r' c :
  0 <= x -> 0 <= w -> x + w <= W -> r <> r' -> 0 <= c < 4 * w ->
  hit w h x y W len r' (dstOffset h x y W r + c) = false.
Proof.
  intros Hx Hw HxW Hne Hc. unfold hit, dstOffset.
  destruct (Z.lt_total r r') as [Hlt|[Heq|Hgt]]; [|congruence|].
  - pose proof (band_lt W (y + (h - 1 - r')) (y + (h - 1 - r))
                  (x * 4 + w * 4) (x * 4 + c)) as Hb.
    zcases.
  - pose proof (band_lt W (y + (h - 1 - r)) (y + (h - 1 - r'))
                  (x * 4 + c + 1) (x * 4)) as Hb.
    zcases.
Qed.

Lemma hit_outside w h x y W len r row col ch :
  0 <= x -> 0 <= w -> x + w <= W -> 0 <= r < h ->
  0 <= col < W -> 0 <= ch < 4 ->
  ~ (x <= col < x + w /\ y <= row < y + h) ->
  hit w h x y W len r ((row * W + col) * 4 + ch) = false.
Proof.
  intros Hx Hw HxW Hr Hcol Hch Hout. unfold hit, dstOffset.
  destruct (Z.lt_total row (y + (h - 1 - r))) as [Hlt|[Heq|Hgt]].
  - pose proof (band_lt W row (y + (h - 1 - r)) (col * 4 + ch + 1) (x * 4)) as Hb.
    zcases.
  - subst row. zcases.
  - pose proof (band_lt W (y + (h - 1 - r)) row (x * 4 + w * 4) (col * 4 + ch)) as Hb.
    zcases.
Qed.

(** The blit of a glyph that lies inside the page: every source byte
    lands, vertically flipped, and nothing else is touched. *)
Lemma blit_exact pixels w h x y W Hp buf :
  0 <= x -> 0 <= w -> x + w <= W -> 0 <= y -> 0 <= h -> y + h <= Hp ->
  length buf = Z.to_nat (W * Hp * 4) ->
  (forall r c, 0 <= r < h -> 0 <= c < 4 * w ->
     Uint8Array_get (Page.blit pixels w h x y W buf)
                    (((y + (h - 1 - r)) * W + x) * 4 + c)
     = Uint8Array_get pixels ((r * w) * 4 + c)) /\
  (forall row col ch, 0 <= col < W -> 0 <= ch < 4 ->
     ~ (x <= col < x + w /\ y <= row < y + h) ->
     Uint8Array_get (Page.blit pixels w h x y W buf) ((row * W + col) * 4 + ch)
     = Uint8Array_get buf ((row * W + col) * 4 + ch)).
Proof.
  intros Hx Hw HxW Hy Hh HyH Hlen. unfold Page.blit. split.
  - intros r c Hr Hc.
    destruct (upto_split h r Hr) as (rs1 & rs2 & -> & Hrs2).
    change (((y + (h - 1 - r)) * W + x) * 4) with (dstOffset h x y W r).
    rewrite blit_rows_hit.
    + f_equal. lia.
    + unfold hit, dstOffset. rewrite Hlen.
      assert ((y + (h - 1 - r)) * (W * 4) + (W * 4) <= Hp * (W * 4)).
      { replace ((y + (h - 1 - r)) * (W * 4) + W * 4)
          with ((y + (h - 1 - r) + 1) * (W * 4)) by lia.
        apply Z.mul_le_mono_nonneg_r; lia. }
      assert (0 <= (y + (h - 1 - r)) * (W * 4)) by (apply Z.mul_nonneg_nonneg; lia).
      assert (0 <= W * Hp * 4) by lia.
      rewrite Z2Nat.id by lia. zcases.
    + intros r' Hr'. apply hit_other_row; try lia.
      specialize (Hrs2 r' Hr'). lia.
  - intros row col ch Hcol Hch Hout.
    apply blit_rows_miss. intros r Hr. apply elem_of_upto in Hr.
    apply hit_outside; assumption.
Qed.

(** ** Page.tryAdd *)

Lemma advanceRow_fields {T} (w : Z) (p : Page.t T) :
  Page.width (Page.advanceRow w p) = Page.width p /\
  Page.height (Page.advanceRow w p) = Page.height p /\
  Page.buffer (Page.advanceRow w p) = Page.buffer p /\
  Page.texture (Page.advanceRow w p) = Page.texture p /\
  Page.dirty (Page.advanceRow w p) = Page.dirty p.
Proof. unfold Page.advanceRow. destruct (_ >? _); simpl; auto. Qed.

Lemma tryAdd_fields {T} pixels (w h : Z) (p : Page.t T) :
  Page.width (snd (Page.tryAdd pixels w h p)) = Page.width p /\
  Page.height (snd (Page.tryAdd pixels w h p)) = Page.height p /\
  Page.texture (snd (Page.tryAdd pixels w h p)) = Page.texture p.
Proof.
  destruct (advanceRow_fields w p) as (Hw & Hh & _ & Ht & _).
  unfold Page.tryAdd. destruct (_ >? _); simpl; auto.
Qed.

(** C4.  [tryAdd] pads the glyph by one pixel each way, moves to the next
    shelf row when the padded glyph does not fit after the cursor, answers
    [null] exactly when the padded glyph then passes the bottom of the page,
    and otherwise returns the cursor and moves it past the padded glyph. *)
Theorem C4_tryAdd_shelf_step {T} (pixels : Uint8Array) (w h : Z) (p : Page.t T) :
  let paddedW := w + 1 in
  let paddedH := h + 1 in
  let advance := Page.cursorX p + paddedW >? Page.width p in
  let cx := if advance then 0 else Page.cursorX p in
  let cy := if advance then Page.cursorY p + (Page.rowHeight p + 1)
            else Page.cursorY p in
  let rh := if advance then 0 else Page.rowHeight p in
  (fst (Page.tryAdd pixels w h p) = None <-> cy + paddedH > Page.height p) /\
  match Page.tryAdd pixels w h p with
  | (None, p') =>
      Page.cursorX p' = cx /\ Page.cursorY p' = cy /\ Page.rowHeight p' = rh /\
      Page.dirty p' = Page.dirty p /\ Page.buffer p' = Page.buffer p
  | (Some xy, p') =>
      xy = (cx, cy) /\
      Page.cursorX p' = cx + paddedW /\ Page.cursorY p' = cy /\
      Page.rowHeight p' = Z.max rh paddedH /\ Page.dirty p' = true
  end.
Proof.
  unfold Page.tryAdd, Page.advanceRow, Page.padding. cbv zeta.
  destruct (Page.cursorX p + (w + 1) >? Page.width p); simpl.
  - destruct (Z.gtb_spec (Page.cursorY p + (Page.rowHeight p + 1) + (h + 1))
                         (Page.height p)); simpl.
    + split; [split; [lia | reflexivity] | auto].
    + split; [split; [discriminate | lia] | auto].
  - destruct (Z.gtb_spec (Page.cursorY p + (h + 1)) (Page.height p)); simpl.
    + split; [split; [lia | reflexivity] | auto].
    + split; [split; [discriminate | lia] | auto].
Qed.

Lemma new_pageOk {T F} `{TextureFactory T F} (w h : Z) (f : F) :
  pageOk (fst (Page.new w h f)).
Proof.
  unfold Page.new, pageOk. destruct (create _ _ _ _) as [tex f']. simpl.
  unfold Uint8Array_new. rewrite repeat_length. lia.
Qed.

Lemma blit_length pixels w h x y W buf :
  length (Page.blit pixels w h x y W buf) = length buf.
Proof. apply blit_rows_length. Qed.

Lemma tryAdd_pageOk {T} pixels (w h : Z) (p : Page.t T) :
  0 <= w -> pageOk p -> pageOk (snd (Page.tryAdd pixels w h p)).
Proof.
  unfold pageOk, Page.tryAdd, Page.advanceRow, Page.padding.
  intros Hw (Hx & Hy & Hr & Hl).
  destruct (Page.cursorX p + (w + 1) >? Page.width p); simpl;
    destruct (_ >? _); simpl; rewrite ?blit_length; repeat split; try lia.
Qed.

(** A glyph no wider than the page is placed inside the page. *)
Lemma tryAdd_inside {T} pixels (w h x y : Z) (p p' : Page.t T) :
  pageOk p -> 0 <= w <= Page.width p -> 0 <= h ->
  Page.tryAdd pixels w h p = (Some (x, y), p') ->
  0 <= x /\ x + w <= Page.width p /\ 0 <= y /\ y + h <= Page.height p.
Proof.
  unfold pageOk, Page.tryAdd, Page.advanceRow, Page.padding.
  intros (Hx & Hy & Hr & _) Hw Hh.
  destruct (Z.gtb_spec (Page.cursorX p + (w + 1)) (Page.width p)); simpl;
    match goal with |- context [?a >? ?b] => destruct (Z.gtb_spec a b) end;
    intros [= <- <- <-]; lia.
Qed.

(** On a glyph that fits the page, [tryAdd] copies the pixels byte for
    byte, flipped vertically, and leaves the rest of the buffer alone. *)
Lemma tryAdd_blit_exact {T} pixels (w h x y : Z) (p p' : Page.t T) :
  pageOk p -> 0 <= w <= Page.width p -> 0 <= h ->
  Page.tryAdd pixels w h p = (Some (x, y), p') ->
  (forall r c, 0 <= r < h -> 0 <= c < 4 * w ->
     Uint8Array_get (Page.buffer p') (((y + (h - 1 - r)) * Page.width p + x) * 4 + c)
     = Uint8Array_get pixels ((r * w) * 4 + c)) /\
  (forall row col ch, 0 <= col < Page.width p -> 0 <= ch < 4 ->
     ~ (x <= col < x + w /\ y <= row < y + h) ->
     Uint8Array_get (Page.buffer p') ((row * Page.width p + col) * 4 + ch)
     = Uint8Array_get (Page.buffer p) ((row * Page.width p + col) * 4 + ch)).
Proof.
  intros Hok Hw Hh Hadd.
  destruct (tryAdd_inside pixels w h x y p p' Hok Hw Hh Hadd) as (Hx & HxW & Hy & HyH).
  destruct Hok as (_ & _ & _ & Hl).
  destruct (advanceRow_fields w p) as (Ew & Eh & Eb & _ & _).
  revert Hadd. unfold Page.tryAdd.
  destruct (_ >? _); [discriminate|]. intros [= Ex Ey <-]. simpl.
  rewrite Ex, Ey, Ew, Eb.
  apply (blit_exact pixels w h x y (Page.width p) (Page.height p)); lia.
Qed.

(** ** VariantAtlas: index and pending set *)

Section VariantAtlasFacts.
Context {T F : Type} `{TextureFactory T F}.

Lemma sameIndex_refl (va : VariantAtlas.t T) : sameIndex va va.
Proof. repeat split. Qed.

Lemma sameIndex_trans (va1 va2 va3 : VariantAtlas.t T) :
  sameIndex va1 va2 -> sameIndex va2 va3 -> sameIndex va1 va3.
Proof. unfold sameIndex. intuition congruence. Qed.

Lemma setPages_sameIndex (va : VariantAtlas.t T) lp mp w : sameIndex va (VariantAtlas.setPages va lp mp w).
Proof. repeat split. Qed.

Lemma setPage_sameIndex ref p (va : VariantAtlas.t T) : sameIndex va (VariantAtlas.setPage ref p va).
Proof. destruct ref; repeat split. Qed.

Lemma createMixedPage_sameIndex va (f : F) ref page va' f' :
  VariantAtlas.createMixedPage va f = (ref, page, va', f') -> sameIndex va va'.
Proof.
  unfold VariantAtlas.createMixedPage. destruct (Page.new _ _ _).
  intros [= <- <- <- <-]. repeat split.
Qed.

Lemma getOrCreatePage_sameIndex isLatin gh va (f : F) ref page va' f' :
  VariantAtlas.getOrCreatePage isLatin gh va f = (ref, page, va', f') ->
  sameIndex va va'.
Proof.
  unfold VariantAtlas.getOrCreatePage. destruct isLatin.
  - destruct (VariantAtlas.latinPage va).
    + intros [= <- <- <- <-]. apply sameIndex_refl.
    + destruct (Page.new _ _ _). intros [= <- <- <- <-]. repeat split.
  - destruct (findFirst _ _) as [[i p]|].
    + intros [= <- <- <- <-]. apply sameIndex_refl.
    + apply createMixedPage_sameIndex.
Qed.

(** What [reserveGlyph] does to the index and the pending set. *)
Lemma reserveGlyph_spec cp va (f : F) loc va' f' :
  VariantAtlas.reserveGlyph cp va f = (loc, va', f') ->
  VariantAtlas.glyphIndex va' = <[cp := loc]> (VariantAtlas.glyphIndex va) /\
  VariantAtlas.pendingGlyphs va' = {[cp]} ∪ VariantAtlas.pendingGlyphs va /\
  GlyphLocation.x loc = 0 /\ GlyphLocation.y loc = 0 /\
  GlyphLocation.width loc = 0 /\ GlyphLocation.height loc = 0 /\
  GlyphLocation.metrics loc = PLACEHOLDER_METRICS /\
  GlyphLocation.empty loc = false /\ GlyphLocation.missing loc = false.
Proof.
  unfold VariantAtlas.reserveGlyph.
  destruct (VariantAtlas.getOrCreatePage _ _ _ _) as [[[ref page] va1] f1] eqn:E.
  apply getOrCreatePage_sameIndex in E as (Ei & Ep & _).
  intros [= <- <- <-]. simpl. rewrite Ei, Ep. repeat split.
Qed.

Lemma markEmpty_spec cp missing (va : VariantAtlas.t T) :
  VariantAtlas.pendingGlyphs (VariantAtlas.markEmpty cp missing va)
    = VariantAtlas.pendingGlyphs va ∖ {[cp]} /\
  (forall cp', cp' <> cp ->
     VariantAtlas.glyphIndex (VariantAtlas.markEmpty cp missing va) !! cp'
     = VariantAtlas.glyphIndex va !! cp') /\
  VariantAtlas.glyphIndex (VariantAtlas.markEmpty cp missing va) !! cp
    = (fun location =>
         GlyphLocation.mk (GlyphLocation.page location)
           (GlyphLocation.x location) (GlyphLocation.y location) 0 0
           (GlyphLocation.metrics location) true missing)
      <$> VariantAtlas.glyphIndex va !! cp.
Proof.
  unfold VariantAtlas.markEmpty. simpl.
  destruct (VariantAtlas.glyphIndex va !! cp) as [loc|] eqn:E; simpl.
  - split; [reflexivity|]. split.
    + intros cp' Hne. apply lookup_insert_ne. congruence.
    + apply lookup_insert_eq.
  - split; [reflexivity|]. split; [reflexivity|]. exact E.
Qed.

(** What [fillGlyph] does to the index and the pending set, whether it
    returns or throws. *)
Lemma fillGlyph_spec cp pixels metrics va (f : F) r va' f' :
  VariantAtlas.fillGlyph cp pixels metrics va f = (r, va', f') ->
  (forall cp', cp' <> cp ->
     VariantAtlas.glyphIndex va' !! cp' = VariantAtlas.glyphIndex va !! cp' /\
     (cp' ∈ VariantAtlas.pendingGlyphs va' <-> cp' ∈ VariantAtlas.pendingGlyphs va)) /\
  match r with
  | Ok _ =>
      VariantAtlas.pendingGlyphs va' = VariantAtlas.pendingGlyphs va ∖ {[cp]} /\
      (is_Some (VariantAtlas.glyphIndex va' !! cp)
       <-> is_Some (VariantAtlas.glyphIndex va !! cp))
  | Throw _ =>
      VariantAtlas.glyphIndex va' = VariantAtlas.glyphIndex va /\
      VariantAtlas.pendingGlyphs va' = VariantAtlas.pendingGlyphs va
  end.
Proof.
  unfold VariantAtlas.fillGlyph.
  destruct (VariantAtlas.getOrCreatePage _ _ _ _) as [[[ref page] va1] f1] eqn:E.
  apply getOrCreatePage_sameIndex in E as (Ei & Ep & _).
  destruct (Page.tryAdd _ _ _ page) as [pos page'].
  pose proof (setPage_sameIndex ref page' va1) as (Ei2 & Ep2 & _).
  assert (Hupd : forall pg np va2,
    VariantAtlas.glyphIndex va2 = VariantAtlas.glyphIndex va ->
    VariantAtlas.pendingGlyphs va2 = VariantAtlas.pendingGlyphs va ->
    let va3 := VariantAtlas.updateGlyphLocation cp pg np metrics va2 in
    (forall cp', cp' <> cp ->
       VariantAtlas.glyphIndex va3 !! cp' = VariantAtlas.glyphIndex va !! cp' /\
       (cp' ∈ VariantAtlas.pendingGlyphs va3 <-> cp' ∈ VariantAtlas.pendingGlyphs va)) /\
    VariantAtlas.pendingGlyphs va3 = VariantAtlas.pendingGlyphs va ∖ {[cp]} /\
    (is_Some (VariantAtlas.glyphIndex va3 !! cp)
       <-> is_Some (VariantAtlas.glyphIndex va !! cp))).
  { intros pg np va2 Hi Hp. unfold VariantAtlas.updateGlyphLocation. simpl.
    rewrite Hi, Hp.
    destruct (VariantAtlas.glyphIndex va !! cp) as [l|] eqn:El.
    - split; [|split; [reflexivity|]].
      + intros cp' Hne. rewrite lookup_insert_ne by congruence.
        split; [reflexivity | rewrite elem_of_difference, elem_of_singleton; tauto].
      + rewrite lookup_insert_eq. split; eauto.
    - split; [|split; [reflexivity|]].
      + intros cp' Hne. split; [reflexivity | rewrite elem_of_difference, elem_of_singleton; tauto].
      + rewrite El. reflexivity. }
  destruct pos as [p|].
  - intros [= <- <- <-]. apply Hupd; congruence.
  - destruct (isLatinChar cp).
    + intros [= <- <- <-]. split.
      * intros cp' _. rewrite Ei2, Ep2, Ei, Ep. tauto.
      * split; congruence.
    + destruct (VariantAtlas.createMixedPage _ _) as [[[newRef newPage] va3] f3] eqn:E3.
      apply createMixedPage_sameIndex in E3 as (Ei3 & Ep3 & _).
      destruct (Page.tryAdd _ _ _ newPage) as [newPos newPage'].
      pose proof (setPage_sameIndex newRef newPage' va3) as (Ei4 & Ep4 & _).
      destruct newPos as [np|].
      * intros [= <- <- <-]. apply Hupd; congruence.
      * intros [= <- <- <-]. split.
        -- intros cp' _. rewrite Ei4, Ep4, Ei3, Ep3, Ei2, Ep2, Ei, Ep. tauto.
        -- split; congruence.
Qed.

(** What [addGlyph] does to the index and the pending set. *)
Lemma addGlyph_spec cp pixels metrics va (f : F) r va' f' :
  VariantAtlas.addGlyph cp pixels metrics va f = (r, va', f') ->
  match r with
  | Ok loc =>
      VariantAtlas.glyphIndex va' = <[cp := loc]> (VariantAtlas.glyphIndex va) /\
      VariantAtlas.pendingGlyphs va' = VariantAtlas.pendingGlyphs va ∖ {[cp]}
  | Throw _ =>
      VariantAtlas.glyphIndex va' = VariantAtlas.glyphIndex va /\
      VariantAtlas.pendingGlyphs va' = VariantAtlas.pendingGlyphs va
  end.
Proof.
  unfold VariantAtlas.addGlyph.
  destruct (VariantAtlas.getOrCreatePage _ _ _ _) as [[[ref page] va1] f1] eqn:E.
  apply getOrCreatePage_sameIndex in E as (Ei & Ep & _).
  destruct (Page.tryAdd _ _ _ page) as [pos page'].
  pose proof (setPage_sameIndex ref page' va1) as (Ei2 & Ep2 & _).
  destruct pos as [p|].
  - unfold VariantAtlas.storeGlyph. intros [= <- <- <-]. simpl.
    rewrite Ei2, Ep2, Ei, Ep. split; reflexivity.
  - destruct (isLatinChar cp).
    + intros [= <- <- <-]. split; congruence.
    + destruct (VariantAtlas.createMixedPage _ _) as [[[newRef newPage] va3] f3] eqn:E3.
      apply createMixedPage_sameIndex in E3 as (Ei3 & Ep3 & _).
      destruct (Page.tryAdd _ _ _ newPage) as [newPos newPage'].
      pose proof (setPage_sameIndex newRef newPage' va3) as (Ei4 & Ep4 & _).
      destruct newPos as [np|].
      * unfold VariantAtlas.storeGlyph. intros [= <- <- <-]. simpl.
        rewrite Ei4, Ep4, Ei3, Ep3, Ei2, Ep2, Ei, Ep. split; reflexivity.
      * intros [= <- <- <-]. split; congruence.
Qed.

Lemma flushDirtyPages_sameIndex va (f : F) va' f' :
  VariantAtlas.flushDirtyPages va f = (va', f') -> sameIndex va va'.
Proof.
  unfold VariantAtlas.flushDirtyPages.
  destruct (match VariantAtlas.latinPage va with Some _ => _ | None => _ end) as [lp f1].
  destruct (VariantAtlas.flushAll _ _) as [mp f2].
  intros [= <- <-]. repeat split.
Qed.

Lemma ready_iff cp (va : VariantAtlas.t T) :
  ready cp va <->
  (cp ∉ VariantAtlas.pendingGlyphs va) /\ is_Some (VariantAtlas.glyphIndex va !! cp).
Proof.
  unfold ready, VariantAtlas.getGlyph. case_bool_decide as Hp.
  - split; [intros [? [=]] | tauto].
  - tauto.
Qed.

Lemma reserve_markEmpty_ready cp missing va (f : F) loc va' f' :
  VariantAtlas.reserveGlyph cp va f = (loc, va', f') ->
  ready cp (VariantAtlas.markEmpty cp missing va') /\
  forall cp', ready cp' va -> ready cp' (VariantAtlas.markEmpty cp missing va').
Proof.
  intros Hr. apply reserveGlyph_spec in Hr as (Hi & Hp & _).
  destruct (markEmpty_spec cp missing va') as (Mp & Mo & Mc).
  split.
  - apply ready_iff. rewrite Mp, Mc, Hi, lookup_insert_eq. split; [set_cases | eauto].
  - intros cp' Hc. destruct (decide (cp' = cp)) as [->|Hne].
    + apply ready_iff. rewrite Mp, Mc, Hi, lookup_insert_eq. split; [set_cases | eauto].
    + apply ready_iff in Hc as [Hc1 Hc2]. apply ready_iff.
      rewrite Mp, (Mo cp' Hne), Hi, Hp, lookup_insert_ne by congruence.
      split; [set_cases | assumption].
Qed.

Lemma addGlyph_ready cp pixels metrics va (f : F) loc va' f' :
  VariantAtlas.addGlyph cp pixels metrics va f = (Ok loc, va', f') ->
  ready cp va' /\ forall cp', ready cp' va -> ready cp' va'.
Proof.
  intros Ha. apply addGlyph_spec in Ha as (Hi & Hp).
  split.
  - apply ready_iff. rewrite Hp, Hi, lookup_insert_eq. split; [set_cases | eauto].
  - intros cp' Hc. apply ready_iff in Hc as [Hc1 Hc2]. apply ready_iff.
    rewrite Hp, Hi. split; [set_cases|].
    destruct (decide (cp = cp')) as [->|Hne].
    + rewrite lookup_insert_eq. eauto.
    + rewrite lookup_insert_ne by assumption. assumption.
Qed.
End VariantAtlasFacts.

Lemma mapGet_mapSet_eq {V} k (v : V) m : mapGet k (mapSet k v m) = Some v.
Proof.
  induction m as [|[k' v'] m IH]; simpl.
  - rewrite String.eqb_refl. reflexivity.
  - destruct (String.eqb k k') eqn:E; simpl; rewrite E; [reflexivity | exact IH].
Qed.

Lemma mapGet_mapSet_ne {V} k k' (v : V) m :
  k <> k' -> mapGet k (mapSet k' v m) = mapGet k m.
Proof.
  intros Hne. induction m as [|[k0 v0] m IH]; simpl.
  - apply String.eqb_neq in Hne. rewrite Hne. reflexivity.
  - destruct (String.eqb k' k0) eqn:E; simpl.
    + apply String.eqb_eq in E. subst k0.
      apply String.eqb_neq in Hne. rewrite Hne. reflexivity.
    + destruct (String.eqb k k0); [reflexivity | exact IH].
Qed.

Lemma LATIN_CODEPOINTS_spec cp :
  cp ∈ LATIN_CODEPOINTS <->
  (0x30 <= cp <= 0x39 \/ 0x41 <= cp <= 0x5A \/ 0x61 <= cp <= 0x7A).
Proof.
  change LATIN_CODEPOINTS with
    (((fun k => 0x30 + k) <$> upto 10) ++ ((fun k => 0x41 + k) <$> upto 26)
     ++ ((fun k => 0x61 + k) <$> upto 26)).
  rewrite !elem_of_app, !list_elem_of_fmap.
  split.
  - intros [(k & -> & Hk)|[(k & -> & Hk)|(k & -> & Hk)]];
      apply elem_of_upto in Hk; lia.
  - intros [Hc|[Hc|Hc]].
    + left. exists (cp - 0x30). split; [lia | apply elem_of_upto; lia].
    + right; left. exists (cp - 0x41). split; [lia | apply elem_of_upto; lia].
    + right; right. exists (cp - 0x61). split; [lia | apply elem_of_upto; lia].
Qed.

Lemma isLatinChar_spec cp :
  isLatinChar cp = true <->
  (0x30 <= cp <= 0x39 \/ 0x41 <= cp <= 0x5A \/ 0x61 <= cp <= 0x7A).
Proof.
  unfold isLatinChar, LATIN_RANGES. simpl.
  rewrite !orb_true_iff, !andb_true_iff, !Z.leb_le. intuition lia.
Qed.

Section FontAtlasFacts.
Context {T F G : Type} `{TextureFactory T F} `{MSDFGenerator G}.

Lemma sameQueue_refl (fa : FontAtlas.t T F G) : sameQueue fa fa.
Proof. repeat split. Qed.

Lemma sameQueue_trans (fa1 fa2 fa3 : FontAtlas.t T F G) :
  sameQueue fa1 fa2 -> sameQueue fa2 fa3 -> sameQueue fa1 fa3.
Proof. unfold sameQueue. intuition congruence. Qed.

Lemma setWorld_sameQueue (fa : FontAtlas.t T F G) g f ats : sameQueue fa (FontAtlas.setWorld fa g f ats).
Proof. repeat split. Qed.

Lemma getOrCreateAtlas_spec variantId genSize (fa : FontAtlas.t T F G) key atlas fa1 :
  FontAtlas.getOrCreateAtlas variantId genSize fa = (key, atlas, fa1) ->
  key = FontAtlas.atlasKey variantId genSize /\
  mapGet key (FontAtlas.atlases fa1) = Some atlas /\
  (forall k, k <> key ->
     mapGet k (FontAtlas.atlases fa1) = mapGet k (FontAtlas.atlases fa)) /\
  (mapGet key (FontAtlas.atlases fa) = Some atlas /\ fa1 = fa \/
   mapGet key (FontAtlas.atlases fa) = None /\
   atlas = VariantAtlas.new variantId genSize
             (AtlasConfig.pageSize (FontAtlas.config fa))
             (AtlasConfig.maxMixedPages (FontAtlas.config fa))) /\
  FontAtlas.msdf fa1 = FontAtlas.msdf fa /\
  FontAtlas.textureFactory fa1 = FontAtlas.textureFactory fa /\
  sameQueue fa fa1.
Proof.
  unfold FontAtlas.getOrCreateAtlas.
  destruct (mapGet _ (FontAtlas.atlases fa)) as [a|] eqn:E.
  - intros [= <- <- <-]. repeat split; auto.
  - intros [= <- <- <-]. simpl. split; [reflexivity|].
    split; [apply mapGet_mapSet_eq|].
    split; [intros k Hk; apply mapGet_mapSet_ne, Hk|].
    repeat split; auto.
Qed.
End FontAtlasFacts.

(** ** VariantAtlas.fillGlyph *)

Section Fill.
Context {T F : Type} `{TextureFactory T F}.

Lemma insert_at_end {A} (l : list A) (x y : A) :
  <[length l := x]> (l ++ [y]) = l ++ [x].
Proof.
  rewrite insert_app_r_alt by lia. rewrite Nat.sub_diag. reflexivity.
Qed.

Lemma getOrCreatePage_pageSize isLatin gh (va : VariantAtlas.t T) (f : F)
    ref page va1 f1 p :
  VariantAtlas.getOrCreatePage isLatin gh va f = (ref, page, va1, f1) ->
  VariantAtlas.pageSize (VariantAtlas.setPage ref p va1) = VariantAtlas.pageSize va.
Proof.
  intros E. apply getOrCreatePage_sameIndex in E as (_ & _ & Hp & _).
  destruct (setPage_sameIndex ref p va1) as (_ & _ & Hp2 & _). congruence.
Qed.
End Fill.

(** C6.  When [tryAdd] on the page that [fillGlyph] selected answers
    [null]: for a Latin code point [fillGlyph] throws at once and neither the
    atlas nor the texture backend sees another page; for any other code point
    exactly one new mixed page is created and appended, the placement is
    retried on it, and [fillGlyph] throws exactly when this retry answers
    [null] as well. *)
Theorem C6_fillGlyph_on_no_fit {T F : Type} `{TextureFactory T F}
    (cp : Z) (pixels : Uint8Array) (metrics : GlyphMetrics.t)
    (va va1 : VariantAtlas.t T) (f f1 : F) (ref : PageRef) (page page' : Page.t T) :
  let w := GlyphMetrics.width metrics in
  let h := GlyphMetrics.height metrics in
  VariantAtlas.getOrCreatePage (isLatinChar cp) (Some h) va f = (ref, page, va1, f1) ->
  Page.tryAdd pixels w h page = (None, page') ->
  let va2 := VariantAtlas.setPage ref page' va1 in
  let '(r, va', f') := VariantAtlas.fillGlyph cp pixels metrics va f in
  if isLatinChar cp then
    r = Throw LatinPageFull /\ va' = va2 /\ f' = f1
  else
    let '(fresh, f2) :=
      Page.new (VariantAtlas.pageSize va) (VariantAtlas.pageSize va) f1 in
    let '(pos, fresh') := Page.tryAdd pixels w h fresh in
    VariantAtlas.mixedPages va' = VariantAtlas.mixedPages va2 ++ [fresh'] /\
    VariantAtlas.latinPage va' = VariantAtlas.latinPage va2 /\
    f' = f2 /\
    match pos with
    | None =>
        r = Throw (FreshPageCantFit w h) /\
        VariantAtlas.glyphIndex va' = VariantAtlas.glyphIndex va
    | Some xy =>
        r = Ok tt /\
        VariantAtlas.glyphIndex va' !! cp
        = (fun _ => GlyphLocation.mk (VariantAtlas.pageOf fresh') xy.1 xy.2 w h
                      metrics false false)
          <$> VariantAtlas.glyphIndex va !! cp
    end.
Proof.
  intros w h Hsel Hadd va2.
  pose proof (getOrCreatePage_pageSize _ _ _ _ _ _ _ _ page' Hsel) as Hps.
  pose proof (getOrCreatePage_sameIndex _ _ _ _ _ _ _ _ Hsel) as (Hi1 & _).
  pose proof (setPage_sameIndex ref page' va1) as (Hi2 & _).
  unfold VariantAtlas.fillGlyph. fold w h. rewrite Hsel, Hadd. fold va2.
  destruct (isLatinChar cp); [auto|].
  unfold VariantAtlas.createMixedPage. fold va2 in Hps. rewrite Hps.
  destruct (Page.new _ _ f1) as [fresh f2].
  destruct (Page.tryAdd pixels w h fresh) as [[xy|] fresh'] eqn:E2; simpl.
  - rewrite insert_at_end. repeat split; try reflexivity.
    fold va2 in Hi2. rewrite Hi2, Hi1.
    destruct (VariantAtlas.glyphIndex va !! cp) eqn:El; simpl.
    + apply lookup_insert_eq.
    + exact El.
  - rewrite insert_at_end. repeat split; try reflexivity.
    fold va2 in Hi2. congruence.
Qed.

(** ** The page of a reserved location *)

Section ReservedPage.
Context {T F : Type} `{TextureFactory T F}.

Lemma tryAdd_pageOf pixels w h (p : Page.t T) :
  VariantAtlas.pageOf (Page.tryAdd pixels w h p).2 = VariantAtlas.pageOf p.
Proof.
  unfold VariantAtlas.pageOf.
  destruct (tryAdd_fields pixels w h p) as (-> & -> & ->). reflexivity.
Qed.

Lemma flush_pageOf (p : Page.t T) (f : F) :
  VariantAtlas.pageOf (Page.flush p f).1 = VariantAtlas.pageOf p.
Proof. unfold Page.flush. destruct (Page.dirty p); reflexivity. Qed.

Lemma createMixedPage_latinPage (va : VariantAtlas.t T) (f : F) :
  VariantAtlas.latinPage (VariantAtlas.createMixedPage va f).1.2
  = VariantAtlas.latinPage va /\
  exists i, (VariantAtlas.createMixedPage va f).1.1.1 = MixedRef i.
Proof.
  unfold VariantAtlas.createMixedPage. destruct (Page.new _ _ _). simpl. eauto.
Qed.

(** Page selection on an atlas that has its Latin page. *)
Lemma getOrCreatePage_latinIs pg isLatin gh (va : VariantAtlas.t T) (f : F)
    ref page va1 f1 :
  latinIs pg va ->
  VariantAtlas.getOrCreatePage isLatin gh va f = (ref, page, va1, f1) ->
  VariantAtlas.latinPage va1 = VariantAtlas.latinPage va /\
  (if isLatin then ref = LatinRef /\ VariantAtlas.latinPage va = Some page /\
                   va1 = va /\ f1 = f
   else exists i, ref = MixedRef i).
Proof.
  intros (p & Hp & _). unfold VariantAtlas.getOrCreatePage. destruct isLatin.
  - rewrite Hp. intros [= <- <- <- <-]. auto.
  - destruct (findFirst _ _) as [[i q]|].
    + intros [= <- <- <- <-]. eauto.
    + intros E. destruct (createMixedPage_latinPage va f) as [Hl [i Hi]].
      rewrite E in Hl, Hi. simpl in *. eauto.
Qed.

Lemma setPage_mixed_latinPage i (p : Page.t T) (va : VariantAtlas.t T) :
  VariantAtlas.latinPage (VariantAtlas.setPage (MixedRef i) p va)
  = VariantAtlas.latinPage va.
Proof. reflexivity. Qed.

(** The Latin page after the placement attempts of [fillGlyph] and
    [addGlyph]. *)
Lemma place_latinIs pg isLatin pixels w h (va : VariantAtlas.t T) (f : F) :
  latinIs pg va ->
  let '(ref, page, va1, f1) :=
    VariantAtlas.getOrCreatePage isLatin (Some h) va f in
  let va2 := VariantAtlas.setPage ref (Page.tryAdd pixels w h page).2 va1 in
  latinIs pg va2 /\
  let '(newRef, newPage, va3, f3) := VariantAtlas.createMixedPage va2 f1 in
  latinIs pg (VariantAtlas.setPage newRef (Page.tryAdd pixels w h newPage).2 va3).
Proof.
  intros Hl.
  destruct (VariantAtlas.getOrCreatePage _ _ _ _) as [[[ref page] va1] f1] eqn:E.
  destruct (getOrCreatePage_latinIs pg _ _ _ _ _ _ _ _ Hl E) as [Hlp Hcase].
  assert (Hl2 : latinIs pg
            (VariantAtlas.setPage ref (Page.tryAdd pixels w h page).2 va1)).
  { destruct Hl as (p & Hp & Hpg). destruct isLatin.
    - destruct Hcase as (-> & Hpage & -> & ->).
      assert (page = p) as -> by congruence.
      eexists. split; [reflexivity|]. rewrite tryAdd_pageOf. exact Hpg.
    - destruct Hcase as [i ->]. exists p. rewrite setPage_mixed_latinPage.
      split; congruence. }
  split; [exact Hl2|].
  destruct (createMixedPage_latinPage
              (VariantAtlas.setPage ref (Page.tryAdd pixels w h page).2 va1) f1)
    as [Hl3 [i Hi]].
  destruct (VariantAtlas.createMixedPage _ _) as [[[newRef newPage] va3] f3].
  simpl in Hl3, Hi. subst newRef. destruct Hl2 as (p & Hp & Hpg).
  exists p. rewrite setPage_mixed_latinPage. split; congruence.
Qed.

Lemma setIndex_latinIs pg (va : VariantAtlas.t T) idx pend :
  latinIs pg va -> latinIs pg (VariantAtlas.setIndex va idx pend).
Proof. intros Hl. exact Hl. Qed.

Lemma reserveGlyph_latinIs pg cp (va : VariantAtlas.t T) (f : F) :
  latinIs pg va -> latinIs pg (VariantAtlas.reserveGlyph cp va f).1.2.
Proof.
  intros Hl. unfold VariantAtlas.reserveGlyph.
  destruct (VariantAtlas.getOrCreatePage _ _ _ _) as [[[ref page] va1] f1] eqn:E.
  destruct (getOrCreatePage_latinIs pg _ _ _ _ _ _ _ _ Hl E) as [Hlp _].
  destruct Hl as (p & Hp & Hpg). exists p. simpl. split; congruence.
Qed.

Lemma fillGlyph_latinIs pg cp pixels metrics (va : VariantAtlas.t T) (f : F) :
  latinIs pg va -> latinIs pg (VariantAtlas.fillGlyph cp pixels metrics va f).1.2.
Proof.
  intros Hl. unfold VariantAtlas.fillGlyph.
  pose proof (place_latinIs pg (isLatinChar cp) pixels (GlyphMetrics.width metrics)
                (GlyphMetrics.height metrics) va f Hl) as Hp.
  destruct (VariantAtlas.getOrCreatePage _ _ _ _) as [[[ref page] va1] f1].
  destruct Hp as [Hl2 Hp].
  destruct (Page.tryAdd _ _ _ page) as [[p|] page']; simpl in *; [exact Hl2|].
  destruct (isLatinChar cp); [exact Hl2|].
  destruct (VariantAtlas.createMixedPage _ _) as [[[newRef newPage] va3] f3].
  destruct (Page.tryAdd _ _ _ newPage) as [[np|] newPage']; exact Hp.
Qed.

Lemma addGlyph_latinIs pg cp pixels metrics (va : VariantAtlas.t T) (f : F) :
  latinIs pg va -> latinIs pg (VariantAtlas.addGlyph cp pixels metrics va f).1.2.
Proof.
  intros Hl. unfold VariantAtlas.addGlyph.
  pose proof (place_latinIs pg (isLatinChar cp) pixels (GlyphMetrics.width metrics)
                (GlyphMetrics.height metrics) va f Hl) as Hp.
  destruct (VariantAtlas.getOrCreatePage _ _ _ _) as [[[ref page] va1] f1].
  destruct Hp as [Hl2 Hp].
  destruct (Page.tryAdd _ _ _ page) as [[p|] page']; simpl in *; [exact Hl2|].
  destruct (isLatinChar cp); [exact Hl2|].
  destruct (VariantAtlas.createMixedPage _ _) as [[[newRef newPage] va3] f3].
  destruct (Page.tryAdd _ _ _ newPage) as [[np|] newPage']; exact Hp.
Qed.

Lemma flushDirtyPages_latinIs pg (va : VariantAtlas.t T) (f : F) :
  latinIs pg va -> latinIs pg (VariantAtlas.flushDirtyPages va f).1.
Proof.
  intros (p & Hp & Hpg). unfold VariantAtlas.flushDirtyPages. rewrite Hp.
  pose proof (flush_pageOf p f) as Hf.
  destruct (Page.flush p f) as [q f1].
  destruct (VariantAtlas.flushAll _ _) as [mp f2]. simpl in *.
  exists q. split; [reflexivity | congruence].
Qed.

(** No operation takes a code point out of the index. *)
Lemma applyOp_indexed cp (s : VariantAtlas.t T * F) op :
  is_Some (VariantAtlas.glyphIndex s.1 !! cp) ->
  is_Some (VariantAtlas.glyphIndex (applyOp s op).1 !! cp).
Proof.
  destruct s as [va f]. intros Hi. simpl in Hi. destruct op as [c|c px m|c px m|c mi|]; cbn [applyOp fst snd].
  - destruct (VariantAtlas.reserveGlyph c va f) as [[loc va'] f'] eqn:E. simpl.
    apply reserveGlyph_spec in E as (E & _). rewrite E.
    destruct (decide (c = cp)) as [->|Hne].
    + rewrite lookup_insert_eq. eauto.
    + rewrite lookup_insert_ne by exact Hne. exact Hi.
  - destruct (VariantAtlas.fillGlyph c px m va f) as [[r va'] f'] eqn:E. simpl.
    apply fillGlyph_spec in E as [Hoth Hr].
    destruct (decide (cp = c)) as [->|Hne].
    + destruct r as [[]|e].
      * apply Hr, Hi.
      * destruct Hr as [E _]. rewrite E. exact Hi.
    + destruct (Hoth cp Hne) as [E _]. rewrite E. exact Hi.
  - destruct (VariantAtlas.addGlyph c px m va f) as [[r va'] f'] eqn:E. simpl.
    apply addGlyph_spec in E. destruct r as [loc|e].
    + destruct E as [E _]. rewrite E. destruct (decide (c = cp)) as [->|Hne].
      * rewrite lookup_insert_eq. eauto.
      * rewrite lookup_insert_ne by exact Hne. exact Hi.
    + destruct E as [E _]. rewrite E. exact Hi.
  - destruct (markEmpty_spec c mi va) as (_ & Mo & Mc).
    destruct (decide (cp = c)) as [->|Hne].
    + rewrite Mc. destruct Hi as [loc ->]. simpl. eauto.
    + rewrite (Mo cp Hne). exact Hi.
  - destruct (VariantAtlas.flushDirtyPages va f) as [va' f'] eqn:E. simpl.
    apply flushDirtyPages_sameIndex in E as (E & _). rewrite E. exact Hi.
Qed.

Lemma applyOp_latinIs pg (s : VariantAtlas.t T * F) op :
  latinIs pg s.1 -> latinIs pg (applyOp s op).1.
Proof.
  destruct s as [va f]. intros Hl. simpl in Hl. destruct op as [c|c px m|c px m|c mi|]; cbn [applyOp fst snd].
  - pose proof (reserveGlyph_latinIs pg c va f Hl) as Hr.
    destruct (VariantAtlas.reserveGlyph c va f) as [[loc va'] f']. exact Hr.
  - pose proof (fillGlyph_latinIs pg c px m va f Hl) as Hr.
    destruct (VariantAtlas.fillGlyph c px m va f) as [[r va'] f']. exact Hr.
  - pose proof (addGlyph_latinIs pg c px m va f Hl) as Hr.
    destruct (VariantAtlas.addGlyph c px m va f) as [[r va'] f']. exact Hr.
  - exact Hl.
  - apply flushDirtyPages_latinIs, Hl.
Qed.

Lemma applyOps_keeps pg cp ops : forall (s : VariantAtlas.t T * F),
  latinIs pg s.1 -> is_Some (VariantAtlas.glyphIndex s.1 !! cp) ->
  latinIs pg (applyOps ops s).1 /\
  is_Some (VariantAtlas.glyphIndex (applyOps ops s).1 !! cp).
Proof.
  unfold applyOps. induction ops as [|op ops IH]; intros s Hl Hi; simpl; [auto|].
  apply IH; [apply applyOp_latinIs, Hl | apply applyOp_indexed, Hi].
Qed.

(** The location that [reserveGlyph] returns for a Latin code point
    refers to the Latin page. *)
Lemma reserveGlyph_latin cp (va : VariantAtlas.t T) (f : F) loc va1 f1 :
  isLatinChar cp = true ->
  VariantAtlas.reserveGlyph cp va f = (loc, va1, f1) ->
  latinIs (GlyphLocation.page loc) va1 /\
  VariantAtlas.glyphIndex va1 !! cp = Some loc.
Proof.
  intros Hlat. unfold VariantAtlas.reserveGlyph, VariantAtlas.getOrCreatePage.
  rewrite Hlat. destruct (VariantAtlas.latinPage va) as [p|] eqn:El.
  - intros [= <- <- <-]. simpl. split; [|apply lookup_insert_eq].
    exists p. auto.
  - destruct (Page.new _ _ f) as [p f']. intros [= <- <- <-]. simpl.
    split; [|apply lookup_insert_eq]. exists p. auto.
Qed.
End ReservedPage.

(** C3 (amended).  For a Latin code point the location that [reserveGlyph]
    returns refers to the Latin page, and whatever the atlas does in between,
    a later [fillGlyph] that returns writes the pixels into that same page
    and leaves the page of the location, texture handle included, as it was
    at reservation. *)
Theorem C3_latin_page_is_stable {T F : Type} `{TextureFactory T F}
    (cp : Z) (va va1 va2 va3 : VariantAtlas.t T) (f f1 f2 f3 : F)
    (loc : GlyphLocation.t T) (ops : list AtlasOp)
    (pixels : Uint8Array) (metrics : GlyphMetrics.t) :
  isLatinChar cp = true ->
  VariantAtlas.reserveGlyph cp va f = (loc, va1, f1) ->
  applyOps ops (va1, f1) = (va2, f2) ->
  VariantAtlas.fillGlyph cp pixels metrics va2 f2 = (Ok tt, va3, f3) ->
  exists page loc',
    VariantAtlas.latinPage va2 = Some page /\
    VariantAtlas.pageOf page = GlyphLocation.page loc /\
    VariantAtlas.latinPage va3
    = Some (Page.tryAdd pixels (GlyphMetrics.width metrics)
              (GlyphMetrics.height metrics) page).2 /\
    VariantAtlas.mixedPages va3 = VariantAtlas.mixedPages va2 /\
    VariantAtlas.glyphIndex va3 !! cp = Some loc' /\
    GlyphLocation.page loc' = GlyphLocation.page loc /\
    LocationPage.texture (GlyphLocation.page loc')
    = LocationPage.texture (GlyphLocation.page loc).
Proof.
  intros Hlat Hres Hops Hfill.
  apply (reserveGlyph_latin cp va f loc va1 f1 Hlat) in Hres as [Hl Hi].
  destruct (applyOps_keeps (GlyphLocation.page loc) cp ops (va1, f1) Hl)
    as [Hl2 Hi2]; [simpl; rewrite Hi; eauto|].
  rewrite Hops in Hl2, Hi2. simpl in Hl2, Hi2.
  destruct Hl2 as (page & Hpage & Hpg). destruct Hi2 as [loc0 Hloc0].
  revert Hfill. unfold VariantAtlas.fillGlyph, VariantAtlas.getOrCreatePage.
  rewrite Hlat, Hpage.
  pose proof (tryAdd_pageOf pixels (GlyphMetrics.width metrics)
                (GlyphMetrics.height metrics) page) as Hof.
  destruct (Page.tryAdd _ _ _ page) as [[pos|] page'] eqn:Et; [|discriminate].
  simpl in Hof. intros [= <- <-].
  exists page. eexists. rewrite Et. simpl. rewrite Hloc0.
  split; [reflexivity|]. split; [exact Hpg|]. split; [reflexivity|].
  split; [reflexivity|]. split; [apply lookup_insert_eq|]. simpl.
  rewrite Hof, Hpg. split; [reflexivity|].
  rewrite <- Hpg, <- Hof. reflexivity.
Qed.

(** ** FontAtlas.getGlyph *)

Lemma js_div_zero (b : Z) : b <> 0 -> js_div 0 b = Num 0.
Proof.
  intros Hb. unfold js_div. destruct (Z.eqb_spec b 0) as [|_]; [contradiction|].
  reflexivity.
Qed.

Lemma findFirst_Some {A} (f : A -> bool) (l : list A) i a :
  findFirst f l = Some (i, a) -> l !! i = Some a /\ f a = true.
Proof.
  revert i. induction l as [|b l IH]; intros i; simpl; [discriminate|].
  destruct (f b) eqn:E.
  - intros [= <- <-]. auto.
  - destruct (findFirst f l) as [[j c]|]; simpl; [|discriminate].
    intros [= <- <-]. apply IH. reflexivity.
Qed.

Section GetGlyph.
Context {T F G : Type} `{TextureFactory T F} `{MSDFGenerator G}.

Lemma new_sized w h (f : F) :
  Page.width (Page.new w h f).1 = w /\ Page.height (Page.new w h f).1 = h.
Proof. unfold Page.new. destruct (create _ _ _ _). auto. Qed.

Lemma createMixedPage_sized (va : VariantAtlas.t T) (f : F) ref page va' f' :
  atlasSized va ->
  VariantAtlas.createMixedPage va f = (ref, page, va', f') ->
  atlasSized va' /\ VariantAtlas.getPage ref va' = Some page /\
  Page.width page = VariantAtlas.pageSize va /\
  Page.height page = VariantAtlas.pageSize va.
Proof.
  intros (Hs & Hl & Hm). unfold VariantAtlas.createMixedPage.
  pose proof (new_sized (VariantAtlas.pageSize va) (VariantAtlas.pageSize va) f) as Hn.
  destruct (Page.new _ _ f) as [p f1]. simpl in Hn.
  intros [= <- <- <- <-]. simpl. split; [|split; [|exact Hn]].
  - split; [exact Hs|]. split; [exact Hl|].
    intros i q Hq. apply lookup_app_Some in Hq as [Hq|[_ Hq]].
    + eapply Hm, Hq.
    + apply list_lookup_singleton_Some in Hq as [_ <-]. exact Hn.
  - rewrite lookup_app_r by lia. rewrite Nat.sub_diag. reflexivity.
Qed.

Lemma getOrCreatePage_sized isLatin gh (va : VariantAtlas.t T) (f : F)
    ref page va' f' :
  atlasSized va ->
  VariantAtlas.getOrCreatePage isLatin gh va f = (ref, page, va', f') ->
  atlasSized va' /\ VariantAtlas.getPage ref va' = Some page /\
  Page.width page = VariantAtlas.pageSize va /\
  Page.height page = VariantAtlas.pageSize va.
Proof.
  intros Hok. pose proof Hok as (Hs & Hl & Hm).
  unfold VariantAtlas.getOrCreatePage. destruct isLatin.
  - destruct (VariantAtlas.latinPage va) as [p|] eqn:El.
    + intros [= <- <- <- <-]. simpl. auto.
    + pose proof (new_sized (VariantAtlas.pageSize va) (VariantAtlas.pageSize va) f) as Hn.
      destruct (Page.new _ _ f) as [p f1]. simpl in Hn.
      intros [= <- <- <- <-]. simpl. split; [|auto].
      split; [exact Hs|]. split; [|exact Hm].
      intros q [= <-]. exact Hn.
  - destruct (findFirst _ _) as [[i p]|] eqn:Ef.
    + apply findFirst_Some in Ef as [Ei _].
      intros [= <- <- <- <-]. simpl. split; [exact Hok|]. split; [exact Ei|].
      eapply Hm, Ei.
    + apply createMixedPage_sized, Hok.
Qed.

(** The placeholder that [reserveGlyph] returns. *)
Lemma reserveGlyph_placeholder cp (va : VariantAtlas.t T) (f : F) loc va' f' :
  atlasSized va ->
  VariantAtlas.reserveGlyph cp va f = (loc, va', f') ->
  LocationPage.width (GlyphLocation.page loc) = VariantAtlas.pageSize va /\
  LocationPage.height (GlyphLocation.page loc) = VariantAtlas.pageSize va.
Proof.
  intros Hok. unfold VariantAtlas.reserveGlyph.
  destruct (VariantAtlas.getOrCreatePage _ _ _ _) as [[[ref page] va1] f1] eqn:E.
  apply (getOrCreatePage_sized _ _ _ _ _ _ _ _ Hok) in E as (_ & _ & Hw & Hh).
  intros [= <- <- <-]. simpl. auto.
Qed.

Lemma getOrCreateAtlas_sized variantId genSize (fa : FontAtlas.t T F G)
    key atlas fa1 :
  sized fa ->
  FontAtlas.getOrCreateAtlas variantId genSize fa = (key, atlas, fa1) ->
  atlasSized atlas /\ sized fa1.
Proof.
  intros [Hc Ha] Hg.
  pose proof (getOrCreateAtlas_spec _ _ _ _ _ _ Hg)
    as (_ & Hk & Ho & Hn & _ & _ & (Hcfg & _)).
  assert (Hat : atlasSized atlas).
  { destruct Hn as [[Hn _]|[_ ->]]; [eapply Ha, Hn|].
    split; [exact Hc|]. split; [discriminate|].
    intros i p Hp. simpl in Hp. rewrite lookup_nil in Hp. discriminate. }
  split; [exact Hat|]. split; [rewrite Hcfg; exact Hc|].
  intros k va Hva. destruct (decide (k = key)) as [->|Hne].
  - rewrite Hk in Hva. injection Hva as <-. exact Hat.
  - rewrite (Ho k Hne) in Hva. eapply Ha, Hva.
Qed.

(** A request for a pending code point is treated as a miss: the slot is
    reserved again and a second generation is queued. *)
Lemma getGlyph_pending_requeues request (fa : FontAtlas.t T F G) atlas :
  let genSize := FontAtlas.selectGenSize (FontAtlas.config fa)
                   (GlyphRequest.renderSize request) in
  mapGet (FontAtlas.atlasKey (GlyphRequest.variantId request) genSize)
         (FontAtlas.atlases fa) = Some atlas ->
  GlyphRequest.codePoint request ∈ VariantAtlas.pendingGlyphs atlas ->
  GlyphInfo.cached (FontAtlas.getGlyph request fa).1 = false /\
  FontAtlas.pendingGlyphs (FontAtlas.getGlyph request fa).2
  = FontAtlas.pendingGlyphs fa ++
    [PendingGlyph.mk (GlyphRequest.codePoint request) genSize
       (GlyphRequest.fontBuffer request) (GlyphRequest.variationAxes request)
       (GlyphRequest.variantId request)].
Proof.
  intros genSize Hk Hp.
  assert (Hg : VariantAtlas.getGlyph (GlyphRequest.codePoint request) atlas = None).
  { unfold VariantAtlas.getGlyph. rewrite bool_decide_eq_true_2 by exact Hp.
    reflexivity. }
  unfold FontAtlas.getGlyph, FontAtlas.getOrCreateAtlas.
  fold genSize. rewrite Hk, Hg.
  destruct (VariantAtlas.reserveGlyph _ _ _) as [[loc a1] f1]. simpl. auto.
Qed.
End GetGlyph.

(** In a font atlas whose pages have a positive size, a request that misses
    the cache is answered with the placeholder. *)
Lemma getGlyph_miss_placeholder {T F G : Type}
    `{TextureFactory T F} `{MSDFGenerator G}
    (request : GlyphRequest.t) (fa : FontAtlas.t T F G) :
  sized fa ->
  GlyphInfo.cached (FontAtlas.getGlyph request fa).1 = false ->
  let info := (FontAtlas.getGlyph request fa).1 in
  GlyphInfo.uvs info = UVs.mk (Num 0) (Num 0) (Num 0) (Num 0) /\
  GlyphInfo.metrics info = PLACEHOLDER_METRICS /\
  GlyphMetrics.width (GlyphInfo.metrics info) = 0 /\
  GlyphMetrics.height (GlyphInfo.metrics info) = 0 /\
  GlyphInfo.empty info = false /\
  GlyphInfo.missing info = false /\
  GlyphInfo.genSize info
  = FontAtlas.selectGenSize (FontAtlas.config fa) (GlyphRequest.renderSize request).
Proof.
  intros Hs. unfold FontAtlas.getGlyph.
  destruct (FontAtlas.getOrCreateAtlas _ _ _) as [[key atlas] fa1] eqn:Ea.
  apply (getOrCreateAtlas_sized _ _ _ _ _ _ Hs) in Ea as [Hat _].
  destruct (VariantAtlas.getGlyph _ atlas) as [loc|]; [discriminate|].
  destruct (VariantAtlas.reserveGlyph _ atlas _) as [[loc a1] f1] eqn:Er.
  pose proof (reserveGlyph_placeholder _ _ _ _ _ _ Hat Er) as [Hw Hh].
  apply reserveGlyph_spec in Er as (_ & _ & Hx & Hy & Hlw & Hlh & Hm & He & Hmi).
  intros _. cbn zeta. unfold FontAtlas.locationToInfo. simpl.
  destruct Hat as [Hpos _].
  rewrite Hx, Hy, Hlw, Hlh, Hw, Hh, Hm, He, Hmi. simpl.
  change (0 + 0) with 0. rewrite !js_div_zero by lia. repeat split.
Qed.

(** ** prefabLatin *)

Section Prefab.
Context {T F G : Type} `{TextureFactory T F} `{MSDFGenerator G}.

(** An iteration of the prefab loop that returns leaves its code point
    ready and keeps ready what was. *)
Lemma prefabOne_ready cfg genSize fontBuffer axes cp
    (atlas atlas' : VariantAtlas.t T) (f f' : F) (g g' : G) :
  FontAtlas.prefabOne cfg genSize fontBuffer axes cp (atlas, f, g)
    = (Ok tt, (atlas', f', g')) ->
  ready cp atlas' /\ forall cp', ready cp' atlas -> ready cp' atlas'.
Proof.
  unfold FontAtlas.prefabOne.
  destruct (VariantAtlas.getGlyph cp atlas) as [loc|] eqn:Eg.
  { intros [= <- <- <-]. split; [|auto]. unfold ready. rewrite Eg. eauto. }
  destruct (negb (hasGlyph cp g)).
  { destruct (VariantAtlas.reserveGlyph cp atlas f) as [[loc a1] f1] eqn:Er.
    intros [= <- <- <-]. eapply reserve_markEmpty_ready, Er. }
  destruct (FontAtlas.generateGlyph _ _ _ _ _ _) as [[gl|] g1].
  - destruct (VariantAtlas.addGlyph _ _ _ _ _) as [[r a1] f1] eqn:Ea.
    destruct r as [loc|e]; [|discriminate].
    intros [= <- <- <-]. eapply addGlyph_ready, Ea.
  - destruct (VariantAtlas.reserveGlyph cp atlas f) as [[loc a1] f1] eqn:Er.
    intros [= <- <- <-]. eapply reserve_markEmpty_ready, Er.
Qed.

Lemma prefabAll_ready cfg genSize fontBuffer axes cps :
  forall (atlas atlas' : VariantAtlas.t T) (f f' : F) (g g' : G),
  FontAtlas.prefabAll cfg genSize fontBuffer axes cps (atlas, f, g)
    = (Ok tt, (atlas', f', g')) ->
  (forall cp, cp ∈ cps -> ready cp atlas') /\
  (forall cp, ready cp atlas -> ready cp atlas').
Proof.
  induction cps as [|cp cps IH]; intros atlas atlas' f f' g g';
    cbn [FontAtlas.prefabAll].
  - intros [= <- <- <-]. split; [|auto]. intros cp Hcp. inversion Hcp.
  - destruct (FontAtlas.prefabOne cfg genSize fontBuffer axes cp (atlas, f, g))
      as [r [[a1 f1] g1]] eqn:E1.
    destruct r as [[]|e]; [|discriminate].
    apply prefabOne_ready in E1 as [Hcp Hkeep].
    intros Hall. apply IH in Hall as [Hrest Hkeep'].
    split.
    + intros cp' Hin. apply elem_of_cons in Hin as [->|Hin]; auto.
    + auto.
Qed.

Lemma sameIndex_ready cp (va va' : VariantAtlas.t T) :
  sameIndex va va' -> ready cp va -> ready cp va'.
Proof.
  intros (Hi & Hp & _). unfold ready, VariantAtlas.getGlyph. rewrite Hi, Hp. auto.
Qed.

(** What [prefabLatin] leaves behind when it returns. *)
Lemma prefabLatin_returns variantId fontSize fontBuffer axes
    (fa fa' : FontAtlas.t T F G) :
  FontAtlas.prefabLatin variantId fontSize fontBuffer axes fa = (Ok tt, fa') ->
  sameQueue fa fa' /\
  exists atlas,
    mapGet (FontAtlas.atlasKey variantId
              (FontAtlas.selectGenSize (FontAtlas.config fa) fontSize))
           (FontAtlas.atlases fa') = Some atlas /\
    forall cp, cp ∈ LATIN_CODEPOINTS -> ready cp atlas.
Proof.
  unfold FontAtlas.prefabLatin.
  destruct (FontAtlas.getOrCreateAtlas _ _ _) as [[key atlas] fa1] eqn:Ea.
  apply getOrCreateAtlas_spec in Ea as (-> & _ & _ & _ & _ & _ & Hq).
  destruct (FontAtlas.prefabAll _ _ _ _ _ _) as [r [[a1 f1] g1]] eqn:Ep.
  destruct r as [[]|e]; [|discriminate].
  apply prefabAll_ready in Ep as [Hall _].
  destruct (VariantAtlas.flushDirtyPages a1 f1) as [a2 f2] eqn:Ef.
  apply flushDirtyPages_sameIndex in Ef.
  intros [= <-]. split.
  - eapply sameQueue_trans; [exact Hq | apply setWorld_sameQueue].
  - exists a2. simpl. split; [apply mapGet_mapSet_eq|].
    intros cp Hcp. eapply sameIndex_ready; eauto.
Qed.

(** A request for a ready code point is answered from the cache and
    changes nothing. *)
Lemma getGlyph_ready request (fa : FontAtlas.t T F G) atlas :
  mapGet (FontAtlas.atlasKey (GlyphRequest.variantId request)
            (FontAtlas.selectGenSize (FontAtlas.config fa)
               (GlyphRequest.renderSize request)))
         (FontAtlas.atlases fa) = Some atlas ->
  ready (GlyphRequest.codePoint request) atlas ->
  GlyphInfo.cached (FontAtlas.getGlyph request fa).1 = true /\
  (FontAtlas.getGlyph request fa).2 = fa.
Proof.
  intros Hk [loc Hr]. unfold FontAtlas.getGlyph, FontAtlas.getOrCreateAtlas.
  rewrite Hk, Hr. simpl. split; reflexivity.
Qed.
End Prefab.

(** C7.  When [prefabLatin] returns, every one of the 62 Latin code points
    is served from the cache ([cached = true]) for the same variant and
    size, and the call has neither queued a generation, scheduled a drain,
    nor invoked [onGlyphsReady]. *)
Theorem C7_prefabLatin_caches_latin {T F G : Type}
    `{TextureFactory T F} `{MSDFGenerator G}
    (variantId : string) (fontSize : Z) (fontBytes : Uint8Array)
    (axes : option (list VariationAxis.t)) (fa fa' : FontAtlas.t T F G) :
  FontAtlas.prefabLatin variantId fontSize fontBytes axes fa = (Ok tt, fa') ->
  (forall cp fontBuffer axes',
     0x30 <= cp <= 0x39 \/ 0x41 <= cp <= 0x5A \/ 0x61 <= cp <= 0x7A ->
     GlyphInfo.cached
       (FontAtlas.getGlyph
          (GlyphRequest.mk cp variantId fontBuffer axes' fontSize) fa').1 = true) /\
  FontAtlas.pendingGlyphs fa' = FontAtlas.pendingGlyphs fa /\
  FontAtlas.batchPromise fa' = FontAtlas.batchPromise fa /\
  FontAtlas.readyCalls fa' = FontAtlas.readyCalls fa.
Proof.
  intros Hp. apply prefabLatin_returns in Hp as [(Hc & _ & Hr & Hq & Hb) (atlas & Hk & Hall)].
  split; [|auto].
  intros cp fontBuffer axes' Hcp.
  eapply getGlyph_ready.
  - simpl. rewrite Hc. exact Hk.
  - simpl. apply Hall, LATIN_CODEPOINTS_spec, Hcp.
Qed.

(** ** The drain *)

Section Drain.
Context {T F G : Type} `{TextureFactory T F} `{MSDFGenerator G}.

Lemma missingAt_placeholderAt (fa : FontAtlas.t T F G) key cp :
  missingAt fa key cp -> placeholderAt fa key cp.
Proof. intros (va & loc & Hk & Hl & Hm & _). exists va, loc. auto. Qed.

(** The location of [cp] under [key] only depends on that atlas's entry
    for [cp]. *)
Lemma slot_frame (fa fa' : FontAtlas.t T F G) key cp :
  (forall va, mapGet key (FontAtlas.atlases fa) = Some va ->
     exists va', mapGet key (FontAtlas.atlases fa') = Some va' /\
       VariantAtlas.glyphIndex va' !! cp = VariantAtlas.glyphIndex va !! cp /\
       (cp ∈ VariantAtlas.pendingGlyphs va' <-> cp ∈ VariantAtlas.pendingGlyphs va)) ->
  (placeholderAt fa key cp -> placeholderAt fa' key cp) /\
  (missingAt fa key cp -> missingAt fa' key cp).
Proof.
  intros Hf. split.
  - intros (va & loc & Hk & Hl & Hm).
    destruct (Hf va Hk) as (va' & Hk' & Hi & _).
    exists va', loc. rewrite Hi. auto.
  - intros (va & loc & Hk & Hl & Hm & He & Hmi & Hw & Hh & Hp).
    destruct (Hf va Hk) as (va' & Hk' & Hi & Hp').
    exists va', loc. rewrite Hi. repeat split; auto. rewrite Hp'. exact Hp.
Qed.

(** One iteration of the drain, seen from the slot of [cp] under [key]. *)
Lemma processPending_slot pending (fa : FontAtlas.t T F G) key cp :
  (targets key cp pending = true -> lacks (PendingGlyph.fontBuffer pending) cp) ->
  let fa' := (FontAtlas.processPending pending fa).2 in
  (placeholderAt fa key cp -> placeholderAt fa' key cp) /\
  (missingAt fa key cp -> missingAt fa' key cp) /\
  (placeholderAt fa key cp -> targets key cp pending = true -> missingAt fa' key cp).
Proof.
  intros Hlack. unfold FontAtlas.processPending, targets in *.
  destruct (FontAtlas.getOrCreateAtlas _ _ _) as [[k atlas] fa1] eqn:Ea.
  apply getOrCreateAtlas_spec in Ea as (-> & Hk & Ho & Hn & _ & _ & _).
  set (k := FontAtlas.atlasKey _ _) in *.
  set (c := PendingGlyph.codePoint pending) in *.
  (* what the iteration stores back, whatever the branch *)
  assert (Hstore : forall g f (a1 : VariantAtlas.t T),
    (String.eqb k key = true -> c <> cp ->
       VariantAtlas.glyphIndex a1 !! cp = VariantAtlas.glyphIndex atlas !! cp /\
       (cp ∈ VariantAtlas.pendingGlyphs a1 <-> cp ∈ VariantAtlas.pendingGlyphs atlas)) ->
    (String.eqb k key && (c =? cp) = true ->
       forall va, mapGet key (FontAtlas.atlases fa) = Some va ->
       forall loc, VariantAtlas.glyphIndex va !! cp = Some loc ->
       GlyphLocation.metrics loc = PLACEHOLDER_METRICS ->
       exists loc', VariantAtlas.glyphIndex a1 !! cp = Some loc' /\
         GlyphLocation.metrics loc' = PLACEHOLDER_METRICS /\
         GlyphLocation.empty loc' = true /\ GlyphLocation.missing loc' = true /\
         GlyphLocation.width loc' = 0 /\ GlyphLocation.height loc' = 0 /\
         cp ∉ VariantAtlas.pendingGlyphs a1) ->
    let fa' := FontAtlas.setWorld fa1 g f (mapSet k a1 (FontAtlas.atlases fa1)) in
    (placeholderAt fa key cp -> placeholderAt fa' key cp) /\
    (missingAt fa key cp -> missingAt fa' key cp) /\
    (placeholderAt fa key cp -> String.eqb k key && (c =? cp) = true ->
     missingAt fa' key cp)).
  { intros g f a1 Hother Hsame fa'.
    destruct (String.eqb k key) eqn:Ek.
    - apply String.eqb_eq in Ek. subst key.
      destruct (Z.eqb_spec c cp) as [Ec|Ec]; simpl in *.
      + assert (Hmiss : placeholderAt fa k cp -> missingAt fa' k cp).
        { intros (va & loc & Hva & Hl & Hm).
          destruct (Hsame eq_refl va Hva loc Hl Hm) as (loc' & Hl' & Hrest).
          exists a1, loc'. split; [apply mapGet_mapSet_eq|]. auto. }
        split; [|split].
        * intros Hp. apply missingAt_placeholderAt, Hmiss, Hp.
        * intros Hp. apply Hmiss, missingAt_placeholderAt, Hp.
        * intros Hp _. apply Hmiss, Hp.
      + destruct (Hother eq_refl Ec) as [Hi Hp].
        assert (Hfr : forall va, mapGet k (FontAtlas.atlases fa) = Some va ->
          exists va', mapGet k (FontAtlas.atlases fa') = Some va' /\
            VariantAtlas.glyphIndex va' !! cp = VariantAtlas.glyphIndex va !! cp /\
            (cp ∈ VariantAtlas.pendingGlyphs va' <-> cp ∈ VariantAtlas.pendingGlyphs va)).
        { intros va Hva. exists a1. split; [apply mapGet_mapSet_eq|].
          destruct Hn as [[Hn _]|[Hn _]]; [|congruence].
          rewrite Hva in Hn. injection Hn as ->. auto. }
        destruct (slot_frame fa fa' k cp Hfr) as [Hp1 Hp2].
        split; [exact Hp1|]. split; [exact Hp2|]. discriminate.
    - apply String.eqb_neq in Ek. simpl.
      assert (Hfr : forall va, mapGet key (FontAtlas.atlases fa) = Some va ->
        exists va', mapGet key (FontAtlas.atlases fa') = Some va' /\
          VariantAtlas.glyphIndex va' !! cp = VariantAtlas.glyphIndex va !! cp /\
          (cp ∈ VariantAtlas.pendingGlyphs va' <-> cp ∈ VariantAtlas.pendingGlyphs va)).
      { intros va Hva. exists va. split; [|tauto]. simpl.
        rewrite mapGet_mapSet_ne by congruence.
        rewrite Ho by congruence. exact Hva. }
      destruct (slot_frame fa fa' key cp Hfr) as [Hp1 Hp2].
      split; [exact Hp1|]. split; [exact Hp2|]. discriminate. }
  (* the two [markEmpty] branches *)
  assert (Hmark : forall missing,
    String.eqb k key = true -> c <> cp ->
    VariantAtlas.glyphIndex (VariantAtlas.markEmpty c missing atlas) !! cp
      = VariantAtlas.glyphIndex atlas !! cp /\
    (cp ∈ VariantAtlas.pendingGlyphs (VariantAtlas.markEmpty c missing atlas)
     <-> cp ∈ VariantAtlas.pendingGlyphs atlas)).
  { intros missing _ Hne.
    destruct (markEmpty_spec c missing atlas) as (Mp & Mo & _).
    split; [apply Mo; congruence|]. rewrite Mp. set_cases. }
  destruct (negb (hasGlyph c _)) eqn:Ehas.
  - (* not in the font *)
    apply Hstore; [apply Hmark|].
    intros Hsame va Hva loc Hl Hm.
    apply andb_true_iff in Hsame as [Ek Ec]. apply Z.eqb_eq in Ec.
    apply String.eqb_eq in Ek. subst key. subst cp.
    destruct Hn as [[Hn _]|[Hn _]]; [|congruence].
    rewrite Hva in Hn. injection Hn as ->.
    destruct (markEmpty_spec c true atlas) as (Mp & _ & Mc).
    rewrite Hl in Mc. simpl in Mc.
    eexists. split; [exact Mc|].
    split; [exact Hm|]. do 4 (split; [reflexivity|]).
    rewrite Mp. set_cases.
  - (* in the font: the slot of [cp] is not the target *)
    assert (Hnot : String.eqb k key && (c =? cp) = false).
    { apply not_true_is_false. intros Et.
      specialize (Hlack Et (FontAtlas.msdf fa1)). fold c in Hlack.
      apply andb_true_iff in Et as [_ Ec]. apply Z.eqb_eq in Ec.
      rewrite <- Ec in Hlack. rewrite Hlack in Ehas. discriminate. }
    destruct (FontAtlas.generateGlyph _ _ _ _ _ _) as [[gl|] g2].
    + destruct (VariantAtlas.fillGlyph _ _ _ _ _) as [[r a1] f1] eqn:Ef.
      apply fillGlyph_spec in Ef as [Hoth _]. simpl.
      apply Hstore.
      * intros _ Hne. apply Hoth. congruence.
      * rewrite Hnot. discriminate.
    + simpl. apply Hstore; [apply Hmark|]. rewrite Hnot. discriminate.
Qed.

Lemma processAll_slot batch key cp : forall (fa : FontAtlas.t T F G),
  (forall e, e ∈ batch -> targets key cp e = true ->
     lacks (PendingGlyph.fontBuffer e) cp) ->
  let fa' := (FontAtlas.processAll batch fa).2 in
  (placeholderAt fa key cp -> placeholderAt fa' key cp) /\
  (missingAt fa key cp -> missingAt fa' key cp) /\
  (placeholderAt fa key cp -> FontAtlas.processAll batch fa = (Ok tt, fa') ->
   (exists e, e ∈ batch /\ targets key cp e = true) -> missingAt fa' key cp).
Proof.
  induction batch as [|pending rest IH]; intros fa Hlack;
    cbn [FontAtlas.processAll].
  - simpl. split; [auto|]. split; [auto|].
    intros _ _ (e & He & _). inversion He.
  - pose proof (processPending_slot pending fa key cp
                  (Hlack pending (list_elem_of_here _ _))) as (P1 & P2 & P3).
    destruct (FontAtlas.processPending pending fa) as [r fa1] eqn:Ep.
    simpl in P1, P2, P3.
    destruct r as [[]|err]; simpl; [|split; [exact P1|]; split; [exact P2|]; discriminate].
    specialize (IH fa1 (fun e He => Hlack e (list_elem_of_further _ _ _ He))).
    simpl in IH. destruct IH as (Q1 & Q2 & Q3).
    split; [auto|]. split; [auto|].
    intros Hp Hall (e & He & Ht).
    apply elem_of_cons in He as [->|He].
    + apply Q2, P3; assumption.
    + apply Q3; [auto | | eauto].
      destruct (FontAtlas.processAll rest fa1) as [r' fa'] eqn:Er. simpl in *.
      congruence.
Qed.

Lemma processPending_sameQueue pending (fa : FontAtlas.t T F G) :
  sameQueue fa (FontAtlas.processPending pending fa).2.
Proof.
  unfold FontAtlas.processPending.
  destruct (FontAtlas.getOrCreateAtlas _ _ _) as [[k atlas] fa1] eqn:Ea.
  apply getOrCreateAtlas_spec in Ea as (_ & _ & _ & _ & _ & _ & Hq).
  destruct (negb _); [exact Hq|].
  destruct (FontAtlas.generateGlyph _ _ _ _ _ _) as [[gl|] g2]; [|exact Hq].
  destruct (VariantAtlas.fillGlyph _ _ _ _ _) as [[r a1] f1]. exact Hq.
Qed.

Lemma processAll_sameQueue batch : forall (fa : FontAtlas.t T F G),
  sameQueue fa (FontAtlas.processAll batch fa).2.
Proof.
  induction batch as [|pending rest IH]; intros fa; cbn [FontAtlas.processAll].
  - apply sameQueue_refl.
  - pose proof (processPending_sameQueue pending fa) as Hp.
    destruct (FontAtlas.processPending pending fa) as [[[]|e] fa1]; simpl in *.
    + eapply sameQueue_trans; [exact Hp | apply IH].
    + exact Hp.
Qed.

Lemma flushAtlases_get (ats : list (string * VariantAtlas.t T)) (f : F) k va :
  mapGet k ats = Some va ->
  exists f0, mapGet k (FontAtlas.flushAtlases ats f).1
             = Some (VariantAtlas.flushDirtyPages va f0).1.
Proof.
  revert f. induction ats as [|[k0 va0] ats IH]; intros f; simpl; [discriminate|].
  destruct (VariantAtlas.flushDirtyPages va0 f) as [a1 f1] eqn:Ef.
  specialize (IH f1). destruct (FontAtlas.flushAtlases ats f1) as [rest f2].
  simpl. destruct (String.eqb k k0).
  - intros [= <-]. exists f. rewrite Ef. reflexivity.
  - exact IH.
Qed.

(** What a drain that runs to its end leaves behind. *)
Lemma processBatch_completes (fa fa' : FontAtlas.t T F G) key cp :
  FontAtlas.processBatch fa = (Ok tt, fa') ->
  (forall e, e ∈ FontAtlas.pendingGlyphs fa -> targets key cp e = true ->
     lacks (PendingGlyph.fontBuffer e) cp) ->
  (exists e, e ∈ FontAtlas.pendingGlyphs fa /\ targets key cp e = true) ->
  placeholderAt fa key cp ->
  missingAt fa' key cp /\ FontAtlas.config fa' = FontAtlas.config fa.
Proof.
  unfold FontAtlas.processBatch. intros Hb Hlack Hex Hp.
  destruct (FontAtlas.pendingGlyphs fa) as [|e0 batch] eqn:Eb.
  { destruct Hex as (e & He & _). inversion He. }
  cbn [length Nat.eqb] in Hb.
  pose proof (processAll_slot (e0 :: batch) key cp
                (FontAtlas.setQueue fa [] false) Hlack) as (_ & _ & Q3).
  pose proof (processAll_sameQueue (e0 :: batch)
                (FontAtlas.setQueue fa [] false)) as (Hc & _).
  destruct (FontAtlas.processAll _ _) as [[[]|err] fa1] eqn:Ea; [|discriminate].
  simpl in Q3, Hc.
  specialize (Q3 Hp eq_refl Hex).
  destruct Q3 as (va & loc & Hk & Hl & Hrest).
  destruct (flushAtlases_get (FontAtlas.atlases fa1)
              (FontAtlas.textureFactory fa1) key va Hk) as (f0 & Hf).
  destruct (FontAtlas.flushAtlases _ _) as [ats f'].
  injection Hb as <-. simpl in *. split; [|exact Hc].
  destruct (VariantAtlas.flushDirtyPages va f0) as [va' f1] eqn:Efl.
  apply flushDirtyPages_sameIndex in Efl as (Hi & Hpend & _).
  exists va', loc. simpl in Hf. rewrite Hi, Hpend. auto.
Qed.
End Drain.

(** C8.  A request for a code point that the font lacks misses the cache;
    the drain that follows, when it runs to its end, marks the reserved
    location [empty] and [missing] with a zero size and the placeholder
    metrics and takes the code point out of the pending set, so that the same
    request is then answered from the cache with [missing], [empty] and a
    zero metrics width.  Generations already queued for the same atlas and
    code point are assumed to use a font that lacks the code point too.  A
    drain that a page-overflow error aborts marks nothing. *)
Theorem C8_missing_glyph_is_marked {T F G : Type}
    `{TextureFactory T F} `{MSDFGenerator G}
    (request : GlyphRequest.t) (fa fa2 : FontAtlas.t T F G) :
  let cp := GlyphRequest.codePoint request in
  let key := FontAtlas.atlasKey (GlyphRequest.variantId request)
               (FontAtlas.selectGenSize (FontAtlas.config fa)
                  (GlyphRequest.renderSize request)) in
  lacks (GlyphRequest.fontBuffer request) cp ->
  (forall e, e ∈ FontAtlas.pendingGlyphs fa -> targets key cp e = true ->
     lacks (PendingGlyph.fontBuffer e) cp) ->
  GlyphInfo.cached (FontAtlas.getGlyph request fa).1 = false ->
  FontAtlas.processBatch (FontAtlas.getGlyph request fa).2 = (Ok tt, fa2) ->
  missingAt fa2 key cp /\
  let info := (FontAtlas.getGlyph request fa2).1 in
  GlyphInfo.cached info = true /\
  GlyphInfo.missing info = true /\
  GlyphInfo.empty info = true /\
  GlyphInfo.metrics info = PLACEHOLDER_METRICS /\
  GlyphMetrics.width (GlyphInfo.metrics info) = 0.
Proof.
  intros cp key Hfont Hqueue Hmiss Hdrain.
  (* the miss reserves the slot and queues the generation *)
  assert (Hafter :
    placeholderAt (FontAtlas.getGlyph request fa).2 key cp /\
    FontAtlas.config (FontAtlas.getGlyph request fa).2 = FontAtlas.config fa /\
    exists e, FontAtlas.pendingGlyphs (FontAtlas.getGlyph request fa).2
              = FontAtlas.pendingGlyphs fa ++ [e] /\
              targets key cp e = true /\ PendingGlyph.fontBuffer e
              = GlyphRequest.fontBuffer request).
  { revert Hmiss. unfold FontAtlas.getGlyph.
    destruct (FontAtlas.getOrCreateAtlas _ _ _) as [[k atlas] fa1] eqn:Ea.
    apply getOrCreateAtlas_spec in Ea as (-> & _ & _ & _ & _ & _ & (Hc & _ & _ & Hpq & _)).
    destruct (VariantAtlas.getGlyph _ atlas) as [loc|]; [discriminate|].
    destruct (VariantAtlas.reserveGlyph _ atlas _) as [[loc a1] f1] eqn:Er.
    apply reserveGlyph_spec in Er as (Hi & _ & _ & _ & _ & _ & Hm & _).
    intros _. simpl. split; [|split; [exact Hc|]].
    - exists a1, loc. split; [apply mapGet_mapSet_eq|].
      rewrite Hi, lookup_insert_eq. auto.
    - eexists. rewrite Hpq. split; [reflexivity|]. split; [|reflexivity].
      unfold targets. simpl. fold key. rewrite String.eqb_refl, Z.eqb_refl.
      reflexivity. }
  destruct Hafter as (Hp & Hc1 & e & Hq & Ht & Hf).
  destruct (processBatch_completes _ _ key cp Hdrain) as [Hmark Hc2].
  - rewrite Hq. intros e' He'. apply elem_of_app in He' as [He'|He'].
    + apply Hqueue, He'.
    + apply list_elem_of_singleton in He'. subst e'. rewrite Hf. intros _. exact Hfont.
  - exists e. rewrite Hq. split; [|exact Ht]. apply elem_of_app. right. left.
  - exact Hp.
  - split; [exact Hmark|].
    destruct Hmark as (va & loc & Hk & Hl & Hm & He & Hmi & Hw & Hh & Hpend).
    unfold FontAtlas.getGlyph, FontAtlas.getOrCreateAtlas.
    rewrite Hc2, Hc1. fold key. rewrite Hk.
    unfold VariantAtlas.getGlyph. fold cp.
    rewrite bool_decide_eq_false_2 by exact Hpend. rewrite Hl. simpl.
    rewrite Hm. auto.
Qed.

(** ** The callback *)

Section Callback.
Context {T F G : Type} `{TextureFactory T F} `{MSDFGenerator G}.

Lemma prefabLatin_sameQueue variantId fontSize fontBuffer axes
    (fa : FontAtlas.t T F G) :
  sameQueue fa (FontAtlas.prefabLatin variantId fontSize fontBuffer axes fa).2.
Proof.
  unfold FontAtlas.prefabLatin.
  destruct (FontAtlas.getOrCreateAtlas _ _ _) as [[key atlas] fa1] eqn:Ea.
  apply getOrCreateAtlas_spec in Ea as (_ & _ & _ & _ & _ & _ & Hq).
  destruct (FontAtlas.prefabAll _ _ _ _ _ _) as [[[]|e] [[a1 f1] g1]].
  - destruct (VariantAtlas.flushDirtyPages a1 f1) as [a2 f2]. exact Hq.
  - exact Hq.
Qed.

(** How often a drain invokes the callback. *)
Lemma processBatch_readyCalls (fa : FontAtlas.t T F G) :
  FontAtlas.readyCalls (FontAtlas.processBatch fa).2
  = match FontAtlas.pendingGlyphs fa, (FontAtlas.processBatch fa).1 with
    | _ :: _, Ok _ =>
        if FontAtlas.onGlyphsReady fa then S (FontAtlas.readyCalls fa)
        else FontAtlas.readyCalls fa
    | _, _ => FontAtlas.readyCalls fa
    end.
Proof.
  unfold FontAtlas.processBatch.
  destruct (FontAtlas.pendingGlyphs fa) as [|e0 batch] eqn:Eb; [reflexivity|].
  cbn [length Nat.eqb].
  pose proof (processAll_sameQueue (e0 :: batch)
                (FontAtlas.setQueue fa [] false)) as (_ & Ho & Hr & _).
  destruct (FontAtlas.processAll _ _) as [[[]|err] fa1]; simpl in *.
  - destruct (FontAtlas.flushAtlases _ _) as [ats f']. simpl.
    rewrite Ho, Hr. reflexivity.
  - exact Hr.
Qed.
End Callback.

(** C9 (amended).  A drain invokes [onGlyphsReady] once when its snapshot
    is not empty, a callback is configured and no glyph of the batch raises a
    page-overflow error; it does not invoke it when the snapshot is empty or
    when the drain is aborted by such an error; [prefabLatin] never invokes
    it. *)
Theorem C9_callback_of_a_drain {T F G : Type}
    `{TextureFactory T F} `{MSDFGenerator G} (fa : FontAtlas.t T F G) :
  FontAtlas.readyCalls (FontAtlas.processBatch fa).2
  = match FontAtlas.pendingGlyphs fa, (FontAtlas.processBatch fa).1 with
    | _ :: _, Ok _ =>
        if FontAtlas.onGlyphsReady fa then S (FontAtlas.readyCalls fa)
        else FontAtlas.readyCalls fa
    | _, _ => FontAtlas.readyCalls fa
    end
  /\ forall variantId fontSize fontBytes axes,
       FontAtlas.readyCalls
         (FontAtlas.prefabLatin variantId fontSize fontBytes axes fa).2
       = FontAtlas.readyCalls fa.
Proof.
  split; [apply processBatch_readyCalls|].
  intros variantId fontSize fontBytes axes.
  apply (prefabLatin_sameQueue variantId fontSize fontBytes axes fa).
Qed.

(** ** The page-size invariant *)

Section Sized.
Context {T F G : Type} `{TextureFactory T F} `{MSDFGenerator G}.

Lemma setIndex_sized (va : VariantAtlas.t T) idx pend :
  atlasSized va -> atlasSized (VariantAtlas.setIndex va idx pend).
Proof. intros Hs. exact Hs. Qed.

Lemma setPage_sized ref (p : Page.t T) (va : VariantAtlas.t T) :
  atlasSized va ->
  Page.width p = VariantAtlas.pageSize va ->
  Page.height p = VariantAtlas.pageSize va ->
  atlasSized (VariantAtlas.setPage ref p va).
Proof.
  intros (Hs & Hl & Hm) Hw Hh. destruct ref as [|i]; simpl.
  - split; [exact Hs|]. split; [|exact Hm]. intros q [= <-]. auto.
  - split; [exact Hs|]. split; [exact Hl|]. simpl.
    intros j q Hq. apply list_lookup_insert_Some in Hq as [(-> & <- & _)|[_ Hq]].
    + auto.
    + eapply Hm, Hq.
Qed.

Lemma tryAdd_sized pixels w h (p : Page.t T) s :
  Page.width p = s -> Page.height p = s ->
  Page.width (Page.tryAdd pixels w h p).2 = s /\
  Page.height (Page.tryAdd pixels w h p).2 = s.
Proof.
  intros Hw Hh. destruct (tryAdd_fields pixels w h p) as (Ew & Eh & _).
  split; congruence.
Qed.

Lemma reserveGlyph_sized cp (va : VariantAtlas.t T) (f : F) :
  atlasSized va -> atlasSized (VariantAtlas.reserveGlyph cp va f).1.2.
Proof.
  intros Hok. unfold VariantAtlas.reserveGlyph.
  destruct (VariantAtlas.getOrCreatePage _ _ _ _) as [[[ref page] va1] f1] eqn:E.
  apply (getOrCreatePage_sized _ _ _ _ _ _ _ _ Hok) in E as (Hok1 & _).
  exact Hok1.
Qed.

Lemma markEmpty_sized cp missing (va : VariantAtlas.t T) :
  atlasSized va -> atlasSized (VariantAtlas.markEmpty cp missing va).
Proof. intros Hs. exact Hs. Qed.

(** The pages after the two placement attempts that [fillGlyph] and
    [addGlyph] share. *)
Lemma place_sized isLatin pixels w h (va : VariantAtlas.t T) (f : F) :
  atlasSized va ->
  let '(ref, page, va1, f1) :=
    VariantAtlas.getOrCreatePage isLatin (Some h) va f in
  let va2 := VariantAtlas.setPage ref (Page.tryAdd pixels w h page).2 va1 in
  atlasSized va2 /\
  let '(newRef, newPage, va3, f3) := VariantAtlas.createMixedPage va2 f1 in
  atlasSized (VariantAtlas.setPage newRef (Page.tryAdd pixels w h newPage).2 va3).
Proof.
  intros Hok.
  destruct (VariantAtlas.getOrCreatePage _ _ _ _) as [[[ref page] va1] f1] eqn:E.
  pose proof (getOrCreatePage_sameIndex _ _ _ _ _ _ _ _ E) as (_ & _ & Hps & _).
  apply (getOrCreatePage_sized _ _ _ _ _ _ _ _ Hok) in E as (Hok1 & _ & Hw & Hh).
  rewrite <- Hps in Hw, Hh.
  assert (Hok2 : atlasSized
            (VariantAtlas.setPage ref (Page.tryAdd pixels w h page).2 va1)).
  { apply setPage_sized; [exact Hok1 | apply tryAdd_sized; auto ..]. }
  split; [exact Hok2|].
  destruct (VariantAtlas.createMixedPage _ _) as [[[newRef newPage] va3] f3] eqn:E3.
  pose proof (createMixedPage_sameIndex _ _ _ _ _ _ E3) as (_ & _ & Hps3 & _).
  apply (createMixedPage_sized _ _ _ _ _ _ Hok2) in E3 as (Hok3 & _ & Hw3 & Hh3).
  rewrite <- Hps3 in Hw3, Hh3.
  apply setPage_sized; [exact Hok3 | apply tryAdd_sized; auto ..].
Qed.

Lemma fillGlyph_sized cp pixels metrics (va : VariantAtlas.t T) (f : F) :
  atlasSized va -> atlasSized (VariantAtlas.fillGlyph cp pixels metrics va f).1.2.
Proof.
  intros Hok. unfold VariantAtlas.fillGlyph.
  pose proof (place_sized (isLatinChar cp) pixels (GlyphMetrics.width metrics)
                (GlyphMetrics.height metrics) va f Hok) as Hp.
  destruct (VariantAtlas.getOrCreatePage _ _ _ _) as [[[ref page] va1] f1].
  destruct Hp as [Hok2 Hp].
  destruct (Page.tryAdd _ _ _ page) as [[p|] page']; simpl in *; [exact Hok2|].
  destruct (isLatinChar cp); [exact Hok2|].
  destruct (VariantAtlas.createMixedPage _ _) as [[[newRef newPage] va3] f3].
  destruct (Page.tryAdd _ _ _ newPage) as [[np|] newPage']; exact Hp.
Qed.

Lemma addGlyph_sized cp pixels metrics (va : VariantAtlas.t T) (f : F) :
  atlasSized va -> atlasSized (VariantAtlas.addGlyph cp pixels metrics va f).1.2.
Proof.
  intros Hok. unfold VariantAtlas.addGlyph.
  pose proof (place_sized (isLatinChar cp) pixels (GlyphMetrics.width metrics)
                (GlyphMetrics.height metrics) va f Hok) as Hp.
  destruct (VariantAtlas.getOrCreatePage _ _ _ _) as [[[ref page] va1] f1].
  destruct Hp as [Hok2 Hp].
  destruct (Page.tryAdd _ _ _ page) as [[p|] page']; simpl in *; [exact Hok2|].
  destruct (isLatinChar cp); [exact Hok2|].
  destruct (VariantAtlas.createMixedPage _ _) as [[[newRef newPage] va3] f3].
  destruct (Page.tryAdd _ _ _ newPage) as [[np|] newPage']; exact Hp.
Qed.

Lemma flush_fields (p : Page.t T) (f : F) :
  Page.width (Page.flush p f).1 = Page.width p /\
  Page.height (Page.flush p f).1 = Page.height p.
Proof. unfold Page.flush. destruct (Page.dirty p); auto. Qed.

Lemma flushAll_lookup (pages : list (Page.t T)) (f : F) i p' :
  (VariantAtlas.flushAll pages f).1 !! i = Some p' ->
  exists p, pages !! i = Some p /\
            Page.width p' = Page.width p /\ Page.height p' = Page.height p.
Proof.
  revert f i. induction pages as [|p pages IH]; intros f i; simpl.
  - rewrite lookup_nil. discriminate.
  - pose proof (flush_fields p f) as Hf.
    destruct (Page.flush p f) as [q f1].
    specialize (IH f1). destruct (VariantAtlas.flushAll pages f1) as [rest f2].
    destruct i as [|i]; simpl.
    + intros [= <-]. exists p. auto.
    + apply IH.
Qed.

Lemma flushDirtyPages_sized (va : VariantAtlas.t T) (f : F) :
  atlasSized va -> atlasSized (VariantAtlas.flushDirtyPages va f).1.
Proof.
  intros (Hs & Hl & Hm). unfold VariantAtlas.flushDirtyPages.
  destruct (VariantAtlas.latinPage va) as [p|] eqn:El.
  - pose proof (flush_fields p f) as [Hw Hh].
    destruct (Page.flush p f) as [q f1].
    pose proof (flushAll_lookup (VariantAtlas.mixedPages va) f1) as Hfl.
    destruct (VariantAtlas.flushAll _ f1) as [mp f2]. simpl in *.
    split; [exact Hs|]. split.
    + intros q' [= <-]. destruct (Hl p eq_refl). split; simpl; congruence.
    + intros i q' Hq'. apply Hfl in Hq' as (q0 & Hq0 & Hw0 & Hh0).
      destruct (Hm i q0 Hq0). split; simpl; congruence.
  - pose proof (flushAll_lookup (VariantAtlas.mixedPages va) f) as Hfl.
    destruct (VariantAtlas.flushAll _ f) as [mp f2]. simpl in *.
    split; [exact Hs|]. split; [discriminate|].
    intros i q' Hq'. apply Hfl in Hq' as (q0 & Hq0 & Hw0 & Hh0).
    destruct (Hm i q0 Hq0). split; simpl; congruence.
Qed.

(** Writing a well-sized atlas back keeps the font atlas well-sized. *)
Lemma sized_store (fa : FontAtlas.t T F G) g f key va :
  sized fa -> atlasSized va ->
  sized (FontAtlas.setWorld fa g f (mapSet key va (FontAtlas.atlases fa))).
Proof.
  intros [Hc Ha] Hva. split; [exact Hc|]. simpl.
  intros k va' Hk. destruct (decide (k = key)) as [->|Hne].
  - rewrite mapGet_mapSet_eq in Hk. injection Hk as <-. exact Hva.
  - rewrite mapGet_mapSet_ne in Hk by exact Hne. eapply Ha, Hk.
Qed.

Lemma getGlyph_sized request (fa : FontAtlas.t T F G) :
  sized fa -> sized (FontAtlas.getGlyph request fa).2.
Proof.
  intros Hs. unfold FontAtlas.getGlyph.
  destruct (FontAtlas.getOrCreateAtlas _ _ _) as [[key atlas] fa1] eqn:Ea.
  apply (getOrCreateAtlas_sized _ _ _ _ _ _ Hs) in Ea as [Hat Hs1].
  destruct (VariantAtlas.getGlyph _ atlas) as [loc|]; [exact Hs1|].
  pose proof (reserveGlyph_sized (GlyphRequest.codePoint request) atlas
                (FontAtlas.textureFactory fa1) Hat) as Hr.
  destruct (VariantAtlas.reserveGlyph _ atlas _) as [[loc a1] f1]. simpl in *.
  apply (sized_store fa1 (FontAtlas.msdf fa1) f1 key a1 Hs1 Hr).
Qed.

Lemma processPending_sized pending (fa : FontAtlas.t T F G) :
  sized fa -> sized (FontAtlas.processPending pending fa).2.
Proof.
  intros Hs. unfold FontAtlas.processPending.
  destruct (FontAtlas.getOrCreateAtlas _ _ _) as [[key atlas] fa1] eqn:Ea.
  apply (getOrCreateAtlas_sized _ _ _ _ _ _ Hs) in Ea as [Hat Hs1].
  destruct (negb _).
  { apply sized_store; [exact Hs1 | apply markEmpty_sized, Hat]. }
  destruct (FontAtlas.generateGlyph _ _ _ _ _ _) as [[gl|] g2].
  - pose proof (fillGlyph_sized (PendingGlyph.codePoint pending)
      (FontAtlas.floatToRGBA (MSDFGlyph.pixels gl)
         (MSDFMetrics.width (MSDFGlyph.metrics gl))
         (MSDFMetrics.height (MSDFGlyph.metrics gl)))
      (FontAtlas.toMetrics (MSDFGlyph.metrics gl)) atlas
      (FontAtlas.textureFactory fa1) Hat) as Hf.
    destruct (VariantAtlas.fillGlyph _ _ _ _ _) as [[r a1] f1]. simpl in *.
    apply sized_store; assumption.
  - apply sized_store; [exact Hs1 | apply markEmpty_sized, Hat].
Qed.

Lemma processAll_sized batch : forall (fa : FontAtlas.t T F G),
  sized fa -> sized (FontAtlas.processAll batch fa).2.
Proof.
  induction batch as [|pending rest IH]; intros fa Hs;
    cbn [FontAtlas.processAll]; [exact Hs|].
  pose proof (processPending_sized pending fa Hs) as Hp.
  destruct (FontAtlas.processPending pending fa) as [[[]|e] fa1]; simpl in *.
  - apply IH, Hp.
  - exact Hp.
Qed.

Lemma flushAtlases_lookup (ats : list (string * VariantAtlas.t T)) (f : F) k va' :
  mapGet k (FontAtlas.flushAtlases ats f).1 = Some va' ->
  exists va f0, mapGet k ats = Some va /\
                va' = (VariantAtlas.flushDirtyPages va f0).1.
Proof.
  revert f. induction ats as [|[k0 va0] ats IH]; intros f; simpl; [discriminate|].
  destruct (VariantAtlas.flushDirtyPages va0 f) as [a1 f1] eqn:Ef.
  specialize (IH f1). destruct (FontAtlas.flushAtlases ats f1) as [rest f2].
  simpl. destruct (String.eqb k k0).
  - intros [= <-]. exists va0, f. rewrite Ef. auto.
  - exact IH.
Qed.

Lemma processBatch_sized (fa : FontAtlas.t T F G) :
  sized fa -> sized (FontAtlas.processBatch fa).2.
Proof.
  intros Hs. unfold FontAtlas.processBatch.
  destruct (length (FontAtlas.pendingGlyphs fa) =? 0)%nat; [exact Hs|].
  pose proof (processAll_sized (FontAtlas.pendingGlyphs fa)
                (FontAtlas.setQueue fa [] false) Hs) as Hp.
  destruct (FontAtlas.processAll _ _) as [[[]|e] fa1]; simpl in *; [|exact Hp].
  pose proof (flushAtlases_lookup (FontAtlas.atlases fa1)
                (FontAtlas.textureFactory fa1)) as Hfl.
  destruct (FontAtlas.flushAtlases _ _) as [ats f']. simpl in *.
  destruct Hp as [Hc Ha]. split; [exact Hc|]. simpl.
  intros k va' Hk. apply Hfl in Hk as (va & f0 & Hva & ->).
  apply flushDirtyPages_sized. eapply Ha, Hva.
Qed.

Lemma prefabOne_sized cfg genSize fontBuffer axes cp
    (atlas : VariantAtlas.t T) (f : F) (g : G) :
  atlasSized atlas ->
  atlasSized (FontAtlas.prefabOne cfg genSize fontBuffer axes cp (atlas, f, g)).2.1.1.
Proof.
  intros Hat. unfold FontAtlas.prefabOne.
  destruct (VariantAtlas.getGlyph cp atlas); [exact Hat|].
  pose proof (reserveGlyph_sized cp atlas f Hat) as Hr.
  destruct (negb _).
  { destruct (VariantAtlas.reserveGlyph cp atlas f) as [[l a1] f1]. exact Hr. }
  destruct (FontAtlas.generateGlyph _ _ _ _ _ _) as [[gl|] g1].
  - pose proof (addGlyph_sized cp
      (FontAtlas.floatToRGBA (MSDFGlyph.pixels gl)
         (MSDFMetrics.width (MSDFGlyph.metrics gl))
         (MSDFMetrics.height (MSDFGlyph.metrics gl)))
      (FontAtlas.toMetrics (MSDFGlyph.metrics gl)) atlas f Hat) as Ha.
    destruct (VariantAtlas.addGlyph _ _ _ _ _) as [[r a1] f1]. exact Ha.
  - destruct (VariantAtlas.reserveGlyph cp atlas f) as [[l a1] f1]. exact Hr.
Qed.

Lemma prefabAll_sized cfg genSize fontBuffer axes cps :
  forall (atlas : VariantAtlas.t T) (f : F) (g : G),
  atlasSized atlas ->
  atlasSized (FontAtlas.prefabAll cfg genSize fontBuffer axes cps (atlas, f, g)).2.1.1.
Proof.
  induction cps as [|cp cps IH]; intros atlas f g Hat;
    cbn [FontAtlas.prefabAll]; [exact Hat|].
  pose proof (prefabOne_sized cfg genSize fontBuffer axes cp atlas f g Hat) as Hp.
  destruct (FontAtlas.prefabOne cfg genSize fontBuffer axes cp (atlas, f, g))
    as [[[]|e] [[a1 f1] g1]]; simpl in *.
  - apply IH, Hp.
  - exact Hp.
Qed.

Lemma prefabLatin_sized variantId fontSize fontBuffer axes (fa : FontAtlas.t T F G) :
  sized fa -> sized (FontAtlas.prefabLatin variantId fontSize fontBuffer axes fa).2.
Proof.
  intros Hs. unfold FontAtlas.prefabLatin.
  destruct (FontAtlas.getOrCreateAtlas _ _ _) as [[key atlas] fa1] eqn:Ea.
  apply (getOrCreateAtlas_sized _ _ _ _ _ _ Hs) in Ea as [Hat Hs1].
  pose proof (prefabAll_sized (FontAtlas.config fa1)
    (FontAtlas.selectGenSize (FontAtlas.config fa) fontSize) fontBuffer axes
    LATIN_CODEPOINTS atlas (FontAtlas.textureFactory fa1) (FontAtlas.msdf fa1) Hat) as Hp.
  destruct (FontAtlas.prefabAll _ _ _ _ _ _) as [r [[a1 f1] g1]]. simpl in Hp.
  destruct r as [[]|e].
  - pose proof (flushDirtyPages_sized a1 f1 Hp) as Hf.
    destruct (VariantAtlas.flushDirtyPages a1 f1) as [a2 f2]. simpl in *.
    apply sized_store; assumption.
  - apply sized_store; assumption.
Qed.

(** Every state that calls lead to from a new atlas with a positive page
    size is well-sized. *)
Lemma after_sized calls : forall (fa : FontAtlas.t T F G),
  sized fa -> sized (after calls fa).
Proof.
  unfold after. induction calls as [|c calls IH]; intros fa Hs; simpl; [exact Hs|].
  apply IH. destruct c; simpl.
  - apply getGlyph_sized, Hs.
  - apply prefabLatin_sized, Hs.
  - apply processBatch_sized, Hs.
  - split; [apply Hs | discriminate].
Qed.

(** No call changes the configuration. *)
Lemma after_config calls : forall (fa : FontAtlas.t T F G),
  FontAtlas.config (after calls fa) = FontAtlas.config fa.
Proof.
  unfold after. induction calls as [|c calls IH]; intros fa; simpl; [reflexivity|].
  rewrite IH. destruct c; simpl.
  - unfold FontAtlas.getGlyph.
    destruct (FontAtlas.getOrCreateAtlas _ _ _) as [[key atlas] fa1] eqn:Ea.
    apply getOrCreateAtlas_spec in Ea as (_ & _ & _ & _ & _ & _ & (Hc & _)).
    destruct (VariantAtlas.getGlyph _ atlas); [exact Hc|].
    destruct (VariantAtlas.reserveGlyph _ atlas _) as [[loc a1] f1]. exact Hc.
  - apply prefabLatin_sameQueue.
  - unfold FontAtlas.processBatch.
    destruct (length (FontAtlas.pendingGlyphs fa) =? 0)%nat; [reflexivity|].
    pose proof (processAll_sameQueue (FontAtlas.pendingGlyphs fa)
                  (FontAtlas.setQueue fa [] false)) as (Hc & _).
    destruct (FontAtlas.processAll _ _) as [[[]|e] fa1]; simpl in *; [|exact Hc].
    destruct (FontAtlas.flushAtlases _ _) as [ats f']. exact Hc.
  - reflexivity.
Qed.

Lemma new_atlas_sized (g : G) (f : F) callback config calls :
  0 < AtlasConfig.pageSize (mergeConfig config) ->
  sized (after calls (FontAtlas.new g f callback config)).
Proof.
  intros Hp. apply after_sized. split; [exact Hp | discriminate].
Qed.
End Sized.

(** C10.  In every state that calls lead to from a new font atlas with a
    positive page size, a request that misses the cache ([cached = false]) is
    answered with all-zero UVs, the all-zero placeholder metrics,
    [empty = false] and [missing = false]; the generation size is the one
    selected for the render size. *)
Theorem C10_miss_returns_placeholder {T F G : Type}
    `{TextureFactory T F} `{MSDFGenerator G}
    (g : G) (f : F) (callback : bool) (config : option PartialConfig.t)
    (calls : list Call) (request : GlyphRequest.t) :
  0 < AtlasConfig.pageSize (mergeConfig config) ->
  let fa := after calls (FontAtlas.new g f callback config) in
  GlyphInfo.cached (FontAtlas.getGlyph request fa).1 = false ->
  let info := (FontAtlas.getGlyph request fa).1 in
  GlyphInfo.uvs info = UVs.mk (Num 0) (Num 0) (Num 0) (Num 0) /\
  GlyphInfo.metrics info = PLACEHOLDER_METRICS /\
  GlyphMetrics.width (GlyphInfo.metrics info) = 0 /\
  GlyphMetrics.height (GlyphInfo.metrics info) = 0 /\
  GlyphInfo.empty info = false /\
  GlyphInfo.missing info = false /\
  GlyphInfo.genSize info
  = FontAtlas.selectGenSize (mergeConfig config) (GlyphRequest.renderSize request).
Proof.
  intros Hp fa Hmiss.
  pose proof (new_atlas_sized g f callback config calls Hp) as Hs. fold fa in Hs.
  destruct (getGlyph_miss_placeholder request fa Hs Hmiss)
    as (Hu & Hm & Hw & Hh & He & Hmi & Hg).
  repeat split; try assumption.
  rewrite Hg. f_equal. unfold fa. apply after_config.
Qed.

(** ** The packing invariant *)

Section Packed.
Context {T F : Type} `{TextureFactory T F}.

Lemma new_packedPage s (f : F) : 0 < s -> @packedPage T s (Page.new s s f).1.
Proof.
  intros Hs. split; [apply new_pageOk|]. apply new_sized.
Qed.

Lemma tryAdd_packedPage s pixels w h (p : Page.t T) :
  0 <= w -> packedPage s p -> packedPage s (Page.tryAdd pixels w h p).2.
Proof.
  intros Hw (Hok & Hpw & Hph). split; [apply tryAdd_pageOk; assumption|].
  apply tryAdd_sized; assumption.
Qed.

Lemma flush_packedPage s (p : Page.t T) (f : F) :
  packedPage s p -> packedPage s (Page.flush p f).1.
Proof.
  unfold Page.flush. destruct (Page.dirty p); [|auto].
  intros (Hok & Hpw & Hph). repeat split; try assumption; apply Hok.
Qed.

Lemma setPage_allPages (P : Page.t T -> Prop) ref p (va : VariantAtlas.t T) :
  allPages P va -> P p -> allPages P (VariantAtlas.setPage ref p va).
Proof.
  intros [Hl Hm] Hp. destruct ref as [|i]; split; simpl.
  - intros q [= <-]. exact Hp.
  - exact Hm.
  - exact Hl.
  - intros j q Hq. apply list_lookup_insert_Some in Hq as [(_ & <- & _)|[_ Hq]].
    + exact Hp.
    + eapply Hm, Hq.
Qed.

Lemma createMixedPage_allPages (P : Page.t T -> Prop) (va : VariantAtlas.t T)
    (f : F) ref page va' f' :
  allPages P va ->
  P (Page.new (VariantAtlas.pageSize va) (VariantAtlas.pageSize va) f).1 ->
  VariantAtlas.createMixedPage va f = (ref, page, va', f') ->
  allPages P va' /\ P page.
Proof.
  intros [Hl Hm] Hn. unfold VariantAtlas.createMixedPage.
  destruct (Page.new _ _ f) as [p f1]. simpl in Hn.
  intros [= <- <- <- <-]. split; [|exact Hn]. split; simpl; [exact Hl|].
  intros i q Hq. apply lookup_app_Some in Hq as [Hq|[_ Hq]].
  - eapply Hm, Hq.
  - apply list_lookup_singleton_Some in Hq as [_ <-]. exact Hn.
Qed.

Lemma getOrCreatePage_allPages (P : Page.t T -> Prop) isLatin gh
    (va : VariantAtlas.t T) (f : F) ref page va' f' :
  allPages P va ->
  P (Page.new (VariantAtlas.pageSize va) (VariantAtlas.pageSize va) f).1 ->
  VariantAtlas.getOrCreatePage isLatin gh va f = (ref, page, va', f') ->
  allPages P va' /\ P page.
Proof.
  intros Hall Hn. pose proof Hall as [Hl Hm].
  unfold VariantAtlas.getOrCreatePage. destruct isLatin.
  - destruct (VariantAtlas.latinPage va) as [p|] eqn:El.
    + intros [= <- <- <- <-]. split; [exact Hall | apply Hl; reflexivity].
    + destruct (Page.new _ _ f) as [p f1]. simpl in Hn.
      intros [= <- <- <- <-]. split; [|exact Hn]. split; simpl; [|exact Hm].
      intros q [= <-]. exact Hn.
  - destruct (findFirst _ _) as [[i p]|] eqn:Ef.
    + apply findFirst_Some in Ef as [Ei _].
      intros [= <- <- <- <-]. split; [exact Hall | eapply Hm, Ei].
    + apply createMixedPage_allPages; assumption.
Qed.

Lemma flushAll_allPages (P : Page.t T -> Prop) (pages : list (Page.t T)) (f : F) :
  (forall p f0, P p -> P (Page.flush p f0).1) ->
  (forall i p, pages !! i = Some p -> P p) ->
  forall i p, (VariantAtlas.flushAll pages f).1 !! i = Some p -> P p.
Proof.
  intros Hfl. revert f. induction pages as [|q pages IH]; intros f Hm i p; simpl.
  - rewrite lookup_nil. discriminate.
  - pose proof (Hfl q f (Hm O q eq_refl)) as Hq.
    destruct (Page.flush q f) as [q' f1].
    specialize (IH f1 (fun j => Hm (S j))).
    destruct (VariantAtlas.flushAll pages f1) as [rest f2].
    destruct i as [|i]; simpl.
    + intros [= <-]. exact Hq.
    + apply IH.
Qed.

Lemma placeholder_locationOk (p : Page.t T) s :
  0 < s -> packedPage s p ->
  locationOk (GlyphLocation.mk (VariantAtlas.pageOf p) 0 0 0 0
                PLACEHOLDER_METRICS false false).
Proof.
  intros Hs (_ & Hw & Hh). unfold locationOk, insidePage. simpl. lia.
Qed.

Lemma placed_locationOk pixels (metrics : GlyphMetrics.t) s (p p' : Page.t T) pos :
  packedPage s p ->
  0 <= GlyphMetrics.width metrics <= s -> 0 <= GlyphMetrics.height metrics ->
  Page.tryAdd pixels (GlyphMetrics.width metrics) (GlyphMetrics.height metrics) p
    = (Some pos, p') ->
  locationOk (GlyphLocation.mk (VariantAtlas.pageOf p') pos.1 pos.2
                (GlyphMetrics.width metrics) (GlyphMetrics.height metrics)
                metrics false false).
Proof.
  intros (Hok & Hw & Hh) Hmw Hmh Hadd. destruct pos as [x y].
  pose proof (tryAdd_fields pixels (GlyphMetrics.width metrics)
                (GlyphMetrics.height metrics) p) as (Fw & Fh & _).
  rewrite Hadd in Fw, Fh. simpl in Fw, Fh.
  apply tryAdd_inside in Hadd; [|assumption | lia | lia].
  unfold locationOk, insidePage. simpl. lia.
Qed.

Lemma reserveGlyph_packed cp (va : VariantAtlas.t T) (f : F) :
  atlasPacked va -> atlasPacked (VariantAtlas.reserveGlyph cp va f).1.2.
Proof.
  intros (Hs & Hall & Hidx). unfold VariantAtlas.reserveGlyph.
  destruct (VariantAtlas.getOrCreatePage _ _ _ _) as [[[ref page] va1] f1] eqn:E.
  pose proof (getOrCreatePage_sameIndex _ _ _ _ _ _ _ _ E) as (Ei & _ & Eps & _).
  apply (getOrCreatePage_allPages _ _ _ _ _ _ _ _ _ Hall (new_packedPage _ _ Hs))
    in E as [Hall1 Hpage].
  split; [simpl; lia|]. split; [simpl; rewrite Eps; exact Hall1|]. simpl.
  intros c loc Hc. rewrite Ei in Hc.
  apply lookup_insert_Some in Hc as [[_ <-]|[_ Hc]].
  - eapply placeholder_locationOk; eassumption.
  - eapply Hidx, Hc.
Qed.

Lemma markEmpty_packed cp missing (va : VariantAtlas.t T) :
  atlasPacked va -> atlasPacked (VariantAtlas.markEmpty cp missing va).
Proof.
  intros (Hs & Hall & Hidx). split; [exact Hs|]. split; [exact Hall|].
  intros c loc Hc. destruct (markEmpty_spec cp missing va) as (_ & Mo & Mc).
  destruct (decide (c = cp)) as [->|Hne].
  - rewrite Mc in Hc. destruct (VariantAtlas.glyphIndex va !! cp) as [l|] eqn:El;
      [|discriminate].
    injection Hc as <-. destruct (Hidx cp l El) as ((? & ? & ? & ?) & ? & ?).
    unfold locationOk, insidePage. simpl. lia.
  - rewrite (Mo c Hne) in Hc. eapply Hidx, Hc.
Qed.

(** The two placement attempts that [fillGlyph] and [addGlyph] share, on
    a packed atlas and a glyph that is no wider than a page. *)
Lemma place_packed isLatin pixels (metrics : GlyphMetrics.t)
    (va : VariantAtlas.t T) (f : F) :
  atlasPacked va ->
  0 <= GlyphMetrics.width metrics <= VariantAtlas.pageSize va ->
  0 <= GlyphMetrics.height metrics ->
  let w := GlyphMetrics.width metrics in
  let h := GlyphMetrics.height metrics in
  let mkLoc (p : Page.t T) (pos : Z * Z) :=
    GlyphLocation.mk (VariantAtlas.pageOf p) pos.1 pos.2 w h metrics false false in
  let '(ref, page, va1, f1) := VariantAtlas.getOrCreatePage isLatin (Some h) va f in
  let va2 := VariantAtlas.setPage ref (Page.tryAdd pixels w h page).2 va1 in
  atlasPacked va2 /\
  (forall pos, (Page.tryAdd pixels w h page).1 = Some pos ->
     locationOk (mkLoc (Page.tryAdd pixels w h page).2 pos)) /\
  let '(newRef, newPage, va3, f3) := VariantAtlas.createMixedPage va2 f1 in
  atlasPacked (VariantAtlas.setPage newRef (Page.tryAdd pixels w h newPage).2 va3) /\
  (forall pos, (Page.tryAdd pixels w h newPage).1 = Some pos ->
     locationOk (mkLoc (Page.tryAdd pixels w h newPage).2 pos)).
Proof.
  intros (Hs & Hall & Hidx) Hw Hh w h mkLoc.
  set (s := VariantAtlas.pageSize va) in *.
  assert (Hplaced : forall p pos, packedPage s p ->
            (Page.tryAdd pixels w h p).1 = Some pos ->
            locationOk (mkLoc (Page.tryAdd pixels w h p).2 pos)).
  { intros p pos Hp Hpos.
    destruct (Page.tryAdd pixels w h p) as [o p'] eqn:Et. simpl in *. subst o.
    eapply placed_locationOk; eassumption. }
  destruct (VariantAtlas.getOrCreatePage _ _ _ _) as [[[ref page] va1] f1] eqn:E.
  pose proof (getOrCreatePage_sameIndex _ _ _ _ _ _ _ _ E) as (Ei & _ & Eps & _).
  apply (getOrCreatePage_allPages _ _ _ _ _ _ _ _ _ Hall (new_packedPage _ _ Hs))
    in E as [Hall1 Hpage].
  set (page' := (Page.tryAdd pixels w h page).2).
  assert (Hpage' : packedPage s page') by (apply tryAdd_packedPage; [lia | exact Hpage]).
  pose proof (setPage_sameIndex ref page' va1) as (Ei2 & _ & Eps2 & _).
  assert (Hp2 : atlasPacked (VariantAtlas.setPage ref page' va1)).
  { split; [lia|]. split.
    - rewrite Eps2, Eps. apply setPage_allPages; assumption.
    - intros c loc Hc. rewrite Ei2, Ei in Hc. eapply Hidx, Hc. }
  split; [exact Hp2|]. split; [intros pos; apply Hplaced, Hpage|].
  destruct (VariantAtlas.createMixedPage _ _) as [[[newRef newPage] va3] f3] eqn:E3.
  pose proof (createMixedPage_sameIndex _ _ _ _ _ _ E3) as (Ei3 & _ & Eps3 & _).
  destruct Hp2 as (Hs2 & Hall2 & Hidx2).
  apply (createMixedPage_allPages _ _ _ _ _ _ _ Hall2 (new_packedPage _ _ Hs2))
    in E3 as [Hall3 Hnew].
  rewrite Eps2, Eps in Hall3, Hnew. fold s in Hall3, Hnew.
  set (newPage' := (Page.tryAdd pixels w h newPage).2).
  assert (Hnew' : packedPage s newPage')
    by (apply tryAdd_packedPage; [lia | exact Hnew]).
  pose proof (setPage_sameIndex newRef newPage' va3) as (Ei4 & _ & Eps4 & _).
  split; [|intros pos; apply Hplaced, Hnew].
  split; [lia|]. split.
  - rewrite Eps4, Eps3, Eps2, Eps. apply setPage_allPages; assumption.
  - intros c loc Hc. rewrite Ei4, Ei3 in Hc. eapply Hidx2, Hc.
Qed.

Lemma fillGlyph_packed cp pixels (metrics : GlyphMetrics.t)
    (va : VariantAtlas.t T) (f : F) :
  atlasPacked va ->
  0 <= GlyphMetrics.width metrics <= VariantAtlas.pageSize va ->
  0 <= GlyphMetrics.height metrics ->
  atlasPacked (VariantAtlas.fillGlyph cp pixels metrics va f).1.2.
Proof.
  intros Hok Hw Hh. unfold VariantAtlas.fillGlyph.
  pose proof (place_packed (isLatinChar cp) pixels metrics va f Hok Hw Hh) as Hp.
  cbv zeta in Hp.
  destruct (VariantAtlas.getOrCreatePage _ _ _ _) as [[[ref page] va1] f1].
  destruct Hp as (Hp2 & Hloc & Hp).
  assert (Hupd : forall (page' : Page.t T) (pos : Z * Z) (va2 : VariantAtlas.t T),
    atlasPacked va2 ->
    locationOk (GlyphLocation.mk (VariantAtlas.pageOf page') pos.1 pos.2
                  (GlyphMetrics.width metrics) (GlyphMetrics.height metrics)
                  metrics false false) ->
    atlasPacked (VariantAtlas.updateGlyphLocation cp page' pos metrics va2)).
  { intros page' pos va2 (Hs & Hall & Hidx) Hl. split; [exact Hs|].
    split; [exact Hall|]. unfold VariantAtlas.updateGlyphLocation. simpl.
    intros c loc Hc. destruct (VariantAtlas.glyphIndex va2 !! cp) eqn:El.
    - apply lookup_insert_Some in Hc as [[_ <-]|[_ Hc]]; [exact Hl | eapply Hidx, Hc].
    - eapply Hidx, Hc. }
  destruct (Page.tryAdd _ _ _ page) as [[pos|] page']; simpl in *.
  - apply Hupd; [exact Hp2 | apply Hloc; reflexivity].
  - destruct (isLatinChar cp); [exact Hp2|].
    destruct (VariantAtlas.createMixedPage _ _) as [[[newRef newPage] va3] f3].
    destruct Hp as [Hp4 Hloc4].
    destruct (Page.tryAdd _ _ _ newPage) as [[np|] newPage']; simpl in *.
    + apply Hupd; [exact Hp4 | apply Hloc4; reflexivity].
    + exact Hp4.
Qed.

Lemma addGlyph_packed cp pixels (metrics : GlyphMetrics.t)
    (va : VariantAtlas.t T) (f : F) :
  atlasPacked va ->
  0 <= GlyphMetrics.width metrics <= VariantAtlas.pageSize va ->
  0 <= GlyphMetrics.height metrics ->
  atlasPacked (VariantAtlas.addGlyph cp pixels metrics va f).1.2.
Proof.
  intros Hok Hw Hh. unfold VariantAtlas.addGlyph.
  pose proof (place_packed (isLatinChar cp) pixels metrics va f Hok Hw Hh) as Hp.
  cbv zeta in Hp.
  destruct (VariantAtlas.getOrCreatePage _ _ _ _) as [[[ref page] va1] f1].
  destruct Hp as (Hp2 & Hloc & Hp).
  assert (Hst : forall (page' : Page.t T) (pos : Z * Z) (va2 : VariantAtlas.t T),
    atlasPacked va2 ->
    locationOk (GlyphLocation.mk (VariantAtlas.pageOf page') pos.1 pos.2
                  (GlyphMetrics.width metrics) (GlyphMetrics.height metrics)
                  metrics false false) ->
    atlasPacked (VariantAtlas.storeGlyph cp page' pos metrics va2).2).
  { intros page' pos va2 (Hs & Hall & Hidx) Hl. split; [exact Hs|].
    split; [exact Hall|]. simpl.
    intros c loc Hc.
    apply lookup_insert_Some in Hc as [[_ <-]|[_ Hc]]; [exact Hl | eapply Hidx, Hc]. }
  destruct (Page.tryAdd _ _ _ page) as [[pos|] page']; simpl in *.
  - apply Hst; [exact Hp2 | apply Hloc; reflexivity].
  - destruct (isLatinChar cp); [exact Hp2|].
    destruct (VariantAtlas.createMixedPage _ _) as [[[newRef newPage] va3] f3].
    destruct Hp as [Hp4 Hloc4].
    destruct (Page.tryAdd _ _ _ newPage) as [[np|] newPage']; simpl in *.
    + apply Hst; [exact Hp4 | apply Hloc4; reflexivity].
    + exact Hp4.
Qed.

Lemma flushDirtyPages_packed (va : VariantAtlas.t T) (f : F) :
  atlasPacked va -> atlasPacked (VariantAtlas.flushDirtyPages va f).1.
Proof.
  intros (Hs & [Hl Hm] & Hidx). unfold VariantAtlas.flushDirtyPages.
  set (s := VariantAtlas.pageSize va) in *.
  assert (Hfl : forall (p : Page.t T) (f0 : F),
            packedPage s p -> packedPage s (Page.flush p f0).1)
    by (intros p f0; apply flush_packedPage).
  destruct (VariantAtlas.latinPage va) as [p|] eqn:El.
  - pose proof (Hfl p f (Hl p eq_refl)) as Hq.
    destruct (Page.flush p f) as [q f1].
    pose proof (flushAll_allPages (packedPage s) (VariantAtlas.mixedPages va) f1
                  Hfl Hm) as Hmp.
    destruct (VariantAtlas.flushAll _ f1) as [mp f2]. simpl in *.
    split; [exact Hs|]. split; [|exact Hidx].
    split; simpl; [intros q' [= <-]; exact Hq | exact Hmp].
  - pose proof (flushAll_allPages (packedPage s) (VariantAtlas.mixedPages va) f
                  Hfl Hm) as Hmp.
    destruct (VariantAtlas.flushAll _ f) as [mp f2]. simpl in *.
    split; [exact Hs|]. split; [|exact Hidx].
    split; simpl; [discriminate | exact Hmp].
Qed.

Lemma new_packed variantId genSize pageSize maxMixedPages :
  0 < pageSize ->
  @atlasPacked T (VariantAtlas.new variantId genSize pageSize maxMixedPages).
Proof.
  intros Hs. split; [exact Hs|]. split; [split|]; simpl.
  - discriminate.
  - intros i p Hp. rewrite lookup_nil in Hp. discriminate.
  - intros cp loc Hc. rewrite lookup_empty in Hc. discriminate.
Qed.

Lemma setPage_pageSize ref (p : Page.t T) (va : VariantAtlas.t T) :
  VariantAtlas.pageSize (VariantAtlas.setPage ref p va) = VariantAtlas.pageSize va.
Proof. destruct ref; reflexivity. Qed.

Lemma fillGlyph_pageSize cp pixels metrics (va : VariantAtlas.t T) (f : F) :
  VariantAtlas.pageSize (VariantAtlas.fillGlyph cp pixels metrics va f).1.2
  = VariantAtlas.pageSize va.
Proof.
  unfold VariantAtlas.fillGlyph.
  destruct (VariantAtlas.getOrCreatePage _ _ _ _) as [[[ref page] va1] f1] eqn:E1.
  apply getOrCreatePage_sameIndex in E1 as (_ & _ & Hp & _).
  destruct (Page.tryAdd _ _ _ page) as [[pos|] page'].
  - simpl. rewrite setPage_pageSize. exact Hp.
  - destruct (isLatinChar cp).
    + simpl. rewrite setPage_pageSize. exact Hp.
    + destruct (VariantAtlas.createMixedPage _ _) as [[[nr np] va3] f3] eqn:E3.
      apply createMixedPage_sameIndex in E3 as (_ & _ & Hp3 & _).
      destruct (Page.tryAdd _ _ _ np) as [[pos|] np']; simpl;
        rewrite setPage_pageSize, Hp3, setPage_pageSize; exact Hp.
Qed.

Lemma addGlyph_pageSize cp pixels metrics (va : VariantAtlas.t T) (f : F) :
  VariantAtlas.pageSize (VariantAtlas.addGlyph cp pixels metrics va f).1.2
  = VariantAtlas.pageSize va.
Proof.
  unfold VariantAtlas.addGlyph.
  destruct (VariantAtlas.getOrCreatePage _ _ _ _) as [[[ref page] va1] f1] eqn:E1.
  apply getOrCreatePage_sameIndex in E1 as (_ & _ & Hp & _).
  destruct (Page.tryAdd _ _ _ page) as [[pos|] page'].
  - simpl. rewrite setPage_pageSize. exact Hp.
  - destruct (isLatinChar cp).
    + simpl. rewrite setPage_pageSize. exact Hp.
    + destruct (VariantAtlas.createMixedPage _ _) as [[[nr np] va3] f3] eqn:E3.
      apply createMixedPage_sameIndex in E3 as (_ & _ & Hp3 & _).
      destruct (Page.tryAdd _ _ _ np) as [[pos|] np']; simpl;
        rewrite setPage_pageSize, Hp3, setPage_pageSize; exact Hp.
Qed.

Lemma applyOp_pageSize (s : VariantAtlas.t T * F) op :
  VariantAtlas.pageSize (applyOp s op).1 = VariantAtlas.pageSize s.1.
Proof.
  destruct s as [va f]. destruct op as [c|c px m|c px m|c mi|]; cbn [applyOp fst snd].
  - destruct (VariantAtlas.reserveGlyph c va f) as [[loc va'] f'] eqn:E. simpl.
    unfold VariantAtlas.reserveGlyph in E.
    destruct (VariantAtlas.getOrCreatePage _ _ _ _) as [[[ref page] va1] f1] eqn:E1.
    apply getOrCreatePage_sameIndex in E1 as (_ & _ & Hp & _).
    injection E as _ <- _. exact Hp.
  - pose proof (fillGlyph_pageSize c px m va f) as Hp.
    destruct (VariantAtlas.fillGlyph c px m va f) as [[r va'] f']. exact Hp.
  - pose proof (addGlyph_pageSize c px m va f) as Hp.
    destruct (VariantAtlas.addGlyph c px m va f) as [[r va'] f']. exact Hp.
  - reflexivity.
  - destruct (VariantAtlas.flushDirtyPages va f) as [va' f'] eqn:E.
    apply flushDirtyPages_sameIndex in E as (_ & _ & Hp & _). exact Hp.
Qed.

Lemma applyOp_packed (s : VariantAtlas.t T * F) op :
  atlasPacked s.1 -> opFits (VariantAtlas.pageSize s.1) op ->
  atlasPacked (applyOp s op).1.
Proof.
  destruct s as [va f]. intros Hok Hfit. simpl in Hok, Hfit.
  destruct op as [c|c px m|c px m|c mi|]; cbn [applyOp fst snd].
  - pose proof (reserveGlyph_packed c va f Hok) as Hr.
    destruct (VariantAtlas.reserveGlyph c va f) as [[loc va'] f']. exact Hr.
  - destruct Hfit as [Hw Hh].
    pose proof (fillGlyph_packed c px m va f Hok Hw Hh) as Hr.
    destruct (VariantAtlas.fillGlyph c px m va f) as [[r va'] f']. exact Hr.
  - destruct Hfit as [Hw Hh].
    pose proof (addGlyph_packed c px m va f Hok Hw Hh) as Hr.
    destruct (VariantAtlas.addGlyph c px m va f) as [[r va'] f']. exact Hr.
  - apply markEmpty_packed, Hok.
  - apply flushDirtyPages_packed, Hok.
Qed.

(** As long as no glyph is wider than a page, every rectangle that the
    index records lies inside the page it refers to. *)
Lemma packed_rectangles_inside ops : forall (s : VariantAtlas.t T * F),
  atlasPacked s.1 ->
  Forall (opFits (VariantAtlas.pageSize s.1)) ops ->
  forall cp loc,
    VariantAtlas.glyphIndex (applyOps ops s).1 !! cp = Some loc -> insidePage loc.
Proof.
  unfold applyOps. induction ops as [|op ops IH]; intros s Hok Hfit cp loc; simpl.
  - intros Hc. destruct Hok as (_ & _ & Hidx). apply (Hidx cp loc Hc).
  - apply Forall_cons in Hfit as [Hop Hfit]. apply IH.
    + apply applyOp_packed; assumption.
    + rewrite applyOp_pageSize. exact Hfit.
Qed.
End Packed.

(** ** The code on concrete inputs *)

(** C1.  The letter A is requested twice before the drain runs: the second
    request finds the code point pending, answers [cached = false], and puts
    a second generation of the same glyph on the queue. *)
Theorem C1_pending_request_is_queued_again :
  let fa1 := (FontAtlas.getGlyph requestA defaultAtlas).2 in
  let '(info, fa2) := FontAtlas.getGlyph requestA fa1 in
  (exists va, mapGet "v_32" (FontAtlas.atlases fa1) = Some va /\
              bool_decide (65 ∈ VariantAtlas.pendingGlyphs va) = true) /\
  GlyphInfo.cached info = false /\
  length (FontAtlas.pendingGlyphs fa1) = 1%nat /\
  length (FontAtlas.pendingGlyphs fa2) = 2%nat /\
  FontAtlas.pendingGlyphs fa2 <> FontAtlas.pendingGlyphs fa1.
Proof.
  vm_compute. split; [eexists; split; reflexivity|].
  repeat split. discriminate.
Qed.

(** C2.  A glyph 5 pixels wide is filled into an atlas whose pages are 4
    pixels wide: [tryAdd] moves to a new shelf row, checks the height only,
    and places the glyph at [x = 0]; the recorded rectangle ends at
    [x + width = 5], outside the page. *)
Theorem C2_wide_glyph_leaves_the_page :
  let '(_, va1, f1) := VariantAtlas.reserveGlyph 0x4E00 tinyAtlas freshBackend in
  let '(r, va2, _) := VariantAtlas.fillGlyph 0x4E00 (ramp 20) wide5 va1 f1 in
  r = Ok tt /\
  exists loc,
    VariantAtlas.glyphIndex va2 !! 0x4E00 = Some loc /\
    (GlyphLocation.x loc, GlyphLocation.y loc) = (0, 1) /\
    (GlyphLocation.width loc, GlyphLocation.height loc) = (5, 1) /\
    LocationPage.width (GlyphLocation.page loc) = 4 /\
    ~ insidePage loc.
Proof.
  vm_compute. split; [reflexivity|]. eexists. split; [reflexivity|].
  repeat split. intros (_ & _ & Hx & _). apply Hx. reflexivity.
Qed.

(** C5.  A glyph of 5 by 2 pixels is added to a page 4 pixels wide and
    placed at (0, 1): the copy of source row 1 runs over the bytes that source
    row 0 was copied to, so the byte the flip assigns to row 0, column 0 holds
    the pixel byte 37 of row 1 instead of the pixel byte 1. *)
Theorem C5_wide_glyph_rows_overlap :
  let pixels := ramp 40 in
  let '(pos, p') := Page.tryAdd pixels 5 2 (Page.new 4 4 freshBackend).1 in
  pos = Some (0, 1) /\
  Uint8Array_get pixels ((0 * 5) * 4 + 0) = 1 /\
  Uint8Array_get (Page.buffer p') (((1 + (2 - 1 - 0)) * 4 + 0) * 4 + 0) = 37.
Proof. vm_compute. repeat split. Qed.

(** C3, counterexample.  Two ideographs are reserved on the first mixed
    page (texture 0); the first fill takes its only row, so the second fill
    lands on a new page and the location of the second glyph changes to
    texture 1. *)
Lemma C3_fill_moves_to_another_page :
  let '(locB, _, _) :=
    VariantAtlas.reserveGlyph 0x4E01
      (applyOps [OpReserve 0x4E00] (tinyAtlas, freshBackend)).1
      (applyOps [OpReserve 0x4E00] (tinyAtlas, freshBackend)).2 in
  let '(r, va', _) :=
    VariantAtlas.fillGlyph 0x4E01 (ramp 36) square3 crowded.1 crowded.2 in
  r = Ok tt /\
  exists locB',
    VariantAtlas.glyphIndex crowded.1 !! 0x4E01 = Some locB /\
    VariantAtlas.glyphIndex va' !! 0x4E01 = Some locB' /\
    LocationPage.texture (GlyphLocation.page locB) = 0%nat /\
    LocationPage.texture (GlyphLocation.page locB') = 1%nat /\
    LocationPage.texture (GlyphLocation.page locB')
    <> LocationPage.texture (GlyphLocation.page locB).
Proof.
  vm_compute. split; [reflexivity|]. eexists.
  repeat split; try reflexivity. discriminate.
Qed.

(** C8, counterexample.  The letter A and then an emoji that the font lacks
    are requested from an atlas whose pages cannot hold the letter.  The
    drain takes the two generations off the queue, [fillGlyph] throws on the
    letter, and the loop never reaches the emoji: [markEmpty] is not called,
    the reserved location stays pending and unmarked, and the same request
    is answered with [cached = false] and [missing = false]. *)
Lemma C8_aborted_drain_leaves_glyph_unmarked :
  let fa1 := (FontAtlas.getGlyph requestA tightAtlas).2 in
  let fa := (FontAtlas.getGlyph requestEmoji fa1).2 in
  let fa2 := (FontAtlas.processBatch fa).2 in
  let info := (FontAtlas.getGlyph requestEmoji fa2).1 in
  lacks (G := ToyGenerator) (GlyphRequest.fontBuffer requestEmoji) 0x1F600 /\
  GlyphInfo.cached (FontAtlas.getGlyph requestEmoji fa1).1 = false /\
  PendingGlyph.codePoint <$> FontAtlas.pendingGlyphs fa = [65; 0x1F600] /\
  (FontAtlas.processBatch fa).1 = Throw LatinPageFull /\
  FontAtlas.pendingGlyphs fa2 = [] /\
  (exists va loc,
     mapGet "m_4" (FontAtlas.atlases fa2) = Some va /\
     VariantAtlas.glyphIndex va !! 0x1F600 = Some loc /\
     GlyphLocation.empty loc = false /\
     GlyphLocation.missing loc = false /\
     bool_decide (0x1F600 ∈ VariantAtlas.pendingGlyphs va) = true) /\
  GlyphInfo.cached info = false /\
  GlyphInfo.missing info = false /\
  GlyphInfo.empty info = false /\
  ~ missingAt fa2 "m_4" 0x1F600.
Proof.
  split; [intros g; vm_compute; reflexivity|].
  vm_compute. repeat split.
  - do 2 eexists. repeat split; reflexivity.
  - intros (va & loc & Hk & Hl & _ & He & _). revert Hl He.
    injection Hk as <-. intros [= <-]. discriminate.
Qed.

(** C9, counterexample.  The letter A is requested from an atlas whose
    pages cannot hold it: the drain has a snapshot of one entry and a
    callback is configured, but [fillGlyph] throws and the callback is
    never invoked. *)
Lemma C9_aborted_drain_skips_callback :
  let fa := (FontAtlas.getGlyph requestA tightAtlas).2 in
  length (FontAtlas.pendingGlyphs fa) = 1%nat /\
  FontAtlas.onGlyphsReady fa = true /\
  (FontAtlas.processBatch fa).1 = Throw LatinPageFull /\
  FontAtlas.readyCalls (FontAtlas.processBatch fa).2 = FontAtlas.readyCalls fa /\
  FontAtlas.readyCalls (FontAtlas.processBatch fa).2
  <> S (FontAtlas.readyCalls fa).
Proof. vm_compute. repeat split. discriminate. Qed.

(** ** The theorems at concrete inputs *)

(** C3 at the letter A: reserved in the tiny atlas, filled after the letter
    B was reserved and the pages were flushed. *)
Lemma C3_latin_page_is_stable_witness :
  let res := VariantAtlas.reserveGlyph 65 tinyAtlas freshBackend in
  let s2 := applyOps [OpReserve 66; OpFlush] (res.1.2, res.2) in
  let fill := VariantAtlas.fillGlyph 65 (ramp 36) square3 s2.1 s2.2 in
  exists page loc',
    VariantAtlas.latinPage s2.1 = Some page /\
    VariantAtlas.pageOf page = GlyphLocation.page res.1.1 /\
    VariantAtlas.latinPage fill.1.2 = Some (Page.tryAdd (ramp 36) 3 3 page).2 /\
    VariantAtlas.mixedPages fill.1.2 = VariantAtlas.mixedPages s2.1 /\
    VariantAtlas.glyphIndex fill.1.2 !! 65 = Some loc' /\
    GlyphLocation.page loc' = GlyphLocation.page res.1.1 /\
    LocationPage.texture (GlyphLocation.page loc')
    = LocationPage.texture (GlyphLocation.page res.1.1).
Proof.
  intros res s2 fill.
  apply (C3_latin_page_is_stable 65 tinyAtlas res.1.2 s2.1 fill.1.2
           freshBackend res.2 s2.2 fill.2 res.1.1 [OpReserve 66; OpFlush]
           (ramp 36) square3); vm_compute; reflexivity.
Defined.

(** C6 at the second ideograph of the crowded atlas: the selected page has
    no row left, a second mixed page is created and takes the glyph. *)
Lemma C6_fillGlyph_on_no_fit_witness :
  let sel := VariantAtlas.getOrCreatePage (isLatinChar 0x4E01) (Some 3)
               crowded.1 crowded.2 in
  let page' := (Page.tryAdd (ramp 36) 3 3 sel.1.1.2).2 in
  let va2 := VariantAtlas.setPage sel.1.1.1 page' sel.1.2 in
  let '(r, va', f') :=
    VariantAtlas.fillGlyph 0x4E01 (ramp 36) square3 crowded.1 crowded.2 in
  if isLatinChar 0x4E01 then
    r = Throw LatinPageFull /\ va' = va2 /\ f' = sel.2
  else
    let '(fresh, f2) :=
      Page.new (VariantAtlas.pageSize crowded.1) (VariantAtlas.pageSize crowded.1)
               sel.2 in
    let '(pos, fresh') := Page.tryAdd (ramp 36) 3 3 fresh in
    VariantAtlas.mixedPages va' = VariantAtlas.mixedPages va2 ++ [fresh'] /\
    VariantAtlas.latinPage va' = VariantAtlas.latinPage va2 /\
    f' = f2 /\
    match pos with
    | None =>
        r = Throw (FreshPageCantFit 3 3) /\
        VariantAtlas.glyphIndex va' = VariantAtlas.glyphIndex crowded.1
    | Some xy =>
        r = Ok tt /\
        VariantAtlas.glyphIndex va' !! 0x4E01
        = (fun _ => GlyphLocation.mk (VariantAtlas.pageOf fresh') xy.1 xy.2 3 3
                      square3 false false)
          <$> VariantAtlas.glyphIndex crowded.1 !! 0x4E01
    end.
Proof.
  intros sel page'.
  apply (C6_fillGlyph_on_no_fit 0x4E01 (ramp 36) square3
           crowded.1 sel.1.2 crowded.2 sel.2 sel.1.1.1 sel.1.1.2 page');
    vm_compute; reflexivity.
Defined.

(** C7 on the demo atlas: the 62 glyphs are drawn at size 2 and packed on
    the Latin page. *)
Lemma C7_prefabLatin_caches_latin_witness :
  let fa' := (FontAtlas.prefabLatin "p" 32 LATIN_CODEPOINTS None demoAtlas).2 in
  (FontAtlas.prefabLatin "p" 32 LATIN_CODEPOINTS None demoAtlas).1 = Ok tt /\
  (forall cp fontBuffer axes',
     0x30 <= cp <= 0x39 \/ 0x41 <= cp <= 0x5A \/ 0x61 <= cp <= 0x7A ->
     GlyphInfo.cached
       (FontAtlas.getGlyph (GlyphRequest.mk cp "p" fontBuffer axes' 32) fa').1
     = true) /\
  FontAtlas.pendingGlyphs fa' = FontAtlas.pendingGlyphs demoAtlas /\
  FontAtlas.batchPromise fa' = FontAtlas.batchPromise demoAtlas /\
  FontAtlas.readyCalls fa' = FontAtlas.readyCalls demoAtlas.
Proof.
  intros fa'. split; [vm_compute; reflexivity|].
  apply (C7_prefabLatin_caches_latin "p" 32 LATIN_CODEPOINTS None demoAtlas fa').
  vm_compute. reflexivity.
Defined.

(** C8 on the default atlas: an emoji is requested with the Latin font. *)
Lemma C8_missing_glyph_is_marked_witness :
  let fa2 := (FontAtlas.processBatch
                (FontAtlas.getGlyph requestEmoji defaultAtlas).2).2 in
  let info := (FontAtlas.getGlyph requestEmoji fa2).1 in
  missingAt fa2 "m_32" 0x1F600 /\
  GlyphInfo.cached info = true /\
  GlyphInfo.missing info = true /\
  GlyphInfo.empty info = true /\
  GlyphInfo.metrics info = PLACEHOLDER_METRICS /\
  GlyphMetrics.width (GlyphInfo.metrics info) = 0.
Proof.
  intros fa2 info.
  apply (C8_missing_glyph_is_marked requestEmoji defaultAtlas fa2).
  - intros g. vm_compute. reflexivity.
  - intros e He. inversion He.
  - vm_compute. reflexivity.
  - vm_compute. reflexivity.
Defined.

(** C10 on the default atlas after an emoji was requested and generated:
    the first request for the letter A. *)
Lemma C10_miss_returns_placeholder_witness :
  let fa := after [CallGetGlyph requestEmoji; Tick] defaultAtlas in
  let info := (FontAtlas.getGlyph requestA fa).1 in
  GlyphInfo.cached info = false /\
  GlyphInfo.uvs info = UVs.mk (Num 0) (Num 0) (Num 0) (Num 0) /\
  GlyphInfo.metrics info = PLACEHOLDER_METRICS /\
  GlyphMetrics.width (GlyphInfo.metrics info) = 0 /\
  GlyphMetrics.height (GlyphInfo.metrics info) = 0 /\
  GlyphInfo.empty info = false /\
  GlyphInfo.missing info = false /\
  GlyphInfo.genSize info = Some 32.
Proof.
  intros fa info. split; [vm_compute; reflexivity|].
  apply (C10_miss_returns_placeholder {| loaded := Some LATIN_CODEPOINTS |}
           freshBackend true (Some smallPages)
           [CallGetGlyph requestEmoji; Tick] requestA).
  - reflexivity.
  - vm_compute. reflexivity.
Defined.

(** * Further properties of the code *)

(** ** The shelf packer keeps glyphs apart and intact *)

Lemma tryAdd_shelved {T} pixels (w h : Z) (p : Page.t T) (rects : list Rect) :
  0 <= w -> 0 <= h -> 0 <= Page.rowHeight p ->
  Forall (shelved p) rects ->
  let '(pos, p') := Page.tryAdd pixels w h p in
  0 <= Page.rowHeight p' /\
  Forall (shelved p') rects /\
  match pos with
  | Some (x, y) => shelved p' (x, y, w, h) /\ Forall (fun r => apart r (x, y, w, h)) rects
  | None => True
  end.
Proof.
  intros Hw Hh Hr Hall.
  unfold Page.tryAdd, Page.advanceRow, Page.padding.
  destruct (Z.gtb_spec (Page.cursorX p + (w + 1)) (Page.width p)); simpl;
    match goal with |- context [?a >? ?b] => destruct (Z.gtb_spec a b) end; simpl.
  all: repeat split; try lia.
  all: try (eapply Forall_impl; [exact Hall|]; intros [[[x y] w0] h0]; simpl; lia).
Qed.

Lemma tryAddAll_shelved {T} (glyphs : list (Uint8Array * Z * Z)) :
  forall (p : Page.t T) (old : list Rect),
  Forall (fun g => 0 <= g.1.2 /\ 0 <= g.2) glyphs ->
  0 <= Page.rowHeight p ->
  Forall (shelved p) old ->
  Forall (fun r => Forall (fun g => apart r g.2) (tryAddAll glyphs p).1) old /\
  ForallOrdPairs (fun g1 g2 => apart g1.2 g2.2) (tryAddAll glyphs p).1.
Proof.
  induction glyphs as [|[[pixels w] h] rest IH]; intros p old Hg Hr Hold; simpl.
  - split; [|constructor]. eapply Forall_impl; [exact Hold|]. intros; constructor.
  - inversion Hg as [|g gs [Hw Hh] Hrest]; subst; simpl in Hw, Hh.
    pose proof (tryAdd_shelved pixels w h p old Hw Hh Hr Hold) as Hstep.
    destruct (Page.tryAdd pixels w h p) as [pos p1].
    destruct Hstep as (Hr1 & Hold1 & Hpos).
    destruct pos as [[x y]|].
    + destruct Hpos as [Hnew Hap].
      destruct (IH p1 ((x, y, w, h) :: old) Hrest Hr1) as [Hall Hpairs].
      { constructor; assumption. }
      destruct (tryAddAll rest p1) as [placed p2]; simpl in *.
      inversion Hall as [|r rs Hhead Htail]; subst.
      split.
      * rewrite Forall_forall in Htail, Hap. apply Forall_forall.
        intros r Hin. constructor; [apply Hap, Hin | apply Htail, Hin].
      * constructor; assumption.
    + destruct (IH p1 old Hrest Hr1 Hold1) as [Hall Hpairs].
      destruct (tryAddAll rest p1) as [placed p2]; simpl in *.
      split; assumption.
Qed.

(** X1 (Page.tryAdd): glyphs of non-negative size placed by successive
    [tryAdd] calls on one page never overlap: any two of the returned
    rectangles are separated by at least one pixel, horizontally or
    vertically. *)
Theorem tryAdd_rectangles_apart {T} (glyphs : list (Uint8Array * Z * Z)) (p : Page.t T) :
  Forall (fun g => 0 <= g.1.2 /\ 0 <= g.2) glyphs ->
  0 <= Page.rowHeight p ->
  ForallOrdPairs (fun g1 g2 => apart g1.2 g2.2) (tryAddAll glyphs p).1.
Proof.
  intros Hg Hr.
  apply (tryAddAll_shelved glyphs p [] Hg Hr). constructor.
Qed.

(** One more glyph on a page that holds earlier ones. *)
Lemma tryAdd_holds {T} pixels (w h : Z) (p : Page.t T) (old : list (Uint8Array * Rect)) :
  pageOk p -> 0 <= w <= Page.width p -> 0 <= h ->
  Forall (fun g => shelved p g.2 /\ rectInside p g.2 /\ holds p g) old ->
  let '(pos, p') := Page.tryAdd pixels w h p in
  pageOk p' /\ Page.width p' = Page.width p /\
  Forall (fun g => shelved p' g.2 /\ rectInside p' g.2 /\ holds p' g) old /\
  match pos with
  | Some (x, y) =>
      shelved p' (x, y, w, h) /\ rectInside p' (x, y, w, h) /\
      holds p' (pixels, (x, y, w, h))
  | None => True
  end.
Proof.
  intros Hok Hw Hh Hold.
  pose proof (tryAdd_pageOk pixels w h p (proj1 Hw) Hok) as Hok'.
  destruct (tryAdd_fields pixels w h p) as (Ewid & Ehei & _).
  assert (Hrh : 0 <= Page.rowHeight p) by apply Hok.
  pose proof (tryAdd_shelved pixels w h p (snd <$> old) (proj1 Hw) Hh Hrh) as Hsh.
  destruct (Page.tryAdd pixels w h p) as [pos p'] eqn:Et. simpl in Hok', Ewid, Ehei.
  destruct Hsh as (_ & Hsh & Hpos).
  { rewrite Forall_fmap. eapply Forall_impl; [exact Hold|]. intros g Hg. apply Hg. }
  rewrite Forall_fmap in Hsh.
  split; [exact Hok'|]. split; [exact Ewid|].
  destruct pos as [[x y]|].
  - destruct Hpos as [Hnew Hap]. rewrite Forall_fmap in Hap.
    pose proof (tryAdd_inside _ _ _ _ _ _ _ Hok Hw Hh Et) as Hin.
    destruct (tryAdd_blit_exact _ _ _ _ _ _ _ Hok Hw Hh Et) as [Hcopy Hrest].
    split.
    + rewrite Forall_forall in *. intros [px [[[x0 y0] w0] h0]] Hg.
      specialize (Hold _ Hg). specialize (Hsh _ Hg). specialize (Hap _ Hg).
      simpl in *. destruct Hold as (_ & Hins & Hheld).
      split; [exact Hsh|]. split; [rewrite Ewid, Ehei; exact Hins|].
      intros r c Hr Hc. rewrite Ewid.
      rewrite <- (Hheld r c Hr Hc).
      replace (((y0 + (h0 - 1 - r)) * Page.width p + x0) * 4 + c)
        with (((y0 + (h0 - 1 - r)) * Page.width p + (x0 + c / 4)) * 4 + c mod 4)
        by (pose proof (Z.div_mod c 4 ltac:(lia)); lia).
      pose proof (Z.mod_pos_bound c 4 ltac:(lia)) as Hm.
      assert (Hd : 0 <= c / 4 < w0).
      { split; [apply Z.div_pos; lia | apply Z.div_lt_upper_bound; lia]. }
      apply Hrest; lia.
    + split; [exact Hnew|]. split.
      * simpl. rewrite Ewid, Ehei. exact Hin.
      * simpl. intros r c Hr Hc. rewrite Ewid. apply Hcopy; assumption.
  - split; [|exact I].
    assert (Hbuf : Page.buffer p' = Page.buffer p).
    { revert Et. unfold Page.tryAdd.
      destruct (_ >? Page.height _); [|discriminate].
      intros [= <-]. apply advanceRow_fields. }
    rewrite Forall_forall in *. intros [px [[[x0 y0] w0] h0]] Hg.
    specialize (Hold _ Hg). specialize (Hsh _ Hg). simpl in *.
    destruct Hold as (_ & Hins & Hheld).
    split; [exact Hsh|]. split; [rewrite Ewid, Ehei; exact Hins|].
    intros r c Hr Hc. rewrite Ewid, Hbuf. apply Hheld; assumption.
Qed.

Lemma tryAddAll_holds {T} (glyphs : list (Uint8Array * Z * Z)) :
  forall (p : Page.t T) (old : list (Uint8Array * Rect)),
  pageOk p ->
  Forall (fun g => 0 <= g.1.2 <= Page.width p /\ 0 <= g.2) glyphs ->
  Forall (fun g => shelved p g.2 /\ rectInside p g.2 /\ holds p g) old ->
  Forall (fun g => rectInside (tryAddAll glyphs p).2 g.2 /\ holds (tryAddAll glyphs p).2 g)
         (old ++ (tryAddAll glyphs p).1).
Proof.
  induction glyphs as [|[[pixels w] h] rest IH]; intros p old Hok Hg Hold; simpl.
  - rewrite app_nil_r. eapply Forall_impl; [exact Hold|]. intros g (_ & Hi & Hh). auto.
  - inversion Hg as [|g gs [Hw Hh] Hrest]; subst; simpl in Hw, Hh.
    pose proof (tryAdd_holds pixels w h p old Hok Hw Hh Hold) as Hstep.
    destruct (Page.tryAdd pixels w h p) as [pos p1].
    destruct Hstep as (Hok1 & Ewid & Hold1 & Hpos).
    assert (Hrest1 : Forall (fun g => 0 <= g.1.2 <= Page.width p1 /\ 0 <= g.2) rest)
      by (rewrite Ewid; exact Hrest).
    destruct pos as [[x y]|].
    + specialize (IH p1 (old ++ [(pixels, (x, y, w, h))]) Hok1 Hrest1).
      destruct (tryAddAll rest p1) as [placed p2]; simpl in *.
      rewrite <- app_assoc in IH. apply IH.
      apply Forall_app. split; [exact Hold1|]. constructor; [exact Hpos | constructor].
    + specialize (IH p1 old Hok1 Hrest1 Hold1).
      destruct (tryAddAll rest p1) as [placed p2]; simpl in *. exact IH.
Qed.

(** X2 (Page.tryAdd and its blit): when glyphs no wider than the page are
    placed by successive [tryAdd] calls on a new page, the final buffer
    holds the pixels of every placed glyph, rows flipped vertically, inside
    a rectangle that lies inside the page: no later glyph overwrites an
    earlier one. *)
Theorem packed_pixels_survive {T F : Type} `{TextureFactory T F}
    (glyphs : list (Uint8Array * Z * Z)) (width height : Z) (f : F) :
  Forall (fun g => 0 <= g.1.2 <= width /\ 0 <= g.2) glyphs ->
  let page := (Page.new width height f).1 in
  let page' := (tryAddAll glyphs page).2 in
  Forall (fun g => rectInside page' g.2 /\ holds page' g) (tryAddAll glyphs page).1.
Proof.
  intros Hg page page'.
  assert (Hw : Page.width page = width) by apply new_sized.
  apply (tryAddAll_holds glyphs page []).
  - apply new_pageOk.
  - rewrite Hw. exact Hg.
  - constructor.
Qed.

(** ** Dirty pages and uploads *)

Section Dirty.
Context {T F : Type} `{TextureFactory T F}.

Lemma flush_dirty (p : Page.t T) (f : F) : Page.dirty (Page.flush p f).1 = false.
Proof. unfold Page.flush. destruct (Page.dirty p) eqn:E; simpl; auto. Qed.

Lemma flush_clean (p : Page.t T) (f : F) :
  Page.dirty p = false -> Page.flush p f = (p, f).
Proof. unfold Page.flush. intros ->. reflexivity. Qed.

Lemma flushAll_dirty (pages : list (Page.t T)) : forall (f : F),
  existsb Page.dirty (VariantAtlas.flushAll pages f).1 = false.
Proof.
  induction pages as [|p rest IH]; intros f; simpl; [reflexivity|].
  pose proof (flush_dirty p f) as Hp.
  destruct (Page.flush p f) as [p' f1]. specialize (IH f1).
  destruct (VariantAtlas.flushAll rest f1) as [rest' f2]. simpl in *.
  rewrite Hp, IH. reflexivity.
Qed.

Lemma flushAll_clean (pages : list (Page.t T)) (f : F) :
  existsb Page.dirty pages = false -> VariantAtlas.flushAll pages f = (pages, f).
Proof.
  induction pages as [|p rest IH]; simpl; [reflexivity|].
  intros [Hp Hrest]%orb_false_iff.
  rewrite (flush_clean p f Hp), (IH Hrest). reflexivity.
Qed.

Lemma flushDirtyPages_dirty (va : VariantAtlas.t T) (f : F) :
  VariantAtlas.hasDirtyPages (VariantAtlas.flushDirtyPages va f).1 = false.
Proof.
  unfold VariantAtlas.flushDirtyPages, VariantAtlas.hasDirtyPages.
  destruct (VariantAtlas.latinPage va) as [p|].
  - pose proof (flush_dirty p f) as Hp. destruct (Page.flush p f) as [p' f1].
    pose proof (flushAll_dirty (VariantAtlas.mixedPages va) f1) as Hm.
    destruct (VariantAtlas.flushAll _ f1) as [mp f2]. simpl in *.
    rewrite Hp, Hm. reflexivity.
  - pose proof (flushAll_dirty (VariantAtlas.mixedPages va) f) as Hm.
    destruct (VariantAtlas.flushAll _ f) as [mp f2]. simpl in *.
    rewrite Hm. reflexivity.
Qed.

Lemma flushDirtyPages_clean (va : VariantAtlas.t T) (f : F) :
  VariantAtlas.hasDirtyPages va = false -> VariantAtlas.flushDirtyPages va f = (va, f).
Proof.
  unfold VariantAtlas.flushDirtyPages, VariantAtlas.hasDirtyPages.
  intros [Hl Hm]%orb_false_iff.
  destruct va as [vid gs lp mp idx pend ps mx wn]; simpl in *.
  destruct lp as [p|].
  - rewrite (flush_clean p f Hl), (flushAll_clean mp f Hm). reflexivity.
  - rewrite (flushAll_clean mp f Hm). reflexivity.
Qed.

Lemma getPage_setPage ref (p : Page.t T) (va : VariantAtlas.t T) :
  is_Some (VariantAtlas.getPage ref va) ->
  VariantAtlas.getPage ref (VariantAtlas.setPage ref p va) = Some p.
Proof.
  destruct ref as [|i]; simpl; [reflexivity|].
  intros Hs. apply list_lookup_insert_eq. apply lookup_lt_is_Some. exact Hs.
Qed.

Lemma getPage_dirty ref (p : Page.t T) (va : VariantAtlas.t T) :
  VariantAtlas.getPage ref va = Some p -> Page.dirty p = true ->
  VariantAtlas.hasDirtyPages va = true.
Proof.
  unfold VariantAtlas.hasDirtyPages. destruct ref as [|i]; simpl.
  - intros -> ->. reflexivity.
  - intros Hi Hd. apply orb_true_iff. right.
    apply existsb_exists. exists p. split; [|exact Hd].
    apply list_elem_of_In. eapply list_elem_of_lookup_2. exact Hi.
Qed.

Lemma createMixedPage_getPage (va : VariantAtlas.t T) (f : F) ref page va' f' :
  VariantAtlas.createMixedPage va f = (ref, page, va', f') ->
  VariantAtlas.getPage ref va' = Some page.
Proof.
  unfold VariantAtlas.createMixedPage.
  destruct (Page.new _ _ f) as [pg f1]. intros [= <- <- <- <-]. simpl.
  rewrite lookup_app_r by lia. rewrite Nat.sub_diag. reflexivity.
Qed.

Lemma getOrCreatePage_getPage isLatin gh (va : VariantAtlas.t T) (f : F)
    ref page va' f' :
  VariantAtlas.getOrCreatePage isLatin gh va f = (ref, page, va', f') ->
  VariantAtlas.getPage ref va' = Some page.
Proof.
  unfold VariantAtlas.getOrCreatePage. destruct isLatin.
  - destruct (VariantAtlas.latinPage va) as [p|] eqn:El.
    + intros [= <- <- <- <-]. exact El.
    + destruct (Page.new _ _ f) as [pg f1]. intros [= <- <- <- <-]. reflexivity.
  - destruct (findFirst _ _) as [[i p]|] eqn:Ef.
    + intros [= <- <- <- <-]. apply findFirst_Some in Ef. apply Ef.
    + apply createMixedPage_getPage.
Qed.

Lemma tryAdd_dirty pixels w h (p p' : Page.t T) pos :
  Page.tryAdd pixels w h p = (Some pos, p') -> Page.dirty p' = true.
Proof.
  unfold Page.tryAdd. destruct (_ >? Page.height _); [discriminate|].
  intros [= _ <-]. reflexivity.
Qed.

Lemma setIndex_hasDirtyPages (va : VariantAtlas.t T) idx pend :
  VariantAtlas.hasDirtyPages (VariantAtlas.setIndex va idx pend)
  = VariantAtlas.hasDirtyPages va.
Proof. reflexivity. Qed.

(** The page a glyph was packed on is dirty in the atlas that
    [fillGlyph] and [addGlyph] leave. *)
Lemma place_dirty isLatin pixels w h (va : VariantAtlas.t T) (f : F) :
  let '(ref, page, va1, f1) := VariantAtlas.getOrCreatePage isLatin (Some h) va f in
  let va2 := VariantAtlas.setPage ref (Page.tryAdd pixels w h page).2 va1 in
  (is_Some (Page.tryAdd pixels w h page).1 -> VariantAtlas.hasDirtyPages va2 = true) /\
  let '(newRef, newPage, va3, f3) := VariantAtlas.createMixedPage va2 f1 in
  (is_Some (Page.tryAdd pixels w h newPage).1 ->
   VariantAtlas.hasDirtyPages
     (VariantAtlas.setPage newRef (Page.tryAdd pixels w h newPage).2 va3) = true).
Proof.
  destruct (VariantAtlas.getOrCreatePage isLatin (Some h) va f)
    as [[[ref page] va1] f1] eqn:Eg.
  apply getOrCreatePage_getPage in Eg.
  split.
  - intros [pos Hpos].
    destruct (Page.tryAdd pixels w h page) as [o p'] eqn:Et. simpl in *. subst o.
    eapply (getPage_dirty ref p').
    + apply getPage_setPage. rewrite Eg. eauto.
    + eapply tryAdd_dirty. exact Et.
  - destruct (VariantAtlas.createMixedPage _ f1) as [[[newRef newPage] va3] f3] eqn:Ec.
    apply createMixedPage_getPage in Ec.
    intros [pos Hpos].
    destruct (Page.tryAdd pixels w h newPage) as [o p'] eqn:Et. simpl in *. subst o.
    eapply (getPage_dirty newRef p').
    + apply getPage_setPage. rewrite Ec. eauto.
    + eapply tryAdd_dirty. exact Et.
Qed.

Lemma fillGlyph_dirty cp pixels metrics (va va' : VariantAtlas.t T) (f f' : F) :
  VariantAtlas.fillGlyph cp pixels metrics va f = (Ok tt, va', f') ->
  VariantAtlas.hasDirtyPages va' = true.
Proof.
  unfold VariantAtlas.fillGlyph.
  pose proof (place_dirty (isLatinChar cp) pixels (GlyphMetrics.width metrics)
                (GlyphMetrics.height metrics) va f) as Hp.
  destruct (VariantAtlas.getOrCreatePage _ _ va f) as [[[ref page] va1] f1].
  destruct Hp as [H1 H2].
  destruct (Page.tryAdd pixels _ _ page) as [[pos|] page'].
  - intros [= <- <-]. unfold VariantAtlas.updateGlyphLocation.
    rewrite setIndex_hasDirtyPages. apply H1. simpl. eauto.
  - destruct (isLatinChar cp); [discriminate|].
    destruct (VariantAtlas.createMixedPage _ f1) as [[[newRef newPage] va3] f3].
    destruct (Page.tryAdd pixels _ _ newPage) as [[np|] newPage']; [|discriminate].
    intros [= <- <-]. unfold VariantAtlas.updateGlyphLocation.
    rewrite setIndex_hasDirtyPages. apply H2. simpl. eauto.
Qed.

Lemma addGlyph_dirty cp pixels metrics (va va' : VariantAtlas.t T) (f f' : F) loc :
  VariantAtlas.addGlyph cp pixels metrics va f = (Ok loc, va', f') ->
  VariantAtlas.hasDirtyPages va' = true.
Proof.
  unfold VariantAtlas.addGlyph.
  pose proof (place_dirty (isLatinChar cp) pixels (GlyphMetrics.width metrics)
                (GlyphMetrics.height metrics) va f) as Hp.
  destruct (VariantAtlas.getOrCreatePage _ _ va f) as [[[ref page] va1] f1].
  destruct Hp as [H1 H2].
  destruct (Page.tryAdd pixels _ _ page) as [[pos|] page'].
  - intros [= <- <-]. unfold VariantAtlas.storeGlyph.
    rewrite setIndex_hasDirtyPages. apply H1. simpl. eauto.
  - destruct (isLatinChar cp); [discriminate|].
    destruct (VariantAtlas.createMixedPage _ f1) as [[[newRef newPage] va3] f3].
    destruct (Page.tryAdd pixels _ _ newPage) as [[np|] newPage']; [|discriminate].
    intros [= <- <-]. unfold VariantAtlas.storeGlyph.
    rewrite setIndex_hasDirtyPages. apply H2. simpl. eauto.
Qed.

End Dirty.

(** X3 (VariantAtlas.flushDirtyPages, hasDirtyPages, Page.flush): after
    [flushDirtyPages] no page of the atlas is dirty, and flushing again
    changes neither the atlas nor the texture backend: a clean page is never
    uploaded. *)
Theorem flushDirtyPages_then_clean {T F : Type} `{TextureFactory T F}
    (va : VariantAtlas.t T) (f : F) :
  let va' := (VariantAtlas.flushDirtyPages va f).1 in
  VariantAtlas.hasDirtyPages va' = false /\
  forall f0 : F, VariantAtlas.flushDirtyPages va' f0 = (va', f0).
Proof.
  split.
  - apply flushDirtyPages_dirty.
  - intros f0. apply flushDirtyPages_clean, flushDirtyPages_dirty.
Qed.

(** ** Round trips through the glyph index *)

Section RoundTrip.
Context {T F : Type} `{TextureFactory T F}.

(** The page and position that a returning [fillGlyph] or [addGlyph]
    records: the page is a page of the atlas, and dirty. *)
Lemma place_location isLatin pixels w h (va : VariantAtlas.t T) (f : F) :
  let '(ref, page, va1, f1) := VariantAtlas.getOrCreatePage isLatin (Some h) va f in
  let va2 := VariantAtlas.setPage ref (Page.tryAdd pixels w h page).2 va1 in
  VariantAtlas.getPage ref va2 = Some (Page.tryAdd pixels w h page).2 /\
  let '(newRef, newPage, va3, f3) := VariantAtlas.createMixedPage va2 f1 in
  VariantAtlas.getPage newRef
    (VariantAtlas.setPage newRef (Page.tryAdd pixels w h newPage).2 va3)
  = Some (Page.tryAdd pixels w h newPage).2.
Proof.
  destruct (VariantAtlas.getOrCreatePage isLatin (Some h) va f)
    as [[[ref page] va1] f1] eqn:Eg.
  apply getOrCreatePage_getPage in Eg.
  split.
  - apply getPage_setPage. rewrite Eg. eauto.
  - destruct (VariantAtlas.createMixedPage _ f1) as [[[newRef newPage] va3] f3] eqn:Ec.
    apply createMixedPage_getPage in Ec.
    apply getPage_setPage. rewrite Ec. eauto.
Qed.

Lemma fillGlyph_location cp pixels metrics (va va' : VariantAtlas.t T) (f f' : F) :
  VariantAtlas.fillGlyph cp pixels metrics va f = (Ok tt, va', f') ->
  exists ref page pos,
    VariantAtlas.getPage ref va' = Some page /\ Page.dirty page = true /\
    VariantAtlas.glyphIndex va' !! cp
    = (fun _ => GlyphLocation.mk (VariantAtlas.pageOf page) pos.1 pos.2
                  (GlyphMetrics.width metrics) (GlyphMetrics.height metrics)
                  metrics false false)
      <$> VariantAtlas.glyphIndex va !! cp.
Proof.
  unfold VariantAtlas.fillGlyph.
  pose proof (place_location (isLatinChar cp) pixels (GlyphMetrics.width metrics)
                (GlyphMetrics.height metrics) va f) as Hp.
  destruct (VariantAtlas.getOrCreatePage _ _ va f) as [[[ref page] va1] f1] eqn:Eg.
  apply getOrCreatePage_sameIndex in Eg as (Ei & _).
  destruct Hp as [H1 H2].
  assert (Hupd : forall (pg : Page.t T) np (va2 : VariantAtlas.t T),
    VariantAtlas.glyphIndex va2 = VariantAtlas.glyphIndex va ->
    VariantAtlas.glyphIndex (VariantAtlas.updateGlyphLocation cp pg np metrics va2) !! cp
    = (fun _ => GlyphLocation.mk (VariantAtlas.pageOf pg) np.1 np.2
                  (GlyphMetrics.width metrics) (GlyphMetrics.height metrics)
                  metrics false false)
      <$> VariantAtlas.glyphIndex va !! cp).
  { intros pg np va2 Hi. unfold VariantAtlas.updateGlyphLocation. simpl. rewrite Hi.
    destruct (VariantAtlas.glyphIndex va !! cp) as [l|] eqn:El; simpl.
    - apply lookup_insert_eq.
    - exact El. }
  destruct (Page.tryAdd pixels _ _ page) as [[pos|] page'] eqn:Et.
  - intros [= <- <-]. exists ref, page', pos. split; [exact H1|]. split.
    + eapply tryAdd_dirty. exact Et.
    + apply Hupd. pose proof (setPage_sameIndex ref page' va1) as (Ei2 & _). congruence.
  - destruct (isLatinChar cp); [discriminate|].
    pose proof (setPage_sameIndex ref page' va1) as (Ei2 & _).
    destruct (VariantAtlas.createMixedPage _ f1) as [[[newRef newPage] va3] f3] eqn:Ec.
    apply createMixedPage_sameIndex in Ec as (Ei3 & _).
    destruct (Page.tryAdd pixels _ _ newPage) as [[np|] newPage'] eqn:Et2; [|discriminate].
    intros [= <- <-]. exists newRef, newPage', np. split; [exact H2|]. split.
    + eapply tryAdd_dirty. exact Et2.
    + apply Hupd. pose proof (setPage_sameIndex newRef newPage' va3) as (Ei4 & _).
      simpl in *. congruence.
Qed.

Lemma addGlyph_location cp pixels metrics (va va' : VariantAtlas.t T) (f f' : F) loc :
  VariantAtlas.addGlyph cp pixels metrics va f = (Ok loc, va', f') ->
  exists ref page pos,
    VariantAtlas.getPage ref va' = Some page /\ Page.dirty page = true /\
    loc = GlyphLocation.mk (VariantAtlas.pageOf page) pos.1 pos.2
            (GlyphMetrics.width metrics) (GlyphMetrics.height metrics)
            metrics false false.
Proof.
  unfold VariantAtlas.addGlyph.
  pose proof (place_location (isLatinChar cp) pixels (GlyphMetrics.width metrics)
                (GlyphMetrics.height metrics) va f) as Hp.
  destruct (VariantAtlas.getOrCreatePage _ _ va f) as [[[ref page] va1] f1] eqn:Eg.
  destruct Hp as [H1 H2].
  destruct (Page.tryAdd pixels _ _ page) as [[pos|] page'] eqn:Et.
  - unfold VariantAtlas.storeGlyph. intros [= <- <- <-].
    exists ref, page', pos. split; [exact H1|]. split; [|reflexivity].
    eapply tryAdd_dirty. exact Et.
  - destruct (isLatinChar cp); [discriminate|].
    destruct (VariantAtlas.createMixedPage _ f1) as [[[newRef newPage] va3] f3] eqn:Ec.
    destruct (Page.tryAdd pixels _ _ newPage) as [[np|] newPage'] eqn:Et2; [|discriminate].
    unfold VariantAtlas.storeGlyph. intros [= <- <- <-].
    exists newRef, newPage', np. split; [exact H2|]. split; [|reflexivity].
    eapply tryAdd_dirty. exact Et2.
Qed.

Lemma getGlyph_other (cp' : Z) (va va' : VariantAtlas.t T) :
  VariantAtlas.glyphIndex va' !! cp' = VariantAtlas.glyphIndex va !! cp' ->
  (cp' ∈ VariantAtlas.pendingGlyphs va' <-> cp' ∈ VariantAtlas.pendingGlyphs va) ->
  VariantAtlas.getGlyph cp' va' = VariantAtlas.getGlyph cp' va.
Proof.
  intros Hi Hp. unfold VariantAtlas.getGlyph. rewrite Hi.
  repeat case_bool_decide; tauto.
Qed.

End RoundTrip.

(** X4 (VariantAtlas.reserveGlyph, fillGlyph, getGlyph): a reserved code
    point is hidden from [getGlyph] until it is filled; once [fillGlyph]
    returns for a code point that has a location, [getGlyph] returns a
    location that carries the given metrics and size, is neither empty nor
    missing, and lies on a page of the atlas that is now dirty; every other
    code point reads as before. *)
Theorem fillGlyph_round_trip {T F : Type} `{TextureFactory T F}
    (cp : Z) (pixels : Uint8Array) (metrics : GlyphMetrics.t)
    (va va' : VariantAtlas.t T) (f f' : F) :
  is_Some (VariantAtlas.glyphIndex va !! cp) ->
  VariantAtlas.fillGlyph cp pixels metrics va f = (Ok tt, va', f') ->
  VariantAtlas.getGlyph cp (VariantAtlas.reserveGlyph cp va f).1.2 = None /\
  (exists loc ref page,
     VariantAtlas.getGlyph cp va' = Some loc /\
     GlyphLocation.metrics loc = metrics /\
     GlyphLocation.width loc = GlyphMetrics.width metrics /\
     GlyphLocation.height loc = GlyphMetrics.height metrics /\
     GlyphLocation.empty loc = false /\ GlyphLocation.missing loc = false /\
     VariantAtlas.getPage ref va' = Some page /\
     VariantAtlas.pageOf page = GlyphLocation.page loc /\
     Page.dirty page = true) /\
  VariantAtlas.hasDirtyPages va' = true /\
  (forall cp', cp' <> cp ->
     VariantAtlas.getGlyph cp' va' = VariantAtlas.getGlyph cp' va).
Proof.
  intros [old Hold] Hf. split; [|split; [|split]].
  - destruct (VariantAtlas.reserveGlyph cp va f) as [[l va1] f1] eqn:Er.
    apply reserveGlyph_spec in Er as (_ & Hp & _). simpl.
    unfold VariantAtlas.getGlyph. rewrite Hp.
    case_bool_decide as Hin; [reflexivity|]. exfalso. apply Hin. set_cases.
  - destruct (fillGlyph_location _ _ _ _ _ _ _ Hf) as (ref & page & pos & Hg & Hd & Hi).
    apply fillGlyph_spec in Hf as (_ & Hp & _).
    rewrite Hold in Hi. simpl in Hi.
    eexists _, ref, page. split.
    + unfold VariantAtlas.getGlyph. rewrite Hp.
      case_bool_decide as Hin; [exfalso; revert Hin; set_cases | exact Hi].
    + simpl. repeat split; assumption.
  - eapply fillGlyph_dirty. exact Hf.
  - intros cp' Hne. apply fillGlyph_spec in Hf as (Ho & _).
    destruct (Ho cp' Hne) as [Hi Hp]. apply getGlyph_other; assumption.
Qed.

(** X5 (VariantAtlas.fillGlyph, updateGlyphLocation): [fillGlyph] for a
    code point that has no location in the index (it was never reserved)
    still packs the pixels, leaving a dirty page, but records nothing: the
    index is unchanged and [getGlyph] keeps returning nothing. *)
Theorem fillGlyph_without_reservation {T F : Type} `{TextureFactory T F}
    (cp : Z) (pixels : Uint8Array) (metrics : GlyphMetrics.t)
    (va va' : VariantAtlas.t T) (f f' : F) :
  VariantAtlas.glyphIndex va !! cp = None ->
  VariantAtlas.fillGlyph cp pixels metrics va f = (Ok tt, va', f') ->
  VariantAtlas.glyphIndex va' = VariantAtlas.glyphIndex va /\
  VariantAtlas.getGlyph cp va' = None /\
  VariantAtlas.getGlyphCount va' = VariantAtlas.getGlyphCount va /\
  VariantAtlas.hasDirtyPages va' = true.
Proof.
  intros Hnone Hf.
  assert (Hidx : VariantAtlas.glyphIndex va' = VariantAtlas.glyphIndex va).
  { apply map_eq. intros k. destruct (decide (k = cp)) as [->|Hne].
    - destruct (fillGlyph_location _ _ _ _ _ _ _ Hf) as (ref & page & pos & _ & _ & Hi).
      rewrite Hi, Hnone. reflexivity.
    - apply fillGlyph_spec in Hf as (Ho & _). apply (Ho k Hne). }
  split; [exact Hidx|]. split; [|split].
  - unfold VariantAtlas.getGlyph. rewrite Hidx, Hnone. case_bool_decide; reflexivity.
  - unfold VariantAtlas.getGlyphCount. rewrite Hidx. reflexivity.
  - eapply fillGlyph_dirty. exact Hf.
Qed.

(** X6 (VariantAtlas.addGlyph, storeGlyph, getGlyph): when [addGlyph]
    returns a location, [getGlyph] returns that same location, whether or
    not the code point was reserved before; it carries the given metrics
    and size and lies on a page of the atlas that is now dirty, and every
    other index entry is unchanged. *)
Theorem addGlyph_round_trip {T F : Type} `{TextureFactory T F}
    (cp : Z) (pixels : Uint8Array) (metrics : GlyphMetrics.t)
    (va va' : VariantAtlas.t T) (f f' : F) (loc : GlyphLocation.t T) :
  VariantAtlas.addGlyph cp pixels metrics va f = (Ok loc, va', f') ->
  VariantAtlas.getGlyph cp va' = Some loc /\
  GlyphLocation.metrics loc = metrics /\
  GlyphLocation.width loc = GlyphMetrics.width metrics /\
  GlyphLocation.height loc = GlyphMetrics.height metrics /\
  GlyphLocation.empty loc = false /\ GlyphLocation.missing loc = false /\
  (exists ref page,
     VariantAtlas.getPage ref va' = Some page /\
     VariantAtlas.pageOf page = GlyphLocation.page loc /\
     Page.dirty page = true) /\
  VariantAtlas.hasDirtyPages va' = true /\
  (forall cp', cp' <> cp ->
     VariantAtlas.glyphIndex va' !! cp' = VariantAtlas.glyphIndex va !! cp').
Proof.
  intros Ha. pose proof (addGlyph_dirty _ _ _ _ _ _ _ _ Ha) as Hdirty.
  destruct (addGlyph_location _ _ _ _ _ _ _ _ Ha) as (ref & page & pos & Hg & Hd & ->).
  apply addGlyph_spec in Ha as (Hi & Hp). simpl.
  split.
  { unfold VariantAtlas.getGlyph. rewrite Hp, Hi, lookup_insert_eq.
    case_bool_decide as Hin; [exfalso; revert Hin; set_cases | reflexivity]. }
  repeat split; try reflexivity; try exact Hdirty.
  - exists ref, page. auto.
  - intros cp' Hne. rewrite Hi. apply lookup_insert_ne. congruence.
Qed.

(** ** Invariants of every sequence of atlas operations *)

Section Ops.
Context {T F : Type} `{TextureFactory T F}.

Lemma applyOp_pendingIndexed (s : VariantAtlas.t T * F) op :
  pendingIndexed s.1 -> pendingIndexed (applyOp s op).1.
Proof.
  destruct s as [va f]. unfold pendingIndexed. intros Hi. simpl in Hi.
  destruct op as [c|c px m|c px m|c mi|]; cbn [applyOp fst snd].
  - destruct (VariantAtlas.reserveGlyph c va f) as [[loc va'] f'] eqn:E. simpl.
    apply reserveGlyph_spec in E as (Ei & Ep & _). rewrite Ei, Ep.
    intros cp Hin. destruct (decide (c = cp)) as [->|Hne].
    + rewrite lookup_insert_eq. eauto.
    + rewrite lookup_insert_ne by exact Hne. apply Hi. revert Hin. set_cases.
  - destruct (VariantAtlas.fillGlyph c px m va f) as [[r va'] f'] eqn:E. simpl.
    apply fillGlyph_spec in E as [Hoth Hr].
    intros cp Hin. destruct (decide (cp = c)) as [->|Hne].
    + destruct r as [[]|e].
      * destruct Hr as [Hp _]. rewrite Hp in Hin. revert Hin. set_cases.
      * destruct Hr as [Ei Ep]. rewrite Ei. apply Hi. rewrite <- Ep. exact Hin.
    + destruct (Hoth cp Hne) as [Ei Ep]. rewrite Ei. apply Hi, Ep, Hin.
  - destruct (VariantAtlas.addGlyph c px m va f) as [[r va'] f'] eqn:E. simpl.
    apply addGlyph_spec in E. destruct r as [loc|e]; destruct E as [Ei Ep].
    + rewrite Ei, Ep. intros cp Hin. destruct (decide (c = cp)) as [->|Hne].
      * revert Hin. set_cases.
      * rewrite lookup_insert_ne by exact Hne. apply Hi. revert Hin. set_cases.
    + rewrite Ei, Ep. exact Hi.
  - destruct (markEmpty_spec c mi va) as (Mp & Mo & Mc). rewrite Mp.
    intros cp Hin. destruct (decide (cp = c)) as [->|Hne].
    + revert Hin. set_cases.
    + rewrite (Mo cp Hne). apply Hi. revert Hin. set_cases.
  - destruct (VariantAtlas.flushDirtyPages va f) as [va' f'] eqn:E. simpl.
    apply flushDirtyPages_sameIndex in E as (Ei & Ep & _). rewrite Ei, Ep. exact Hi.
Qed.

Lemma applyOp_getGlyph_other cp (s : VariantAtlas.t T * F) op :
  opCodePoint op <> Some cp ->
  VariantAtlas.getGlyph cp (applyOp s op).1 = VariantAtlas.getGlyph cp s.1.
Proof.
  destruct s as [va f]. intros Hop.
  destruct op as [c|c px m|c px m|c mi|]; cbn [applyOp fst snd]; simpl in Hop.
  - destruct (VariantAtlas.reserveGlyph c va f) as [[loc va'] f'] eqn:E. simpl.
    apply reserveGlyph_spec in E as (Ei & Ep & _).
    apply getGlyph_other.
    + rewrite Ei. apply lookup_insert_ne. congruence.
    + rewrite Ep. assert (cp <> c) by congruence. set_cases.
  - destruct (VariantAtlas.fillGlyph c px m va f) as [[r va'] f'] eqn:E. simpl.
    apply fillGlyph_spec in E as [Hoth _].
    assert (Hne : cp <> c) by congruence.
    destruct (Hoth cp Hne). apply getGlyph_other; assumption.
  - destruct (VariantAtlas.addGlyph c px m va f) as [[r va'] f'] eqn:E. simpl.
    assert (Hne : cp <> c) by congruence.
    apply addGlyph_spec in E. destruct r as [loc|e]; destruct E as [Ei Ep];
      apply getGlyph_other; rewrite ?Ei, ?Ep; try reflexivity.
    + apply lookup_insert_ne. congruence.
    + set_cases.
  - destruct (markEmpty_spec c mi va) as (Mp & Mo & Mc).
    assert (Hne : cp <> c) by congruence.
    apply getGlyph_other; [apply Mo, Hne | rewrite Mp; set_cases].
  - destruct (VariantAtlas.flushDirtyPages va f) as [va' f'] eqn:E. simpl.
    apply flushDirtyPages_sameIndex in E as (Ei & Ep & _).
    apply getGlyph_other; rewrite ?Ei, ?Ep; reflexivity.
Qed.

Lemma setPage_pageCount ref (p : Page.t T) (va : VariantAtlas.t T) :
  VariantAtlas.getPageCount va
  <= VariantAtlas.getPageCount (VariantAtlas.setPage ref p va).
Proof.
  unfold VariantAtlas.getPageCount. destruct ref as [|i]; simpl.
  - destruct (VariantAtlas.latinPage va); lia.
  - rewrite length_insert. lia.
Qed.

Lemma createMixedPage_pageCount (va : VariantAtlas.t T) (f : F) :
  VariantAtlas.getPageCount (VariantAtlas.createMixedPage va f).1.2
  = VariantAtlas.getPageCount va + 1.
Proof.
  unfold VariantAtlas.createMixedPage, VariantAtlas.getPageCount.
  destruct (Page.new _ _ f) as [pg f1]. simpl. rewrite length_app. simpl. lia.
Qed.

Lemma getOrCreatePage_pageCount isLatin gh (va : VariantAtlas.t T) (f : F) :
  VariantAtlas.getPageCount va
  <= VariantAtlas.getPageCount (VariantAtlas.getOrCreatePage isLatin gh va f).1.2.
Proof.
  unfold VariantAtlas.getOrCreatePage. destruct isLatin.
  - destruct (VariantAtlas.latinPage va) as [p|] eqn:El; simpl; [lia|].
    destruct (Page.new _ _ f) as [pg f1]. unfold VariantAtlas.getPageCount. simpl.
    rewrite El. lia.
  - destruct (findFirst _ _) as [[i p]|]; simpl; [lia|].
    rewrite createMixedPage_pageCount. lia.
Qed.

Lemma flushAll_length (pages : list (Page.t T)) : forall (f : F),
  length (VariantAtlas.flushAll pages f).1 = length pages.
Proof.
  induction pages as [|p rest IH]; intros f; simpl; [reflexivity|].
  destruct (Page.flush p f) as [p' f1]. specialize (IH f1).
  destruct (VariantAtlas.flushAll rest f1) as [rest' f2]. simpl in *. lia.
Qed.

Lemma flushDirtyPages_pageCount (va : VariantAtlas.t T) (f : F) :
  VariantAtlas.getPageCount (VariantAtlas.flushDirtyPages va f).1
  = VariantAtlas.getPageCount va.
Proof.
  unfold VariantAtlas.flushDirtyPages, VariantAtlas.getPageCount.
  destruct (VariantAtlas.latinPage va) as [p|].
  - destruct (Page.flush p f) as [p' f1].
    pose proof (flushAll_length (VariantAtlas.mixedPages va) f1) as Hl.
    destruct (VariantAtlas.flushAll _ f1) as [mp f2]. simpl in *. lia.
  - pose proof (flushAll_length (VariantAtlas.mixedPages va) f) as Hl.
    destruct (VariantAtlas.flushAll _ f) as [mp f2]. simpl in *. lia.
Qed.

Lemma place_pageCount isLatin pixels w h (va : VariantAtlas.t T) (f : F) :
  let '(ref, page, va1, f1) := VariantAtlas.getOrCreatePage isLatin (Some h) va f in
  let va2 := VariantAtlas.setPage ref (Page.tryAdd pixels w h page).2 va1 in
  VariantAtlas.getPageCount va <= VariantAtlas.getPageCount va2 /\
  let '(newRef, newPage, va3, f3) := VariantAtlas.createMixedPage va2 f1 in
  VariantAtlas.getPageCount va
  <= VariantAtlas.getPageCount
       (VariantAtlas.setPage newRef (Page.tryAdd pixels w h newPage).2 va3).
Proof.
  pose proof (getOrCreatePage_pageCount isLatin (Some h) va f) as H1.
  destruct (VariantAtlas.getOrCreatePage isLatin (Some h) va f)
    as [[[ref page] va1] f1]. simpl in H1.
  pose proof (setPage_pageCount ref (Page.tryAdd pixels w h page).2 va1) as H2.
  split; [lia|].
  pose proof (createMixedPage_pageCount
                (VariantAtlas.setPage ref (Page.tryAdd pixels w h page).2 va1) f1) as H3.
  destruct (VariantAtlas.createMixedPage _ f1) as [[[newRef newPage] va3] f3].
  simpl in H3.
  pose proof (setPage_pageCount newRef (Page.tryAdd pixels w h newPage).2 va3). lia.
Qed.

Lemma applyOp_pageCount (s : VariantAtlas.t T * F) op :
  VariantAtlas.getPageCount s.1 <= VariantAtlas.getPageCount (applyOp s op).1.
Proof.
  destruct s as [va f].
  destruct op as [c|c px m|c px m|c mi|]; cbn [applyOp fst snd].
  - unfold VariantAtlas.reserveGlyph.
    pose proof (getOrCreatePage_pageCount (isLatinChar c) (VariantAtlas.genSize va) va f) as H1.
    destruct (VariantAtlas.getOrCreatePage _ _ va f) as [[[ref page] va1] f1].
    exact H1.
  - unfold VariantAtlas.fillGlyph.
    pose proof (place_pageCount (isLatinChar c) px (GlyphMetrics.width m)
                  (GlyphMetrics.height m) va f) as Hp.
    destruct (VariantAtlas.getOrCreatePage _ _ va f) as [[[ref page] va1] f1].
    destruct Hp as [H1 H2].
    destruct (Page.tryAdd px _ _ page) as [[pos|] page']; simpl in *; [exact H1|].
    destruct (isLatinChar c); [exact H1|].
    destruct (VariantAtlas.createMixedPage _ f1) as [[[newRef newPage] va3] f3].
    destruct (Page.tryAdd px _ _ newPage) as [[np|] newPage']; exact H2.
  - unfold VariantAtlas.addGlyph.
    pose proof (place_pageCount (isLatinChar c) px (GlyphMetrics.width m)
                  (GlyphMetrics.height m) va f) as Hp.
    destruct (VariantAtlas.getOrCreatePage _ _ va f) as [[[ref page] va1] f1].
    destruct Hp as [H1 H2].
    destruct (Page.tryAdd px _ _ page) as [[pos|] page']; simpl in *; [exact H1|].
    destruct (isLatinChar c); [exact H1|].
    destruct (VariantAtlas.createMixedPage _ f1) as [[[newRef newPage] va3] f3].
    destruct (Page.tryAdd px _ _ newPage) as [[np|] newPage']; exact H2.
  - unfold VariantAtlas.getPageCount. simpl. lia.
  - rewrite flushDirtyPages_pageCount. simpl. lia.
Qed.

Lemma applyOp_glyphCount (s : VariantAtlas.t T * F) op :
  VariantAtlas.getGlyphCount s.1 <= VariantAtlas.getGlyphCount (applyOp s op).1.
Proof.
  unfold VariantAtlas.getGlyphCount. apply inj_le.
  rewrite <- !size_dom. apply subseteq_size.
  intros cp Hin. apply elem_of_dom. apply applyOp_indexed. apply elem_of_dom, Hin.
Qed.

End Ops.

(** X7 (VariantAtlas: reserveGlyph, fillGlyph, addGlyph, markEmpty,
    flushDirtyPages): in every state that a sequence of operations reaches
    from a new atlas, each pending code point has a location in the index. *)
Theorem pending_glyphs_are_indexed {T F : Type} `{TextureFactory T F}
    (variantId : string) (genSize : option Z) (pageSize maxMixedPages : Z)
    (f : F) (ops : list AtlasOp) :
  pendingIndexed
    (applyOps ops (VariantAtlas.new variantId genSize pageSize maxMixedPages, f)).1.
Proof.
  assert (Hgen : forall (s : VariantAtlas.t T * F),
            pendingIndexed s.1 -> pendingIndexed (applyOps ops s).1).
  { unfold applyOps. induction ops as [|op ops IH]; intros s Hs; simpl; [exact Hs|].
    apply IH, applyOp_pendingIndexed, Hs. }
  apply Hgen. intros cp Hin. simpl in Hin. apply elem_of_empty in Hin. destruct Hin.
Qed.

(** X8 (VariantAtlas: the five operations, getGlyph): operations on other
    code points, and flushes, never change what [getGlyph] returns for a
    code point: a ready glyph keeps its location, a pending or unknown one
    stays hidden. *)
Theorem getGlyph_unchanged_by_other_code_points {T F : Type} `{TextureFactory T F}
    (cp : Z) (ops : list AtlasOp) (s : VariantAtlas.t T * F) :
  Forall (fun op => opCodePoint op <> Some cp) ops ->
  VariantAtlas.getGlyph cp (applyOps ops s).1 = VariantAtlas.getGlyph cp s.1.
Proof.
  unfold applyOps. revert s. induction ops as [|op ops IH]; intros s Hall; simpl;
    [reflexivity|].
  apply Forall_cons in Hall as [Hop Hall].
  rewrite (IH _ Hall). apply applyOp_getGlyph_other, Hop.
Qed.

(** X9 (VariantAtlas: the five operations, getGlyphCount, getPageCount):
    no operation evicts anything: a code point that has a location keeps
    one, and neither the glyph count nor the page count ever decreases. *)
Theorem atlas_never_shrinks {T F : Type} `{TextureFactory T F}
    (ops : list AtlasOp) (s : VariantAtlas.t T * F) :
  dom (VariantAtlas.glyphIndex s.1) ⊆ dom (VariantAtlas.glyphIndex (applyOps ops s).1) /\
  VariantAtlas.getGlyphCount s.1 <= VariantAtlas.getGlyphCount (applyOps ops s).1 /\
  VariantAtlas.getPageCount s.1 <= VariantAtlas.getPageCount (applyOps ops s).1.
Proof.
  unfold applyOps. revert s. induction ops as [|op ops IH]; intros s; simpl.
  - split; [reflexivity|]. split; lia.
  - destruct (IH (applyOp s op)) as (I1 & I2 & I3).
    pose proof (applyOp_glyphCount s op). pose proof (applyOp_pageCount s op).
    split; [|split; lia].
    intros cp Hc. apply I1. apply elem_of_dom, applyOp_indexed, elem_of_dom, Hc.
Qed.

(** ** Memory accounting *)

Section Memory.
Context {T F : Type} `{TextureFactory T F}.

Lemma new_bufferSized s (f : F) : @bufferSized T s (Page.new s s f).1.
Proof.
  unfold bufferSized, Page.new. destruct (create _ _ _ _) as [tex f']. simpl.
  unfold Uint8Array_new. apply repeat_length.
Qed.

Lemma tryAdd_bufferSized s pixels w h (p : Page.t T) :
  bufferSized s p -> bufferSized s (Page.tryAdd pixels w h p).2.
Proof.
  unfold bufferSized, Page.tryAdd. intros Hp.
  destruct (advanceRow_fields w p) as (_ & _ & Hb & _).
  destruct (_ >? Page.height _); simpl.
  - rewrite Hb. exact Hp.
  - rewrite blit_length, Hb. exact Hp.
Qed.

Lemma flush_bufferSized s (p : Page.t T) (f : F) :
  bufferSized s p -> bufferSized s (Page.flush p f).1.
Proof. unfold bufferSized, Page.flush. destruct (Page.dirty p); auto. Qed.

(** A property of pages that the constructor establishes and that
    [tryAdd] and [flush] keep holds of every page, whatever the atlas does. *)
Lemma place_allPages (P : Page.t T -> Prop) isLatin pixels w h
    (va : VariantAtlas.t T) (f : F) :
  (forall f0 : F, P (Page.new (VariantAtlas.pageSize va) (VariantAtlas.pageSize va) f0).1) ->
  (forall p, P p -> P (Page.tryAdd pixels w h p).2) ->
  allPages P va ->
  let '(ref, page, va1, f1) := VariantAtlas.getOrCreatePage isLatin (Some h) va f in
  let va2 := VariantAtlas.setPage ref (Page.tryAdd pixels w h page).2 va1 in
  allPages P va2 /\
  let '(newRef, newPage, va3, f3) := VariantAtlas.createMixedPage va2 f1 in
  allPages P (VariantAtlas.setPage newRef (Page.tryAdd pixels w h newPage).2 va3).
Proof.
  intros Hnew Hadd Hall.
  destruct (VariantAtlas.getOrCreatePage isLatin (Some h) va f)
    as [[[ref page] va1] f1] eqn:Eg.
  pose proof (getOrCreatePage_sameIndex _ _ _ _ _ _ _ _ Eg) as (_ & _ & Eps & _).
  apply (getOrCreatePage_allPages P _ _ _ _ _ _ _ _ Hall (Hnew f)) in Eg as [Hall1 Hpage].
  assert (Hall2 : allPages P (VariantAtlas.setPage ref (Page.tryAdd pixels w h page).2 va1))
    by (apply setPage_allPages; auto).
  split; [exact Hall2|].
  destruct (VariantAtlas.createMixedPage _ f1) as [[[newRef newPage] va3] f3] eqn:Ec.
  apply (createMixedPage_allPages P) in Ec as [Hall3 Hnp]; [| exact Hall2 |].
  - apply setPage_allPages; auto.
  - rewrite setPage_pageSize, Eps. apply Hnew.
Qed.

Lemma applyOp_allPages (P : Page.t T -> Prop) (s : VariantAtlas.t T * F) op :
  (forall f0 : F, P (Page.new (VariantAtlas.pageSize s.1) (VariantAtlas.pageSize s.1) f0).1) ->
  (forall pixels w h p, P p -> P (Page.tryAdd pixels w h p).2) ->
  (forall p (f0 : F), P p -> P (Page.flush p f0).1) ->
  allPages P s.1 -> allPages P (applyOp s op).1.
Proof.
  destruct s as [va f]. simpl. intros Hnew Hadd Hfl Hall.
  destruct op as [c|c px m|c px m|c mi|]; cbn [applyOp fst snd].
  - unfold VariantAtlas.reserveGlyph.
    destruct (VariantAtlas.getOrCreatePage _ _ va f) as [[[ref page] va1] f1] eqn:Eg.
    apply (getOrCreatePage_allPages P _ _ _ _ _ _ _ _ Hall (Hnew f)) in Eg as [Hall1 _].
    exact Hall1.
  - unfold VariantAtlas.fillGlyph.
    pose proof (place_allPages P (isLatinChar c) px (GlyphMetrics.width m)
                  (GlyphMetrics.height m) va f Hnew (Hadd _ _ _) Hall) as Hp.
    destruct (VariantAtlas.getOrCreatePage _ _ va f) as [[[ref page] va1] f1].
    destruct Hp as [H1 H2].
    destruct (Page.tryAdd px _ _ page) as [[pos|] page']; simpl in *; [exact H1|].
    destruct (isLatinChar c); [exact H1|].
    destruct (VariantAtlas.createMixedPage _ f1) as [[[newRef newPage] va3] f3].
    destruct (Page.tryAdd px _ _ newPage) as [[np|] newPage']; exact H2.
  - unfold VariantAtlas.addGlyph.
    pose proof (place_allPages P (isLatinChar c) px (GlyphMetrics.width m)
                  (GlyphMetrics.height m) va f Hnew (Hadd _ _ _) Hall) as Hp.
    destruct (VariantAtlas.getOrCreatePage _ _ va f) as [[[ref page] va1] f1].
    destruct Hp as [H1 H2].
    destruct (Page.tryAdd px _ _ page) as [[pos|] page']; simpl in *; [exact H1|].
    destruct (isLatinChar c); [exact H1|].
    destruct (VariantAtlas.createMixedPage _ f1) as [[[newRef newPage] va3] f3].
    destruct (Page.tryAdd px _ _ newPage) as [[np|] newPage']; exact H2.
  - exact Hall.
  - destruct Hall as [Hl Hm]. unfold VariantAtlas.flushDirtyPages.
    destruct (VariantAtlas.latinPage va) as [p|] eqn:El.
    + pose proof (Hfl p f (Hl p eq_refl)) as Hq.
      destruct (Page.flush p f) as [q f1].
      pose proof (flushAll_allPages P (VariantAtlas.mixedPages va) f1 Hfl Hm) as Hmp.
      destruct (VariantAtlas.flushAll _ f1) as [mp f2]. simpl in *.
      split; simpl; [intros q' [= <-]; exact Hq | exact Hmp].
    + pose proof (flushAll_allPages P (VariantAtlas.mixedPages va) f Hfl Hm) as Hmp.
      destruct (VariantAtlas.flushAll _ f) as [mp f2]. simpl in *.
      split; simpl; [discriminate | exact Hmp].
Qed.

Lemma applyOp_bufferSized (s : VariantAtlas.t T * F) op :
  allPages (bufferSized (VariantAtlas.pageSize s.1)) s.1 ->
  allPages (bufferSized (VariantAtlas.pageSize (applyOp s op).1)) (applyOp s op).1.
Proof.
  intros Hall. rewrite applyOp_pageSize. apply applyOp_allPages.
  - intros f0. apply new_bufferSized.
  - intros pixels w h p. apply tryAdd_bufferSized.
  - intros p f0. apply flush_bufferSized.
  - exact Hall.
Qed.

Lemma sum_list_const {A} (g : A -> nat) (c : nat) (l : list A) :
  (forall i a, l !! i = Some a -> g a = c) ->
  sum_list (g <$> l) = (length l * c)%nat.
Proof.
  induction l as [|a l IH]; intros Hc; csimpl; [reflexivity|].
  rewrite (Hc O a eq_refl), IH; [reflexivity|].
  intros i b Hb. apply (Hc (S i) b Hb).
Qed.

Lemma bufferSized_memory (va : VariantAtlas.t T) :
  allPages (bufferSized (VariantAtlas.pageSize va)) va ->
  VariantAtlas.getMemoryBytes va = bufferBytes va.
Proof.
  intros [Hl Hm].
  unfold VariantAtlas.getMemoryBytes, VariantAtlas.getPageCount, bufferBytes, pagesOf.
  set (s := VariantAtlas.pageSize va) in *.
  rewrite (sum_list_const _ (Z.to_nat (s * s * 4))).
  - rewrite length_app.
    assert (Hs : 0 <= s * s * 4) by nia.
    destruct (VariantAtlas.latinPage va); simpl; nia.
  - intros i p Hp. apply lookup_app_Some in Hp as [Hp|[_ Hp]].
    + destruct (VariantAtlas.latinPage va) as [q|] eqn:El; simpl in Hp.
      * apply list_lookup_singleton_Some in Hp as [_ <-]. apply Hl. reflexivity.
      * rewrite lookup_nil in Hp. discriminate.
    + eapply Hm, Hp.
Qed.

End Memory.

(** X10 (VariantAtlas.getMemoryBytes, getPageCount, Page constructor):
    in every state that a sequence of operations reaches from a new atlas,
    [getMemoryBytes] is exactly the number of bytes held by the pixel
    buffers of its pages. *)
Theorem getMemoryBytes_counts_buffers {T F : Type} `{TextureFactory T F}
    (variantId : string) (genSize : option Z) (pageSize maxMixedPages : Z)
    (f : F) (ops : list AtlasOp) :
  let va := (applyOps ops (VariantAtlas.new variantId genSize pageSize maxMixedPages, f)).1 in
  VariantAtlas.getMemoryBytes va = bufferBytes va.
Proof.
  intros va. apply bufferSized_memory. subst va.
  assert (Hgen : forall (s : VariantAtlas.t T * F),
            allPages (bufferSized (VariantAtlas.pageSize s.1)) s.1 ->
            allPages (bufferSized (VariantAtlas.pageSize (applyOps ops s).1))
                     (applyOps ops s).1).
  { unfold applyOps. induction ops as [|op ops IH]; intros s Hs; simpl; [exact Hs|].
    apply IH, applyOp_bufferSized, Hs. }
  apply Hgen. split; simpl.
  - discriminate.
  - intros i p Hp. rewrite lookup_nil in Hp. discriminate.
Qed.

(** ** markEmpty *)

(** X11 (VariantAtlas.markEmpty): marking a code point that has a location
    makes it ready with zero size and [empty] set, keeping the page,
    position and metrics it had; marking a code point without a location
    records nothing; and marking twice is the same as marking once. *)
Theorem markEmpty_behaviour {T : Type}
    (cp : Z) (missing : bool) (va : VariantAtlas.t T) :
  let va' := VariantAtlas.markEmpty cp missing va in
  match VariantAtlas.glyphIndex va !! cp with
  | Some loc =>
      VariantAtlas.getGlyph cp va'
      = Some (GlyphLocation.mk (GlyphLocation.page loc) (GlyphLocation.x loc)
                (GlyphLocation.y loc) 0 0 (GlyphLocation.metrics loc) true missing)
  | None =>
      VariantAtlas.glyphIndex va' = VariantAtlas.glyphIndex va /\
      VariantAtlas.getGlyph cp va' = None
  end /\
  VariantAtlas.markEmpty cp missing va' = va'.
Proof.
  intros va'. subst va'.
  destruct (markEmpty_spec cp missing va) as (Mp & Mo & Mc).
  split.
  - destruct (VariantAtlas.glyphIndex va !! cp) as [loc|] eqn:Hl.
    + unfold VariantAtlas.getGlyph. rewrite Mp, Mc.
      case_bool_decide as Hin; [exfalso; revert Hin; set_cases | reflexivity].
    + unfold VariantAtlas.getGlyph. rewrite Mp, Mc. split.
      * unfold VariantAtlas.markEmpty. rewrite Hl. reflexivity.
      * case_bool_decide; reflexivity.
  - destruct va as [vid gs lp mp idx pend ps mx wn].
    unfold VariantAtlas.markEmpty, VariantAtlas.setIndex. simpl.
    destruct (idx !! cp) as [loc|] eqn:El; simpl.
    + rewrite lookup_insert_eq. simpl. f_equal.
      * apply insert_insert_eq.
      * apply set_eq. intros k. set_cases.
    + rewrite El. f_equal. apply set_eq. intros k. set_cases.
Qed.

(** ** The Latin set and the generation sizes *)

(** X12 (LATIN_CODEPOINTS, isLatinChar, LATIN_RANGES): the list that
    [prefabLatin] walks holds exactly the code points that [isLatinChar]
    accepts, each one once: 62 code points. *)
Theorem LATIN_CODEPOINTS_agrees_with_isLatinChar :
  (forall cp, cp ∈ LATIN_CODEPOINTS <-> isLatinChar cp = true) /\
  NoDup LATIN_CODEPOINTS /\
  length LATIN_CODEPOINTS = 62%nat.
Proof.
  split; [|split].
  - intros cp. rewrite LATIN_CODEPOINTS_spec, isLatinChar_spec. reflexivity.
  - apply (bool_decide_unpack _). vm_compute. exact I.
  - reflexivity.
Qed.

Lemma findFirst_first {A} (f : A -> bool) (l : list A) i a :
  findFirst f l = Some (i, a) ->
  (i < length l)%nat /\ forall j b, (j < i)%nat -> l !! j = Some b -> f b = false.
Proof.
  revert i. induction l as [|c l IH]; intros i; simpl; [discriminate|].
  destruct (f c) eqn:E.
  - intros [= <- <-]. split; [lia|]. intros j b Hj. lia.
  - destruct (findFirst f l) as [[k d]|]; simpl; [|discriminate].
    intros [= <- <-]. destruct (IH k eq_refl) as [Hk Hmin]. split; [lia|].
    intros [|j] b Hj; simpl.
    + intros [= <-]. exact E.
    + apply Hmin. lia.
Qed.

Lemma findFirst_None {A} (f : A -> bool) (l : list A) :
  findFirst f l = None -> forall j b, l !! j = Some b -> f b = false.
Proof.
  induction l as [|c l IH]; simpl; intros Hn j b.
  - rewrite lookup_nil. discriminate.
  - destruct (f c) eqn:E; [discriminate|].
    destruct (findFirst f l) as [[k d]|]; [discriminate|].
    destruct j as [|j]; simpl.
    + intros [= <-]. exact E.
    + apply IH. reflexivity.
Qed.

(** The index into [genSizes] that [selectGenSize] reads. *)
Lemma selectGenSize_index (cfg : AtlasConfig.t) (r : Z) :
  exists i,
    FontAtlas.selectGenSize cfg r = AtlasConfig.genSizes cfg !! i /\
    (forall j th, (j < i)%nat -> AtlasConfig.sizeThresholds cfg !! j = Some th -> th < r) /\
    ((exists th, AtlasConfig.sizeThresholds cfg !! i = Some th /\ r <= th) \/
     i = (length (AtlasConfig.genSizes cfg) - 1)%nat /\
     forall j th, AtlasConfig.sizeThresholds cfg !! j = Some th -> th < r).
Proof.
  unfold FontAtlas.selectGenSize.
  destruct (findFirst _ (AtlasConfig.sizeThresholds cfg)) as [[i th]|] eqn:Ef.
  - exists i. split; [reflexivity|].
    destruct (findFirst_first _ _ _ _ Ef) as [_ Hmin].
    apply findFirst_Some in Ef as [Hi Hth]. split.
    + intros j t Hj Ht. specialize (Hmin j t Hj Ht). simpl in Hmin. lia.
    + left. exists th. split; [exact Hi | lia].
  - exists (length (AtlasConfig.genSizes cfg) - 1)%nat. split; [reflexivity|].
    pose proof (findFirst_None _ _ Ef) as Hn.
    assert (Hall : forall j th, AtlasConfig.sizeThresholds cfg !! j = Some th -> th < r).
    { intros j t Ht. specialize (Hn j t Ht). simpl in Hn. lia. }
    split; [|right; split; [reflexivity | exact Hall]].
    intros j t _. apply Hall.
Qed.

(** X13 (FontAtlas.selectGenSize): when the configuration has more
    generation sizes than thresholds, [selectGenSize] returns one of the
    configured sizes for every render size: the size paired with the first
    threshold that the render size does not exceed, or else the last size. *)
Theorem selectGenSize_is_a_configured_size (cfg : AtlasConfig.t) (renderSize : Z) :
  (length (AtlasConfig.sizeThresholds cfg) < length (AtlasConfig.genSizes cfg))%nat ->
  exists g i,
    FontAtlas.selectGenSize cfg renderSize = Some g /\
    AtlasConfig.genSizes cfg !! i = Some g /\
    match AtlasConfig.sizeThresholds cfg !! i with
    | Some th => renderSize <= th
    | None => i = (length (AtlasConfig.genSizes cfg) - 1)%nat
    end /\
    Forall (fun th => th < renderSize) (take i (AtlasConfig.sizeThresholds cfg)).
Proof.
  intros Hlen.
  destruct (selectGenSize_index cfg renderSize) as (i & Hs & Hbefore & Hi).
  assert (Hlt : (i < length (AtlasConfig.genSizes cfg))%nat).
  { destruct Hi as [(th & Hth & _)|[-> _]]; [|lia].
    apply lookup_lt_Some in Hth. lia. }
  destruct (lookup_lt_is_Some_2 _ _ Hlt) as [g Hg].
  exists g, i. split; [congruence|]. split; [exact Hg|]. split.
  - destruct Hi as [(th & -> & Hle)|[-> Hall]]; [exact Hle|].
    destruct (AtlasConfig.sizeThresholds cfg !! _) as [th|] eqn:Eth; [|reflexivity].
    apply lookup_lt_Some in Eth. lia.
  - apply Forall_forall. intros th Hin.
    apply list_elem_of_lookup in Hin as [j Hj].
    apply lookup_take_Some in Hj as [Hj Hji]. eapply Hbefore; eassumption.
Qed.

Lemma ascending_head (x : Z) (l : list Z) :
  ascending (x :: l) = true -> forall b, b ∈ l -> x <= b.
Proof.
  revert x. induction l as [|y l IH]; intros x Ha b Hb; [inversion Hb|].
  cbn [ascending] in Ha. apply andb_true_iff in Ha as [Hxy Hl]. apply Z.leb_le in Hxy.
  apply elem_of_cons in Hb as [->|Hb]; [exact Hxy|].
  specialize (IH y Hl b Hb). lia.
Qed.

Lemma ascending_lookup (l : list Z) : ascending l = true ->
  forall i j a b, (i <= j)%nat -> l !! i = Some a -> l !! j = Some b -> a <= b.
Proof.
  induction l as [|x l IH]; intros Hs i j a b Hij Ha Hb.
  - rewrite lookup_nil in Ha. discriminate.
  - destruct i as [|i]; destruct j as [|j]; simpl in *; try lia.
    + injection Ha as <-. injection Hb as <-. lia.
    + injection Ha as <-. apply (ascending_head x l Hs).
      eapply list_elem_of_lookup_2, Hb.
    + apply (IH ltac:(destruct l; [reflexivity|];
                      cbn [ascending] in Hs; apply andb_true_iff in Hs; apply Hs)
               i j); [lia | assumption | assumption].
Qed.

(** X14 (FontAtlas.selectGenSize): with generation sizes in ascending
    order, and more of them than thresholds, a larger render size never
    selects a smaller generation size. *)
Theorem selectGenSize_monotone (cfg : AtlasConfig.t) (r1 r2 g1 g2 : Z) :
  (length (AtlasConfig.sizeThresholds cfg) < length (AtlasConfig.genSizes cfg))%nat ->
  ascending (AtlasConfig.genSizes cfg) = true ->
  r1 <= r2 ->
  FontAtlas.selectGenSize cfg r1 = Some g1 ->
  FontAtlas.selectGenSize cfg r2 = Some g2 ->
  g1 <= g2.
Proof.
  intros Hlen Hsorted Hr H1 H2.
  destruct (selectGenSize_index cfg r1) as (i1 & Hs1 & Hb1 & Hi1).
  destruct (selectGenSize_index cfg r2) as (i2 & Hs2 & Hb2 & Hi2).
  rewrite H1 in Hs1. rewrite H2 in Hs2.
  apply (ascending_lookup _ Hsorted i1 i2); [|congruence|congruence].
  destruct (decide (i1 <= i2)%nat) as [|Hgt]; [assumption|]. exfalso.
  assert (Hlt : (i2 < i1)%nat) by lia.
  destruct Hi2 as [(th & Hth & Hle)|[-> Hall]].
  - specialize (Hb1 i2 th Hlt Hth). lia.
  - symmetry in Hs1. apply lookup_lt_Some in Hs1. lia.
Qed.

(** ** The queue and the drain *)

Section Queue.
Context {T F G : Type} `{TextureFactory T F} `{MSDFGenerator G}.

Lemma processBatch_queue (fa : FontAtlas.t T F G) :
  FontAtlas.pendingGlyphs (FontAtlas.processBatch fa).2 = [] /\
  FontAtlas.batchPromise (FontAtlas.processBatch fa).2 = false.
Proof.
  unfold FontAtlas.processBatch.
  destruct (length (FontAtlas.pendingGlyphs fa) =? 0)%nat; [split; reflexivity|].
  pose proof (processAll_sameQueue (FontAtlas.pendingGlyphs fa)
                (FontAtlas.setQueue fa [] false)) as (_ & _ & _ & Hq & Hb).
  destruct (FontAtlas.processAll _ _) as [[[]|err] fa1]; simpl in *.
  - destruct (FontAtlas.flushAtlases _ _) as [ats f']. simpl. auto.
  - auto.
Qed.

(** The state that a missed [getGlyph] leaves. *)
Lemma getGlyph_miss_state request (fa : FontAtlas.t T F G) :
  GlyphInfo.cached (FontAtlas.getGlyph request fa).1 = false ->
  let genSize := FontAtlas.selectGenSize (FontAtlas.config fa)
                   (GlyphRequest.renderSize request) in
  let key := FontAtlas.atlasKey (GlyphRequest.variantId request) genSize in
  let fa' := (FontAtlas.getGlyph request fa).2 in
  FontAtlas.msdf fa' = FontAtlas.msdf fa /\
  FontAtlas.config fa' = FontAtlas.config fa /\
  FontAtlas.onGlyphsReady fa' = FontAtlas.onGlyphsReady fa /\
  FontAtlas.readyCalls fa' = FontAtlas.readyCalls fa /\
  FontAtlas.batchPromise fa' = true /\
  FontAtlas.pendingGlyphs fa'
  = FontAtlas.pendingGlyphs fa ++
    [PendingGlyph.mk (GlyphRequest.codePoint request) genSize
       (GlyphRequest.fontBuffer request) (GlyphRequest.variationAxes request)
       (GlyphRequest.variantId request)] /\
  exists atlas,
    mapGet key (FontAtlas.atlases fa') = Some atlas /\
    is_Some (VariantAtlas.glyphIndex atlas !! GlyphRequest.codePoint request).
Proof.
  unfold FontAtlas.getGlyph.
  destruct (FontAtlas.getOrCreateAtlas _ _ _) as [[k atlas] fa1] eqn:Ea.
  apply getOrCreateAtlas_spec in Ea
    as (-> & _ & _ & _ & Hg & _ & (Hc & Hcb & Hrc & Hpq & Hbp)).
  destruct (VariantAtlas.getGlyph _ atlas) as [loc|]; [discriminate|].
  destruct (VariantAtlas.reserveGlyph _ atlas _) as [[loc a1] f1] eqn:Er.
  apply reserveGlyph_spec in Er as (Hi & _).
  intros _. simpl. rewrite Hpq. repeat (split; [assumption || reflexivity|]).
  exists a1. split; [apply mapGet_mapSet_eq|]. rewrite Hi, lookup_insert_eq. eauto.
Qed.

Lemma getGlyph_hit_state request (fa : FontAtlas.t T F G) :
  GlyphInfo.cached (FontAtlas.getGlyph request fa).1 = true ->
  (FontAtlas.getGlyph request fa).2 = fa.
Proof.
  unfold FontAtlas.getGlyph, FontAtlas.getOrCreateAtlas.
  destruct (mapGet _ (FontAtlas.atlases fa)) as [atlas|] eqn:Ek.
  - destruct (VariantAtlas.getGlyph _ atlas) as [loc|]; [reflexivity|].
    destruct (VariantAtlas.reserveGlyph _ atlas _) as [[loc a1] f1]. discriminate.
  - unfold VariantAtlas.getGlyph at 1. simpl.
    rewrite bool_decide_eq_false_2 by apply not_elem_of_empty. rewrite lookup_empty.
    destruct (VariantAtlas.reserveGlyph _ _ _) as [[loc a1] f1]. discriminate.
Qed.

End Queue.

(** X15 (FontAtlas.hasPendingWork, processBatch, getGlyph, queueGeneration):
    a drain leaves no pending work, whether it completes or is aborted by a
    throw (the rest of an aborted batch is dropped, not kept for the next
    drain); a request leaves pending work exactly when there was some before
    or the request missed. *)
Theorem hasPendingWork_after_drain_and_request {T F G : Type}
    `{TextureFactory T F} `{MSDFGenerator G}
    (request : GlyphRequest.t) (fa : FontAtlas.t T F G) :
  FontAtlas.pendingGlyphs (FontAtlas.processBatch fa).2 = [] /\
  FontAtlas.hasPendingWork (FontAtlas.processBatch fa).2 = false /\
  FontAtlas.hasPendingWork (FontAtlas.getGlyph request fa).2
  = FontAtlas.hasPendingWork fa
    || negb (GlyphInfo.cached (FontAtlas.getGlyph request fa).1).
Proof.
  destruct (processBatch_queue fa) as [Hq Hb].
  split; [exact Hq|]. split.
  - unfold FontAtlas.hasPendingWork. rewrite Hq, Hb. reflexivity.
  - destruct (GlyphInfo.cached (FontAtlas.getGlyph request fa).1) eqn:Ec.
    + rewrite (getGlyph_hit_state request fa Ec). rewrite orb_false_r. reflexivity.
    + destruct (getGlyph_miss_state request fa Ec) as (_ & _ & _ & _ & Hbp & _).
      unfold FontAtlas.hasPendingWork at 1. rewrite Hbp.
      rewrite !orb_true_r. reflexivity.
Qed.

Section Generated.
Context {T F G : Type} `{TextureFactory T F} `{MSDFGenerator G}.

(** One queued generation for a code point that has a location, with a
    font that contains it: what the iteration of the drain stores. *)
Lemma processPending_generated (e : PendingGlyph.t) (fa : FontAtlas.t T F G)
    atlas glyph g2 r fa' :
  let cp := PendingGlyph.codePoint e in
  let key := FontAtlas.atlasKey (PendingGlyph.variantId e) (PendingGlyph.genSize e) in
  mapGet key (FontAtlas.atlases fa) = Some atlas ->
  is_Some (VariantAtlas.glyphIndex atlas !! cp) ->
  hasGlyph cp (loadFont (PendingGlyph.fontBuffer e) (FontAtlas.msdf fa)) = true ->
  FontAtlas.generateGlyph (FontAtlas.config fa) cp (PendingGlyph.genSize e)
    (PendingGlyph.fontBuffer e) (PendingGlyph.variationAxes e)
    (loadFont (PendingGlyph.fontBuffer e) (FontAtlas.msdf fa)) = (glyph, g2) ->
  FontAtlas.processPending e fa = (r, fa') ->
  r = Ok tt ->
  exists atlas' loc,
    mapGet key (FontAtlas.atlases fa') = Some atlas' /\
    VariantAtlas.getGlyph cp atlas' = Some loc /\
    GlyphLocation.missing loc = false /\
    match glyph with
    | Some gl =>
        GlyphLocation.metrics loc = FontAtlas.toMetrics (MSDFGlyph.metrics gl) /\
        GlyphLocation.width loc = MSDFMetrics.width (MSDFGlyph.metrics gl) /\
        GlyphLocation.height loc = MSDFMetrics.height (MSDFGlyph.metrics gl) /\
        GlyphLocation.empty loc = false
    | None =>
        GlyphLocation.width loc = 0 /\ GlyphLocation.height loc = 0 /\
        GlyphLocation.empty loc = true
    end.
Proof.
  intros cp key Hk [old Hold] Hhas Hgen.
  unfold FontAtlas.processPending, FontAtlas.getOrCreateAtlas.
  fold key. rewrite Hk. simpl FontAtlas.msdf. fold cp. rewrite Hhas. simpl negb.
  cbv iota. rewrite Hgen.
  destruct glyph as [gl|].
  - destruct (VariantAtlas.fillGlyph _ _ _ atlas _) as [[r0 a1] f1] eqn:Ef.
    intros [= <- <-] ->.
    destruct (fillGlyph_location _ _ _ _ _ _ _ Ef) as (ref & page & pos & _ & _ & Hi).
    apply fillGlyph_spec in Ef as (_ & Hp & _).
    rewrite Hold in Hi. simpl in Hi.
    eexists a1, _. split; [apply mapGet_mapSet_eq|]. split.
    + unfold VariantAtlas.getGlyph. rewrite Hp.
      rewrite bool_decide_eq_false_2 by set_cases. exact Hi.
    + simpl. auto.
  - intros [= <- <-] _.
    destruct (markEmpty_spec cp false atlas) as (Mp & _ & Mc).
    rewrite Hold in Mc. simpl in Mc.
    eexists _, _. split; [apply mapGet_mapSet_eq|]. split.
    + unfold VariantAtlas.getGlyph. rewrite Mp.
      rewrite bool_decide_eq_false_2 by set_cases. exact Mc.
    + simpl. auto.
Qed.

Lemma flushDirtyPages_getGlyph cp (va : VariantAtlas.t T) (f : F) :
  VariantAtlas.getGlyph cp (VariantAtlas.flushDirtyPages va f).1
  = VariantAtlas.getGlyph cp va.
Proof.
  destruct (VariantAtlas.flushDirtyPages va f) as [va' f'] eqn:E.
  apply flushDirtyPages_sameIndex in E as (Ei & Ep & _). simpl.
  unfold VariantAtlas.getGlyph. rewrite Ei, Ep. reflexivity.
Qed.

End Generated.

(** X16 (FontAtlas.getGlyph, processBatch, generateGlyph, VariantAtlas.
    fillGlyph, markEmpty): a missed request on an atlas with an empty queue,
    for a code point the font contains, followed by a drain that returns, is
    answered from the cache afterwards: with the metrics of the generated
    glyph, or as an empty (not missing) glyph when the generator returned
    nothing.  The drain invokes the callback, when one is configured, once
    and leaves no pending work, and the cached answer changes nothing. *)
Theorem generated_glyph_is_cached {T F G : Type}
    `{TextureFactory T F} `{MSDFGenerator G}
    (request : GlyphRequest.t) (fa fa2 : FontAtlas.t T F G)
    (glyph : option MSDFGlyph.t) (g2 : G) :
  let cp := GlyphRequest.codePoint request in
  let genSize := FontAtlas.selectGenSize (FontAtlas.config fa)
                   (GlyphRequest.renderSize request) in
  let font := GlyphRequest.fontBuffer request in
  FontAtlas.pendingGlyphs fa = [] ->
  GlyphInfo.cached (FontAtlas.getGlyph request fa).1 = false ->
  hasGlyph cp (loadFont font (FontAtlas.msdf fa)) = true ->
  FontAtlas.generateGlyph (FontAtlas.config fa) cp genSize font
    (GlyphRequest.variationAxes request) (loadFont font (FontAtlas.msdf fa))
  = (glyph, g2) ->
  FontAtlas.processBatch (FontAtlas.getGlyph request fa).2 = (Ok tt, fa2) ->
  let info := (FontAtlas.getGlyph request fa2).1 in
  (FontAtlas.getGlyph request fa2).2 = fa2 /\
  GlyphInfo.cached info = true /\
  GlyphInfo.missing info = false /\
  GlyphInfo.genSize info = genSize /\
  match glyph with
  | Some gl =>
      GlyphInfo.metrics info = FontAtlas.toMetrics (MSDFGlyph.metrics gl) /\
      GlyphInfo.empty info = false
  | None => GlyphInfo.empty info = true
  end /\
  FontAtlas.readyCalls fa2
  = (if FontAtlas.onGlyphsReady fa then S (FontAtlas.readyCalls fa)
     else FontAtlas.readyCalls fa) /\
  FontAtlas.hasPendingWork fa2 = false.
Proof.
  intros cp genSize font Hempty Hmiss Hhas Hgen Hdrain.
  destruct (getGlyph_miss_state request fa Hmiss)
    as (Hg & Hc & Hcb & Hrc & Hbp & Hq & atlas & Hk & Hidx).
  fold genSize cp font in Hq, Hk. rewrite Hempty in Hq. simpl in Hq.
  pose proof (processBatch_readyCalls (FontAtlas.getGlyph request fa).2) as Hcalls.
  pose proof (processBatch_queue (FontAtlas.getGlyph request fa).2) as [Hq2 Hb2].
  set (fa1 := (FontAtlas.getGlyph request fa).2) in *. clearbody fa1.
  rewrite Hdrain in Hcalls, Hq2, Hb2. rewrite Hq in Hcalls. simpl in Hcalls, Hq2, Hb2.
  set (e := PendingGlyph.mk cp genSize font (GlyphRequest.variationAxes request)
              (GlyphRequest.variantId request)) in *.
  (* the drain *)
  unfold FontAtlas.processBatch in Hdrain. rewrite Hq in Hdrain.
  cbn [length Nat.eqb FontAtlas.processAll] in Hdrain.
  destruct (FontAtlas.processPending e (FontAtlas.setQueue fa1 [] false))
    as [r fa'] eqn:Ep.
  pose proof (processPending_sameQueue e (FontAtlas.setQueue fa1 [] false)) as (Hc' & _).
  rewrite Ep in Hc'. simpl in Hc'.
  assert (Hr : r = Ok tt) by (destruct r as [[]|err]; [reflexivity | discriminate]).
  destruct (processPending_generated e (FontAtlas.setQueue fa1 [] false)
              atlas glyph g2 r fa') as (atlas' & loc & Hk' & Hl & Hmi & Hout);
    try assumption.
  { simpl. rewrite Hg. exact Hhas. }
  { simpl. rewrite Hg, Hc. exact Hgen. }
  subst r. subst e.
  cbn [PendingGlyph.codePoint PendingGlyph.variantId PendingGlyph.genSize] in Hk', Hl.
  destruct (flushAtlases_get (FontAtlas.atlases fa') (FontAtlas.textureFactory fa')
              _ atlas' Hk') as (f0 & Hf).
  destruct (FontAtlas.flushAtlases _ _) as [ats f'].
  injection Hdrain as <-. simpl in Hf, Hcalls.
  (* the request after the drain *)
  assert (Hinfo : FontAtlas.getGlyph request
                    (FontAtlas.notify (FontAtlas.setWorld fa' (FontAtlas.msdf fa') f' ats))
                  = (FontAtlas.locationToInfo loc genSize true,
                     FontAtlas.notify (FontAtlas.setWorld fa' (FontAtlas.msdf fa') f' ats))).
  { unfold FontAtlas.getGlyph, FontAtlas.getOrCreateAtlas. simpl FontAtlas.config.
    rewrite Hc', Hc. fold genSize. simpl FontAtlas.atlases.
    simpl in Hf. rewrite Hf. fold cp.
    rewrite flushDirtyPages_getGlyph, Hl. reflexivity. }
  rewrite Hinfo. simpl.
  split; [reflexivity|]. split; [reflexivity|]. split; [exact Hmi|].
  split; [reflexivity|]. split.
  - destruct glyph as [gl|]; tauto.
  - split.
    + rewrite <- Hcb, <- Hrc. exact Hcalls.
    + unfold FontAtlas.hasPendingWork. rewrite Hq2, Hb2. reflexivity.
Qed.

(** ** prefabLatin, again *)

Lemma mapSet_id {V} k (v : V) m : mapGet k m = Some v -> mapSet k v m = m.
Proof.
  induction m as [|[k' v'] m IH]; simpl; [discriminate|].
  destruct (String.eqb k k') eqn:E.
  - intros [= ->]. reflexivity.
  - intros Hm. rewrite (IH Hm). reflexivity.
Qed.

Section PrefabAgain.
Context {T F G : Type} `{TextureFactory T F} `{MSDFGenerator G}.

Lemma prefabAll_all_ready cfg genSize fontBuffer axes cps
    (atlas : VariantAtlas.t T) (f : F) (g : G) :
  (forall cp, cp ∈ cps -> ready cp atlas) ->
  FontAtlas.prefabAll cfg genSize fontBuffer axes cps (atlas, f, g)
  = (Ok tt, (atlas, f, g)).
Proof.
  induction cps as [|cp cps IH]; intros Hall; cbn [FontAtlas.prefabAll]; [reflexivity|].
  unfold FontAtlas.prefabOne.
  destruct (Hall cp) as [loc Hloc]; [left|]. rewrite Hloc.
  apply IH. intros cp' Hin. apply Hall. right. exact Hin.
Qed.

Lemma setWorld_id (fa : FontAtlas.t T F G) :
  FontAtlas.setWorld fa (FontAtlas.msdf fa) (FontAtlas.textureFactory fa)
    (FontAtlas.atlases fa) = fa.
Proof. destruct fa. reflexivity. Qed.

(** The loop of [prefabLatin] over a generator that answers [hasGlyph] with
    [false]: the generator is left alone and every code point that the loop
    makes ready is marked missing. *)
Lemma prefabAll_lacking cfg genSize fontBuffer axes cps :
  forall (atlas : VariantAtlas.t T) (f : F) (g : G),
  (forall cp, cp ∈ cps -> hasGlyph cp g = false) ->
  (forall cp loc, VariantAtlas.getGlyph cp atlas = Some loc ->
     GlyphLocation.missing loc = true /\ GlyphLocation.empty loc = true) ->
  exists atlas' f',
    FontAtlas.prefabAll cfg genSize fontBuffer axes cps (atlas, f, g)
    = (Ok tt, (atlas', f', g)) /\
    (forall cp, cp ∈ cps -> ready cp atlas') /\
    (forall cp loc, VariantAtlas.getGlyph cp atlas' = Some loc ->
       GlyphLocation.missing loc = true /\ GlyphLocation.empty loc = true).
Proof.
  induction cps as [|cp cps IH]; intros atlas f g Hlack Hinv; cbn [FontAtlas.prefabAll].
  - exists atlas, f. split; [reflexivity|]. split; [|exact Hinv].
    intros cp Hcp. inversion Hcp.
  - destruct (FontAtlas.prefabOne cfg genSize fontBuffer axes cp (atlas, f, g))
      as [r [[a1 f1] g1]] eqn:E1.
    assert (Hone : r = Ok tt /\ g1 = g /\ ready cp a1 /\
              (forall cp', ready cp' atlas -> ready cp' a1) /\
              (forall c loc, VariantAtlas.getGlyph c a1 = Some loc ->
                 GlyphLocation.missing loc = true /\ GlyphLocation.empty loc = true)).
    { revert E1. unfold FontAtlas.prefabOne.
      destruct (VariantAtlas.getGlyph cp atlas) as [loc|] eqn:Eg.
      { intros [= <- <- <- <-]. repeat split; auto.
        - unfold ready. rewrite Eg. eauto.
        - eapply Hinv; eassumption.
        - eapply Hinv; eassumption. }
      rewrite (Hlack cp) by left. simpl negb. cbv iota.
      destruct (VariantAtlas.reserveGlyph cp atlas f) as [[l a0] f0] eqn:Er.
      intros [= <- <- <- <-].
      pose proof (reserve_markEmpty_ready cp true atlas f l a0 f0 Er) as [Hr Hk].
      split; [reflexivity|]. split; [reflexivity|]. split; [exact Hr|]. split; [exact Hk|].
      apply reserveGlyph_spec in Er as (Hi & Hp & _).
      destruct (markEmpty_spec cp true a0) as (Mp & Mo & Mc).
      intros c loc. destruct (decide (c = cp)) as [->|Hne].
      - unfold VariantAtlas.getGlyph. rewrite Mp, Mc, Hi, lookup_insert_eq.
        case_bool_decide; [discriminate|]. simpl. intros [= <-]. auto.
      - intros Hc. apply (Hinv c loc). rewrite <- Hc. symmetry.
        apply getGlyph_other.
        + rewrite (Mo c Hne), Hi. apply lookup_insert_ne. congruence.
        + rewrite Mp, Hp. set_cases. }
    destruct Hone as (-> & -> & Hr & Hk & Hinv1).
    destruct (IH a1 f1 g) as (atlas' & f' & Ep & Hall & Hinv').
    { intros c Hc. apply Hlack. right. exact Hc. }
    { exact Hinv1. }
    exists atlas', f'. split; [exact Ep|]. split; [|exact Hinv'].
    intros c Hc. apply elem_of_cons in Hc as [->|Hc]; [|apply Hall, Hc].
    apply prefabAll_ready in Ep as [_ Hkeep]. apply Hkeep, Hr.
Qed.

End PrefabAgain.

(** X17 (FontAtlas.prefabLatin, VariantAtlas.getGlyph, flushDirtyPages):
    after a [prefabLatin] that returned, calling it again for the same
    variant and size returns as well and changes nothing: no glyph is
    generated or packed twice and nothing is uploaded again. *)
Theorem prefabLatin_again_changes_nothing {T F G : Type}
    `{TextureFactory T F} `{MSDFGenerator G}
    (variantId : string) (fontSize : Z) (fontBytes fontBytes' : Uint8Array)
    (axes axes' : option (list VariationAxis.t)) (fa fa' : FontAtlas.t T F G) :
  FontAtlas.prefabLatin variantId fontSize fontBytes axes fa = (Ok tt, fa') ->
  FontAtlas.prefabLatin variantId fontSize fontBytes' axes' fa' = (Ok tt, fa').
Proof.
  intros Hfirst.
  assert (Hstate : FontAtlas.config fa' = FontAtlas.config fa /\
            exists atlas,
              mapGet (FontAtlas.atlasKey variantId
                        (FontAtlas.selectGenSize (FontAtlas.config fa) fontSize))
                     (FontAtlas.atlases fa') = Some atlas /\
              (forall cp, cp ∈ LATIN_CODEPOINTS -> ready cp atlas) /\
              VariantAtlas.hasDirtyPages atlas = false).
  { revert Hfirst. unfold FontAtlas.prefabLatin.
    destruct (FontAtlas.getOrCreateAtlas _ _ _) as [[key atlas] fa1] eqn:Ea.
    apply getOrCreateAtlas_spec in Ea as (-> & _ & _ & _ & _ & _ & (Hc & _)).
    destruct (FontAtlas.prefabAll _ _ _ _ _ _) as [r [[a1 f1] g1]] eqn:Ep.
    destruct r as [[]|e]; [|discriminate].
    apply prefabAll_ready in Ep as [Hall _].
    pose proof (flushDirtyPages_dirty a1 f1) as Hclean.
    destruct (VariantAtlas.flushDirtyPages a1 f1) as [a2 f2] eqn:Ef.
    apply flushDirtyPages_sameIndex in Ef.
    intros [= <-]. simpl. split; [exact Hc|].
    exists a2. split; [apply mapGet_mapSet_eq|]. split; [|exact Hclean].
    intros cp Hcp. eapply sameIndex_ready; eauto. }
  destruct Hstate as (Hc & atlas & Hk & Hall & Hclean).
  unfold FontAtlas.prefabLatin, FontAtlas.getOrCreateAtlas.
  rewrite Hc, Hk.
  rewrite (prefabAll_all_ready _ _ _ _ _ atlas _ _ Hall).
  rewrite (flushDirtyPages_clean atlas _ Hclean).
  rewrite (mapSet_id _ _ _ Hk), setWorld_id. reflexivity.
Qed.

(** X18 (FontAtlas.prefabLatin): [prefabLatin] asks [hasGlyph] before it
    loads [fontBuffer].  For a variant without an atlas, on a generator whose
    current font has none of the Latin code points, it returns, leaves the
    generator as it was ([fontBuffer] is never loaded), and every Latin code
    point is then answered from the cache as missing and empty. *)
Theorem prefabLatin_consults_the_loaded_font {T F G : Type}
    `{TextureFactory T F} `{MSDFGenerator G}
    (variantId : string) (fontSize : Z) (fontBytes : Uint8Array)
    (axes : option (list VariationAxis.t)) (fa : FontAtlas.t T F G) :
  mapGet (FontAtlas.atlasKey variantId
            (FontAtlas.selectGenSize (FontAtlas.config fa) fontSize))
         (FontAtlas.atlases fa) = None ->
  (forall cp, cp ∈ LATIN_CODEPOINTS -> hasGlyph cp (FontAtlas.msdf fa) = false) ->
  exists fa',
    FontAtlas.prefabLatin variantId fontSize fontBytes axes fa = (Ok tt, fa') /\
    FontAtlas.msdf fa' = FontAtlas.msdf fa /\
    forall cp fontBuffer axes',
      cp ∈ LATIN_CODEPOINTS ->
      let info := (FontAtlas.getGlyph
                     (GlyphRequest.mk cp variantId fontBuffer axes' fontSize) fa').1 in
      GlyphInfo.cached info = true /\ GlyphInfo.missing info = true /\
      GlyphInfo.empty info = true.
Proof.
  intros Hnone Hlack.
  unfold FontAtlas.prefabLatin, FontAtlas.getOrCreateAtlas. rewrite Hnone.
  set (key := FontAtlas.atlasKey _ _) in *.
  set (atlas := VariantAtlas.new _ _ _ _).
  set (fa1 := FontAtlas.setWorld fa _ _ _).
  destruct (prefabAll_lacking (FontAtlas.config fa1)
              (FontAtlas.selectGenSize (FontAtlas.config fa) fontSize)
              fontBytes axes LATIN_CODEPOINTS atlas
              (FontAtlas.textureFactory fa1) (FontAtlas.msdf fa1))
    as (a1 & f1 & Ep & Hall & Hinv).
  { exact Hlack. }
  { intros cp loc. unfold VariantAtlas.getGlyph. simpl.
    rewrite lookup_empty. case_bool_decide; discriminate. }
  rewrite Ep.
  pose proof (flushDirtyPages_getGlyph (F := F)) as Hfl.
  destruct (VariantAtlas.flushDirtyPages a1 f1) as [a2 f2] eqn:Ef.
  eexists. split; [reflexivity|]. split; [reflexivity|].
  intros cp fontBuffer axes' Hcp.
  unfold FontAtlas.getGlyph, FontAtlas.getOrCreateAtlas. simpl.
  fold key. rewrite mapGet_mapSet_eq.
  specialize (Hfl cp a1 f1). rewrite Ef in Hfl. simpl in Hfl. rewrite Hfl.
  destruct (Hall cp Hcp) as [loc Hloc]. rewrite Hloc. simpl.
  destruct (Hinv cp loc Hloc) as [Hm He]. auto.
Qed.

(** ** floatToRGBA *)

(** The pixel loop: four stores per pixel. *)
Lemma fold_set4_spec (a b c d : Z -> Z) (n : nat) (buf : Uint8Array) :
  let step := fun rgba i =>
    Uint8Array_set
      (Uint8Array_set
         (Uint8Array_set (Uint8Array_set rgba (i * 4 + 0) (a i)) (i * 4 + 1) (b i))
         (i * 4 + 2) (c i))
      (i * 4 + 3) (d i) in
  let out := fold_left step (upto (Z.of_nat n)) buf in
  length out = length buf /\
  forall i k, 0 <= k < 4 ->
    Uint8Array_get out (i * 4 + k) =
    if (0 <=? i) && (i <? Z.of_nat n) && (i * 4 + k <? Z.of_nat (length buf))
    then (if k =? 0 then a i else if k =? 1 then b i else if k =? 2 then c i else d i)
    else Uint8Array_get buf (i * 4 + k).
Proof.
  induction n as [|n [IHl IHg]]; simpl.
  - split; [reflexivity|]. intros i k Hk. zcases.
  - rewrite upto_S, fold_left_app. cbn [fold_left].
    split.
    + rewrite !Uint8Array_set_length. exact IHl.
    + intros i k Hk. rewrite !Uint8Array_get_set, !Uint8Array_set_length, IHl, (IHg i k Hk).
      zcases; f_equal; lia.
Qed.

Lemma fold_set4_upto (a b c d : Z -> Z) (m : Z) (buf : Uint8Array) :
  0 <= m ->
  let step := fun rgba i =>
    Uint8Array_set
      (Uint8Array_set
         (Uint8Array_set (Uint8Array_set rgba (i * 4 + 0) (a i)) (i * 4 + 1) (b i))
         (i * 4 + 2) (c i))
      (i * 4 + 3) (d i) in
  let out := fold_left step (upto m) buf in
  length out = length buf /\
  forall i k, 0 <= k < 4 ->
    Uint8Array_get out (i * 4 + k) =
    if (0 <=? i) && (i <? m) && (i * 4 + k <? Z.of_nat (length buf))
    then (if k =? 0 then a i else if k =? 1 then b i else if k =? 2 then c i else d i)
    else Uint8Array_get buf (i * 4 + k).
Proof.
  intros Hm. rewrite <- (Z2Nat.id m) by lia. apply fold_set4_spec.
Qed.

Lemma toByte_range v : 0 <= toByte v <= 255.
Proof. unfold toByte. destruct v; lia. Qed.

Lemma floatToRGBA_get (pixels : Float32Array) (w h : Z) :
  let four := negb (w * h =? 0) && (Z.of_nat (length pixels) =? 4 * (w * h)) in
  length (FontAtlas.floatToRGBA pixels w h) = Z.to_nat (w * h * 4) /\
  forall i k, 0 <= i < w * h -> 0 <= k < 4 ->
    Uint8Array_get (FontAtlas.floatToRGBA pixels w h) (i * 4 + k) =
    if four then toByte (pixels !! Z.to_nat (i * 4 + k))
    else if k =? 3 then 255 else toByte (pixels !! Z.to_nat (i * 3 + k)).
Proof.
  intros four. unfold FontAtlas.floatToRGBA. fold four.
  destruct (Z.le_gt_cases (w * h) 0) as [Hn|Hn].
  { rewrite upto_nonpos by lia. simpl. split; [|intros; lia].
    unfold Uint8Array_new. rewrite repeat_length. reflexivity. }
  destruct four; cbv iota.
  - destruct (fold_set4_upto
                (fun i => toByte (pixels !! Z.to_nat (i * 4 + 0)))
                (fun i => toByte (pixels !! Z.to_nat (i * 4 + 1)))
                (fun i => toByte (pixels !! Z.to_nat (i * 4 + 2)))
                (fun i => toByte (pixels !! Z.to_nat (i * 4 + 3)))
                (w * h) (Uint8Array_new (w * h * 4)) ltac:(lia)) as [Hl Hg].
    split.
    + rewrite Hl. unfold Uint8Array_new. apply repeat_length.
    + intros i k Hi Hk. rewrite (Hg i k Hk).
      unfold Uint8Array_new at 1. rewrite repeat_length.
      replace ((0 <=? i) && (i <? w * h)
               && (i * 4 + k <? Z.of_nat (Z.to_nat (w * h * 4)))) with true
        by (symmetry; rewrite !andb_true_iff, Z.leb_le, !Z.ltb_lt; lia).
      assert (Hcase : k = 0 \/ k = 1 \/ k = 2 \/ k = 3) by lia.
      destruct Hcase as [-> | [-> | [-> | ->]]]; reflexivity.
  - destruct (fold_set4_upto
                (fun i => toByte (pixels !! Z.to_nat (i * 3 + 0)))
                (fun i => toByte (pixels !! Z.to_nat (i * 3 + 1)))
                (fun i => toByte (pixels !! Z.to_nat (i * 3 + 2)))
                (fun _ => 255)
                (w * h) (Uint8Array_new (w * h * 4)) ltac:(lia)) as [Hl Hg].
    split.
    + rewrite Hl. unfold Uint8Array_new. apply repeat_length.
    + intros i k Hi Hk. rewrite (Hg i k Hk).
      unfold Uint8Array_new at 1. rewrite repeat_length.
      replace ((0 <=? i) && (i <? w * h)
               && (i * 4 + k <? Z.of_nat (Z.to_nat (w * h * 4)))) with true
        by (symmetry; rewrite !andb_true_iff, Z.leb_le, !Z.ltb_lt; lia).
      assert (Hcase : k = 0 \/ k = 1 \/ k = 2 \/ k = 3) by lia.
      destruct Hcase as [-> | [-> | [-> | ->]]]; reflexivity.
Qed.

(** X19 (FontAtlas.floatToRGBA): the conversion returns [4 * width * height]
    bytes.  With four floats per pixel every byte is the rounded, clamped
    float at the same index; otherwise the input is read three floats per
    pixel and every fourth byte (alpha) is 255.  Either way every byte is
    between 0 and 255. *)
Theorem floatToRGBA_bytes (pixels : Float32Array) (width height : Z) :
  0 < width * height ->
  let out := FontAtlas.floatToRGBA pixels width height in
  length out = Z.to_nat (4 * (width * height)) /\
  Forall (fun b => 0 <= b <= 255) out /\
  (Z.of_nat (length pixels) = 4 * (width * height) ->
     out = (fun q => toByte (Some q)) <$> pixels) /\
  (Z.of_nat (length pixels) <> 4 * (width * height) ->
     forall i, 0 <= i < width * height ->
       Uint8Array_get out (i * 4 + 3) = 255 /\
       forall k, 0 <= k < 3 ->
         Uint8Array_get out (i * 4 + k) = toByte (pixels !! Z.to_nat (i * 3 + k))).
Proof.
  intros Hpos out. subst out.
  destruct (floatToRGBA_get pixels width height) as [Hl Hg].
  set (out := FontAtlas.floatToRGBA pixels width height) in *.
  assert (Hget : forall j b, out !! j = Some b ->
            b = Uint8Array_get out (Z.of_nat j / 4 * 4 + Z.of_nat j mod 4) /\
            0 <= Z.of_nat j / 4 < width * height /\ 0 <= Z.of_nat j mod 4 < 4).
  { intros j b Hj. pose proof (lookup_lt_Some _ _ _ Hj) as Hlt. rewrite Hl in Hlt.
    pose proof (Z.div_mod (Z.of_nat j) 4 ltac:(lia)) as Hdm.
    pose proof (Z.mod_pos_bound (Z.of_nat j) 4 ltac:(lia)) as Hm.
    assert (Hd : 0 <= Z.of_nat j / 4 < width * height).
    { split; [apply Z.div_pos; lia|]. apply Z.div_lt_upper_bound; lia. }
    split; [|split; assumption].
    replace (Z.of_nat j / 4 * 4 + Z.of_nat j mod 4) with (Z.of_nat j) by lia.
    unfold Uint8Array_get. replace (Z.of_nat j <? 0) with false by lia.
    rewrite Nat2Z.id, Hj. reflexivity. }
  split; [rewrite Hl; f_equal; lia|]. split; [|split].
  - apply Forall_lookup. intros j b Hj.
    destruct (Hget j b Hj) as (-> & Hd & Hm). rewrite (Hg _ _ Hd Hm).
    destruct (negb _ && _); [apply toByte_range|].
    destruct (_ =? 3); [lia | apply toByte_range].
  - intros Hlen. apply list_eq. intros j.
    rewrite list_lookup_fmap.
    destruct (out !! j) as [b|] eqn:Hj.
    + destruct (Hget j b Hj) as (-> & Hd & Hm). rewrite (Hg _ _ Hd Hm).
      replace (negb (width * height =? 0)
               && (Z.of_nat (length pixels) =? 4 * (width * height))) with true
        by (symmetry; rewrite andb_true_iff, negb_true_iff, Z.eqb_neq, Z.eqb_eq; lia).
      replace (Z.to_nat (Z.of_nat j / 4 * 4 + Z.of_nat j mod 4)) with j
        by (pose proof (Z.div_mod (Z.of_nat j) 4 ltac:(lia)); lia).
      apply lookup_lt_Some in Hj. rewrite Hl in Hj.
      destruct (pixels !! j) as [q|] eqn:Hq; [reflexivity|].
      apply lookup_ge_None in Hq. lia.
    + apply lookup_ge_None in Hj. rewrite Hl in Hj.
      rewrite (proj2 (lookup_ge_None pixels j)) by lia. reflexivity.
  - intros Hlen i Hi.
    assert (Hfour : negb (width * height =? 0)
                    && (Z.of_nat (length pixels) =? 4 * (width * height)) = false).
    { apply andb_false_iff. right. apply Z.eqb_neq. exact Hlen. }
    split.
    + rewrite (Hg i 3 Hi ltac:(lia)), Hfour. reflexivity.
    + intros k Hk. rewrite (Hg i k Hi ltac:(lia)), Hfour.
      replace (k =? 3) with false by lia. reflexivity.
Qed.

(** ** dispose *)

(** X20 (FontAtlas.dispose, getStatus, hasPendingWork, processBatch,
    getGlyph): after [dispose] the status counts are all zero and there is
    no pending work; a drain that was already scheduled does nothing and
    calls nothing back; and a request for any glyph misses again. *)
Theorem dispose_resets {T F G : Type} `{TextureFactory T F} `{MSDFGenerator G}
    (fa : FontAtlas.t T F G) (request : GlyphRequest.t) :
  FontAtlas.getStatus (FontAtlas.dispose fa) = AtlasStatus.mk 0 0 0 0 /\
  FontAtlas.hasPendingWork (FontAtlas.dispose fa) = false /\
  FontAtlas.processBatch (FontAtlas.dispose fa) = (Ok tt, FontAtlas.dispose fa) /\
  FontAtlas.readyCalls (FontAtlas.dispose fa) = FontAtlas.readyCalls fa /\
  GlyphInfo.cached (FontAtlas.getGlyph request (FontAtlas.dispose fa)).1 = false.
Proof.
  repeat split.
  unfold FontAtlas.getGlyph, FontAtlas.getOrCreateAtlas. simpl.
  unfold VariantAtlas.getGlyph at 1. simpl.
  rewrite bool_decide_eq_false_2 by apply not_elem_of_empty. rewrite lookup_empty.
  destruct (VariantAtlas.reserveGlyph _ _ _) as [[loc a1] f1]. reflexivity.
Qed.

(** ** The calls made on the texture backend *)

Section Backend.
Context {G : Type} `{MSDFGenerator G}.

Lemma destroyAll_log (pages : list (Page.t nat)) : forall (f : CountingBackend),
  destroyed (VariantAtlas.destroyAll pages f) = destroyed f ++ (Page.texture <$> pages) /\
  created (VariantAtlas.destroyAll pages f) = created f /\
  uploads (VariantAtlas.destroyAll pages f) = uploads f.
Proof.
  unfold VariantAtlas.destroyAll.
  induction pages as [|p pages IH]; intros f; cbn [fold_left].
  - rewrite app_nil_r. auto.
  - destruct (IH (Page.destroyPage p f)) as (Hd & Hc & Hu).
    rewrite Hd, Hc, Hu. split; [|split; reflexivity].
    change (destroyed (Page.destroyPage p f)) with (destroyed f ++ [Page.texture p]).
    rewrite fmap_cons, <- app_assoc. reflexivity.
Qed.

Lemma destroyAtlas_log (va : VariantAtlas.t nat) (f : CountingBackend) :
  destroyed (VariantAtlas.destroyAtlas va f).2 = destroyed f ++ texturesOf va /\
  created (VariantAtlas.destroyAtlas va f).2 = created f /\
  uploads (VariantAtlas.destroyAtlas va f).2 = uploads f.
Proof.
  unfold VariantAtlas.destroyAtlas, texturesOf, pagesOf. cbn [snd].
  rewrite fmap_app.
  destruct (VariantAtlas.latinPage va) as [p|].
  - destruct (destroyAll_log (VariantAtlas.mixedPages va) (Page.destroyPage p f))
      as (Hd & Hc & Hu).
    rewrite Hd, Hc, Hu. split; [|split; reflexivity].
    change (destroyed (Page.destroyPage p f)) with (destroyed f ++ [Page.texture p]).
    rewrite <- app_assoc. reflexivity.
  - apply destroyAll_log.
Qed.

End Backend.

(** X21 (FontAtlas.dispose, VariantAtlas.destroy, Page.destroy): on a
    backend that logs its calls, [dispose] destroys the texture of every
    page of every atlas exactly once, atlas by atlas with the Latin page
    first, and neither creates nor uploads anything. *)
Theorem dispose_destroys_every_texture {G : Type} `{MSDFGenerator G}
    (fa : FontAtlas.t nat CountingBackend G) :
  let f := FontAtlas.textureFactory fa in
  let f' := FontAtlas.textureFactory (FontAtlas.dispose fa) in
  destroyed f' = destroyed f ++ concat ((fun a => texturesOf a.2) <$> FontAtlas.atlases fa) /\
  created f' = created f /\
  uploads f' = uploads f.
Proof.
  unfold FontAtlas.dispose. cbn [FontAtlas.textureFactory].
  generalize (FontAtlas.textureFactory fa).
  induction (FontAtlas.atlases fa) as [|[k va] ats IH]; intros f;
    cbn [fold_left fmap list_fmap concat snd].
  - rewrite app_nil_r. auto.
  - destruct (IH (VariantAtlas.destroyAtlas va f).2) as (Hd & Hc & Hu).
    destruct (destroyAtlas_log va f) as (Hd1 & Hc1 & Hu1).
    rewrite Hd, Hc, Hu, Hd1, Hc1, Hu1. rewrite <- app_assoc. auto.
Qed.

Section Steps.
Context {T F : Type} `{TextureFactory T F}.

Lemma createMixedPage_steps (va : VariantAtlas.t T) (f : F) :
  atlasStep (va, f) ((VariantAtlas.createMixedPage va f).1.2,
                     (VariantAtlas.createMixedPage va f).2).
Proof.
  unfold VariantAtlas.createMixedPage.
  pose proof (StepMixed va f
    (if Z.of_nat (length (VariantAtlas.mixedPages va)) >=? VariantAtlas.maxMixedPages va
     then S (VariantAtlas.warnings va) else VariantAtlas.warnings va)) as Hs.
  destruct (Page.new _ _ f) as [page f']. exact Hs.
Qed.

Lemma getOrCreatePage_steps isLatin gh (va : VariantAtlas.t T) (f : F) :
  rtc atlasStep (va, f)
    ((VariantAtlas.getOrCreatePage isLatin gh va f).1.2,
     (VariantAtlas.getOrCreatePage isLatin gh va f).2).
Proof.
  unfold VariantAtlas.getOrCreatePage. destruct isLatin.
  - destruct (VariantAtlas.latinPage va) as [p|] eqn:El; [apply rtc_refl|].
    pose proof (StepLatin va f El) as Hs.
    destruct (Page.new _ _ f) as [page f']. apply rtc_once. exact Hs.
  - destruct (findFirst _ _) as [[i p]|]; [apply rtc_refl|].
    apply rtc_once, createMixedPage_steps.
Qed.

(** The two placement attempts that [fillGlyph] and [addGlyph] share. *)
Lemma place_steps isLatin pixels w h (va : VariantAtlas.t T) (f : F) :
  let '(ref, page, va1, f1) := VariantAtlas.getOrCreatePage isLatin (Some h) va f in
  let va2 := VariantAtlas.setPage ref (Page.tryAdd pixels w h page).2 va1 in
  rtc atlasStep (va, f) (va2, f1) /\
  let '(newRef, newPage, va3, f3) := VariantAtlas.createMixedPage va2 f1 in
  rtc atlasStep (va, f)
    (VariantAtlas.setPage newRef (Page.tryAdd pixels w h newPage).2 va3, f3).
Proof.
  pose proof (getOrCreatePage_steps isLatin (Some h) va f) as H1.
  destruct (VariantAtlas.getOrCreatePage isLatin (Some h) va f)
    as [[[ref page] va1] f1] eqn:Eg.
  apply getOrCreatePage_getPage in Eg. simpl in H1.
  assert (H2 : rtc atlasStep (va, f)
                 (VariantAtlas.setPage ref (Page.tryAdd pixels w h page).2 va1, f1)).
  { eapply rtc_r; [exact H1|]. apply StepPack. exact Eg. }
  split; [exact H2|].
  pose proof (createMixedPage_steps
                (VariantAtlas.setPage ref (Page.tryAdd pixels w h page).2 va1) f1) as H3.
  destruct (VariantAtlas.createMixedPage _ f1) as [[[newRef newPage] va3] f3] eqn:Ec.
  apply createMixedPage_getPage in Ec. simpl in H3.
  eapply rtc_r; [eapply rtc_r; [exact H2 | exact H3]|].
  apply StepPack. exact Ec.
Qed.

(** Every operation but the flush is a sequence of steps. *)
Lemma applyOp_steps (s : VariantAtlas.t T * F) op :
  op <> OpFlush -> rtc atlasStep s (applyOp s op).
Proof.
  destruct s as [va f]. intros Hop.
  destruct op as [c|c px m|c px m|c mi|]; cbn [applyOp fst snd]; [| | | |congruence].
  - unfold VariantAtlas.reserveGlyph.
    pose proof (getOrCreatePage_steps (isLatinChar c) (VariantAtlas.genSize va) va f) as H1.
    destruct (VariantAtlas.getOrCreatePage _ _ va f) as [[[ref page] va1] f1].
    simpl in H1. eapply rtc_r; [exact H1 | apply StepIndex].
  - unfold VariantAtlas.fillGlyph.
    pose proof (place_steps (isLatinChar c) px (GlyphMetrics.width m)
                  (GlyphMetrics.height m) va f) as Hp.
    destruct (VariantAtlas.getOrCreatePage _ _ va f) as [[[ref page] va1] f1].
    destruct Hp as [H1 H2].
    destruct (Page.tryAdd px _ _ page) as [[pos|] page']; simpl in *.
    { eapply rtc_r; [exact H1 | apply StepIndex]. }
    destruct (isLatinChar c); [exact H1|].
    destruct (VariantAtlas.createMixedPage _ f1) as [[[newRef newPage] va3] f3].
    destruct (Page.tryAdd px _ _ newPage) as [[np|] newPage']; simpl in *.
    + eapply rtc_r; [exact H2 | apply StepIndex].
    + exact H2.
  - unfold VariantAtlas.addGlyph.
    pose proof (place_steps (isLatinChar c) px (GlyphMetrics.width m)
                  (GlyphMetrics.height m) va f) as Hp.
    destruct (VariantAtlas.getOrCreatePage _ _ va f) as [[[ref page] va1] f1].
    destruct Hp as [H1 H2].
    destruct (Page.tryAdd px _ _ page) as [[pos|] page']; simpl in *.
    { eapply rtc_r; [exact H1 | apply StepIndex]. }
    destruct (isLatinChar c); [exact H1|].
    destruct (VariantAtlas.createMixedPage _ f1) as [[[newRef newPage] va3] f3].
    destruct (Page.tryAdd px _ _ newPage) as [[np|] newPage']; simpl in *.
    + eapply rtc_r; [exact H2 | apply StepIndex].
    + exact H2.
  - apply rtc_once. apply StepIndex.
Qed.

End Steps.

Lemma OpFlush_or_not (op : AtlasOp) : op = OpFlush \/ op <> OpFlush.
Proof. destruct op; auto; right; discriminate. Qed.

Section Counting.

Lemma setPage_texturesOf ref (p page : Page.t nat) (va : VariantAtlas.t nat) :
  VariantAtlas.getPage ref va = Some page ->
  Page.texture p = Page.texture page ->
  texturesOf (VariantAtlas.setPage ref p va) = texturesOf va.
Proof.
  unfold texturesOf, pagesOf. destruct ref as [|i]; simpl.
  - intros -> Ht. rewrite !fmap_app. simpl. rewrite Ht. reflexivity.
  - intros Hi Ht. rewrite !fmap_app. f_equal.
    rewrite list_fmap_insert. apply list_insert_id.
    rewrite list_lookup_fmap, Hi. simpl. rewrite Ht. reflexivity.
Qed.

Lemma step_uploads (s s' : VariantAtlas.t nat * CountingBackend) :
  atlasStep s s' -> uploads s'.2 = uploads s.2 /\ destroyed s'.2 = destroyed s.2.
Proof. intros Hs. destruct Hs; simpl; auto. Qed.

Lemma steps_uploads (s s' : VariantAtlas.t nat * CountingBackend) :
  rtc atlasStep s s' -> uploads s'.2 = uploads s.2 /\ destroyed s'.2 = destroyed s.2.
Proof.
  induction 1 as [|s1 s2 s3 H12 _ [IHu IHd]]; [auto|].
  apply step_uploads in H12 as [Hu Hd]. split; congruence.
Qed.

Lemma flush_uploads (p : Page.t nat) (f : CountingBackend) :
  uploads (Page.flush p f).2
  = uploads f ++ (if Page.dirty p then [Page.texture p] else []) /\
  destroyed (Page.flush p f).2 = destroyed f /\
  created (Page.flush p f).2 = created f /\
  Page.texture (Page.flush p f).1 = Page.texture p.
Proof.
  unfold Page.flush. destruct (Page.dirty p); simpl.
  - auto.
  - rewrite app_nil_r. auto.
Qed.

Lemma flushAll_uploads (pages : list (Page.t nat)) : forall (f : CountingBackend),
  uploads (VariantAtlas.flushAll pages f).2
  = uploads f ++ (Page.texture <$> List.filter Page.dirty pages) /\
  destroyed (VariantAtlas.flushAll pages f).2 = destroyed f /\
  created (VariantAtlas.flushAll pages f).2 = created f /\
  Page.texture <$> (VariantAtlas.flushAll pages f).1 = Page.texture <$> pages.
Proof.
  induction pages as [|p pages IH]; intros f; cbn [VariantAtlas.flushAll List.filter].
  - simpl. rewrite app_nil_r. auto.
  - destruct (flush_uploads p f) as (Hu & Hd & Hc & Ht).
    destruct (Page.flush p f) as [p' f1]. cbn [fst snd] in Hu, Hd, Hc, Ht.
    destruct (IH f1) as (Hu2 & Hd2 & Hc2 & Ht2).
    destruct (VariantAtlas.flushAll pages f1) as [rest f2]. cbn [fst snd] in *.
    rewrite Hu2, Hd2, Hc2, Hu, Hd, Hc, !fmap_cons, Ht2, Ht.
    split; [|auto].
    destruct (Page.dirty p); [rewrite fmap_cons|]; rewrite <- app_assoc; reflexivity.
Qed.

Lemma flushDirtyPages_uploads (va : VariantAtlas.t nat) (f : CountingBackend) :
  uploads (VariantAtlas.flushDirtyPages va f).2
  = uploads f ++ (Page.texture <$> List.filter Page.dirty (pagesOf va)) /\
  destroyed (VariantAtlas.flushDirtyPages va f).2 = destroyed f /\
  created (VariantAtlas.flushDirtyPages va f).2 = created f /\
  texturesOf (VariantAtlas.flushDirtyPages va f).1 = texturesOf va.
Proof.
  unfold VariantAtlas.flushDirtyPages, texturesOf, pagesOf.
  destruct (VariantAtlas.latinPage va) as [p|].
  - destruct (flush_uploads p f) as (Hu & Hd & Hc & Ht).
    destruct (Page.flush p f) as [p' f1]. cbn [fst snd] in Hu, Hd, Hc, Ht.
    destruct (flushAll_uploads (VariantAtlas.mixedPages va) f1) as (Hu2 & Hd2 & Hc2 & Ht2).
    destruct (VariantAtlas.flushAll _ f1) as [mp f2].
    cbn [fst snd VariantAtlas.latinPage VariantAtlas.mixedPages VariantAtlas.setPages] in *.
    change (option_list (Some p)) with [p]. change (option_list (Some p')) with [p'].
    cbn [app List.filter].
    rewrite Hu2, Hd2, Hc2, Hu, Hd, Hc, !fmap_cons, Ht2, Ht.
    split; [|auto].
    destruct (Page.dirty p); [rewrite fmap_cons|]; rewrite <- app_assoc; reflexivity.
  - destruct (flushAll_uploads (VariantAtlas.mixedPages va) f) as (Hu2 & Hd2 & Hc2 & Ht2).
    destruct (VariantAtlas.flushAll _ f) as [mp f2].
    cbn [fst snd VariantAtlas.latinPage VariantAtlas.mixedPages VariantAtlas.setPages] in *.
    change (@option_list (Page.t nat) None) with (@nil (Page.t nat)).
    cbn [app]. auto.
Qed.

(** The textures of the pages are the textures created since the backend
    had created [c0] of them. *)
Lemma step_textures c0 (s s' : VariantAtlas.t nat * CountingBackend) :
  atlasStep s s' ->
  texturesOf s.1 ≡ₚ seq c0 (created s.2 - c0) -> (c0 <= created s.2)%nat ->
  texturesOf s'.1 ≡ₚ seq c0 (created s'.2 - c0) /\ (c0 <= created s'.2)%nat.
Proof.
  intros Hs. destruct Hs as [va f El|va f w|va f ref page px w h Hg|va f idx pend];
    simpl; intros Hp Hc.
  - split; [|lia]. replace (S (created f) - c0)%nat with (S (created f - c0)) by lia.
    rewrite seq_S. replace (c0 + (created f - c0))%nat with (created f) by lia.
    unfold texturesOf, pagesOf in *. simpl. rewrite El in Hp. simpl in Hp.
    rewrite Hp. apply Permutation_cons_append.
  - split; [|lia]. replace (S (created f) - c0)%nat with (S (created f - c0)) by lia.
    rewrite seq_S. replace (c0 + (created f - c0))%nat with (created f) by lia.
    unfold texturesOf, pagesOf in *. simpl. rewrite app_assoc, fmap_app. simpl.
    rewrite Hp. reflexivity.
  - split; [|exact Hc]. erewrite setPage_texturesOf; [exact Hp | exact Hg |].
    apply tryAdd_fields.
  - split; assumption.
Qed.

Lemma applyOp_textures c0 (s : VariantAtlas.t nat * CountingBackend) op :
  texturesOf s.1 ≡ₚ seq c0 (created s.2 - c0) -> (c0 <= created s.2)%nat ->
  texturesOf (applyOp s op).1 ≡ₚ seq c0 (created (applyOp s op).2 - c0) /\
  (c0 <= created (applyOp s op).2)%nat.
Proof.
  intros Hp Hc. destruct (OpFlush_or_not op) as [->|Hop].
  - cbn [applyOp].
    destruct (flushDirtyPages_uploads s.1 s.2) as (_ & _ & Hcr & Ht).
    rewrite Hcr, Ht. auto.
  - pose proof (applyOp_steps s op Hop) as Hsteps.
    revert Hp Hc. induction Hsteps as [|s1 s2 s3 H12 _ IH]; [auto|].
    intros Hp Hc. destruct (step_textures c0 s1 s2 H12 Hp Hc). auto.
Qed.

End Counting.

(** X22 (VariantAtlas: the five operations, Page.flush; TextureFactory.
    update): on a backend that logs its calls, pixels are uploaded by
    [flushDirtyPages] only: it uploads every dirty page once, the Latin
    page first, while reserving, filling, adding and marking upload
    nothing.  No operation destroys a texture. *)
Theorem uploads_happen_in_flush_only (s : VariantAtlas.t nat * CountingBackend)
    (op : AtlasOp) :
  uploads (applyOp s op).2
  = uploads s.2 ++
    match op with
    | OpFlush => Page.texture <$> List.filter Page.dirty (pagesOf s.1)
    | _ => []
    end /\
  destroyed (applyOp s op).2 = destroyed s.2.
Proof.
  destruct (OpFlush_or_not op) as [->|Hop].
  - cbn [applyOp]. destruct (flushDirtyPages_uploads s.1 s.2) as (Hu & Hd & _). auto.
  - destruct (steps_uploads _ _ (applyOp_steps s op Hop)) as [Hu Hd].
    rewrite Hu, Hd. destruct op; try rewrite app_nil_r; auto. congruence.
Qed.

(** X23 (VariantAtlas.getOrCreatePage, createMixedPage, Page constructor;
    TextureFactory.create): on a backend that numbers the textures it
    creates, the pages of an atlas built from a new one hold exactly the
    textures created for it, each one on one page: no texture is shared by
    two pages and none is created without becoming a page. *)
Theorem every_page_owns_one_texture
    (variantId : string) (genSize : option Z) (pageSize maxMixedPages : Z)
    (f : CountingBackend) (ops : list AtlasOp) :
  let s := applyOps ops (VariantAtlas.new variantId genSize pageSize maxMixedPages, f) in
  texturesOf s.1 ≡ₚ seq (created f) (created s.2 - created f) /\
  NoDup (texturesOf s.1) /\
  Z.of_nat (created s.2) = Z.of_nat (created f) + VariantAtlas.getPageCount s.1.
Proof.
  intros s.
  assert (Hgen : forall (s0 : VariantAtlas.t nat * CountingBackend),
            texturesOf s0.1 ≡ₚ seq (created f) (created s0.2 - created f) ->
            (created f <= created s0.2)%nat ->
            texturesOf (applyOps ops s0).1
              ≡ₚ seq (created f) (created (applyOps ops s0).2 - created f) /\
            (created f <= created (applyOps ops s0).2)%nat).
  { unfold applyOps. induction ops as [|op ops IH]; intros s0 Hp Hc; simpl; [auto|].
    destruct (applyOp_textures _ s0 op Hp Hc). apply IH; assumption. }
  destruct (Hgen (VariantAtlas.new variantId genSize pageSize maxMixedPages, f))
    as [Hp Hc].
  { simpl. rewrite Nat.sub_diag. reflexivity. }
  { simpl. lia. }
  fold s in Hp, Hc. split; [exact Hp|]. split.
  - rewrite Hp. apply NoDup_seq.
  - apply Permutation_length in Hp. rewrite length_seq in Hp.
    unfold texturesOf in Hp. rewrite length_fmap in Hp.
    unfold VariantAtlas.getPageCount. unfold pagesOf in Hp. rewrite length_app in Hp.
    destruct (VariantAtlas.latinPage s.1); simpl in Hp; lia.
Qed.

(** ** Invariants of every sequence of calls on a font atlas *)

Lemma mapSet_Forall {V} (P : V -> Prop) k v (m : list (string * V)) :
  Forall (fun a => P a.2) m -> P v -> Forall (fun a => P a.2) (mapSet k v m).
Proof.
  intros Hm Hv. induction Hm as [|[k' v'] m Hh Ht IH]; simpl.
  - constructor; [exact Hv | constructor].
  - destruct (String.eqb k k'); constructor; auto.
Qed.

Lemma mapGet_Forall {V} (P : V -> Prop) k v (m : list (string * V)) :
  Forall (fun a => P a.2) m -> mapGet k m = Some v -> P v.
Proof.
  intros Hm. induction Hm as [|[k' v'] m Hh Ht IH]; simpl; [discriminate|].
  destruct (String.eqb k k'); [intros [= <-]; exact Hh | exact IH].
Qed.

Section Reachable.
Context {T F G : Type} `{TextureFactory T F} `{MSDFGenerator G}.
Variable cfg : AtlasConfig.t.
Variable I : VariantAtlas.t T -> Prop.
Variable fits : GlyphMetrics.t -> Prop.
Variable okSize : option Z -> Prop.
Hypothesis I_new : forall variantId genSize,
  I (VariantAtlas.new variantId genSize (AtlasConfig.pageSize cfg)
       (AtlasConfig.maxMixedPages cfg)).
Hypothesis I_reserve : forall cp va (f : F),
  I va -> I (VariantAtlas.reserveGlyph cp va f).1.2.
Hypothesis I_fill : forall cp pixels metrics va (f : F),
  I va -> fits metrics -> I (VariantAtlas.fillGlyph cp pixels metrics va f).1.2.
Hypothesis I_add : forall cp pixels metrics va (f : F),
  I va -> fits metrics -> I (VariantAtlas.addGlyph cp pixels metrics va f).1.2.
Hypothesis I_mark : forall cp missing va, I va -> I (VariantAtlas.markEmpty cp missing va).
Hypothesis I_flush : forall va (f : F), I va -> I (VariantAtlas.flushDirtyPages va f).1.
Hypothesis select_ok : forall renderSize, okSize (FontAtlas.selectGenSize cfg renderSize).
Hypothesis gen_fits : forall cp size font axes (g g' : G) gl,
  okSize size ->
  FontAtlas.generateGlyph cfg cp size font axes g = (Some gl, g') ->
  fits (FontAtlas.toMetrics (MSDFGlyph.metrics gl)).

Lemma getOrCreateAtlas_all variantId genSize (fa : FontAtlas.t T F G) key atlas fa1 :
  atlasesAll cfg I okSize fa ->
  FontAtlas.getOrCreateAtlas variantId genSize fa = (key, atlas, fa1) ->
  I atlas /\ atlasesAll cfg I okSize fa1.
Proof.
  intros (Hc & Ha & Hq). unfold FontAtlas.getOrCreateAtlas.
  destruct (mapGet _ (FontAtlas.atlases fa)) as [va|] eqn:Ek.
  - intros [= <- <- <-]. split; [|repeat split; assumption].
    eapply (mapGet_Forall I), Ek. exact Ha.
  - intros [= <- <- <-]. rewrite Hc. split; [apply I_new|].
    split; [exact Hc|]. split; [|exact Hq]. simpl.
    apply (mapSet_Forall I); [exact Ha | apply I_new].
Qed.

Lemma all_store (fa : FontAtlas.t T F G) g f key va :
  atlasesAll cfg I okSize fa -> I va ->
  atlasesAll cfg I okSize
    (FontAtlas.setWorld fa g f (mapSet key va (FontAtlas.atlases fa))).
Proof.
  intros (Hc & Ha & Hq) Hva. split; [exact Hc|]. split; [|exact Hq].
  apply (mapSet_Forall I); assumption.
Qed.

Lemma getGlyph_all request (fa : FontAtlas.t T F G) :
  atlasesAll cfg I okSize fa -> atlasesAll cfg I okSize (FontAtlas.getGlyph request fa).2.
Proof.
  intros Hs. pose proof Hs as (Hc & _). unfold FontAtlas.getGlyph.
  destruct (FontAtlas.getOrCreateAtlas _ _ _) as [[key atlas] fa1] eqn:Ea.
  apply (getOrCreateAtlas_all _ _ _ _ _ _ Hs) in Ea as [Hat Hs1].
  destruct (VariantAtlas.getGlyph _ atlas) as [loc|]; [exact Hs1|].
  pose proof (I_reserve (GlyphRequest.codePoint request) atlas
                (FontAtlas.textureFactory fa1) Hat) as Hr.
  destruct (VariantAtlas.reserveGlyph _ atlas _) as [[loc a1] f1]. simpl in Hr.
  destruct (all_store fa1 (FontAtlas.msdf fa1) f1 key a1 Hs1 Hr) as (Hc2 & Ha2 & Hq2).
  split; [exact Hc2|]. split; [exact Ha2|]. simpl.
  apply Forall_app. split; [exact Hq2|]. constructor; [|constructor].
  simpl. rewrite Hc. apply select_ok.
Qed.

Lemma processPending_all pending (fa : FontAtlas.t T F G) :
  okSize (PendingGlyph.genSize pending) ->
  atlasesAll cfg I okSize fa ->
  atlasesAll cfg I okSize (FontAtlas.processPending pending fa).2.
Proof.
  intros Hsize Hs. unfold FontAtlas.processPending.
  destruct (FontAtlas.getOrCreateAtlas _ _ _) as [[key atlas] fa1] eqn:Ea.
  apply (getOrCreateAtlas_all _ _ _ _ _ _ Hs) in Ea as [Hat Hs1].
  pose proof Hs1 as (Hc1 & _).
  destruct (negb _).
  { apply all_store; [exact Hs1 | apply I_mark, Hat]. }
  destruct (FontAtlas.generateGlyph _ _ _ _ _ _) as [[gl|] g2] eqn:Eg.
  - rewrite Hc1 in Eg. apply (gen_fits _ _ _ _ _ _ _ Hsize) in Eg.
    pose proof (I_fill (PendingGlyph.codePoint pending)
      (FontAtlas.floatToRGBA (MSDFGlyph.pixels gl)
         (MSDFMetrics.width (MSDFGlyph.metrics gl))
         (MSDFMetrics.height (MSDFGlyph.metrics gl)))
      (FontAtlas.toMetrics (MSDFGlyph.metrics gl)) atlas
      (FontAtlas.textureFactory fa1) Hat Eg) as Hf.
    destruct (VariantAtlas.fillGlyph _ _ _ _ _) as [[r a1] f1]. simpl in *.
    apply all_store; assumption.
  - apply all_store; [exact Hs1 | apply I_mark, Hat].
Qed.

Lemma processAll_all batch : forall (fa : FontAtlas.t T F G),
  Forall (fun e => okSize (PendingGlyph.genSize e)) batch ->
  atlasesAll cfg I okSize fa ->
  atlasesAll cfg I okSize (FontAtlas.processAll batch fa).2.
Proof.
  induction batch as [|pending rest IH]; intros fa Hb Hs;
    cbn [FontAtlas.processAll]; [exact Hs|].
  apply Forall_cons in Hb as [Hp Hb].
  pose proof (processPending_all pending fa Hp Hs) as Hp'.
  destruct (FontAtlas.processPending pending fa) as [[[]|e] fa1]; simpl in *.
  - apply IH; assumption.
  - exact Hp'.
Qed.

Lemma flushAtlases_all (ats : list (string * VariantAtlas.t T)) : forall (f : F),
  Forall (fun a => I a.2) ats ->
  Forall (fun a => I a.2) (FontAtlas.flushAtlases ats f).1.
Proof.
  induction ats as [|[k va] ats IH]; intros f Ha; simpl; [constructor|].
  apply Forall_cons in Ha as [Hva Ha]. simpl in Hva.
  pose proof (I_flush va f Hva) as Hf.
  destruct (VariantAtlas.flushDirtyPages va f) as [a1 f1].
  specialize (IH f1 Ha). destruct (FontAtlas.flushAtlases ats f1) as [rest f2].
  simpl in *. constructor; assumption.
Qed.

Lemma processBatch_all (fa : FontAtlas.t T F G) :
  atlasesAll cfg I okSize fa -> atlasesAll cfg I okSize (FontAtlas.processBatch fa).2.
Proof.
  intros (Hc & Ha & Hq). unfold FontAtlas.processBatch.
  assert (Hs0 : atlasesAll cfg I okSize (FontAtlas.setQueue fa [] false)).
  { split; [exact Hc|]. split; [exact Ha | constructor]. }
  destruct (length (FontAtlas.pendingGlyphs fa) =? 0)%nat; [exact Hs0|].
  pose proof (processAll_all (FontAtlas.pendingGlyphs fa) _ Hq Hs0) as Hp.
  destruct (FontAtlas.processAll _ _) as [[[]|e] fa1]; simpl in *; [|exact Hp].
  destruct Hp as (Hc1 & Ha1 & Hq1).
  pose proof (flushAtlases_all (FontAtlas.atlases fa1)
                (FontAtlas.textureFactory fa1) Ha1) as Hfl.
  destruct (FontAtlas.flushAtlases _ _) as [ats f']. simpl in *.
  split; [exact Hc1|]. split; assumption.
Qed.

Lemma prefabOne_all genSize fontBuffer axes cp
    (atlas : VariantAtlas.t T) (f : F) (g : G) :
  okSize genSize -> I atlas ->
  I (FontAtlas.prefabOne cfg genSize fontBuffer axes cp (atlas, f, g)).2.1.1.
Proof.
  intros Hsize Hat. unfold FontAtlas.prefabOne.
  destruct (VariantAtlas.getGlyph cp atlas); [exact Hat|].
  destruct (negb _).
  { pose proof (I_reserve cp atlas f Hat) as Hr.
    destruct (VariantAtlas.reserveGlyph cp atlas f) as [[loc a1] f1]. simpl in *.
    apply I_mark, Hr. }
  destruct (FontAtlas.generateGlyph _ _ _ _ _ _) as [[gl|] g1] eqn:Eg.
  - apply (gen_fits _ _ _ _ _ _ _ Hsize) in Eg.
    pose proof (I_add cp
      (FontAtlas.floatToRGBA (MSDFGlyph.pixels gl)
         (MSDFMetrics.width (MSDFGlyph.metrics gl))
         (MSDFMetrics.height (MSDFGlyph.metrics gl)))
      (FontAtlas.toMetrics (MSDFGlyph.metrics gl)) atlas f Hat Eg) as Ha.
    destruct (VariantAtlas.addGlyph _ _ _ _ _) as [[r a1] f1]. exact Ha.
  - pose proof (I_reserve cp atlas f Hat) as Hr.
    destruct (VariantAtlas.reserveGlyph cp atlas f) as [[loc a1] f1]. simpl in *.
    apply I_mark, Hr.
Qed.

Lemma prefabAll_all genSize fontBuffer axes cps :
  forall (atlas : VariantAtlas.t T) (f : F) (g : G),
  okSize genSize -> I atlas ->
  I (FontAtlas.prefabAll cfg genSize fontBuffer axes cps (atlas, f, g)).2.1.1.
Proof.
  induction cps as [|cp cps IH]; intros atlas f g Hsize Hat;
    cbn [FontAtlas.prefabAll]; [exact Hat|].
  pose proof (prefabOne_all genSize fontBuffer axes cp atlas f g Hsize Hat) as H1.
  destruct (FontAtlas.prefabOne _ _ _ _ _ _) as [r [[a1 f1] g1]]. simpl in H1.
  destruct r as [[]|e]; [|exact H1]. apply IH; assumption.
Qed.

Lemma prefabLatin_all variantId fontSize fontBuffer axes (fa : FontAtlas.t T F G) :
  atlasesAll cfg I okSize fa ->
  atlasesAll cfg I okSize (FontAtlas.prefabLatin variantId fontSize fontBuffer axes fa).2.
Proof.
  intros Hs. pose proof Hs as (Hc & _). unfold FontAtlas.prefabLatin.
  destruct (FontAtlas.getOrCreateAtlas _ _ _) as [[key atlas] fa1] eqn:Ea.
  apply (getOrCreateAtlas_all _ _ _ _ _ _ Hs) in Ea as [Hat Hs1].
  pose proof Hs1 as (Hc1 & _). rewrite Hc1, Hc.
  pose proof (prefabAll_all (FontAtlas.selectGenSize cfg fontSize) fontBuffer axes
    LATIN_CODEPOINTS atlas (FontAtlas.textureFactory fa1) (FontAtlas.msdf fa1)
    (select_ok fontSize) Hat) as Hp.
  destruct (FontAtlas.prefabAll _ _ _ _ _ _) as [r [[a1 f1] g1]]. simpl in Hp.
  destruct r as [[]|e].
  - pose proof (I_flush a1 f1 Hp) as Hf.
    destruct (VariantAtlas.flushDirtyPages a1 f1) as [a2 f2]. simpl in *.
    apply all_store; assumption.
  - apply all_store; assumption.
Qed.

Lemma after_all calls : forall (fa : FontAtlas.t T F G),
  atlasesAll cfg I okSize fa -> atlasesAll cfg I okSize (after calls fa).
Proof.
  unfold after. induction calls as [|c calls IH]; intros fa Hs; simpl; [exact Hs|].
  apply IH. destruct c; simpl.
  - apply getGlyph_all, Hs.
  - apply prefabLatin_all, Hs.
  - apply processBatch_all, Hs.
  - destruct Hs as (Hc & _). split; [exact Hc|]. split; constructor.
Qed.

End Reachable.

Section OpResults.
Context {T F : Type} `{TextureFactory T F}.

Lemma applyOp_reserve cp (va : VariantAtlas.t T) (f : F) :
  (applyOp (va, f) (OpReserve cp)).1 = (VariantAtlas.reserveGlyph cp va f).1.2.
Proof.
  cbn [applyOp fst snd]. destruct (VariantAtlas.reserveGlyph cp va f) as [[l a] f1].
  reflexivity.
Qed.

Lemma applyOp_fill cp pixels metrics (va : VariantAtlas.t T) (f : F) :
  (applyOp (va, f) (OpFill cp pixels metrics)).1
  = (VariantAtlas.fillGlyph cp pixels metrics va f).1.2.
Proof.
  cbn [applyOp fst snd].
  destruct (VariantAtlas.fillGlyph cp pixels metrics va f) as [[l a] f1]. reflexivity.
Qed.

Lemma applyOp_add cp pixels metrics (va : VariantAtlas.t T) (f : F) :
  (applyOp (va, f) (OpAdd cp pixels metrics)).1
  = (VariantAtlas.addGlyph cp pixels metrics va f).1.2.
Proof.
  cbn [applyOp fst snd].
  destruct (VariantAtlas.addGlyph cp pixels metrics va f) as [[l a] f1]. reflexivity.
Qed.

Lemma fold_sum_scaled {A} (gm gp : A -> Z) (c : Z) (l : list A) : forall z,
  Forall (fun a => gm a = gp a * c) l ->
  fold_left (fun n a => n + gm a) l (z * c) = fold_left (fun n a => n + gp a) l z * c.
Proof.
  induction l as [|a l IH]; intros z Hl; simpl; [reflexivity|].
  apply Forall_cons in Hl as [Ha Hl]. rewrite Ha.
  replace (z * c + gp a * c) with ((z + gp a) * c) by lia. apply IH, Hl.
Qed.

Lemma fold_sum_ext {A} (g1 g2 : A -> Z) (l : list A) : forall z,
  Forall (fun a => g1 a = g2 a) l ->
  fold_left (fun n a => n + g1 a) l z = fold_left (fun n a => n + g2 a) l z.
Proof.
  induction l as [|a l IH]; intros z Hl; simpl; [reflexivity|].
  apply Forall_cons in Hl as [Ha Hl]. rewrite Ha. apply IH, Hl.
Qed.

End OpResults.

(** X24 (FontAtlas.getStatus, VariantAtlas.getMemoryBytes, getPageCount):
    in every state that calls lead to from a new font atlas, the
    [memoryBytes] of the status is the number of bytes held by the pixel
    buffers of all pages, and equals [pageCount] times the bytes of one
    page of the configured size. *)
Theorem getStatus_memory_is_exact {T F G : Type}
    `{TextureFactory T F} `{MSDFGenerator G}
    (g : G) (f : F) (callback : bool) (config : option PartialConfig.t)
    (calls : list Call) :
  let fa := after calls (FontAtlas.new g f callback config) in
  let status := FontAtlas.getStatus fa in
  let pageSize := AtlasConfig.pageSize (mergeConfig config) in
  AtlasStatus.memoryBytes status
  = fold_left (fun n a => n + bufferBytes a) (snd <$> FontAtlas.atlases fa) 0 /\
  AtlasStatus.memoryBytes status
  = AtlasStatus.pageCount status * (pageSize * pageSize * 4).
Proof.
  intros fa status pageSize.
  set (I := fun va : VariantAtlas.t T =>
              allPages (bufferSized (VariantAtlas.pageSize va)) va /\
              VariantAtlas.pageSize va = pageSize).
  assert (Hop : forall (va : VariantAtlas.t T) (f0 : F) op,
            I va -> I (applyOp (va, f0) op).1).
  { intros va f0 op [Hb Hs]. split.
    - apply (applyOp_bufferSized (va, f0) op Hb).
    - rewrite applyOp_pageSize. exact Hs. }
  assert (Hall : atlasesAll (mergeConfig config) I (fun _ => True)
                   (after calls (FontAtlas.new g f callback config))).
  { apply (after_all (mergeConfig config) I (fun _ => True) (fun _ => True)).
    - intros v gs. split; [|reflexivity]. split; simpl.
      + discriminate.
      + intros i p Hp. rewrite lookup_nil in Hp. discriminate.
    - intros cp va f0 Hva. rewrite <- applyOp_reserve. apply Hop, Hva.
    - intros cp px m va f0 Hva _. rewrite <- applyOp_fill. apply Hop, Hva.
    - intros cp px m va f0 Hva _. rewrite <- applyOp_add. apply Hop, Hva.
    - intros cp mi va Hva. apply (Hop va f (OpMarkEmpty cp mi) Hva).
    - intros va f0 Hva. apply (Hop va f0 OpFlush Hva).
    - auto.
    - auto.
    - split; [reflexivity|]. split; constructor. }
  destruct Hall as (_ & Ha & _). fold fa in Ha.
  assert (Hvas : Forall I (snd <$> FontAtlas.atlases fa)).
  { apply Forall_fmap. exact Ha. }
  subst status. unfold FontAtlas.getStatus. simpl. split.
  - apply fold_sum_ext. eapply Forall_impl; [exact Hvas|].
    intros va [Hb _]. apply bufferSized_memory, Hb.
  - apply (fold_sum_scaled _ _ (pageSize * pageSize * 4) _ 0).
    eapply Forall_impl; [exact Hvas|].
    intros va [_ Hs]. unfold VariantAtlas.getMemoryBytes. rewrite Hs. reflexivity.
Qed.

(** ** Texture coordinates *)

Section Located.
Context {T F : Type} `{TextureFactory T F}.

Lemma getPage_sized ref (va : VariantAtlas.t T) page :
  atlasSized va -> VariantAtlas.getPage ref va = Some page ->
  Page.width page = VariantAtlas.pageSize va /\
  Page.height page = VariantAtlas.pageSize va.
Proof.
  intros (_ & Hl & Hm). destruct ref as [|i]; simpl; [apply Hl | apply Hm].
Qed.

Lemma reserveGlyph_pageSize cp (va : VariantAtlas.t T) (f : F) :
  VariantAtlas.pageSize (VariantAtlas.reserveGlyph cp va f).1.2 = VariantAtlas.pageSize va.
Proof. rewrite <- applyOp_reserve. apply (applyOp_pageSize (va, f)). Qed.

Lemma flushDirtyPages_pageSize (va : VariantAtlas.t T) (f : F) :
  VariantAtlas.pageSize (VariantAtlas.flushDirtyPages va f).1 = VariantAtlas.pageSize va.
Proof. apply (applyOp_pageSize (va, f) OpFlush). Qed.

Lemma reserveGlyph_located cp (va : VariantAtlas.t T) (f : F) :
  atlasSized va -> located va -> located (VariantAtlas.reserveGlyph cp va f).1.2.
Proof.
  intros Hs Hl. pose proof (reserveGlyph_pageSize cp va f) as Hps.
  destruct (VariantAtlas.reserveGlyph cp va f) as [[loc va'] f'] eqn:Er. simpl in *.
  pose proof (reserveGlyph_placeholder _ _ _ _ _ _ Hs Er) as Hdim.
  apply reserveGlyph_spec in Er as (Hi & _).
  intros c l. rewrite Hi, Hps. intros Hc.
  apply lookup_insert_Some in Hc as [[_ <-]|[_ Hc]]; [exact Hdim | eapply Hl, Hc].
Qed.

Lemma fillGlyph_located cp pixels metrics (va : VariantAtlas.t T) (f : F) :
  atlasSized va -> located va ->
  located (VariantAtlas.fillGlyph cp pixels metrics va f).1.2.
Proof.
  intros Hs Hl. pose proof (fillGlyph_pageSize cp pixels metrics va f) as Hps.
  pose proof (fillGlyph_sized cp pixels metrics va f Hs) as Hs'.
  destruct (VariantAtlas.fillGlyph cp pixels metrics va f) as [[r va'] f'] eqn:Ef.
  simpl in *. intros c l. rewrite Hps.
  pose proof (fillGlyph_spec _ _ _ _ _ _ _ _ Ef) as [Hoth Hr].
  destruct (decide (c = cp)) as [->|Hne].
  - destruct r as [[]|e].
    + destruct (fillGlyph_location _ _ _ _ _ _ _ Ef) as (ref & page & pos & Hg & _ & Hi).
      rewrite Hi. destruct (VariantAtlas.glyphIndex va !! cp); [|discriminate].
      simpl. intros [= <-]. simpl.
      destruct (getPage_sized _ _ _ Hs' Hg) as [Hw Hh]. rewrite Hps in Hw, Hh. auto.
    + destruct Hr as [Hi _]. rewrite Hi. apply Hl.
  - destruct (Hoth c Hne) as [Hi _]. rewrite Hi. apply Hl.
Qed.

Lemma addGlyph_located cp pixels metrics (va : VariantAtlas.t T) (f : F) :
  atlasSized va -> located va ->
  located (VariantAtlas.addGlyph cp pixels metrics va f).1.2.
Proof.
  intros Hs Hl. pose proof (addGlyph_pageSize cp pixels metrics va f) as Hps.
  pose proof (addGlyph_sized cp pixels metrics va f Hs) as Hs'.
  destruct (VariantAtlas.addGlyph cp pixels metrics va f) as [[r va'] f'] eqn:Ea.
  simpl in *. intros c l. rewrite Hps.
  pose proof (addGlyph_spec _ _ _ _ _ _ _ _ Ea) as Hr.
  destruct r as [loc|e].
  - destruct Hr as [Hi _]. rewrite Hi. intros Hc.
    apply lookup_insert_Some in Hc as [[_ <-]|[_ Hc]]; [|eapply Hl, Hc].
    destruct (addGlyph_location _ _ _ _ _ _ _ _ Ea) as (ref & page & pos & Hg & _ & ->).
    simpl. destruct (getPage_sized _ _ _ Hs' Hg) as [Hw Hh]. rewrite Hps in Hw, Hh. auto.
  - destruct Hr as [Hi _]. rewrite Hi. apply Hl.
Qed.

Lemma markEmpty_located cp missing (va : VariantAtlas.t T) :
  located va -> located (VariantAtlas.markEmpty cp missing va).
Proof.
  intros Hl c l. destruct (markEmpty_spec cp missing va) as (_ & Mo & Mc).
  change (VariantAtlas.pageSize (VariantAtlas.markEmpty cp missing va))
    with (VariantAtlas.pageSize va).
  destruct (decide (c = cp)) as [->|Hne].
  - rewrite Mc. destruct (VariantAtlas.glyphIndex va !! cp) as [l0|] eqn:El; [|discriminate].
    simpl. intros [= <-]. simpl. eapply Hl, El.
  - rewrite (Mo c Hne). apply Hl.
Qed.

Lemma flushDirtyPages_located (va : VariantAtlas.t T) (f : F) :
  located va -> located (VariantAtlas.flushDirtyPages va f).1.
Proof.
  intros Hl. pose proof (flushDirtyPages_pageSize va f) as Hps.
  destruct (VariantAtlas.flushDirtyPages va f) as [va' f'] eqn:E.
  apply flushDirtyPages_sameIndex in E as (Hi & _). simpl in *.
  intros c l. rewrite Hi, Hps. apply Hl.
Qed.

End Located.

Lemma js_div_unit (a b : Z) : 0 <= a <= b -> 0 < b -> unitNumber (js_div a b).
Proof.
  intros Ha Hb. unfold js_div. destruct (Z.eqb_spec b 0) as [|_]; [lia|].
  assert (Hb' : (0 < inject_Z b)%Q)
    by (change 0%Q with (inject_Z 0); rewrite <- Zlt_Qlt; lia).
  simpl. rewrite Qred_correct. split.
  - apply Qle_shift_div_l; [exact Hb'|].
    rewrite Qmult_0_l. change 0%Q with (inject_Z 0). rewrite <- Zle_Qle. lia.
  - apply Qle_shift_div_r; [exact Hb'|].
    rewrite Qmult_1_l, <- Zle_Qle. lia.
Qed.

Lemma js_div_le (a a' b : Z) : a <= a' -> 0 < b -> numberLe (js_div a b) (js_div a' b).
Proof.
  intros Ha Hb. unfold js_div. destruct (Z.eqb_spec b 0) as [|_]; [lia|].
  simpl. rewrite !Qred_correct. unfold Qdiv.
  apply Qmult_le_compat_r; [rewrite <- Zle_Qle; lia|].
  apply Qinv_le_0_compat. change 0%Q with (inject_Z 0). rewrite <- Zle_Qle. lia.
Qed.

Section Coordinates.
Context {T F G : Type} `{TextureFactory T F} `{MSDFGenerator G}.

Lemma locationToInfo_unit (loc : GlyphLocation.t T) genSize cached :
  locationOk loc ->
  0 < LocationPage.width (GlyphLocation.page loc) ->
  0 < LocationPage.height (GlyphLocation.page loc) ->
  let uv := GlyphInfo.uvs (FontAtlas.locationToInfo loc genSize cached) in
  unitNumber (UVs.u0 uv) /\ unitNumber (UVs.v0 uv) /\
  unitNumber (UVs.u1 uv) /\ unitNumber (UVs.v1 uv) /\
  numberLe (UVs.u0 uv) (UVs.u1 uv) /\ numberLe (UVs.v0 uv) (UVs.v1 uv).
Proof.
  intros ((Hx & Hy & Hxw & Hyh) & Hw & Hh) HW HH. simpl.
  repeat split; try (apply js_div_unit; lia); apply js_div_le; lia.
Qed.

End Coordinates.

(** X25 (FontAtlas.getGlyph, locationToInfo, VariantAtlas, Page.tryAdd):
    with a positive page size and a generator whose glyphs, at the
    configured generation sizes, are no wider than a page, every glyph
    information that [getGlyph] returns, in every state that calls lead to
    from a new font atlas, has texture coordinates between 0 and 1 with
    [u0 <= u1] and [v0 <= v1]. *)
Theorem uvs_are_within_the_page {T F G : Type}
    `{TextureFactory T F} `{MSDFGenerator G}
    (g : G) (f : F) (callback : bool) (config : option PartialConfig.t)
    (calls : list Call) (request : GlyphRequest.t) :
  let cfg := mergeConfig config in
  0 < AtlasConfig.pageSize cfg ->
  (forall cp renderSize font axes (g0 g1 : G) gl,
     FontAtlas.generateGlyph cfg cp (FontAtlas.selectGenSize cfg renderSize)
       font axes g0 = (Some gl, g1) ->
     0 <= MSDFMetrics.width (MSDFGlyph.metrics gl) <= AtlasConfig.pageSize cfg /\
     0 <= MSDFMetrics.height (MSDFGlyph.metrics gl)) ->
  let fa := after calls (FontAtlas.new g f callback config) in
  let uv := GlyphInfo.uvs (FontAtlas.getGlyph request fa).1 in
  unitNumber (UVs.u0 uv) /\ unitNumber (UVs.v0 uv) /\
  unitNumber (UVs.u1 uv) /\ unitNumber (UVs.v1 uv) /\
  numberLe (UVs.u0 uv) (UVs.u1 uv) /\ numberLe (UVs.v0 uv) (UVs.v1 uv).
Proof.
  intros cfg Hpos Hgen fa uv.
  set (ps := AtlasConfig.pageSize cfg) in *.
  set (I := fun va : VariantAtlas.t T =>
              atlasPacked va /\ atlasSized va /\ located va /\
              VariantAtlas.pageSize va = ps).
  set (fits := fun m : GlyphMetrics.t =>
                 0 <= GlyphMetrics.width m <= ps /\ 0 <= GlyphMetrics.height m).
  set (okSize := fun size : option Z =>
                   exists r, size = FontAtlas.selectGenSize cfg r).
  assert (Hall : atlasesAll cfg I okSize fa).
  { apply (after_all cfg I fits okSize).
    - intros v gs. split; [apply new_packed; exact Hpos|]. split; [|split].
      + split; [exact Hpos|]. split; simpl; [discriminate|].
        intros i p Hp. rewrite lookup_nil in Hp. discriminate.
      + intros c l Hc. simpl in Hc. rewrite lookup_empty in Hc. discriminate.
      + reflexivity.
    - intros cp va f0 (Hp & Hs & Hl & Hps). split; [apply reserveGlyph_packed, Hp|].
      split; [apply reserveGlyph_sized, Hs|]. split; [apply reserveGlyph_located; assumption|].
      rewrite reserveGlyph_pageSize. exact Hps.
    - intros cp px m va f0 (Hp & Hs & Hl & Hps) [Hw Hh].
      split; [apply fillGlyph_packed; [assumption | rewrite Hps; exact Hw | exact Hh]|].
      split; [apply fillGlyph_sized, Hs|]. split; [apply fillGlyph_located; assumption|].
      rewrite fillGlyph_pageSize. exact Hps.
    - intros cp px m va f0 (Hp & Hs & Hl & Hps) [Hw Hh].
      split; [apply addGlyph_packed; [assumption | rewrite Hps; exact Hw | exact Hh]|].
      split; [apply addGlyph_sized, Hs|]. split; [apply addGlyph_located; assumption|].
      rewrite addGlyph_pageSize. exact Hps.
    - intros cp mi va (Hp & Hs & Hl & Hps). split; [apply markEmpty_packed, Hp|].
      split; [apply markEmpty_sized, Hs|]. split; [apply markEmpty_located, Hl|]. exact Hps.
    - intros va f0 (Hp & Hs & Hl & Hps). split; [apply flushDirtyPages_packed, Hp|].
      split; [apply flushDirtyPages_sized, Hs|].
      split; [apply flushDirtyPages_located, Hl|].
      rewrite flushDirtyPages_pageSize. exact Hps.
    - intros r. exists r. reflexivity.
    - intros cp size font axes g0 g1 gl [r ->] Hg. apply Hgen in Hg. exact Hg.
    - split; [reflexivity|]. split; constructor. }
  subst uv. unfold FontAtlas.getGlyph.
  destruct (FontAtlas.getOrCreateAtlas _ _ fa) as [[key atlas] fa1] eqn:Ea.
  apply (getOrCreateAtlas_all cfg I okSize) in Ea as [(Hp & Hs & Hl & Hps) _];
    [|intros v gs; split; [apply new_packed; exact Hpos|]; split; [|split];
      [split; [exact Hpos|]; split; simpl; [discriminate|];
       intros i p Hq; rewrite lookup_nil in Hq; discriminate
      |intros c l Hc; simpl in Hc; rewrite lookup_empty in Hc; discriminate
      |reflexivity]
     |exact Hall].
  destruct (VariantAtlas.getGlyph _ atlas) as [loc|] eqn:Eg.
  - unfold VariantAtlas.getGlyph in Eg.
    destruct (bool_decide _); [discriminate|].
    destruct Hp as (_ & _ & Hidx). destruct (Hl _ _ Eg) as [Hw Hh].
    apply locationToInfo_unit; [eapply Hidx, Eg | rewrite Hw, Hps; exact Hpos
                                | rewrite Hh, Hps; exact Hpos].
  - destruct (VariantAtlas.reserveGlyph _ atlas _) as [[loc a1] f1] eqn:Er.
    destruct (reserveGlyph_placeholder _ _ _ _ _ _ Hs Er) as [Hw Hh].
    apply reserveGlyph_spec in Er as (_ & _ & Hx & Hy & Hlw & Hlh & _).
    apply locationToInfo_unit.
    + unfold locationOk, insidePage. rewrite Hx, Hy, Hlw, Hlh, Hw, Hh, Hps. lia.
    + rewrite Hw, Hps. exact Hpos.
    + rewrite Hh, Hps. exact Hpos.
Qed.

Section Flushed.
Context {T F G : Type} `{TextureFactory T F} `{MSDFGenerator G}.

Lemma flushAtlases_clean (ats : list (string * VariantAtlas.t T)) : forall (f : F),
  Forall (fun a => VariantAtlas.hasDirtyPages a.2 = false)
         (FontAtlas.flushAtlases ats f).1.
Proof.
  induction ats as [|[k va] ats IH]; intros f; simpl; [constructor|].
  pose proof (flushDirtyPages_dirty va f) as Hva.
  destruct (VariantAtlas.flushDirtyPages va f) as [a1 f1].
  specialize (IH f1). destruct (FontAtlas.flushAtlases ats f1) as [rest f2].
  simpl in *. constructor; assumption.
Qed.

End Flushed.

(** X26 (FontAtlas.processBatch, VariantAtlas.flushDirtyPages): a drain of a
    non-empty queue that returns leaves no dirty page in any atlas:
    everything that was packed, by this drain or before it, has been
    uploaded. *)
Theorem completed_drain_uploads_everything {T F G : Type}
    `{TextureFactory T F} `{MSDFGenerator G} (fa fa' : FontAtlas.t T F G) :
  FontAtlas.pendingGlyphs fa <> [] ->
  FontAtlas.processBatch fa = (Ok tt, fa') ->
  Forall (fun a => VariantAtlas.hasDirtyPages a.2 = false) (FontAtlas.atlases fa').
Proof.
  intros Hq. unfold FontAtlas.processBatch.
  destruct (FontAtlas.pendingGlyphs fa) as [|e batch]; [congruence|].
  cbn [length Nat.eqb].
  destruct (FontAtlas.processAll _ _) as [[[]|err] fa1]; [|discriminate].
  pose proof (flushAtlases_clean (FontAtlas.atlases fa1)
                (FontAtlas.textureFactory fa1)) as Hc.
  destruct (FontAtlas.flushAtlases _ _) as [ats f']. intros [= <-]. exact Hc.
Qed.

(** ** The worker pool *)

Lemma pop_None {A} (a : list A) : WorkerPool.pop a = None <-> a = [].
Proof.
  destruct a as [|x a]; simpl; [tauto|].
  destruct (WorkerPool.pop a) as [[rest l]|]; split; discriminate.
Qed.

Lemma pop_Some {A} (a rest : list A) (x : A) :
  WorkerPool.pop a = Some (rest, x) <-> a = rest ++ [x].
Proof.
  revert rest. induction a as [|y a IH]; intros rest; simpl.
  - split; [discriminate|]. intros Hn. destruct rest; discriminate.
  - destruct (WorkerPool.pop a) as [[r l]|] eqn:E.
    + split.
      * intros [= <- <-]. simpl. f_equal. apply IH. reflexivity.
      * destruct rest as [|z rest]; simpl.
        -- intros [= -> Ha]. subst a. discriminate.
        -- intros [= -> Ha]. apply IH in Ha. congruence.
    + apply pop_None in E. subst a. split.
      * intros [= <- <-]. reflexivity.
      * destruct rest as [|z rest]; simpl; [intros [= ->]; reflexivity|].
        intros [= _ Ha]. destruct rest; discriminate.
Qed.

Lemma handle_busyWhenQueued s e : busyWhenQueued s -> busyWhenQueued (handle s e).
Proof.
  unfold busyWhenQueued. intros Hs. destruct e as [c fs pr gt|w data]; simpl.
  - destruct (WorkerPool.pop (WorkerPool.available s)) as [[rest l]|] eqn:E; simpl.
    + apply pop_Some in E. left. destruct Hs as [Hq|Ha]; [exact Hq|].
      rewrite Ha in E. destruct rest; discriminate.
    + apply pop_None in E. right. exact E.
  - unfold WorkerPool.onResult.
    destruct (WorkerPool.workerTasks s !! w) as [task|]; simpl.
    + destruct (WorkerPool.taskQueue s) as [|next rest] eqn:Eq; simpl; [left; reflexivity|].
      right. destruct Hs as [Hq|Ha]; [discriminate | exact Ha].
    + destruct (WorkerPool.taskQueue s) as [|next rest] eqn:Eq; simpl.
      * left. reflexivity.
      * right. destruct Hs as [Hq|Ha]; [discriminate | exact Ha].
Qed.

Lemma readyPool_fields order :
  WorkerPool.available (readyPool order) = order /\
  WorkerPool.taskQueue (readyPool order) = [] /\
  WorkerPool.workerTasks (readyPool order) = ∅ /\
  WorkerPool.posted (readyPool order) = [] /\
  WorkerPool.resolved (readyPool order) = [] /\
  WorkerPool.promises (readyPool order) = O.
Proof.
  unfold readyPool. generalize (length order). intros n.
  assert (Hgen : forall s,
    let s' := fold_left (fun s w => WorkerPool.setupWorker w s) order s in
    WorkerPool.available s' = WorkerPool.available s ++ order /\
    WorkerPool.taskQueue s' = WorkerPool.taskQueue s /\
    WorkerPool.workerTasks s' = WorkerPool.workerTasks s /\
    WorkerPool.posted s' = WorkerPool.posted s /\
    WorkerPool.resolved s' = WorkerPool.resolved s /\
    WorkerPool.promises s' = WorkerPool.promises s).
  { induction order as [|w order IH]; intros s; simpl.
    - rewrite app_nil_r. repeat split.
    - destruct (IH (WorkerPool.setupWorker w s)) as (H1 & H2 & H3 & H4 & H5 & H6).
      rewrite H1, H2, H3, H4, H5, H6. simpl. rewrite <- app_assoc. repeat split. }
  apply (Hgen (WorkerPool.new n)).
Qed.

(** Dispatch is first come, first served. *)
Lemma handle_fifo s e :
  busyWhenQueued s ->
  (WorkerPool.posted (handle s e)).*2 ++ (messageOf <$> WorkerPool.taskQueue (handle s e))
  = ((WorkerPool.posted s).*2 ++ (messageOf <$> WorkerPool.taskQueue s)) ++ requested [e].
Proof.
  intros Hs. destruct e as [c fs pr gt|w data]; simpl.
  - destruct (WorkerPool.pop (WorkerPool.available s)) as [[rest l]|] eqn:E; simpl.
    + apply pop_Some in E. destruct Hs as [Hq|Ha].
      * rewrite Hq. simpl. rewrite !app_nil_r, fmap_app. reflexivity.
      * rewrite Ha in E. destruct rest; discriminate.
    + rewrite fmap_app, app_assoc. reflexivity.
  - rewrite app_nil_r. unfold WorkerPool.onResult.
    destruct (WorkerPool.workerTasks s !! w) as [task|]; simpl;
      destruct (WorkerPool.taskQueue s) as [|next rest] eqn:Eq; simpl;
      rewrite ?Eq; try reflexivity;
      rewrite fmap_app, <- app_assoc; reflexivity.
Qed.

Lemma activePromises_insert (s : gmap nat WorkerPool.PendingTask) w task :
  s !! w = None ->
  (fun kv : nat * WorkerPool.PendingTask => WorkerPool.pendingResolve kv.2)
    <$> map_to_list (<[w := task]> s)
  ≡ₚ WorkerPool.pendingResolve task
     :: ((fun kv : nat * WorkerPool.PendingTask => WorkerPool.pendingResolve kv.2)
           <$> map_to_list s).
Proof. intros Hn. rewrite (map_to_list_insert _ _ _ Hn). reflexivity. Qed.

Lemma activePromises_delete (s : gmap nat WorkerPool.PendingTask) w task :
  s !! w = Some task ->
  (fun kv : nat * WorkerPool.PendingTask => WorkerPool.pendingResolve kv.2)
    <$> map_to_list s
  ≡ₚ WorkerPool.pendingResolve task
     :: ((fun kv : nat * WorkerPool.PendingTask => WorkerPool.pendingResolve kv.2)
           <$> map_to_list (delete w s)).
Proof. intros Hs. rewrite <- (map_to_list_delete _ _ _ Hs). reflexivity. Qed.

Lemma handle_conserving s e :
  expected s e = true -> conserving s -> conserving (handle s e).
Proof.
  unfold conserving, activePromises. intros He (Hnd & Hfree & Hperm).
  destruct e as [c fs pr gt|w data]; cbn [handle expected] in *.
  - unfold WorkerPool.generateGlyph. cbn [snd].
    destruct (WorkerPool.pop (WorkerPool.available s)) as [[rest l]|] eqn:E; pool_simpl.
    + apply pop_Some in E. rewrite E in Hnd, Hfree.
      apply NoDup_app in Hnd as (Hr & Hdis & _).
      assert (Hl : WorkerPool.workerTasks s !! l = None).
      { apply Hfree. apply elem_of_app. right. left. }
      split; [exact Hr|]. split.
      * intros w Hw. rewrite lookup_insert_ne.
        -- apply Hfree. apply elem_of_app. left. exact Hw.
        -- intros ->. apply (Hdis w Hw). left.
      * rewrite (activePromises_insert _ _ _ Hl). pool_simpl.
        rewrite seq_S, Nat.add_0_l, Hperm.
        rewrite <- Permutation_cons_append. apply Permutation_middle.
    + split; [exact Hnd|]. split; [exact Hfree|].
      rewrite seq_S, Nat.add_0_l, Hperm, fmap_app. pool_simpl.
      rewrite !app_assoc. reflexivity.
  - apply bool_decide_eq_true in He as [task Htask].
    assert (Hw : w ∉ WorkerPool.available s).
    { intros Hin. apply Hfree in Hin. congruence. }
    unfold WorkerPool.onResult. rewrite Htask. pool_simpl.
    rewrite (activePromises_delete _ _ _ Htask) in Hperm.
    destruct (WorkerPool.taskQueue s) as [|next rest] eqn:Eq; pool_simpl.
    + split; [|split].
      * apply NoDup_app. split; [exact Hnd|]. split; [|apply NoDup_singleton].
        intros x Hx Hx'. apply list_elem_of_singleton in Hx'. subst x. contradiction.
      * intros x Hx. apply elem_of_app in Hx as [Hx|Hx].
        -- rewrite lookup_delete_ne; [apply Hfree, Hx|]. intros ->. contradiction.
        -- apply list_elem_of_singleton in Hx. subst x. apply lookup_delete_eq.
      * rewrite Hperm, fmap_app, !fmap_nil, !app_nil_r, fmap_cons. pool_simpl.
        rewrite <- app_assoc. reflexivity.
    + split; [exact Hnd|]. split.
      * intros x Hx. rewrite lookup_insert_ne; [|intros ->; contradiction].
        rewrite lookup_delete_ne; [apply Hfree, Hx|]. intros ->. contradiction.
      * rewrite (activePromises_insert _ _ _ (lookup_delete_eq _ _)). pool_simpl.
        rewrite Hperm, fmap_app, !fmap_cons, fmap_nil. pool_simpl.
        rewrite <- app_assoc. cbn [app].
        apply Permutation_app_head. apply perm_skip.
        symmetry. apply Permutation_middle.
Qed.

Lemma runPool_conserving events : forall s,
  wellBehaved events s = true -> conserving s -> conserving (runPool events s).
Proof.
  unfold runPool. induction events as [|e events IH]; intros s Hw Hs; simpl; [exact Hs|].
  simpl in Hw. apply andb_true_iff in Hw as [He Hw].
  apply IH; [exact Hw | apply handle_conserving; assumption].
Qed.

Lemma runPool_fifo events : forall s,
  busyWhenQueued s ->
  busyWhenQueued (runPool events s) /\
  (WorkerPool.posted (runPool events s)).*2
    ++ (messageOf <$> WorkerPool.taskQueue (runPool events s))
  = ((WorkerPool.posted s).*2 ++ (messageOf <$> WorkerPool.taskQueue s))
    ++ requested events.
Proof.
  unfold runPool. induction events as [|e events IH]; intros s Hs; simpl.
  - rewrite app_nil_r. auto.
  - destruct (IH (handle s e) (handle_busyWhenQueued s e Hs)) as [Hb Hf].
    split; [exact Hb|]. rewrite Hf, (handle_fifo s e Hs), <- app_assoc.
    f_equal. unfold requested. simpl. destruct e; reflexivity.
Qed.

(** X27 (WorkerPool / WorkerPoolDeno: generateGlyph, setupWorker's result
    handler, dispatchToWorker): in a ready pool a task waits in the queue
    only while no worker is available, and tasks are handed to workers in the
    order in which they were asked for: the generate messages posted so far,
    followed by the queue, are the submissions in order. *)
Theorem pool_dispatches_first_come_first_served
    (order : list nat) (events : list PoolEvent) :
  let s := runPool events (readyPool order) in
  (WorkerPool.taskQueue s = [] \/ WorkerPool.available s = []) /\
  (WorkerPool.posted s).*2 ++ (messageOf <$> WorkerPool.taskQueue s)
  = requested events.
Proof.
  intros s. subst s.
  destruct (readyPool_fields order) as (_ & Hq & _ & Hp & _).
  destruct (runPool_fifo events (readyPool order)) as [Hb Hf].
  { left. exact Hq. }
  split; [exact Hb|]. rewrite Hf, Hp, Hq. reflexivity.
Qed.

(** X28 (WorkerPool / WorkerPoolDeno: generateGlyph, result handler,
    dispatchToWorker): when every worker reported ready once and workers
    send a result only for a task they were given, no task is lost and none
    is answered twice: every promise created so far is resolved, being
    worked on by one worker, or queued, exactly once, and no worker is both
    available and busy. *)
Theorem pool_loses_no_task (order : list nat) (events : list PoolEvent) :
  NoDup order ->
  wellBehaved events (readyPool order) = true ->
  let s := runPool events (readyPool order) in
  seq 0 (WorkerPool.promises s)
  ≡ₚ (WorkerPool.resolved s).*1 ++ activePromises s
     ++ (WorkerPool.resolve <$> WorkerPool.taskQueue s) /\
  NoDup (WorkerPool.resolved s).*1 /\
  NoDup (WorkerPool.available s) /\
  (forall w, w ∈ WorkerPool.available s -> WorkerPool.workerTasks s !! w = None).
Proof.
  intros Hnd Hw s. subst s.
  destruct (readyPool_fields order) as (Ha & Hq & Ht & Hp & Hr & Hn).
  destruct (runPool_conserving events (readyPool order) Hw) as (H1 & H2 & H3).
  { split; [rewrite Ha; exact Hnd|]. split.
    - intros w _. rewrite Ht. apply lookup_empty.
    - unfold activePromises. rewrite Hn, Hr, Ht, Hq, map_to_list_empty. reflexivity. }
  split; [exact H3|]. split; [|split; assumption].
  pose proof (NoDup_seq 0 (WorkerPool.promises (runPool events (readyPool order)))) as Hs.
  rewrite H3 in Hs. apply NoDup_app in Hs as [Hs _]. exact Hs.
Qed.

Lemma generateBatch_spec chars fs pr gt : forall s,
  busyWhenQueued s ->
  let k := Nat.min (length chars) (length (WorkerPool.available s)) in
  let s' := (WorkerPool.generateBatch chars fs pr gt s).2 in
  (WorkerPool.generateBatch chars fs pr gt s).1
  = seq (WorkerPool.promises s) (length chars) /\
  WorkerPool.promises s' = (WorkerPool.promises s + length chars)%nat /\
  WorkerPool.available s'
  = take (length (WorkerPool.available s) - k) (WorkerPool.available s) /\
  WorkerPool.posted s'
  = WorkerPool.posted s
    ++ zip (take k (reverse (WorkerPool.available s)))
           ((fun c => WorkerPool.mkGenerate c fs pr gt) <$> take k chars) /\
  messageOf <$> WorkerPool.taskQueue s'
  = (messageOf <$> WorkerPool.taskQueue s)
    ++ ((fun c => WorkerPool.mkGenerate c fs pr gt) <$> drop k chars) /\
  WorkerPool.resolve <$> WorkerPool.taskQueue s'
  = (WorkerPool.resolve <$> WorkerPool.taskQueue s)
    ++ seq (WorkerPool.promises s + k) (length chars - k) /\
  WorkerPool.resolved s' = WorkerPool.resolved s.
Proof.
  induction chars as [|c chars IH]; intros s Hs; cbn [WorkerPool.generateBatch length].
  - cbn [Nat.min fst snd seq]. rewrite Nat.sub_0_r, firstn_all, !app_nil_r, Nat.add_0_r.
    repeat split.
  - unfold WorkerPool.generateGlyph.
    destruct (WorkerPool.pop (WorkerPool.available s)) as [[rest w]|] eqn:E.
    + apply pop_Some in E.
      assert (Hq : WorkerPool.taskQueue s = []).
      { destruct Hs as [Hq|Ha]; [exact Hq|]. rewrite Ha in E. destruct rest; discriminate. }
      match goal with |- context [WorkerPool.generateBatch chars fs pr gt ?x] =>
        set (s1 := x) end.
      destruct (IH s1) as (I1 & I2 & I3 & I4 & I5 & I6 & I7).
      { left. exact Hq. }
      destruct (WorkerPool.generateBatch chars fs pr gt s1) as [ps s2].
      subst s1. pool_simpl. rewrite E, length_app. cbn [length].
      replace (Nat.min (S (length chars)) (length rest + 1))
        with (S (Nat.min (length chars) (length rest))) by lia.
      set (k := Nat.min (length chars) (length rest)) in *.
      rewrite reverse_app. cbn [reverse rev_append app take drop zip zip_with fmap list_fmap].
      rewrite I1, I2, I3, I4, I5, I6, I7, Hq.
      split; [reflexivity|]. split; [lia|]. split.
      { replace (length rest + 1 - S k)%nat with (length rest - k)%nat by lia.
        rewrite take_app_le by lia. reflexivity. }
      split; [rewrite <- app_assoc; reflexivity|].
      split; [reflexivity|]. split; [|reflexivity].
      cbn [fmap list_fmap app]. f_equal; lia.
    + apply pop_None in E.
      match goal with |- context [WorkerPool.generateBatch chars fs pr gt ?x] =>
        set (s1 := x) end.
      destruct (IH s1) as (I1 & I2 & I3 & I4 & I5 & I6 & I7).
      { right. exact E. }
      destruct (WorkerPool.generateBatch chars fs pr gt s1) as [ps s2].
      subst s1. pool_simpl. rewrite E in *. cbn [length] in *.
      rewrite Nat.min_0_r in *. cbn [take drop zip zip_with reverse rev_append fmap list_fmap] in *.
      rewrite I1, I2, I3, I4, I5, I6, I7, !fmap_app, <- !app_assoc, !app_nil_r.
      cbn [fmap list_fmap app].
      split; [reflexivity|]. split; [lia|]. split; [reflexivity|].
      split; [reflexivity|]. split; [reflexivity|]. split; [|reflexivity].
      rewrite !Nat.add_0_r, !Nat.sub_0_r. reflexivity.
Qed.

(** X29 (WorkerPool / WorkerPoolDeno: generateBatch, generateGlyph,
    dispatchToWorker): [generateBatch] on a pool with an empty queue returns
    one promise per character, in the order of the characters.  With [k] the
    smaller of the number of characters and the number of available workers,
    the first [k] characters are posted at once, to the [k] workers that
    became available last, and the other characters are queued in order. *)
Theorem generateBatch_posts_then_queues
    (chars : list Z) (fontSize pixelRange : Z) (glyphType : WorkerPool.GlyphType)
    (s : WorkerPool.t) :
  WorkerPool.taskQueue s = [] ->
  let k := Nat.min (length chars) (length (WorkerPool.available s)) in
  let result := WorkerPool.generateBatch chars fontSize pixelRange glyphType s in
  let message := fun c => WorkerPool.mkGenerate c fontSize pixelRange glyphType in
  result.1 = seq (WorkerPool.promises s) (length chars) /\
  WorkerPool.available result.2
  = take (length (WorkerPool.available s) - k) (WorkerPool.available s) /\
  WorkerPool.posted result.2
  = WorkerPool.posted s
    ++ zip (take k (reverse (WorkerPool.available s))) (message <$> take k chars) /\
  messageOf <$> WorkerPool.taskQueue result.2 = message <$> drop k chars /\
  WorkerPool.resolve <$> WorkerPool.taskQueue result.2
  = seq (WorkerPool.promises s + k) (length chars - k).
Proof.
  intros Hq k result message.
  destruct (generateBatch_spec chars fontSize pixelRange glyphType s)
    as (I1 & I2 & I3 & I4 & I5 & I6 & I7).
  { left. exact Hq. }
  rewrite Hq in I5, I6. auto.
Qed.

(** ** The further properties at concrete inputs *)

(** Three glyphs on a new 8-pixel page. *)
Lemma tryAdd_rectangles_apart_witness :
  ForallOrdPairs (fun g1 g2 => apart g1.2 g2.2)
    (tryAddAll threeGlyphs (Page.new 8 8 freshBackend).1).1.
Proof.
  apply (tryAdd_rectangles_apart threeGlyphs (Page.new 8 8 freshBackend).1).
  - repeat constructor; simpl; lia.
  - simpl. lia.
Defined.

Lemma packed_pixels_survive_witness :
  let page' := (tryAddAll threeGlyphs (Page.new 8 8 freshBackend).1).2 in
  Forall (fun g => rectInside page' g.2 /\ holds page' g)
         (tryAddAll threeGlyphs (Page.new 8 8 freshBackend).1).1.
Proof.
  apply (packed_pixels_survive threeGlyphs 8 8 freshBackend).
  repeat constructor; simpl; lia.
Defined.

(** The letter A, reserved in the tiny atlas and then filled. *)
Lemma fillGlyph_round_trip_witness :
  let fill := VariantAtlas.fillGlyph 65 (ramp 36) square3 reservedA.1 reservedA.2 in
  VariantAtlas.getGlyph 65
    (VariantAtlas.reserveGlyph 65 reservedA.1 reservedA.2).1.2 = None /\
  (exists loc ref page,
     VariantAtlas.getGlyph 65 fill.1.2 = Some loc /\
     GlyphLocation.metrics loc = square3 /\
     GlyphLocation.width loc = 3 /\
     GlyphLocation.height loc = 3 /\
     GlyphLocation.empty loc = false /\ GlyphLocation.missing loc = false /\
     VariantAtlas.getPage ref fill.1.2 = Some page /\
     VariantAtlas.pageOf page = GlyphLocation.page loc /\
     Page.dirty page = true) /\
  VariantAtlas.hasDirtyPages fill.1.2 = true /\
  (forall cp', cp' <> 65 ->
     VariantAtlas.getGlyph cp' fill.1.2 = VariantAtlas.getGlyph cp' reservedA.1).
Proof.
  intros fill.
  apply (fillGlyph_round_trip 65 (ramp 36) square3 reservedA.1 fill.1.2
           reservedA.2 fill.2).
  - eexists. vm_compute. reflexivity.
  - vm_compute. reflexivity.
Defined.

(** The letter A filled without a reservation. *)
Lemma fillGlyph_without_reservation_witness :
  let fill := VariantAtlas.fillGlyph 65 (ramp 36) square3 tinyAtlas freshBackend in
  VariantAtlas.glyphIndex fill.1.2 = VariantAtlas.glyphIndex tinyAtlas /\
  VariantAtlas.getGlyph 65 fill.1.2 = None /\
  VariantAtlas.getGlyphCount fill.1.2 = VariantAtlas.getGlyphCount tinyAtlas /\
  VariantAtlas.hasDirtyPages fill.1.2 = true.
Proof.
  intros fill.
  apply (fillGlyph_without_reservation 65 (ramp 36) square3 tinyAtlas fill.1.2
           freshBackend fill.2).
  - reflexivity.
  - vm_compute. reflexivity.
Defined.

(** The letter A added to the tiny atlas. *)
Lemma addGlyph_round_trip_witness :
  let add := VariantAtlas.addGlyph 65 (ramp 36) square3 tinyAtlas freshBackend in
  exists loc,
    add.1.1 = Ok loc /\
    VariantAtlas.getGlyph 65 add.1.2 = Some loc /\
    GlyphLocation.metrics loc = square3 /\
    GlyphLocation.width loc = 3 /\
    GlyphLocation.height loc = 3 /\
    GlyphLocation.empty loc = false /\ GlyphLocation.missing loc = false /\
    (exists ref page,
       VariantAtlas.getPage ref add.1.2 = Some page /\
       VariantAtlas.pageOf page = GlyphLocation.page loc /\
       Page.dirty page = true) /\
    VariantAtlas.hasDirtyPages add.1.2 = true /\
    (forall cp', cp' <> 65 ->
       VariantAtlas.glyphIndex add.1.2 !! cp' = VariantAtlas.glyphIndex tinyAtlas !! cp').
Proof.
  intros add.
  exists (GlyphLocation.mk (LocationPage.mk 0%nat 4 4) 0 0 3 3 square3 false false).
  split; [vm_compute; reflexivity|].
  apply (addGlyph_round_trip 65 (ramp 36) square3 tinyAtlas add.1.2
           freshBackend add.2).
  vm_compute. reflexivity.
Defined.

(** The letter A stays as it is while the letter B is reserved, filled and
    flushed. *)
Lemma getGlyph_unchanged_by_other_code_points_witness :
  let ops := [OpReserve 66; OpFill 66 (ramp 36) square3; OpFlush] in
  VariantAtlas.getGlyph 65 (applyOps ops filledA).1
  = VariantAtlas.getGlyph 65 filledA.1.
Proof.
  intros ops.
  apply (getGlyph_unchanged_by_other_code_points 65 ops filledA).
  repeat constructor; discriminate.
Defined.

(** The default configuration at render size 50. *)
Lemma selectGenSize_is_a_configured_size_witness :
  exists g i,
    FontAtlas.selectGenSize DEFAULT_CONFIG 50 = Some g /\
    AtlasConfig.genSizes DEFAULT_CONFIG !! i = Some g /\
    match AtlasConfig.sizeThresholds DEFAULT_CONFIG !! i with
    | Some th => 50 <= th
    | None => i = (length (AtlasConfig.genSizes DEFAULT_CONFIG) - 1)%nat
    end /\
    Forall (fun th => th < 50) (take i (AtlasConfig.sizeThresholds DEFAULT_CONFIG)).
Proof.
  apply (selectGenSize_is_a_configured_size DEFAULT_CONFIG 50).
  simpl. lia.
Defined.

Lemma selectGenSize_monotone_witness :
  FontAtlas.selectGenSize DEFAULT_CONFIG 30 = Some 32 /\
  FontAtlas.selectGenSize DEFAULT_CONFIG 100 = Some 128 /\
  32 <= 128.
Proof.
  split; [reflexivity|]. split; [reflexivity|].
  apply (selectGenSize_monotone DEFAULT_CONFIG 30 100 32 128).
  - simpl. lia.
  - reflexivity.
  - lia.
  - reflexivity.
  - reflexivity.
Defined.

(** The letter A on the demo atlas: requested, generated by the drain,
    requested again. *)
Lemma generated_glyph_is_cached_witness :
  let fa2 := (FontAtlas.processBatch (FontAtlas.getGlyph requestA demoAtlas).2).2 in
  let glyph := (FontAtlas.generateGlyph (FontAtlas.config demoAtlas) 65 (Some 2)
                  LATIN_CODEPOINTS None
                  (loadFont LATIN_CODEPOINTS (FontAtlas.msdf demoAtlas))).1 in
  let info := (FontAtlas.getGlyph requestA fa2).1 in
  (FontAtlas.getGlyph requestA fa2).2 = fa2 /\
  GlyphInfo.cached info = true /\
  GlyphInfo.missing info = false /\
  GlyphInfo.genSize info = Some 2 /\
  match glyph with
  | Some gl =>
      GlyphInfo.metrics info = FontAtlas.toMetrics (MSDFGlyph.metrics gl) /\
      GlyphInfo.empty info = false
  | None => GlyphInfo.empty info = true
  end /\
  FontAtlas.readyCalls fa2 = 1%nat /\
  FontAtlas.hasPendingWork fa2 = false.
Proof.
  intros fa2 glyph info.
  apply (generated_glyph_is_cached requestA demoAtlas fa2 glyph
           (loadFont LATIN_CODEPOINTS (FontAtlas.msdf demoAtlas)));
    vm_compute; reflexivity.
Defined.

(** prefabLatin twice on the demo atlas. *)
Lemma prefabLatin_again_changes_nothing_witness :
  let fa' := (FontAtlas.prefabLatin "p" 32 LATIN_CODEPOINTS None demoAtlas).2 in
  FontAtlas.prefabLatin "p" 32 [] None fa' = (Ok tt, fa').
Proof.
  intros fa'.
  apply (prefabLatin_again_changes_nothing "p" 32 LATIN_CODEPOINTS [] None None
           demoAtlas fa').
  vm_compute. reflexivity.
Defined.

(** prefabLatin on a generator that has no font loaded. *)
Lemma prefabLatin_consults_the_loaded_font_witness :
  exists fa',
    FontAtlas.prefabLatin "p" 32 LATIN_CODEPOINTS None noFontAtlas = (Ok tt, fa') /\
    FontAtlas.msdf fa' = FontAtlas.msdf noFontAtlas /\
    forall cp fontBuffer axes',
      cp ∈ LATIN_CODEPOINTS ->
      let info := (FontAtlas.getGlyph
                     (GlyphRequest.mk cp "p" fontBuffer axes' 32) fa').1 in
      GlyphInfo.cached info = true /\ GlyphInfo.missing info = true /\
      GlyphInfo.empty info = true.
Proof.
  apply (prefabLatin_consults_the_loaded_font "p" 32 LATIN_CODEPOINTS None noFontAtlas).
  - reflexivity.
  - intros cp _. reflexivity.
Defined.

(** One pixel with four channels. *)
Lemma floatToRGBA_bytes_witness :
  let out := FontAtlas.floatToRGBA onePixel 1 1 in
  length out = 4%nat /\
  Forall (fun b => 0 <= b <= 255) out /\
  (Z.of_nat (length onePixel) = 4 * (1 * 1) ->
     out = (fun q => toByte (Some q)) <$> onePixel) /\
  (Z.of_nat (length onePixel) <> 4 * (1 * 1) ->
     forall i, 0 <= i < 1 * 1 ->
       Uint8Array_get out (i * 4 + 3) = 255 /\
       forall k, 0 <= k < 3 ->
         Uint8Array_get out (i * 4 + k) = toByte (onePixel !! Z.to_nat (i * 3 + k))).
Proof.
  apply (floatToRGBA_bytes onePixel 1 1). reflexivity.
Defined.

(** The letter A on the demo atlas, requested after it was generated. *)
Lemma uvs_are_within_the_page_witness :
  let fa := after [CallGetGlyph requestA; Tick] demoAtlas in
  let uv := GlyphInfo.uvs (FontAtlas.getGlyph requestA fa).1 in
  unitNumber (UVs.u0 uv) /\ unitNumber (UVs.v0 uv) /\
  unitNumber (UVs.u1 uv) /\ unitNumber (UVs.v1 uv) /\
  numberLe (UVs.u0 uv) (UVs.u1 uv) /\ numberLe (UVs.v0 uv) (UVs.v1 uv).
Proof.
  apply (uvs_are_within_the_page {| loaded := Some LATIN_CODEPOINTS |}
           freshBackend true (Some demoConfig)
           [CallGetGlyph requestA; Tick] requestA).
  - reflexivity.
  - intros cp r font axes g0 g1 gl.
    unfold FontAtlas.generateGlyph. simpl.
    destruct axes as [[|a l]|]; destruct (cp =? 32); try discriminate;
      intros [= <- _]; simpl; lia.
Defined.

(** The letter A on the demo atlas: the drain after the request. *)
Lemma completed_drain_uploads_everything_witness :
  let fa := (FontAtlas.getGlyph requestA demoAtlas).2 in
  Forall (fun a => VariantAtlas.hasDirtyPages a.2 = false)
         (FontAtlas.atlases (FontAtlas.processBatch fa).2).
Proof.
  intros fa.
  apply (completed_drain_uploads_everything fa (FontAtlas.processBatch fa).2).
  - vm_compute. discriminate.
  - vm_compute. reflexivity.
Defined.

(** Three glyphs on two workers. *)
Lemma pool_loses_no_task_witness :
  let s := runPool poolRun (readyPool twoWorkers) in
  seq 0 (WorkerPool.promises s)
  ≡ₚ (WorkerPool.resolved s).*1 ++ activePromises s
     ++ (WorkerPool.resolve <$> WorkerPool.taskQueue s) /\
  NoDup (WorkerPool.resolved s).*1 /\
  NoDup (WorkerPool.available s) /\
  (forall w, w ∈ WorkerPool.available s -> WorkerPool.workerTasks s !! w = None).
Proof.
  apply (pool_loses_no_task twoWorkers poolRun).
  - apply (bool_decide_unpack _). vm_compute. exact I.
  - vm_compute. reflexivity.
Defined.

Lemma generateBatch_posts_then_queues_witness :
  let s := readyPool twoWorkers in
  let result := WorkerPool.generateBatch [65; 66; 67] 32 4 WorkerPool.mtsdf s in
  let message := fun c => WorkerPool.mkGenerate c 32 4 WorkerPool.mtsdf in
  result.1 = [0; 1; 2]%nat /\
  WorkerPool.available result.2 = [] /\
  WorkerPool.posted result.2 = [(1%nat, message 65); (0%nat, message 66)] /\
  messageOf <$> WorkerPool.taskQueue result.2 = [message 67] /\
  WorkerPool.resolve <$> WorkerPool.taskQueue result.2 = [2%nat].
Proof.
  apply (generateBatch_posts_then_queues [65; 66; 67] 32 4 WorkerPool.mtsdf
           (readyPool twoWorkers)).
  reflexivity.
Defined.
